(* ===== verification/_CoqProject ===== *)
-Q . S2P
Prelude.v
GoString.v
Codec.v
GoTime.v
Errors.v
Transport.v
Headers.v
Message.v
Retry.v
Outcome.v
Handler.v
Auth.v
Replay.v
ReplaySpec.v
Receiver.v
Standard.v
Sender.v
Cli.v
Testkit.v
Heap.v
Copies.v
Stripe.v
Github.v
ReplayWindow.v
Apps.v
PgText.v
PgTextFacts.v
PgSchema.v
PgModel.v
PgOutbound.v
PgInbound.v
PgCleanup.v
PgSpec.v
PgRefine.v
PgProps.v
PgOutbox.v
PgInbox.v
PgOutboxProps.v
PgLease.v
PgCleanupProps.v
PgMigrate.v
PgRuntime.v
PgRuntimeProps.v
PgSettle.v
PgInboxProps.v
PgHeartbeat.v
PgPool.v
PgExamples.v
PgRuntimeExamples.v
