(* ===== verification/Prelude.v ===== *)
(** * Hookbound, verified

    A model of the webhook runtime under src/ in Gallina, with the properties that
    make it correct.  The program has four parts.  The library at the root of src/
    sends webhooks (sender.go) and receives them (receiver.go) over the shared
    vocabulary of messages, errors, retry policies and authenticators; standard/ and
    provider/ sign and verify; transport/ decides where a sender may connect;
    postgres/ keeps an outbox and an inbox in a database and runs workers over them.
    cmd/hookbound is a command line tool over standard/, testkit/ helps tests, and
    examples/ holds a sending and a receiving program.

    ** How the code is modelled

    A Go function that returns a value and an error is a function into [result]; the
    error values and their chains are [Errors.error].  Early returns are [reject] and
    [of_option] in the monad of [result].  An int64 is a [Z] whose arithmetic wraps
    with [wrap64] where the code can overflow; instants are nanoseconds (GoTime).
    Strings and byte slices are Stdlib strings of bytes, with the parts of strings,
    unicode/utf8, strconv, encoding/hex, base64 and crypto/sha256 that the code uses
    written as functions (GoString, Codec); SHA-256 and HMAC are executable.  A header
    is a finite map, and code that ranges over one is parametrised by the order
    (class [Headers.HeaderOrder]).  Interfaces are records of functions or function
    types; [None] is a nil interface.  What is called with a receiver's request - its
    clock, verifier, guard and handler - acts on a world and so takes time; an
    authenticator is given the whole outgoing request.  Definitions keep the names of the
    source.

    ** Files

    - Prelude: results, machine integers, automation.  GoString, Codec, GoTime: the
      standard library's text, encodings, hashes and time.
    - Errors (errors.go), Headers and Message (message.go, id.go, net/http headers),
      Retry (retry.go), Outcome (outcome.go), Handler (handler.go), Auth (auth.go).
    - Replay (replay.go): the memory replay guard; its critical sections are functions,
      the request goroutines a step relation [sys_step] over them.  ReplaySpec: a
      reference for the guard without channels or lazy sweeps.
    - Receiver (receiver.go, signing.go): the inbound pipeline [ServeHTTP] over a world
      that verifier, handler, guard and clock act on, panics included.
    - Transport (transport/policy.go): policies, URL checks, address classification,
      resolution, dialling.
    - Standard (standard/standard.go), Stripe, Github (provider/): keys, signatures,
      verifiers.
    - Sender (sender.go): one attempt; its result holds the requests given to the HTTP
      client.
    - ReplayWindow: a receiver, a fresh verifier (class [FreshVerifier]) that takes its
      time, and the memory guard, over the receiver's whole life.
    - Cli (cmd/hookbound/main.go), Testkit (testkit/); Apps (examples/): the two
      programs, composed of the sender, the receiver, the registry and the guard.
    - Heap: slices and maps by reference, with classes for what a value refers to
      ([Shared]) and for what copies it ([Clone]); Copies: the copying functions of
      Standard, Message and Testkit on that heap.
    - PgText, PgTextFacts, PgSchema: the audit text, the state transitions, the schema
      names and query text of postgres/store.go, models.go and schema.go.
    - PgModel: the four tables, the session's world, faults, and the state-and-error
      monad [M]; PgOutbound and PgInbound (store.go), PgCleanup (cleanup.go): one
      definition per SQL statement and per operation, statement by statement.
    - PgSpec: the abstract machine of the tables, which is a specification and not a
      translation: its steps labelled with the event they are for ([table_step],
      [db_step]), and their invariant [db_wf].  PgRefine: every operation refines it.
      PgProps (with [session_on], the operations of concurrent sessions), PgOutbox,
      PgOutboxProps, PgInbox, PgInboxProps, PgCleanupProps: what the operations
      guarantee.  PgLease: what other sessions can and cannot do to a claim.
    - PgMigrate (postgres/migrate.go): the migration runner over its ledger, and what a
      run amounts to in terms of the files' names and texts alone ([applied_once]).
    - PgRuntime (postgres/runtime.go): configuration and the rounds of the workers;
      PgHeartbeat: the goroutine that renews a lease, and [Stop], as a step relation;
      PgRuntimeProps: what a round guarantees; PgSettle: what enough rounds achieve;
      PgPool: [Run] with its loops, its wait group and its context, as a step relation.
    - PgExamples, PgRuntimeExamples: concrete runs, findings and witnesses.

    The sender of a round is Sender's; the message a worker sends is the one PgOutbound
    stored; the receiver's guard is the interface [Receiver.ReplayGuard], which
    Replay's guard implements ([Receiver.memory_guard]).

    ** What the theorems show

    - Signatures: an accepted message was signed with a trusted key, in time, over its
      exact identifier, timestamp and body (Standard, Stripe, Github); what is signed
      is accepted (Standard, Sender, Cli); keys survive their text form.
    - Receiving: success is answered only after the handler succeeded or for a known
      duplicate; a request leaves no claim behind; claims are exclusive, waiters are
      woken, the guard's size is bounded and its answers are those of its reference; a
      body is read up to its limit and no more.  Over a receiver's life no message is
      handled twice, when the replay TTL is longer than twice the verifier's tolerance
      and the time a verification may take; requests are served one after the other there,
      and interleaved in Replay.
    - Sending: one attempt makes at most one request, to a permitted address, with a
      bounded response; the repository's authenticators set one header and nothing else,
      while another may change the request in any way, after the URL was checked; retries
      and Retry-After stay in bounds.
    - The outbox: publication is atomic and idempotent; a claim takes the first due
      delivery; one worker owns it, until its lease ends whatever the others do; a stale
      worker changes nothing; the owner's
      completion is recorded; publications are immutable and final states final; every
      operation refines the abstract machine and keeps the invariant, whichever calls
      fail and whatever other sessions commit in between.
    - The inbox: an acknowledged message is stored with its content, once; an inbound
      round calls the handler once, for the receipt it claimed, with that content.
    - The workers: a round makes at most one request for the one delivery it claimed
      and records the result of that request; what a receiver with a shared key
      accepts from a round is the message published; the heartbeat's interleavings
      amount to a sequence of renewals that ends before the completion, and stopping it
      always ends; [Run] starts one loop per configured worker and returns after
      them, unless a round never does; a delivery settles within the attempts its policy
      allows.
    - The example programs log an invoice that is sent once, and delivered twice, once.
    - Copies: a test endpoint whose requests and responses cross its border as copies
      keeps them whatever their holders do to theirs, and so behaves as the definitions
      on values do; so do static keys and the messages of a handler.
    - Retention removes only what has expired; migrations are applied once, in order
      and whole; schema names cannot escape their quotes.

    ** Parameters

    Code outside the repository is an argument: url.Parse, netip.ParseAddr and
    Addr.String, the resolver and the dialer, encoding/json, ed25519, http.ParseTime,
    strconv.Quote, the readers of flags.Int64 and flags.Duration, the HTTP client, the
    entropy, the clocks, and what a DDL statement does to a database.  PostgreSQL's
    reading of the statements is written out in PgModel, PgOutbound, PgInbound and
    PgCleanup as functions on the tables; an [env] decides which calls fail, before or
    after taking effect, what other sessions commit between two statements, which rows
    they hold locked, and how a timestamp is rounded.

    ** Bounds and fuel

    Three functions take fuel.  [GoString.format_digits] is given twenty digits, and the
    round trip [ParseInt_FormatInt] shows that these are enough for an int64;
    [Codec.sha_blocks] is given the number of words of the padded message, of which
    each block takes sixteen; [PgText.drop_invalid_tail] the bytes of its text, of which
    each turn drops one.  All other recursion is structural.  The rounds of a worker loop and the
    ticks of a heartbeat are arguments, and the theorems hold for all of them.

    ** Not modelled

    The logger and what it prints; contexts, apart from the calls they make fail and the loops they end; the
    JSON text the tool prints and the flag package's diagnostics; the HTTP servers of
    net/http and httptest, whose requests are arguments; signals, timeouts and exit
    codes of the example programs; the DDL of postgres/migrations, except for the
    constraints that PgModel's tables carry.

    A statement of a session reads and writes the tables at one instant.  In PostgreSQL
    it reads a snapshot and locks rows later: for [PgCleanup.purge_messages] this hides
    that a delivery committed in between for an old message would go with the message, by
    ON DELETE CASCADE (a finding of the manifest).  Between the statements of one
    transaction other sessions commit where the model says [others]: in
    [PgOutbound.ClaimDelivery] and [PgOutbound.CompleteDelivery] before the first
    statement that locks the delivery's row, since from then on the lock keeps other
    writers from it until the end of the transaction; that two sessions wait for each
    other's locks and one of them is aborted is a failing call of the model.  Outside Heap and Copies, a copy of a slice
    or a map is the identity on values: the theorems of Copies say why that is enough
    where callers keep references. *)

From Stdlib Require Export Ascii ZArith Lia.
From stdpp Require Export base gmap strings list fin_maps sorting.
Open Scope Z_scope.

(** * Results: the pair (value, error) a Go function returns, seen as a sum *)

Inductive result (E A : Type) : Type :=
| Ok (a : A)
| Err (e : E).
Arguments Ok {E A} a.
Arguments Err {E A} e.

#[export] Instance result_ret {E} : MRet (result E) := λ A a, Ok a.
#[export] Instance result_bind {E} : MBind (result E) := λ A B f m,
  match m with Ok a => f a | Err e => Err e end.
#[export] Instance result_fmap {E} : FMap (result E) := λ A B f m,
  match m with Ok a => Ok (f a) | Err e => Err e end.

Declare Scope go_scope.
Delimit Scope go_scope with go.

(** [if cond { return err }], the early return of a Go function. *)
Definition reject {E} (cond : bool) (e : E) : result E unit :=
  if cond then Err e else Ok tt.

(** [v, err := f(); if err != nil { return wrap(err) }]. *)
Definition map_err {E F A} (f : E → F) (m : result E A) : result F A :=
  match m with Ok a => Ok a | Err e => Err (f e) end.

Definition of_option {E A} (e : E) (o : option A) : result E A :=
  match o with Some a => Ok a | None => Err e end.

Definition is_ok {E A} (m : result E A) : bool :=
  match m with Ok _ => true | Err _ => false end.

Fixpoint mapM_result {E A B} (f : A → result E B) (l : list A) : result E (list B) :=
  match l with
  | [] => Ok []
  | x :: l' => y ← f x; ys ← mapM_result f l'; Ok (y :: ys)
  end.

(** The error a Go function of the shape [func(...) error] returns: [nil] is [Ok tt]. *)
Definition go_error (E : Type) : Type := result E unit.

(** * Machine integers: Go's int and int64 are 64-bit two's complement *)

Definition int64_min : Z := - 2 ^ 63.
Definition int64_max : Z := 2 ^ 63 - 1.
Definition wrap64 (z : Z) : Z := (z + 2 ^ 63) mod 2 ^ 64 - 2 ^ 63.
Definition in_int64 (z : Z) : Prop := int64_min ≤ z ≤ int64_max.
#[export] Instance in_int64_dec z : Decision (in_int64 z).
Proof. unfold in_int64. apply _. Defined.

(** * Lemmas *)

(** A goal that is a matter of constructors once the cases are split. *)
Ltac destruct_exists :=
  match goal with H : ∃ _, _ |- _ => destruct H as [? H] end.
Ltac solve_cases :=
  split; intros; repeat (destruct_and? || destruct_or? || destruct_exists || simplify_eq);
  try done; eauto 6.

Section result_lemmas.
Context {E A B : Type}.

Lemma bind_Ok (m : result E A) (f : A → result E B) (b : B) :
  m ≫= f = Ok b ↔ ∃ a, m = Ok a ∧ f a = Ok b.
Proof. destruct m; simpl; solve_cases. Qed.

Lemma bind_Err (m : result E A) (f : A → result E B) (e : E) :
  m ≫= f = Err e ↔ m = Err e ∨ ∃ a, m = Ok a ∧ f a = Err e.
Proof. destruct m; simpl; solve_cases. Qed.

Lemma reject_Ok (c : bool) (e : E) (u : unit) : reject c e = Ok u ↔ c = false.
Proof. destruct c, u; simpl; solve_cases. Qed.

Lemma reject_Err (c : bool) (e e' : E) : reject c e = Err e' ↔ c = true ∧ e = e'.
Proof. destruct c; simpl; solve_cases. Qed.

Lemma map_err_Ok {F} (f : E → F) (m : result E A) (a : A) :
  map_err f m = Ok a ↔ m = Ok a.
Proof. destruct m; simpl; solve_cases. Qed.

Lemma of_option_Ok (e : E) (o : option A) (a : A) : of_option e o = Ok a ↔ o = Some a.
Proof. destruct o; simpl; solve_cases. Qed.

Lemma of_option_Err (e e' : E) (o : option A) :
  of_option e o = Err e' ↔ o = None ∧ e = e'.
Proof. destruct o; simpl; solve_cases. Qed.

End result_lemmas.

Lemma mapM_result_Ok {E A B} (f : A → result E B) l k :
  mapM_result f l = Ok k ↔ Forall2 (λ x y, f x = Ok y) l k.
Proof.
  split.
  - revert k. induction l as [|x l IH]; simpl; intros k Hk.
    + simplify_eq. constructor.
    + apply bind_Ok in Hk as (y & Hy & Hk). apply bind_Ok in Hk as (ys & Hys & Hk).
      simplify_eq. constructor; [done|]. by apply IH.
  - induction 1 as [|x y l k Hx _ IH]; simpl; [done|]. rewrite Hx. simpl. by rewrite IH.
Qed.

Lemma wrap64_range z : in_int64 (wrap64 z).
Proof. unfold in_int64, wrap64, int64_min, int64_max. pose proof (Z.mod_pos_bound (z + 2 ^ 63) (2 ^ 64)). lia. Qed.

Lemma wrap64_id z : in_int64 z → wrap64 z = z.
Proof. unfold in_int64, wrap64, int64_min, int64_max. intros. rewrite Z.mod_small; lia. Qed.

(** * Automation *)

(** Break a hypothesis about a sequence of early returns into the conditions
    that let the function go on. *)
Ltac go_inv1 :=
  match goal with
  | H : mbind _ _ = Ok _ |- _ =>
      let x := fresh "x" in let Hx := fresh "Hx" in
      apply bind_Ok in H as (x & Hx & H); match type of x with unit => destruct x | _ => idtac end
  | H : reject _ _ = Ok _ |- _ => apply reject_Ok in H
  | H : map_err _ _ = Ok _ |- _ => apply map_err_Ok in H
  | H : of_option _ _ = Ok _ |- _ => apply of_option_Ok in H
  | H : Ok _ = Ok _ |- _ => injection H as H; subst
  | H : Err _ = Ok _ |- _ => discriminate H
  | H : Ok _ = Err _ |- _ => discriminate H
  | H : orb _ _ = false |- _ => apply orb_false_iff in H as [? ?]
  | H : andb _ _ = true |- _ => apply andb_true_iff in H as [? ?]
  | H : negb _ = false |- _ => apply negb_false_iff in H
  | H : negb _ = true |- _ => apply negb_true_iff in H
  end.
Ltac go_inv := repeat go_inv1.

Create HintDb go.
Create Rewrite HintDb go.
#[export] Hint Rewrite @bind_Ok @reject_Ok @map_err_Ok @of_option_Ok : go.
#[export] Hint Resolve wrap64_range : go.

(** Split the boolean comparisons of a goal and leave the arithmetic to [lia]. *)
Ltac zcase1 :=
  match goal with
  | |- context [?a <? ?b] => destruct (Z.ltb_spec a b)
  | |- context [?a <=? ?b] => destruct (Z.leb_spec a b)
  | |- context [?a =? ?b] => destruct (Z.eqb_spec a b)
  end; cbn [andb orb negb].
Ltac zcase := repeat (zcase1; try lia).

(** Follow an error back to the statement that returned it. *)
Ltac go_err1 :=
  match goal with
  | H : mbind _ _ = Err _ |- _ =>
      let x := fresh "x" in let Hx := fresh "Hx" in
      apply bind_Err in H as [H|(x & Hx & H)];
      try match type of x with unit => destruct x | _ => idtac end
  | H : reject _ _ = Err _ |- _ =>
      let Hc := fresh "Hc" in apply reject_Err in H as [Hc H]; subst
  | H : of_option _ _ = Err _ |- _ =>
      let Hc := fresh "Hc" in apply of_option_Err in H as [Hc H]; subst
  | H : Ok _ = Err _ |- _ => discriminate H
  | H : Err _ = Err _ |- _ => injection H as H; subst
  end.
Ltac go_err := repeat go_err1.
