(* ===== verification/GoString.v ===== *)
(** Go strings and byte slices, and the functions of packages [strings],
    [strconv], [unicode] and [unicode/utf8] that Hookbound calls.

    A Go [string] or [[]byte] is a sequence of bytes, modelled by [string]
    (a list of 8-bit [ascii]); [len] counts bytes.  [range] over a string and
    the space-trimming functions work on runes, so the UTF-8 decoder of
    [unicode/utf8] is written out with its treatment of invalid bytes. *)

From S2P Require Import Prelude.

Abbreviation byte := ascii.
Notation "'ε'" := EmptyString : go_scope.
Open Scope go_scope.

(** * Bytes *)

Definition ord (c : byte) : Z := Z.of_N (N_of_ascii c).
Definition chr (z : Z) : byte := ascii_of_N (Z.to_N z).

(** [len(s)] *)
Definition slen (s : string) : Z := Z.of_nat (String.length s).

Fixpoint str_exists (p : byte → bool) (s : string) : bool :=
  match s with
  | EmptyString => false
  | String c s' => p c || str_exists p s'
  end.

Fixpoint str_forall (p : byte → bool) (s : string) : bool :=
  match s with
  | EmptyString => true
  | String c s' => p c && str_forall p s'
  end.

Fixpoint str_take (n : nat) (s : string) : string :=
  match n, s with
  | S n', String c s' => String c (str_take n' s')
  | _, _ => EmptyString
  end.

Fixpoint str_drop (n : nat) (s : string) : string :=
  match n, s with
  | S n', String _ s' => str_drop n' s'
  | _, _ => s
  end.

Fixpoint str_rev_app (s acc : string) : string :=
  match s with
  | EmptyString => acc
  | String c s' => str_rev_app s' (String c acc)
  end.
Definition str_rev (s : string) : string := str_rev_app s ε.

Fixpoint str_map (f : byte → byte) (s : string) : string :=
  match s with
  | EmptyString => EmptyString
  | String c s' => String (f c) (str_map f s')
  end.

(** [bytes.Equal] and [==] on strings. *)
Definition str_eqb (s t : string) : bool := bool_decide (s = t).

(** [strings.ContainsRune(s, r)] for an ASCII [r], [strings.ContainsAny] for an
    ASCII set: in a valid or invalid string an ASCII byte is always that rune. *)
Definition contains_byte (r : byte) (s : string) : bool :=
  str_exists (λ c, bool_decide (c = r)) s.
Definition contains_any (set s : string) : bool :=
  str_exists (λ c, contains_byte c set) s.

Definition CR : byte := chr 13.
Definition LF : byte := chr 10.
Definition NUL : byte := chr 0.
(** The cut set of [strings.ContainsAny(x, "\r\n\x00")]. *)
Definition crlfnul : string := String CR (String LF (String NUL ε)).

(** * UTF-8: [utf8.DecodeRuneInString] *)

Definition RuneError : Z := 65533.

Definition cont (c : byte) (lo hi : Z) : bool := (lo <=? ord c) && (ord c <=? hi).

(** The rune and the number of bytes it takes; an invalid encoding is
    ([RuneError], 1), and the empty string ([RuneError], 0). *)
Definition decode_rune (s : string) : Z * nat :=
  match s with
  | EmptyString => (RuneError, 0%nat)
  | String c0 s1 =>
      let b0 := ord c0 in
      if b0 <? 128 then (b0, 1%nat)
      else match s1 with
      | EmptyString => (RuneError, 1%nat)
      | String c1 s2 =>
          if (194 <=? b0) && (b0 <=? 223) then
            if cont c1 128 191 then ((b0 - 192) * 64 + (ord c1 - 128), 2%nat)
            else (RuneError, 1%nat)
          else match s2 with
          | EmptyString => (RuneError, 1%nat)
          | String c2 s3 =>
              if (224 <=? b0) && (b0 <=? 239) then
                let lo := if b0 =? 224 then 160 else 128 in
                let hi := if b0 =? 237 then 159 else 191 in
                if cont c1 lo hi && cont c2 128 191
                then ((b0 - 224) * 4096 + (ord c1 - 128) * 64 + (ord c2 - 128), 3%nat)
                else (RuneError, 1%nat)
              else match s3 with
              | EmptyString => (RuneError, 1%nat)
              | String c3 _ =>
                  if (240 <=? b0) && (b0 <=? 244) then
                    let lo := if b0 =? 240 then 144 else 128 in
                    let hi := if b0 =? 244 then 143 else 191 in
                    if cont c1 lo hi && cont c2 128 191 && cont c3 128 191
                    then ((b0 - 240) * 262144 + (ord c1 - 128) * 4096
                          + (ord c2 - 128) * 64 + (ord c3 - 128), 4%nat)
                    else (RuneError, 1%nat)
                  else (RuneError, 1%nat)
              end
          end
      end
  end.

(** The runes of [for _, r := range s], each with its width; [skip] counts the
    bytes of the current rune still to pass. *)
Fixpoint runes_from (skip : nat) (s : string) : list (Z * nat) :=
  match s with
  | EmptyString => []
  | String _ s' =>
      match skip with
      | S k => runes_from k s'
      | O => let '(r, n) := decode_rune s in (r, n) :: runes_from (Nat.pred n) s'
      end
  end.
Definition runes (s : string) : list (Z * nat) := runes_from 0 s.

(** [utf8.ValidString] *)
Definition valid_utf8 (s : string) : bool :=
  forallb (λ '(r, n), negb ((r =? RuneError) && (Nat.eqb n 1))) (runes s).

(** [utf8.RuneStart] *)
Definition rune_start (c : byte) : bool := negb (cont c 128 191).

(** [utf8.DecodeLastRuneInString], on the reversed string. *)
Definition decode_last_rune (rs : string) : Z * nat :=
  let try (s : string) (k : nat) :=
    let '(r, n) := decode_rune s in if Nat.eqb n k then (r, k) else (RuneError, 1%nat) in
  match rs with
  | EmptyString => (RuneError, 0%nat)
  | String c0 r1 =>
      if ord c0 <? 128 then (ord c0, 1%nat)
      else match r1 with
      | EmptyString => (RuneError, 1%nat)
      | String c1 r2 =>
          if rune_start c1 then try (String c1 (String c0 ε)) 2%nat
          else match r2 with
          | EmptyString => (RuneError, 1%nat)
          | String c2 r3 =>
              if rune_start c2 then try (String c2 (String c1 (String c0 ε))) 3%nat
              else match r3 with
              | EmptyString => (RuneError, 1%nat)
              | String c3 _ =>
                  if rune_start c3
                  then try (String c3 (String c2 (String c1 (String c0 ε)))) 4%nat
                  else (RuneError, 1%nat)
              end
          end
      end
  end.

(** [unicode.IsSpace] *)
Definition is_space (r : Z) : bool :=
  ((9 <=? r) && (r <=? 13)) || (r =? 32) || (r =? 133) || (r =? 160) || (r =? 5760)
  || ((8192 <=? r) && (r <=? 8202)) || (r =? 8232) || (r =? 8233) || (r =? 8239)
  || (r =? 8287) || (r =? 12288).

(** * [strings.TrimSpace] *)

Fixpoint trim_left_from (skip : nat) (s : string) : string :=
  match s with
  | EmptyString => EmptyString
  | String _ s' =>
      match skip with
      | S k => trim_left_from k s'
      | O => let '(r, n) := decode_rune s in
             if is_space r then trim_left_from (Nat.pred n) s' else s
      end
  end.

(** On the reversed string: drop the trailing space runes. *)
Fixpoint trim_right_from (skip : nat) (rs : string) : string :=
  match rs with
  | EmptyString => EmptyString
  | String _ rs' =>
      match skip with
      | S k => trim_right_from k rs'
      | O => let '(r, n) := decode_last_rune rs in
             if is_space r then trim_right_from (Nat.pred n) rs' else rs
      end
  end.

Definition TrimSpace (s : string) : string :=
  str_rev (trim_right_from 0 (str_rev (trim_left_from 0 s))).

(** * Prefixes and separators *)

Fixpoint has_prefix (p s : string) : bool :=
  match p, s with
  | EmptyString, _ => true
  | String a p', String b s' => bool_decide (a = b) && has_prefix p' s'
  | _, _ => false
  end.

(** [strings.HasSuffix] *)
Definition has_suffix (suffix s : string) : bool := has_prefix (str_rev suffix) (str_rev s).

(** [strings.TrimPrefix] and [strings.CutPrefix]. *)
Definition TrimPrefix (s p : string) : string :=
  if has_prefix p s then str_drop (String.length p) s else s.
Definition CutPrefix (s p : string) : option string :=
  if has_prefix p s then Some (str_drop (String.length p) s) else None.

(** [strings.Cut(s, sep)] for a one-byte separator: [None] is [found = false]. *)
Fixpoint Cut (sep : byte) (s : string) : option (string * string) :=
  match s with
  | EmptyString => None
  | String c s' =>
      if bool_decide (c = sep) then Some (ε, s')
      else match Cut sep s' with
           | Some (before, after) => Some (String c before, after)
           | None => None
           end
  end.

(** [strings.Split(s, sep)] for a one-byte separator. *)
Fixpoint Split (sep : byte) (s : string) : list string :=
  match s with
  | EmptyString => [ε]
  | String c s' =>
      if bool_decide (c = sep) then ε :: Split sep s'
      else match Split sep s' with
           | [] => [String c ε]
           | f :: fs => String c f :: fs
           end
  end.

(** [strings.Join] *)
Fixpoint Join (sep : string) (l : list string) : string :=
  match l with
  | [] => ε
  | [x] => x
  | x :: l' => x +:+ sep +:+ Join sep l'
  end.

(** [strings.Fields]: the maximal runs of non-space runes.  [cur] is the
    current field, reversed; a rune's bytes all go the way its first byte goes. *)
Definition flush (cur : string) (fs : list string) : list string :=
  match cur with EmptyString => fs | _ => str_rev cur :: fs end.

Fixpoint fields_from (skip : nat) (cur : string) (s : string) : list string :=
  match s with
  | EmptyString => flush cur []
  | String c s' =>
      match skip with
      | S k => fields_from k (match cur with EmptyString => ε | _ => String c cur end) s'
      | O => let '(r, n) := decode_rune s in
             if is_space r then flush cur (fields_from (Nat.pred n) ε s')
             else fields_from (Nat.pred n) (String c cur) s'
      end
  end.
Definition Fields (s : string) : list string := fields_from 0 ε s.

(** * ASCII case *)

Definition lower_byte (c : byte) : byte :=
  if (65 <=? ord c) && (ord c <=? 90) then chr (ord c + 32) else c.
Definition upper_byte (c : byte) : byte :=
  if (97 <=? ord c) && (ord c <=? 122) then chr (ord c - 32) else c.
(** [strings.ToLower] on ASCII text. *)
Definition lower_ascii (s : string) : string := str_map lower_byte s.

(** * Decimal numbers: [strconv] *)

Definition is_digit (c : byte) : bool := (48 <=? ord c) && (ord c <=? 57).

(** The value of a string of decimal digits read after [acc]. *)
Fixpoint parse_digits (acc : Z) (s : string) : option Z :=
  match s with
  | EmptyString => Some acc
  | String c s' =>
      if is_digit c then parse_digits (acc * 10 + (ord c - 48)) s' else None
  end.

(** [strconv.ParseUint(s, 10, bits)]: syntax and range errors are [None]. *)
Definition ParseUint (bits : Z) (s : string) : option Z :=
  match s with
  | EmptyString => None
  | _ => match parse_digits 0 s with
         | Some n => if n <? 2 ^ bits then Some n else None
         | None => None
         end
  end.

(** [strconv.ParseInt(s, 10, 64)] *)
Definition ParseInt (s : string) : option Z :=
  let signed (neg : bool) (t : string) :=
    match t with
    | EmptyString => None
    | _ => match parse_digits 0 t with
           | Some n =>
               if neg then (if n <=? 2 ^ 63 then Some (- n) else None)
               else (if n <? 2 ^ 63 then Some n else None)
           | None => None
           end
    end in
  match s with
  | EmptyString => None
  | String c s' =>
      if ord c =? 45 then signed true s'
      else if ord c =? 43 then signed false s'
      else signed false s
  end.

Definition digit (n : Z) : byte := chr (48 + n).

Fixpoint format_digits (fuel : nat) (n : Z) (acc : string) : string :=
  match fuel with
  | O => acc
  | S f => let acc' := String (digit (n mod 10)) acc in
           if n <? 10 then acc' else format_digits f (n / 10) acc'
  end.

(** [strconv.FormatInt(n, 10)]: twenty digits are enough for an int64. *)
Definition FormatInt (n : Z) : string :=
  if n <? 0 then String (chr 45) (format_digits 20 (- n) ε)
  else format_digits 20 n ε.

(** A byte of printable, non-space ASCII: neither trimmed nor split at. *)
Definition plain (c : byte) : bool := (33 <=? ord c) && (ord c <=? 126).

(** * Lemmas *)

(** ** Bytes *)

Lemma str_eqb_true s t : str_eqb s t = true ↔ s = t.
Proof. apply bool_decide_eq_true. Qed.
Lemma str_eqb_false s t : str_eqb s t = false ↔ s ≠ t.
Proof. apply bool_decide_eq_false. Qed.

Lemma ord_range c : 0 ≤ ord c < 256.
Proof. unfold ord. pose proof (N_ascii_bounded c). lia. Qed.

Lemma chr_ord c : chr (ord c) = c.
Proof. unfold chr, ord. rewrite N2Z.id. apply ascii_N_embedding. Qed.

Lemma ord_chr z : 0 ≤ z < 256 → ord (chr z) = z.
Proof. intros. unfold chr, ord. rewrite N_ascii_embedding; lia. Qed.

#[export] Instance ord_inj : Inj (=) (=) ord.
Proof. intros a b H. by rewrite <-(chr_ord a), <-(chr_ord b), H. Qed.

(** ** Appending *)

Lemma app_cons c s t : String c s +:+ t = String c (s +:+ t).
Proof. reflexivity. Qed.

Lemma app_ε_l s : ε +:+ s = s.
Proof. reflexivity. Qed.

Lemma app_ε_r s : s +:+ ε = s.
Proof. induction s; [done|]. rewrite app_cons. by f_equal. Qed.

Lemma str_app_assoc s t u : (s +:+ t) +:+ u = s +:+ t +:+ u.
Proof. induction s; [done|]. rewrite !app_cons. by f_equal. Qed.

Lemma length_str_app s t : String.length (s +:+ t) = (String.length s + String.length t)%nat.
Proof. induction s; [done|]. rewrite app_cons. simpl. by f_equal. Qed.

Lemma slen_app s t : slen (s +:+ t) = slen s + slen t.
Proof. unfold slen. rewrite length_str_app. lia. Qed.

Lemma slen_cons c s : slen (String c s) = 1 + slen s.
Proof. unfold slen. simpl. lia. Qed.

Lemma slen_nonneg s : 0 ≤ slen s.
Proof. unfold slen. lia. Qed.

Lemma slen_take n s : slen (str_take n s) = Z.min (Z.of_nat n) (slen s).
Proof.
  revert n. induction s as [|c s IH]; intros [|n]; cbn [str_take]; rewrite ?slen_cons, ?IH;
    change (slen ε) with 0; pose proof slen_nonneg as Hs; try specialize (Hs s); lia.
Qed.

Lemma str_take_take n m s : (n ≤ m)%nat → str_take n (str_take m s) = str_take n s.
Proof.
  revert m s. induction n as [|n IH]; intros [|m] s Hn; try (by destruct s) || lia.
  destruct s as [|c s]; [done|]. simpl. by rewrite IH by lia.
Qed.

Lemma slen_0 s : slen s = 0 ↔ s = ε.
Proof. destruct s; unfold slen; simpl; split; intros; try done; lia. Qed.

Lemma str_forall_app p s t : str_forall p (s +:+ t) = str_forall p s && str_forall p t.
Proof. induction s; [done|]. rewrite app_cons. simpl. by rewrite IHs, andb_assoc. Qed.

Lemma str_exists_app p s t : str_exists p (s +:+ t) = str_exists p s || str_exists p t.
Proof. induction s; [done|]. rewrite app_cons. simpl. by rewrite IHs, orb_assoc. Qed.

Lemma str_exists_forall p s : str_exists p s = negb (str_forall (λ c, negb (p c)) s).
Proof. induction s; simpl; [done|]. rewrite IHs, negb_andb, negb_involutive. done. Qed.

Lemma str_forall_impl (p q : byte → bool) s :
  (∀ c, p c = true → q c = true) → str_forall p s = true → str_forall q s = true.
Proof. intros Hpq. induction s; simpl; [done|]. rewrite !andb_true_iff. naive_solver. Qed.

Lemma str_exists_false (p q : byte → bool) s :
  (∀ c, p c = true → q c = false) → str_forall p s = true → str_exists q s = false.
Proof.
  intros Hpq Hs. rewrite str_exists_forall. apply negb_false_iff.
  eapply str_forall_impl; [|done]. intros c Hc. by rewrite Hpq.
Qed.

(** ** Reversal *)

Lemma str_rev_app_app s t : str_rev_app s t = str_rev s +:+ t.
Proof.
  unfold str_rev. revert t.
  induction s as [|c s IH]; intros t; simpl; [done|].
  rewrite IH, (IH (String c ε)), str_app_assoc. done.
Qed.

Lemma str_rev_cons c s : str_rev (String c s) = str_rev s +:+ String c ε.
Proof. unfold str_rev at 1. simpl. apply str_rev_app_app. Qed.

Lemma str_rev_append s t : str_rev (s +:+ t) = str_rev t +:+ str_rev s.
Proof.
  induction s as [|c s IH].
  - rewrite app_ε_l. unfold str_rev at 3. simpl. by rewrite app_ε_r.
  - rewrite app_cons, !str_rev_cons, IH, str_app_assoc. done.
Qed.

Lemma str_rev_involutive s : str_rev (str_rev s) = s.
Proof. induction s as [|c s IH]; [done|]. rewrite str_rev_cons, str_rev_append, IH. done. Qed.

Lemma str_forall_rev p s : str_forall p (str_rev s) = str_forall p s.
Proof.
  induction s as [|c s IH]; [done|].
  rewrite str_rev_cons, str_forall_app, IH. simpl. rewrite andb_true_r. apply andb_comm.
Qed.

(** ** Trimming and splitting plain text *)

Lemma plain_spec c : plain c = true ↔ 33 ≤ ord c ≤ 126.
Proof. unfold plain. rewrite andb_true_iff, !Z.leb_le. lia. Qed.

Lemma plain_decode c s : plain c = true → decode_rune (String c s) = (ord c, 1%nat).
Proof.
  intros [_ H]%plain_spec. unfold decode_rune.
  destruct (ord c <? 128) eqn:E; [done|]. apply Z.ltb_ge in E. lia.
Qed.

Lemma plain_decode_last c s : plain c = true → decode_last_rune (String c s) = (ord c, 1%nat).
Proof.
  intros [_ H]%plain_spec. unfold decode_last_rune.
  destruct (ord c <? 128) eqn:E; [done|]. apply Z.ltb_ge in E. lia.
Qed.

Lemma plain_not_space c : plain c = true → is_space (ord c) = false.
Proof.
  intros H%plain_spec. unfold is_space.
  repeat (apply orb_false_iff; split);
    try (apply andb_false_iff; rewrite !Z.leb_gt); rewrite ?Z.eqb_neq; lia.
Qed.

Lemma trim_left_plain s : str_forall plain s = true → trim_left_from 0 s = s.
Proof.
  destruct s as [|c s]; [done|]. simpl str_forall. intros [Hc _]%andb_true_iff.
  cbn [trim_left_from]. rewrite plain_decode by done. by rewrite plain_not_space.
Qed.

Lemma trim_right_plain s : str_forall plain s = true → trim_right_from 0 s = s.
Proof.
  destruct s as [|c s]; [done|]. simpl str_forall. intros [Hc _]%andb_true_iff.
  cbn [trim_right_from]. rewrite plain_decode_last by done. by rewrite plain_not_space.
Qed.

Lemma TrimSpace_plain s : str_forall plain s = true → TrimSpace s = s.
Proof.
  intros Hs. unfold TrimSpace. rewrite trim_left_plain by done.
  rewrite trim_right_plain by (by rewrite str_forall_rev). apply str_rev_involutive.
Qed.

Lemma fields_plain t rest cur :
  str_forall plain t = true →
  fields_from 0 cur (t +:+ rest) = fields_from 0 (str_rev t +:+ cur) rest.
Proof.
  revert cur. induction t as [|c t IH]; intros cur; [done|].
  cbn [str_forall]. intros [Hc Ht]%andb_true_iff. rewrite app_cons. cbn [fields_from].
  rewrite plain_decode by done. rewrite plain_not_space by done. simpl Nat.pred.
  rewrite IH by done. by rewrite str_rev_cons, str_app_assoc.
Qed.

(** A field as a signature list holds it: non-empty and plain. *)
Definition token (s : string) : Prop := s ≠ ε ∧ str_forall plain s = true.

Lemma flush_token s fs : s ≠ ε → flush (str_rev s +:+ ε) fs = s :: fs.
Proof.
  intros Hs. unfold flush. rewrite app_ε_r.
  destruct (str_rev s) as [|c r] eqn:E.
  - exfalso. apply Hs. by rewrite <-(str_rev_involutive s), E.
  - by rewrite <-E, str_rev_involutive.
Qed.

Lemma Fields_Join l : Forall token l → Fields (Join " " l) = l.
Proof.
  unfold Fields. induction 1 as [|s l [Hne Hp] Hl IH]; [done|].
  destruct l as [|s' l].
  - simpl Join. rewrite <-(app_ε_r s) at 1. rewrite fields_plain by done.
    cbn [fields_from]. by apply flush_token.
  - change (Join " " (s :: s' :: l)) with (s +:+ " " +:+ Join " " (s' :: l)).
    rewrite fields_plain by done. rewrite app_cons. cbn [fields_from].
    change (decode_rune _) with (32, 1%nat). cbv beta iota.
    change (is_space 32) with true. cbv iota. rewrite flush_token by done.
    rewrite app_ε_l. cbn [Nat.pred]. by rewrite IH.
Qed.

(** ** Cutting *)

Lemma has_prefix_app p s : has_prefix p (p +:+ s) = true.
Proof. induction p; [done|]. rewrite app_cons. simpl. by rewrite bool_decide_true. Qed.

Lemma str_drop_app p s : str_drop (String.length p) (p +:+ s) = s.
Proof. induction p; [done|]. rewrite app_cons. simpl. done. Qed.

Lemma TrimPrefix_app p s : TrimPrefix (p +:+ s) p = s.
Proof. unfold TrimPrefix. by rewrite has_prefix_app, str_drop_app. Qed.

Lemma CutPrefix_Some s p t : CutPrefix s p = Some t ↔ s = p +:+ t.
Proof.
  unfold CutPrefix. revert s. induction p as [|a p IH]; intros s; simpl.
  - rewrite app_ε_l. naive_solver.
  - rewrite app_cons. destruct s as [|b s]; simpl; [naive_solver|].
    case_bool_decide; simpl; [subst; rewrite IH; naive_solver|naive_solver].
Qed.

Lemma Cut_Some sep s a b :
  Cut sep s = Some (a, b) ↔ s = a +:+ String sep b ∧ contains_byte sep a = false.
Proof.
  revert a b. induction s as [|c s IH]; intros a b; simpl.
  - split; [done|]. intros [H _]. destruct a; discriminate H.
  - case_bool_decide as Hc.
    + subst. split; [naive_solver|]. intros [H Ha]. destruct a as [|c' a].
      { rewrite app_ε_l in H. by simplify_eq. }
      rewrite app_cons in H. simplify_eq. cbn in Ha. by rewrite bool_decide_true in Ha.
    + destruct (Cut sep s) as [[x y]|] eqn:E.
      * pose proof (proj1 (IH x y) eq_refl) as [-> Hx]. split.
        { intros. simplify_eq. split; [done|]. cbn. by rewrite bool_decide_false. }
        { intros [H Ha]. destruct a as [|c' a]; [rewrite app_ε_l in H; congruence|].
          rewrite app_cons in H. injection H as <- H. cbn in Ha.
          apply orb_false_iff in Ha as [_ Ha].
          assert (Some (x, y) = Some (a, b)) by (apply IH; done). by simplify_eq. }
      * split; [done|]. intros [H Ha]. destruct a as [|c' a].
        { rewrite app_ε_l in H. congruence. }
        rewrite app_cons in H. injection H as <- H. cbn in Ha.
        apply orb_false_iff in Ha as [_ Ha].
        assert (None = Some (a, b)) by (apply IH; done). done.
Qed.

Lemma Split_app sep a s :
  contains_byte sep a = false → Split sep (a +:+ String sep s) = a :: Split sep s.
Proof.
  induction a as [|c a IH]; intros H.
  - rewrite app_ε_l. cbn. by rewrite bool_decide_true.
  - cbn in H. apply orb_false_iff in H as [Hc Ha]. rewrite app_cons. cbn [Split].
    rewrite bool_decide_false by (intros ->; by rewrite bool_decide_true in Hc).
    by rewrite (IH Ha).
Qed.

Lemma Split_none sep a : contains_byte sep a = false → Split sep a = [a].
Proof.
  induction a as [|c a IH]; intros H; [done|].
  cbn in H. apply orb_false_iff in H as [Hc Ha]. cbn [Split].
  rewrite bool_decide_false by (intros ->; by rewrite bool_decide_true in Hc).
  by rewrite (IH Ha).
Qed.

Lemma Split_Join sep l :
  l ≠ [] → Forall (λ x, contains_byte sep x = false) l → Split sep (Join (String sep ε) l) = l.
Proof.
  intros Hne H. induction H as [|x l Hx Hl IH]; [done|]. destruct l as [|y l].
  - simpl. by apply Split_none.
  - change (Join (String sep ε) (x :: y :: l)) with (x +:+ String sep ε +:+ Join (String sep ε) (y :: l)).
    rewrite app_cons, app_ε_l, Split_app by done. by rewrite IH.
Qed.

(** The text before the first separator and the text after it are determined. *)
Lemma app_sep_inj sep a b a' b' :
  contains_byte sep a = false → contains_byte sep a' = false →
  a +:+ String sep b = a' +:+ String sep b' → a = a' ∧ b = b'.
Proof.
  intros Ha Ha' H.
  assert (Cut sep (a +:+ String sep b) = Some (a, b)) as H1 by (by apply Cut_Some).
  assert (Cut sep (a' +:+ String sep b') = Some (a', b')) as H2 by (by apply Cut_Some).
  rewrite H in H1. naive_solver.
Qed.

(** ** Numbers *)

Lemma digit_is_digit n : 0 ≤ n < 10 → is_digit (digit n) = true ∧ ord (digit n) - 48 = n.
Proof.
  intros. unfold is_digit, digit. rewrite ord_chr by lia.
  rewrite andb_true_iff, !Z.leb_le. lia.
Qed.

Lemma parse_format_digits f n acc :
  0 ≤ n < 10 ^ Z.of_nat f →
  parse_digits 0 (format_digits f n acc) = parse_digits n acc.
Proof.
  revert n acc. induction f as [|f IH]; intros n acc Hn.
  - simpl in *. by replace n with 0 by lia.
  - rewrite Nat2Z.inj_succ, Z.pow_succ_r in Hn by lia.
    pose proof (Z.mod_pos_bound n 10 ltac:(lia)) as Hmod.
    pose proof (Z.div_mod n 10 ltac:(lia)) as Hdm.
    destruct (digit_is_digit (n mod 10) Hmod) as [Hd1 Hd2].
    cbn [format_digits]. destruct (n <? 10) eqn:E.
    + apply Z.ltb_lt in E. cbn [parse_digits]. rewrite Hd1, Hd2.
      f_equal. rewrite Z.mod_small; lia.
    + rewrite IH by (split; [apply Z.div_pos; lia|apply Z.div_lt_upper_bound; lia]).
      cbn [parse_digits]. rewrite Hd1, Hd2. f_equal. lia.
Qed.

Lemma format_digits_plain f n acc :
  0 ≤ n → str_forall is_digit acc = true → str_forall is_digit (format_digits f n acc) = true.
Proof.
  revert n acc. induction f as [|f IH]; intros n acc Hn Hacc; [done|].
  pose proof (Z.mod_pos_bound n 10 ltac:(lia)) as Hmod.
  destruct (digit_is_digit (n mod 10) Hmod) as [Hd1 Hd2].
  cbn [format_digits]. destruct (n <? 10); [cbn; by rewrite Hd1|].
  apply IH; [apply Z.div_pos; lia|]. cbn. by rewrite Hd1.
Qed.

Lemma format_digits_cons f n acc :
  0 ≤ n → ∃ c s, format_digits (S f) n acc = String c s ∧ is_digit c = true.
Proof.
  revert n acc. induction f as [|f IH]; intros n acc Hn;
    pose proof (Z.mod_pos_bound n 10 ltac:(lia)) as Hmod;
    destruct (digit_is_digit (n mod 10) Hmod) as [Hd1 Hd2].
  - simpl. destruct (n <? 10); eauto.
  - cbn [format_digits]. destruct (n <? 10); [eauto|].
    apply IH. apply Z.div_pos; lia.
Qed.

Lemma is_digit_ord c : is_digit c = true → 48 ≤ ord c ≤ 57.
Proof. unfold is_digit. rewrite andb_true_iff, !Z.leb_le. lia. Qed.

Lemma ParseInt_FormatInt n : in_int64 n → ParseInt (FormatInt n) = Some n.
Proof.
  unfold in_int64, int64_min, int64_max. intros Hn.
  assert (10 ^ Z.of_nat 20 = 100000000000000000000) as E20 by reflexivity.
  unfold FormatInt. destruct (n <? 0) eqn:E.
  - apply Z.ltb_lt in E. unfold ParseInt. rewrite ord_chr by lia. cbn [Z.eqb Pos.eqb].
    destruct (format_digits_cons 19 (- n) ε ltac:(lia)) as (c & s & Hf & _).
    rewrite Hf, <-Hf. rewrite parse_format_digits by lia. cbn [parse_digits].
    destruct (- n <=? 2 ^ 63) eqn:E2; [f_equal; lia|]. apply Z.leb_gt in E2. lia.
  - apply Z.ltb_ge in E. unfold ParseInt.
    destruct (format_digits_cons 19 n ε ltac:(lia)) as (c & s & Hf & Hc%is_digit_ord).
    rewrite Hf.
    destruct (ord c =? 45) eqn:E45; [apply Z.eqb_eq in E45; lia|].
    destruct (ord c =? 43) eqn:E43; [apply Z.eqb_eq in E43; lia|].
    rewrite <-Hf. rewrite parse_format_digits by lia. cbn [parse_digits].
    destruct (n <? 2 ^ 63) eqn:E2; [done|]. apply Z.ltb_ge in E2. lia.
Qed.

(** A formatted number holds digits and a minus sign only. *)
Definition num_byte (c : byte) : bool := is_digit c || (ord c =? 45).

Lemma FormatInt_num n : str_forall num_byte (FormatInt n) = true ∧ FormatInt n ≠ ε.
Proof.
  unfold FormatInt. destruct (n <? 0) eqn:E.
  - apply Z.ltb_lt in E. split; [|done]. cbn [str_forall].
    unfold num_byte at 1. rewrite ord_chr by lia. cbn.
    eapply str_forall_impl; [|by apply (format_digits_plain 20 (- n) ε); [lia|]].
    intros c Hc. unfold num_byte. by rewrite Hc.
  - apply Z.ltb_ge in E.
    destruct (format_digits_cons 19 n ε E) as (c & s & Hf & _). split; [|by rewrite Hf].
    eapply str_forall_impl; [|by apply (format_digits_plain 20 n ε)].
    intros c' Hc'. unfold num_byte. by rewrite Hc'.
Qed.

Lemma num_byte_plain c : num_byte c = true → plain c = true.
Proof.
  unfold num_byte. intros [H%is_digit_ord|H%Z.eqb_eq]%orb_true_iff; apply plain_spec; lia.
Qed.

(** Accepted numerals hold digits and a sign, so no dot. *)
Lemma parse_digits_digits acc s n : parse_digits acc s = Some n → str_forall is_digit s = true.
Proof.
  revert acc. induction s as [|c s IH]; intros acc; simpl; [done|].
  destruct (is_digit c); [|done]. apply IH.
Qed.

Lemma ParseInt_no_byte s n b :
  ParseInt s = Some n → (ord b < 43 ∨ 45 < ord b < 48 ∨ 57 < ord b ∨ ord b = 44) →
  contains_byte b s = false.
Proof.
  intros H Hb.
  assert (∀ t m, parse_digits 0 t = Some m → contains_byte b t = false) as Hd.
  { intros t m Ht. eapply str_exists_false; [|by eapply parse_digits_digits].
    intros c Hc%is_digit_ord. apply bool_decide_false. intros ->. lia. }
  destruct s as [|c s]; [done|]. unfold ParseInt in H.
  assert (∀ t, t = s → ord c ≠ ord b → contains_byte b t = false →
          contains_byte b (String c s) = false) as Hcons.
  { intros t -> Hcb Ht. cbn. rewrite bool_decide_false by congruence. exact Ht. }
  destruct (ord c =? 45) eqn:E45; [|destruct (ord c =? 43) eqn:E43].
  - apply Z.eqb_eq in E45. apply (Hcons s eq_refl); [lia|].
    destruct s; [done|]. case_match eqn:Ep; [by eapply Hd|done].
  - apply Z.eqb_eq in E43. apply (Hcons s eq_refl); [lia|].
    destruct s; [done|]. case_match eqn:Ep; [by eapply Hd|done].
  - case_match eqn:Ep; [by eapply Hd|done].
Qed.

#[export] Hint Rewrite app_cons app_ε_l str_app_assoc str_forall_app : go.
#[export] Hint Resolve ord_range slen_nonneg : go.

Lemma parse_digits_lower acc s n : 0 ≤ acc → parse_digits acc s = Some n → 0 ≤ n.
Proof.
  revert acc. induction s as [|c s IH]; intros acc Ha H; cbn in H; [by simplify_eq|].
  destruct (is_digit c) eqn:Hc; [|done]. apply is_digit_ord in Hc. eapply IH; [|exact H]. lia.
Qed.

Lemma ParseInt_range s n : ParseInt s = Some n → in_int64 n.
Proof.
  assert (∀ (neg : bool) t,
    match t with
    | EmptyString => None
    | _ => match parse_digits 0 t with
           | Some n =>
               if neg then (if n <=? 2 ^ 63 then Some (- n) else None)
               else (if n <? 2 ^ 63 then Some n else None)
           | None => None
           end
    end = Some n → in_int64 n) as Hs.
  { intros neg t H. destruct t as [|c t]; [done|].
    destruct (parse_digits 0 (String c t)) as [m|] eqn:Em; [|done].
    apply parse_digits_lower in Em; [|done]. unfold in_int64, int64_min, int64_max.
    destruct neg; revert H; zcase; intros; simplify_eq; lia. }
  unfold ParseInt. destruct s as [|c s]; [done|].
  destruct (ord c =? 45); [apply (Hs true)|].
  destruct (ord c =? 43); [apply (Hs false)|exact (Hs false (String c s))].
Qed.

(** ** What a numeral denotes, digit by digit *)

Definition digits_text (ds : list Z) : string := foldr (λ d t, String (chr (48 + d)) t) ε ds.
Definition digits_value (acc : Z) (ds : list Z) : Z := foldl (λ a d, 10 * a + d) acc ds.

(** [s] is a numeral for [n]. *)
Definition numeral (s : string) (n : Z) : Prop :=
  ∃ ds, Forall (λ d, 0 ≤ d ≤ 9) ds ∧ s = digits_text ds ∧ n = digits_value 0 ds.

Lemma parse_digits_numeral acc s n :
  parse_digits acc s = Some n ↔
  ∃ ds, Forall (λ d, 0 ≤ d ≤ 9) ds ∧ s = digits_text ds ∧ n = digits_value acc ds.
Proof.
  split.
  - revert acc. induction s as [|c s IH]; intros acc H; simpl in H.
    + simplify_eq. by exists [].
    + destruct (is_digit c) eqn:Hc; [|done]. apply is_digit_ord in Hc.
      destruct (IH _ H) as (ds & Hds & -> & ->). exists ((ord c - 48) :: ds).
      split_and!; [constructor; [lia|done]| |].
      * cbn. replace (48 + (ord c - 48)) with (ord c) by lia. by rewrite chr_ord.
      * cbn. f_equal. lia.
  - intros (ds & Hds & -> & ->). revert acc. induction Hds as [|d ds Hd _ IH]; intros acc; cbn; [done|].
    destruct (digit_is_digit d ltac:(lia)) as [H1 H2]. unfold digit in *. rewrite H1, H2, IH.
    unfold digits_value. f_equal. f_equal. lia.
Qed.

Lemma ParseUint_numeral bits s n :
  ParseUint bits s = Some n ↔ s ≠ ε ∧ numeral s n ∧ n < 2 ^ bits.
Proof.
  unfold ParseUint, numeral. destruct s as [|c s]; [split; [done|by intros [? _]]|].
  rewrite <-parse_digits_numeral.
  destruct (parse_digits 0 (String c s)) as [m|]; [|split; [done|by intros (_ & ? & _)]].
  destruct (Z.ltb_spec m (2 ^ bits)); split; try done.
  - by intros [= ->].
  - by intros (_ & [= ->] & _).
  - intros (_ & [= ->] & ?). lia.
Qed.
