(* ===== verification/Codec.v ===== *)
(** The encodings and the hash of Go's standard library that Hookbound uses:
    [encoding/base64], [encoding/base32], [encoding/hex], [crypto/sha256] and
    [crypto/hmac], executable, with the round trips the signature formats rest on. *)

From S2P Require Import Prelude GoString.

(** * base64 *)

Definition b64_char (url : bool) (i : Z) : byte :=
  if i <? 26 then chr (65 + i)
  else if i <? 52 then chr (97 + (i - 26))
  else if i <? 62 then chr (48 + (i - 52))
  else if i =? 62 then (if url then chr 45 else chr 43)
  else (if url then chr 95 else chr 47).

Definition b64_value (url : bool) (c : byte) : option Z :=
  let o := ord c in
  if (65 <=? o) && (o <=? 90) then Some (o - 65)
  else if (97 <=? o) && (o <=? 122) then Some (o - 97 + 26)
  else if (48 <=? o) && (o <=? 57) then Some (o - 48 + 52)
  else if o =? (if url then 45 else 43) then Some 62
  else if o =? (if url then 95 else 47) then Some 63
  else None.

(** An [*base64.Encoding]: the URL alphabet or the standard one, padded or raw. *)
Record b64_encoding := B64 { b64_url : bool; b64_pad : bool }.
Definition StdEncoding := B64 false true.
Definition RawStdEncoding := B64 false false.
Definition URLEncoding := B64 true true.
Definition RawURLEncoding := B64 true false.

Definition pad_char : byte := chr 61.

(** [EncodeToString] *)
Fixpoint b64_encode (e : b64_encoding) (s : string) : string :=
  let ch := b64_char (b64_url e) in
  match s with
  | EmptyString => ε
  | String a EmptyString =>
      let v := ord a * 65536 in
      String (ch (v / 262144)) (String (ch (v / 4096 mod 64))
        (if b64_pad e then String pad_char (String pad_char ε) else ε))
  | String a (String b EmptyString) =>
      let v := ord a * 65536 + ord b * 256 in
      String (ch (v / 262144)) (String (ch (v / 4096 mod 64)) (String (ch (v / 64 mod 64))
        (if b64_pad e then String pad_char ε else ε)))
  | String a (String b (String c s')) =>
      let v := ord a * 65536 + ord b * 256 + ord c in
      String (ch (v / 262144)) (String (ch (v / 4096 mod 64)) (String (ch (v / 64 mod 64))
        (String (ch (v mod 64)) (b64_encode e s'))))
  end.

(** [DecodeString] skips every carriage return and line feed. *)
Fixpoint strip_newlines (s : string) : string :=
  match s with
  | EmptyString => ε
  | String c s' =>
      if (ord c =? 10) || (ord c =? 13) then strip_newlines s' else String c (strip_newlines s')
  end.

(** [decodeQuantum] repeated: four symbols give three bytes; the last quantum may
    be short (raw encodings) or padded (padded ones); trailing bits are dropped. *)
Fixpoint b64_quanta (e : b64_encoding) (s : string) : option string :=
  let val := b64_value (b64_url e) in
  match s with
  | EmptyString => Some ε
  | String c0 EmptyString => None
  | String c0 (String c1 EmptyString) =>
      i0 ← val c0; i1 ← val c1;
      if b64_pad e then None
      else let v := i0 * 262144 + i1 * 4096 in Some (String (chr (v / 65536)) ε)
  | String c0 (String c1 (String c2 s3)) =>
      i0 ← val c0; i1 ← val c1;
      match val c2 with
      | None =>
          let v := i0 * 262144 + i1 * 4096 in
          if b64_pad e && bool_decide (c2 = pad_char) && bool_decide (s3 = String pad_char ε)
          then Some (String (chr (v / 65536)) ε) else None
      | Some i2 =>
          let v := i0 * 262144 + i1 * 4096 + i2 * 64 in
          let two := Some (String (chr (v / 65536)) (String (chr (v / 256 mod 256)) ε)) in
          match s3 with
          | EmptyString => if b64_pad e then None else two
          | String c3 s4 =>
              match val c3 with
              | None =>
                  if b64_pad e && bool_decide (c3 = pad_char) && bool_decide (s4 = ε)
                  then two else None
              | Some i3 =>
                  let w := v + i3 in
                  rest ← b64_quanta e s4;
                  Some (String (chr (w / 65536))
                    (String (chr (w / 256 mod 256)) (String (chr (w mod 256)) rest)))
              end
          end
      end
  end.

Definition b64_decode (e : b64_encoding) (s : string) : option string :=
  b64_quanta e (strip_newlines s).

(** * base32 without padding *)

Definition b32_char (i : Z) : byte :=
  if i <? 26 then chr (65 + i) else chr (50 + (i - 26)).

(** The [n] most significant 5-bit groups of a 40-bit quantum. *)
Fixpoint b32_groups (n : nat) (v : Z) (rest : string) : string :=
  match n with
  | O => rest
  | S n' => String (b32_char (v / 34359738368 mod 32)) (b32_groups n' (v * 32) rest)
  end.

Fixpoint b32_encode (s : string) : string :=
  match s with
  | EmptyString => ε
  | String a EmptyString => b32_groups 2 (ord a * 4294967296) ε
  | String a (String b EmptyString) =>
      b32_groups 4 (ord a * 4294967296 + ord b * 16777216) ε
  | String a (String b (String c EmptyString)) =>
      b32_groups 5 (ord a * 4294967296 + ord b * 16777216 + ord c * 65536) ε
  | String a (String b (String c (String d EmptyString))) =>
      b32_groups 7 (ord a * 4294967296 + ord b * 16777216 + ord c * 65536 + ord d * 256) ε
  | String a (String b (String c (String d (String f s')))) =>
      b32_groups 8 (ord a * 4294967296 + ord b * 16777216 + ord c * 65536 + ord d * 256 + ord f)
        (b32_encode s')
  end.

(** * hex *)

Definition hex_value (c : byte) : option Z :=
  let o := ord c in
  if (48 <=? o) && (o <=? 57) then Some (o - 48)
  else if (97 <=? o) && (o <=? 102) then Some (o - 87)
  else if (65 <=? o) && (o <=? 70) then Some (o - 55)
  else None.

(** [hex.DecodeString]: an odd length and a bad digit are errors. *)
Fixpoint hex_decode (s : string) : option string :=
  match s with
  | EmptyString => Some ε
  | String _ EmptyString => None
  | String a (String b s') =>
      x ← hex_value a; y ← hex_value b; rest ← hex_decode s';
      Some (String (chr (x * 16 + y)) rest)
  end.

Definition hex_char (i : Z) : byte := if i <? 10 then chr (48 + i) else chr (87 + i).

(** [hex.EncodeToString] *)
Fixpoint hex_encode (s : string) : string :=
  match s with
  | EmptyString => ε
  | String a s' =>
      String (hex_char (ord a / 16)) (String (hex_char (ord a mod 16)) (hex_encode s'))
  end.

(** * SHA-256 (FIPS 180-4) and HMAC (RFC 2104) *)

Definition w32 (z : Z) : Z := z mod 2 ^ 32.
Definition rotr (n x : Z) : Z := Z.lor (Z.shiftr x n) (w32 (Z.shiftl x (32 - n))).

Definition sha_k : list Z :=
  [1116352408; 1899447441; 3049323471; 3921009573; 961987163; 1508970993; 2453635748; 2870763221;
   3624381080; 310598401; 607225278; 1426881987; 1925078388; 2162078206; 2614888103; 3248222580;
   3835390401; 4022224774; 264347078; 604807628; 770255983; 1249150122; 1555081692; 1996064986;
   2554220882; 2821834349; 2952996808; 3210313671; 3336571891; 3584528711; 113926993; 338241895;
   666307205; 773529912; 1294757372; 1396182291; 1695183700; 1986661051; 2177026350; 2456956037;
   2730485921; 2820302411; 3259730800; 3345764771; 3516065817; 3600352804; 4094571909; 275423344;
   430227734; 506948616; 659060556; 883997877; 958139571; 1322822218; 1537002063; 1747873779;
   1955562222; 2024104815; 2227730452; 2361852424; 2428436474; 2756734187; 3204031479; 3329325298].

Definition sha_init : list Z :=
  [1779033703; 3144134277; 1013904242; 2773480762; 1359893119; 2600822924; 528734635; 1541459225].

Definition nth_word (l : list Z) (i : nat) : Z := nth i l 0.

(** The message schedule, latest word first. *)
Fixpoint sha_schedule (n : nat) (rev_w : list Z) : list Z :=
  match n with
  | O => rev_w
  | S n' =>
      let w15 := nth_word rev_w 14 in
      let w2 := nth_word rev_w 1 in
      let s0 := Z.lxor (Z.lxor (rotr 7 w15) (rotr 18 w15)) (Z.shiftr w15 3) in
      let s1 := Z.lxor (Z.lxor (rotr 17 w2) (rotr 19 w2)) (Z.shiftr w2 10) in
      sha_schedule n' (w32 (nth_word rev_w 15 + s0 + nth_word rev_w 6 + s1) :: rev_w)
  end.

Definition sha_round (st : list Z) (kw : Z * Z) : list Z :=
  match st with
  | [a; b; c; d; e; f; g; h] =>
      let s1 := Z.lxor (Z.lxor (rotr 6 e) (rotr 11 e)) (rotr 25 e) in
      let ch := Z.lxor (Z.land e f) (Z.land (Z.lxor e (2 ^ 32 - 1)) g) in
      let t1 := w32 (h + s1 + ch + kw.1 + kw.2) in
      let s0 := Z.lxor (Z.lxor (rotr 2 a) (rotr 13 a)) (rotr 22 a) in
      let maj := Z.lxor (Z.lxor (Z.land a b) (Z.land a c)) (Z.land b c) in
      [w32 (t1 + s0 + maj); a; b; c; w32 (d + t1); e; f; g]
  | _ => st
  end.

Fixpoint words_of (s : string) : list Z :=
  match s with
  | String a (String b (String c (String d s'))) =>
      (ord a * 16777216 + ord b * 65536 + ord c * 256 + ord d) :: words_of s'
  | _ => []
  end.

Definition sha_block (st : list Z) (block : list Z) : list Z :=
  let w := rev (sha_schedule 48 (rev block)) in
  zip_with (λ x y, w32 (x + y)) st (foldl sha_round st (zip sha_k w)).

Fixpoint sha_blocks (fuel : nat) (st : list Z) (ws : list Z) : list Z :=
  match fuel, ws with
  | S f, _ :: _ => sha_blocks f (sha_block st (take 16 ws)) (drop 16 ws)
  | _, _ => st
  end.

Fixpoint str_repeat (n : nat) (c : byte) : string :=
  match n with O => ε | S n' => String c (str_repeat n' c) end.

Fixpoint be_bytes (n : nat) (z : Z) : string :=
  match n with
  | O => ε
  | S n' => be_bytes n' (z / 256) +:+ String (chr (z mod 256)) ε
  end.

(** Padding to whole 64-byte blocks: 0x80, zeros, the bit length in 8 bytes. *)
Definition sha_pad (s : string) : string :=
  let zeros := Z.to_nat ((55 - slen s) mod 64) in
  s +:+ String (chr 128) (str_repeat zeros NUL) +:+ be_bytes 8 (8 * slen s).

Definition digest_bytes (st : list Z) : string :=
  match st with
  | [a; b; c; d; e; f; g; h] =>
      be_bytes 4 a +:+ be_bytes 4 b +:+ be_bytes 4 c +:+ be_bytes 4 d +:+
      be_bytes 4 e +:+ be_bytes 4 f +:+ be_bytes 4 g +:+ be_bytes 4 h
  | _ => str_repeat 32 NUL
  end.

(** [sha256.Sum256] *)
Definition sha256 (s : string) : string :=
  let ws := words_of (sha_pad s) in digest_bytes (sha_blocks (length ws) sha_init ws).

Fixpoint xor_pad (n : nat) (x : Z) (key : string) : string :=
  match n with
  | O => ε
  | S n' =>
      match key with
      | EmptyString => String (chr x) (xor_pad n' x ε)
      | String c key' => String (chr (Z.lxor (ord c) x)) (xor_pad n' x key')
      end
  end.

(** [mac := hmac.New(sha256.New, key); mac.Write(content); mac.Sum(nil)] *)
Definition hmac_sha256 (key content : string) : string :=
  let k := if 64 <? slen key then sha256 key else key in
  sha256 (xor_pad 64 92 k +:+ sha256 (xor_pad 64 54 k +:+ content)).

(** [subtle.ConstantTimeCompare(x, y) == 1]: equal lengths and equal contents. *)
Definition constant_time_eq (x y : string) : bool := str_eqb x y.

(** * Lemmas *)

Lemma str_ind3 (P : string → Prop) :
  P ε → (∀ a, P (String a ε)) → (∀ a b, P (String a (String b ε))) →
  (∀ a b c s, P s → P (String a (String b (String c s)))) → ∀ s, P s.
Proof.
  intros H0 H1 H2 H3.
  refine (fix go s := _). destruct s as [|a s]; [done|]. destruct s as [|b s]; [done|].
  destruct s as [|c s]; [done|]. apply H3, go.
Qed.

Lemma b64_value_char url i : 0 ≤ i < 64 → b64_value url (b64_char url i) = Some i.
Proof.
  intros Hi. unfold b64_char. destruct url; zcase; unfold b64_value;
    rewrite !ord_chr by lia; zcase; f_equal; lia.
Qed.

Lemma b64_char_range url i :
  0 ≤ i < 64 → plain (b64_char url i) = true ∧ b64_char url i ≠ chr 44.
Proof.
  intros Hi. rewrite plain_spec. unfold b64_char.
  destruct url; zcase; rewrite !ord_chr by lia;
    (split; [lia|]); intros Heq%(f_equal ord); rewrite !ord_chr in Heq by lia; lia.
Qed.

(** The symbols of an encoding: neither newlines, spaces nor commas. *)
Definition b64_symbol (c : byte) : bool := plain c && negb (bool_decide (c = chr 44)).

Lemma b64_char_symbol url i : 0 ≤ i < 64 → b64_symbol (b64_char url i) = true.
Proof.
  intros [Hp Hc]%(b64_char_range url). unfold b64_symbol.
  by rewrite Hp, bool_decide_false.
Qed.

(** The four 6-bit groups of 24 bits are in range and give the bits back. *)
Lemma groups24 v : 0 ≤ v < 16777216 →
  0 ≤ v / 262144 < 64 ∧ 0 ≤ v / 4096 mod 64 < 64 ∧ 0 ≤ v / 64 mod 64 < 64 ∧
  0 ≤ v mod 64 < 64 ∧
  v / 262144 * 262144 + v / 4096 mod 64 * 4096 + v / 64 mod 64 * 64 + v mod 64 = v.
Proof. intros. Z.to_euclidean_division_equations. lia. Qed.

Lemma bytes24 a b c : 0 ≤ a < 256 → 0 ≤ b < 256 → 0 ≤ c < 256 →
  (a * 65536 + b * 256 + c) / 65536 = a ∧
  (a * 65536 + b * 256 + c) / 256 mod 256 = b ∧ (a * 65536 + b * 256 + c) mod 256 = c.
Proof. intros. Z.to_euclidean_division_equations. lia. Qed.

Lemma strip_newlines_id s : str_forall plain s = true → strip_newlines s = s.
Proof.
  induction s as [|c s IH]; [done|]. simpl. intros [Hc%plain_spec Hs]%andb_true_iff.
  rewrite IH by done. zcase; reflexivity.
Qed.

Ltac b64_bounds v :=
  let H := fresh "Hg" in
  pose proof (groups24 v ltac:(lia)) as H; destruct H as (? & ? & ? & ? & ?).

Lemma b64_encode_symbols e s : str_forall b64_symbol (b64_encode e s) = true.
Proof.
  assert (b64_symbol pad_char = true) as Hpad by reflexivity.
  induction s as [|a|a b|a b c s IH] using str_ind3; [done|..]; cbn [b64_encode str_forall].
  - pose proof (ord_range a). b64_bounds (ord a * 65536).
    rewrite !b64_char_symbol by lia. by destruct (b64_pad e).
  - pose proof (ord_range a). pose proof (ord_range b).
    b64_bounds (ord a * 65536 + ord b * 256).
    rewrite !b64_char_symbol by lia. by destruct (b64_pad e).
  - pose proof (ord_range a). pose proof (ord_range b). pose proof (ord_range c).
    b64_bounds (ord a * 65536 + ord b * 256 + ord c).
    rewrite !b64_char_symbol by lia. exact IH.
Qed.

Lemma b64_symbol_plain c : b64_symbol c = true → plain c = true.
Proof. unfold b64_symbol. by intros [? _]%andb_true_iff. Qed.

Lemma b64_encode_plain e s : str_forall plain (b64_encode e s) = true.
Proof. eapply str_forall_impl; [apply b64_symbol_plain|apply b64_encode_symbols]. Qed.

Lemma b64_pad_value e : b64_value (b64_url e) pad_char = None.
Proof. destruct e as [[] []]; reflexivity. Qed.

Lemma b64_decode_encode e s : b64_decode e (b64_encode e s) = Some s.
Proof.
  unfold b64_decode. rewrite strip_newlines_id by apply b64_encode_plain.
  induction s as [|a|a b|a b c s IH] using str_ind3; [done|..]; cbn [b64_encode].
  - pose proof (ord_range a). b64_bounds (ord a * 65536).
    pose proof (bytes24 (ord a) 0 0 ltac:(lia) ltac:(lia) ltac:(lia)) as (Ha & _ & _).
    assert (ord a * 65536 / 262144 * 262144 + ord a * 65536 / 4096 mod 64 * 4096
            = ord a * 65536) as Hv by (Z.to_euclidean_division_equations; lia).
    destruct (b64_pad e) eqn:Ep; cbn [b64_quanta]; rewrite !b64_value_char by lia;
      rewrite ?b64_pad_value, Ep; cbn; rewrite Hv;
      replace (ord a * 65536 / 65536) with (ord a)
        by (rewrite Z.div_mul by lia; done); by rewrite chr_ord.
  - pose proof (ord_range a). pose proof (ord_range b).
    b64_bounds (ord a * 65536 + ord b * 256).
    pose proof (bytes24 (ord a) (ord b) 0 ltac:(lia) ltac:(lia) ltac:(lia)) as (Ha & Hb & _).
    rewrite Z.add_0_r in Ha, Hb. set (v := ord a * 65536 + ord b * 256) in *.
    assert (v / 262144 * 262144 + v / 4096 mod 64 * 4096 + v / 64 mod 64 * 64 = v) as Hv
      by (subst v; Z.to_euclidean_division_equations; lia).
    destruct (b64_pad e) eqn:Ep; cbn [b64_quanta]; rewrite !b64_value_char by lia;
      rewrite ?b64_pad_value, Ep; cbn; rewrite Hv, Ha, Hb; by rewrite !chr_ord.
  - pose proof (ord_range a). pose proof (ord_range b). pose proof (ord_range c).
    pose proof (bytes24 (ord a) (ord b) (ord c) ltac:(lia) ltac:(lia) ltac:(lia)) as (Ha & Hb & Hc).
    b64_bounds (ord a * 65536 + ord b * 256 + ord c).
    set (v := ord a * 65536 + ord b * 256 + ord c) in *.
    cbn [b64_quanta]. rewrite !b64_value_char by lia. cbn. rewrite IH. cbn.
    match goal with H : _ = v |- _ => rewrite H end. rewrite Ha, Hb, Hc. by rewrite !chr_ord.
Qed.

Lemma b64_encode_length s : slen (b64_encode StdEncoding s) = (slen s + 2) / 3 * 4.
Proof.
  induction s as [|a|a b|a b c s IH] using str_ind3; [done..|].
  cbn [b64_encode]. rewrite !slen_cons, IH.
  replace (1 + (1 + (1 + slen s)) + 2) with (slen s + 2 + 1 * 3) by lia.
  rewrite Z.div_add by lia. lia.
Qed.

Lemma b64_encode_nonempty e s : s ≠ ε → b64_encode e s ≠ ε.
Proof. destruct s as [|? [|? [|]]]; done. Qed.

(** ** hex *)

Lemma hex_value_char i : 0 ≤ i < 16 → hex_value (hex_char i) = Some i.
Proof.
  intros Hi. unfold hex_char. zcase; unfold hex_value; rewrite !ord_chr by lia; zcase; f_equal; lia.
Qed.

Lemma hex_decode_encode s : hex_decode (hex_encode s) = Some s.
Proof.
  induction s as [|a s IH]; [done|]. pose proof (ord_range a).
  assert (0 ≤ ord a / 16 < 16 ∧ 0 ≤ ord a mod 16 < 16 ∧ ord a / 16 * 16 + ord a mod 16 = ord a)
    as (H1 & H2 & H3) by (Z.to_euclidean_division_equations; lia).
  cbn [hex_encode hex_decode]. rewrite !hex_value_char by lia. cbn. rewrite IH. cbn.
  by rewrite H3, chr_ord.
Qed.

Lemma hex_encode_symbols s : str_forall (λ c, b64_symbol c && negb (bool_decide (c = chr 61))) (hex_encode s) = true.
Proof.
  assert (∀ i, 0 ≤ i < 16 → b64_symbol (hex_char i) && negb (bool_decide (hex_char i = chr 61)) = true) as Hc.
  { intros i Hi. assert (forallb (λ i, b64_symbol (hex_char i) && negb (bool_decide (hex_char i = chr 61)))
      (seqZ 0 16) = true) as Hall by (vm_compute; reflexivity).
    eapply forallb_forall in Hall; [exact Hall|]. apply list_elem_of_In, elem_of_seqZ. lia. }
  induction s as [|c s IH]; [done|]. pose proof (ord_range c).
  cbn [hex_encode str_forall]. rewrite !Hc, IH; [done|..]; Z.to_euclidean_division_equations; lia.
Qed.

Lemma hex_encode_length s : slen (hex_encode s) = 2 * slen s.
Proof. induction s as [|a s IH]; [done|]. cbn [hex_encode]. rewrite !slen_cons, IH. lia. Qed.

(** ** base32 *)

Definition b32_symbol (c : byte) : bool :=
  ((65 <=? ord c) && (ord c <=? 90)) || ((50 <=? ord c) && (ord c <=? 55)).

Lemma b32_char_symbol i : 0 ≤ i < 32 → b32_symbol (b32_char i) = true.
Proof. intros Hi. unfold b32_char. zcase; unfold b32_symbol; rewrite !ord_chr by lia; zcase; done. Qed.

Lemma b32_groups_symbols n v rest :
  str_forall b32_symbol rest = true → str_forall b32_symbol (b32_groups n v rest) = true.
Proof.
  revert v. induction n as [|n IH]; intros v Hr; [done|]. cbn [b32_groups str_forall].
  rewrite b32_char_symbol by (apply Z.mod_pos_bound; lia). by apply IH.
Qed.

Lemma b32_groups_length n v rest :
  String.length (b32_groups n v rest) = (n + String.length rest)%nat.
Proof. revert v. induction n as [|n IH]; intros v; [done|]. simpl. by rewrite IH. Qed.

Lemma str_ind5 (P : string → Prop) :
  (∀ s, (String.length s < 5)%nat → P s) →
  (∀ a b c d f s, P s → P (String a (String b (String c (String d (String f s)))))) → ∀ s, P s.
Proof.
  intros Hs H5. refine (fix go s := _).
  destruct s as [|a [|b [|c [|d [|f s]]]]]; [apply Hs; simpl; lia..|]. apply H5, go.
Qed.

Lemma b32_encode_symbols s : str_forall b32_symbol (b32_encode s) = true.
Proof.
  induction s as [s Hs|a b c d f s IH] using str_ind5.
  - destruct s as [|a [|b [|c [|d [|f s]]]]]; [done|..|simpl in Hs; lia];
      cbn [b32_encode]; by apply b32_groups_symbols.
  - cbn [b32_encode]. by apply b32_groups_symbols.
Qed.

(** Sixteen bytes of entropy make twenty-six symbols. *)
Lemma b32_encode_16 s : String.length s = 16%nat → String.length (b32_encode s) = 26%nat.
Proof.
  intros H. do 16 (destruct s as [|? s]; [discriminate H|]). destruct s; [|discriminate H].
  cbn [b32_encode]. by rewrite !b32_groups_length.
Qed.

(** ** SHA-256 *)

Lemma be_bytes_length n z : slen (be_bytes n z) = Z.of_nat n.
Proof.
  revert z. induction n as [|n IH]; intros z; [done|]. cbn [be_bytes].
  rewrite slen_app, IH, slen_cons. change (slen ε) with 0. lia.
Qed.

Lemma sha256_length s : slen (sha256 s) = 32.
Proof.
  unfold sha256. generalize (sha_blocks (length (words_of (sha_pad s))) sha_init (words_of (sha_pad s))).
  intros st. unfold digest_bytes.
  do 8 (destruct st as [|? st]; [done|]). destruct st; [|done].
  rewrite !slen_app, !be_bytes_length. done.
Qed.

Lemma hmac_sha256_length key content : slen (hmac_sha256 key content) = 32.
Proof. unfold hmac_sha256. apply sha256_length. Qed.

Lemma constant_time_eq_true x y : constant_time_eq x y = true ↔ x = y.
Proof. unfold constant_time_eq, str_eqb. apply bool_decide_eq_true. Qed.

#[export] Hint Rewrite b64_decode_encode hex_decode_encode hmac_sha256_length : go.
