(* ===== verification/GoTime.v ===== *)
(** Package [time]: instants and durations at Go's ranges.

    A [time.Time] is its wall clock in nanoseconds since January 1 of year 1,
    UTC, so the zero time is 0 and [IsZero] a comparison; its seconds are an
    int64.  [Add] saturates the seconds and [Sub] saturates the duration, as the
    library does; [Unix] wraps.  Locations and monotonic readings are left out:
    the code compares instants that come from different clocks. *)

From S2P Require Import Prelude.

Definition time : Type := Z.
Definition duration : Type := Z.

Definition Nanosecond : duration := 1.
Definition Microsecond : duration := 1000.
Definition Millisecond : duration := 1000000.
Definition Second : duration := 1000000000.
Definition Minute : duration := 60 * Second.
Definition Hour : duration := 60 * Minute.

Definition zero_time : time := 0.
Definition IsZero (t : time) : bool := t =? 0.
Definition After (t u : time) : bool := u <? t.
Definition Before (t u : time) : bool := t <? u.

(** Seconds between year 1 and 1970. *)
Definition unix_to_internal : Z := 62135596800.

(** [time.Unix(sec, 0)] and [t.Unix()]. *)
Definition Unix (sec : Z) : time := wrap64 (sec + unix_to_internal) * Second.
Definition UnixSeconds (t : time) : Z := wrap64 (t / Second - unix_to_internal).

(** [t.Add(d)] *)
Definition Add (t : time) (d : duration) : time :=
  let u := t + d in
  let sec := u / Second in
  let nsec := u mod Second in
  if int64_max <? sec then int64_max * Second + nsec
  else if sec <? int64_min then (- int64_max) * Second + nsec
  else u.

(** [t.Sub(u)] *)
Definition Sub (t u : time) : duration :=
  if int64_max <? t - u then int64_max
  else if t - u <? int64_min then int64_min
  else t - u.

(** [hookbound.Clock] (src/clock.go): [C] is how an instant is read from what surrounds
    a component, and [system] the reading of [time.Now]. *)
Definition clockOrSystem {C : Type} (system : C) (clock : option C) : C :=
  match clock with None => system | Some c => c end.

(** An instant whose seconds fit an int64, as every [time.Time] does. *)
Definition time_ok (t : time) : Prop := in_int64 (t / Second).

(** * Lemmas *)

Lemma Add_exact t d : time_ok (t + d) → Add t d = t + d.
Proof.
  unfold time_ok, in_int64, Add. intros [H1 H2].
  destruct (Z.ltb_spec int64_max ((t + d) / Second)); [lia|].
  destruct (Z.ltb_spec ((t + d) / Second) int64_min); [lia|done].
Qed.

Lemma Add_ok t d : time_ok (Add t d).
Proof.
  unfold time_ok, in_int64, Add.
  pose proof (Z.mod_pos_bound (t + d) Second ltac:(unfold Second; lia)) as Hm.
  destruct (Z.ltb_spec int64_max ((t + d) / Second)) as [H1|H1];
    [|destruct (Z.ltb_spec ((t + d) / Second) int64_min) as [H2|H2]].
  - rewrite Z.div_add_l by (unfold Second; lia). rewrite (Z.div_small _ _ Hm).
    unfold int64_max, int64_min. lia.
  - rewrite Z.div_add_l by (unfold Second; lia). rewrite (Z.div_small _ _ Hm).
    unfold int64_max, int64_min. lia.
  - lia.
Qed.

(** A time far from the end of the int64 range: addition of a duration is exact. *)
Definition time_sane (t : time) : Prop := 0 ≤ t / Second ≤ 2 ^ 62.

Lemma time_sane_add t d :
  time_sane t → in_int64 d → Add t d = t + d.
Proof.
  unfold time_sane, in_int64. intros Ht Hd. apply Add_exact.
  unfold time_ok, in_int64, int64_min, int64_max, Second in *.
  pose proof (Z.div_mod t 1000000000 ltac:(lia)). pose proof (Z.mod_pos_bound t 1000000000 ltac:(lia)).
  split.
  - apply Z.div_le_lower_bound; lia.
  - apply Z.lt_succ_r. apply Z.div_lt_upper_bound; lia.
Qed.

Lemma Sub_le t u d : in_int64 d → 0 ≤ d < int64_max → (Sub t u ≤ d ↔ t - u ≤ d).
Proof.
  unfold Sub. intros _ Hd.
  destruct (Z.ltb_spec int64_max (t - u)); [lia|].
  destruct (Z.ltb_spec (t - u) int64_min); unfold int64_min in *; lia.
Qed.

Lemma UnixSeconds_Unix sec : in_int64 sec → UnixSeconds (Unix sec) = sec.
Proof.
  intros H. unfold UnixSeconds, Unix. rewrite Z.div_mul by (unfold Second; lia).
  unfold wrap64, in_int64, int64_min, int64_max, unix_to_internal in *.
  replace ((sec + 62135596800 + 2 ^ 63) mod 2 ^ 64 - 2 ^ 63 - 62135596800 + 2 ^ 63)
    with ((sec + 62135596800 + 2 ^ 63) mod 2 ^ 64 - 62135596800) by lia.
  rewrite Zminus_mod_idemp_l, Z.mod_small; lia.
Qed.

Lemma UnixSeconds_range t : in_int64 (UnixSeconds t).
Proof. apply wrap64_range. Qed.
