(* ===== verification/Errors.v ===== *)
(** src/errors.go: coded errors, and the error values of the standard library
    the code wraps, joins and inspects. *)

From S2P Require Import Prelude GoString.

(** [type Code string] *)
Definition Code : Type := string.

Definition CodeInvalidConfiguration : Code := "invalid_configuration".
Definition CodeInvalidMessage : Code := "invalid_message".
Definition CodeInvalidURL : Code := "invalid_url".
Definition CodeUnsafeDestination : Code := "unsafe_destination".
Definition CodeBodyTooLarge : Code := "body_too_large".
Definition CodeInvalidSignature : Code := "invalid_signature".
Definition CodeExpiredSignature : Code := "expired_signature".
Definition CodeReplay : Code := "replay".
Definition CodeUnknownEvent : Code := "unknown_event".
Definition CodeDecode : Code := "decode_failed".
Definition CodeHandler : Code := "handler_failed".
Definition CodeTransport : Code := "transport_failed".
Definition CodeResponseRead : Code := "response_read_failed".
Definition CodePersistence : Code := "persistence_failed".
Definition CodeConflict : Code := "conflict".
Definition CodeInternal : Code := "internal".

(** A non-nil [error] value: an [*Error], a [fmt.Errorf] value with its text and
    its %w operand, an [errors.Join] value, or a value with no chain (sentinels,
    driver errors, network errors), told apart by its text. *)
Inductive error : Type :=
| HookError (code : Code) (message : string) (cause : option error)
| WrapError (text : string) (cause : error)
| JoinError (causes : list error)
| PlainError (text : string).

Definition NewError (code : Code) (message : string) (cause : option error) : error :=
  HookError code message cause.

(** [var ErrIDGeneration] and [transport.ErrUnsafeDestination]. *)
Definition ErrIDGeneration : error := PlainError "hookbound: message id generation failed".
Definition ErrUnsafeDestination : error := PlainError "hookbound transport: unsafe destination".

(** [errors.As(err, &coded)] for a [*Error] target: the chain is walked depth
    first, an error before what it wraps. *)
Fixpoint as_coded (e : error) : option Code :=
  match e with
  | HookError c _ _ => Some c
  | WrapError _ e' => as_coded e'
  | JoinError es =>
      (fix go (l : list error) : option Code :=
         match l with
         | [] => None
         | e' :: l' => match as_coded e' with Some c => Some c | None => go l' end
         end) es
  | PlainError _ => None
  end.

(** [errors.Is(err, target)] for a sentinel with text [target]. *)
Fixpoint is_sentinel (target : string) (e : error) : bool :=
  match e with
  | HookError _ _ (Some e') => is_sentinel target e'
  | HookError _ _ None => false
  | WrapError _ e' => is_sentinel target e'
  | JoinError es =>
      (fix go (l : list error) : bool :=
         match l with [] => false | e' :: l' => is_sentinel target e' || go l' end) es
  | PlainError t => str_eqb t target
  end.

(** [ErrorCode(err)]; [None] is the nil error. *)
Definition ErrorCode (err : option error) : Code :=
  match err with
  | None => ε
  | Some e => match as_coded e with Some c => c | None => CodeInternal end
  end.

(** [(e *Error).Error()] and the texts of the other errors. *)
Fixpoint error_text (e : error) : string :=
  match e with
  | HookError c m None => "hookbound: " +:+ c +:+ ": " +:+ m
  | HookError c m (Some e') => "hookbound: " +:+ c +:+ ": " +:+ m +:+ ": " +:+ error_text e'
  | WrapError t _ => t
  | JoinError es => Join (String LF ε) (map error_text es)
  | PlainError t => t
  end.

(** [(e *Error).Unwrap()] *)
Definition Unwrap (e : error) : option error :=
  match e with HookError _ _ cause => cause | WrapError _ c => Some c | _ => None end.

(** A Go function returning [(A, error)]. *)
Abbreviation go A := (result error A).

(** [code] is one of the codes of a [switch] arm. *)
Definition one_of (code : Code) (codes : list Code) : bool := bool_decide (code ∈ codes).

(** The code of a failed call. *)
Definition err_code {A} (m : go A) : Code :=
  match m with Ok _ => ε | Err e => ErrorCode (Some e) end.

(** * Lemmas *)

Lemma ErrorCode_nil : ErrorCode None = ε.
Proof. reflexivity. Qed.

Lemma ErrorCode_New c m cause : ErrorCode (Some (NewError c m cause)) = c.
Proof. reflexivity. Qed.

Lemma ErrorCode_Wrap t e : ErrorCode (Some (WrapError t e)) = ErrorCode (Some e).
Proof. reflexivity. Qed.

Lemma one_of_true c l : one_of c l = true ↔ c ∈ l.
Proof. apply bool_decide_eq_true. Qed.

#[export] Hint Rewrite ErrorCode_nil ErrorCode_New ErrorCode_Wrap : go.
