(* ===== verification/Transport.v ===== *)
(** src/transport/policy.go: destination policy and dialling.

    Addresses and prefixes follow net/netip and host splitting follows net/url and
    net; [url.Parse], [netip.ParseAddr], [Addr.String], the resolver and the dialer
    are arguments. *)

From S2P Require Import Prelude GoString Codec GoTime Errors.

Definition COLON : byte := chr 58.
Definition BRACKET_OPEN : byte := chr 91.
Definition BRACKET_CLOSE : byte := chr 93.

(** The parts of a string around the last of a separator. *)
Fixpoint CutLast (sep : byte) (s : string) : option (string * string) :=
  match s with
  | EmptyString => None
  | String c s' =>
      match CutLast sep s' with
      | Some (before, after) => Some (String c before, after)
      | None => if bool_decide (c = sep) then Some (ε, s') else None
      end
  end.

(** * net/netip *)

(** [netip.Addr]: the zero value, an IPv4 address, an IPv6 address and its zone. *)
Inductive Addr : Type :=
| NoAddr
| V4 (bits : Z)
| V6 (bits : Z) (zone : string).

#[export] Instance Addr_eq_dec : EqDecision Addr.
Proof. solve_decision. Defined.

Definition Is4In6 (a : Addr) : bool :=
  match a with V6 b _ => Z.shiftr b 32 =? 65535 | _ => false end.
Definition Unmap (a : Addr) : Addr :=
  match a with
  | V6 b _ => if Is4In6 a then V4 (Z.land b (2 ^ 32 - 1)) else a
  | _ => a
  end.
Definition IsValid (a : Addr) : bool := match a with NoAddr => false | _ => true end.

(** The first bits of an address, as a number. *)
Definition v4_top (n : Z) (b : Z) : Z := Z.shiftr b (32 - n).
Definition v6_top (n : Z) (b : Z) : Z := Z.shiftr b (128 - n).

Definition IsUnspecified (a : Addr) : bool :=
  match a with V4 b => b =? 0 | V6 b z => (b =? 0) && str_eqb z ε | NoAddr => false end.
Definition IsLoopback (a : Addr) : bool :=
  match Unmap a with V4 b => v4_top 8 b =? 127 | V6 b _ => b =? 1 | NoAddr => false end.
Definition IsPrivate (a : Addr) : bool :=
  match Unmap a with
  | V4 b => (v4_top 8 b =? 10) || (v4_top 12 b =? 2753) || (v4_top 16 b =? 49320)
  | V6 b _ => v6_top 7 b =? 126
  | NoAddr => false
  end.
Definition IsLinkLocalUnicast (a : Addr) : bool :=
  match Unmap a with V4 b => v4_top 16 b =? 43518 | V6 b _ => v6_top 10 b =? 1018 | NoAddr => false end.
Definition IsLinkLocalMulticast (a : Addr) : bool :=
  match Unmap a with
  | V4 b => v4_top 24 b =? 14680064
  | V6 b _ => Z.land (v6_top 16 b) 65295 =? 65282
  | NoAddr => false
  end.
Definition IsMulticast (a : Addr) : bool :=
  match Unmap a with V4 b => v4_top 4 b =? 14 | V6 b _ => v6_top 8 b =? 255 | NoAddr => false end.

(** [netip.Prefix] of a family. *)
Inductive Prefix : Type :=
| P4 (bits : Z) (len : Z)
| P6 (bits : Z) (len : Z).

(** [Prefix.Contains]: never an address with a zone or of the other family. *)
Definition Contains (p : Prefix) (a : Addr) : bool :=
  match p, a with
  | P4 pb n, V4 b => v4_top n (Z.lxor b pb) =? 0
  | P6 pb n, V6 b z => str_eqb z ε && (v6_top n (Z.lxor b pb) =? 0)
  | _, _ => false
  end.

(** The IPv4 address of four bytes. *)
Definition quad (a b c d : Z) : Z := ((a * 256 + b) * 256 + c) * 256 + d.

Definition reservedPrefixes : list Prefix :=
  [P4 (quad 0 0 0 0) 8; P4 (quad 100 64 0 0) 10; P4 (quad 192 0 0 0) 24; P4 (quad 192 0 2 0) 24;
   P4 (quad 198 18 0 0) 15; P4 (quad 198 51 100 0) 24; P4 (quad 203 0 113 0) 24;
   P4 (quad 224 0 0 0) 4; P4 (quad 240 0 0 0) 4;
   P6 (Z.shiftl 536939960 96) 32].

(** * Policy *)

Section policy.
(** A [Resolver]'s answer for a host, a proxy function, and the fields of a dialer
    and of a TLS configuration that the code leaves alone. *)
Context {Proxy DialerRest TLSRest : Type}.

Definition Resolver : Type := string → go (list Addr).

Record Dialer := { d_Timeout : duration; d_KeepAlive : duration; d_rest : option DialerRest }.
Record TLSConfig := { t_MinVersion : Z; t_rest : option TLSRest }.

Definition VersionTLS12 : Z := 771.

(** [Policy]; [None] is nil. *)
Record Policy := {
  AllowPlainHTTP : bool;
  AllowAnyPort : bool;
  AllowedPorts : gset Z;
  AllowedCIDRs : list Prefix;
  p_Resolver : option Resolver;
  p_Proxy : option Proxy;
  p_Dialer : option Dialer;
  p_TLSConfig : option TLSConfig;
  DialTimeout : duration;
  TLSHandshakeTimeout : duration;
  ResponseHeaderTimeout : duration;
  IdleConnTimeout : duration;
  MaxIdleConns : Z;
  MaxIdleConnsPerHost : Z
}.

Definition DefaultPolicy : Policy :=
  {| AllowPlainHTTP := false; AllowAnyPort := false; AllowedPorts := {[443]}; AllowedCIDRs := [];
     p_Resolver := None; p_Proxy := None; p_Dialer := None; p_TLSConfig := None;
     DialTimeout := 10 * Second; TLSHandshakeTimeout := 10 * Second;
     ResponseHeaderTimeout := 20 * Second; IdleConnTimeout := 90 * Second;
     MaxIdleConns := 100; MaxIdleConnsPerHost := 10 |}.

Definition DevelopmentPolicy : Policy :=
  {| AllowPlainHTTP := true; AllowAnyPort := true; AllowedPorts := ∅;
     AllowedCIDRs := [P4 (quad 127 0 0 0) 8; P6 1 128];
     p_Resolver := None; p_Proxy := None; p_Dialer := None; p_TLSConfig := None;
     DialTimeout := 10 * Second; TLSHandshakeTimeout := 10 * Second;
     ResponseHeaderTimeout := 20 * Second; IdleConnTimeout := 90 * Second;
     MaxIdleConns := 100; MaxIdleConnsPerHost := 10 |}.

(** A value that must be positive, or its default. *)
Definition or_default (value fallback : Z) : Z := if value <=? 0 then fallback else value.

(** [net.DefaultResolver]. *)
Context (DefaultResolver : Resolver).

(** [(p Policy) normalized] and [(p Policy) Clone]. *)
Definition normalized (p : Policy) : Policy :=
  let dial := or_default (DialTimeout p) (10 * Second) in
  {| AllowPlainHTTP := AllowPlainHTTP p;
     AllowAnyPort := AllowAnyPort p;
     AllowedPorts :=
       if AllowAnyPort p then ∅
       else if bool_decide (AllowedPorts p = ∅) then AllowedPorts DefaultPolicy else AllowedPorts p;
     AllowedCIDRs := AllowedCIDRs p;
     p_Resolver := Some (default DefaultResolver (p_Resolver p));
     p_Proxy := p_Proxy p;
     p_Dialer :=
       Some (default {| d_Timeout := dial; d_KeepAlive := 30 * Second; d_rest := None |} (p_Dialer p));
     p_TLSConfig :=
       Some (match p_TLSConfig p with
             | None => {| t_MinVersion := VersionTLS12; t_rest := None |}
             | Some t =>
                 {| t_MinVersion := if t_MinVersion t <? VersionTLS12 then VersionTLS12 else t_MinVersion t;
                    t_rest := t_rest t |}
             end);
     DialTimeout := dial;
     TLSHandshakeTimeout := or_default (TLSHandshakeTimeout p) (10 * Second);
     ResponseHeaderTimeout := or_default (ResponseHeaderTimeout p) (20 * Second);
     IdleConnTimeout := or_default (IdleConnTimeout p) (90 * Second);
     MaxIdleConns := or_default (MaxIdleConns p) 100;
     MaxIdleConnsPerHost := or_default (MaxIdleConnsPerHost p) 10 |}.

(** A rejection: [fmt.Errorf] with the sentinel as its %w operand. *)
Definition unsafe (text : string) : error :=
  WrapError (error_text ErrUnsafeDestination +:+ ": " +:+ text) ErrUnsafeDestination.

(** * URLs *)

(** The parts of [*url.URL] the policy looks at; [u_User] is [User != nil]. *)
Record URL := { u_Scheme : string; u_Host : string; u_User : bool; u_Fragment : string }.

(** [url.splitHostPort]: the host without its port and brackets, and the port. *)
Definition splitHostPort (hostPort : string) : string * string :=
  let '(host, port) :=
    match CutLast COLON hostPort with
    | Some (host, port) => if str_forall is_digit port then (host, port) else (hostPort, ε)
    | None => (hostPort, ε)
    end in
  let host :=
    if has_prefix "[" host && has_suffix "]" host
    then str_take (String.length host - 2) (str_drop 1 host) else host in
  (host, port).
Definition Hostname (u : URL) : string := (splitHostPort (u_Host u)).1.
Definition Port (u : URL) : string := (splitHostPort (u_Host u)).2.

Definition effectivePort (parsed : URL) : go Z :=
  let portText := Port parsed in
  if str_eqb portText ε then Ok (if str_eqb (u_Scheme parsed) "https" then 443 else 80)
  else match ParseUint 16 portText with
       | Some port => if port =? 0 then Err (unsafe "invalid port") else Ok port
       | None => Err (unsafe "invalid port")
       end.

(** A text in double quotes, as %q prints a scheme's characters. *)
Definition quoted_text (s : string) : string := String (chr 34) (s +:+ String (chr 34) ε).

(** [ValidateURL]; [url_Parse] is [url.Parse]. *)
Definition ValidateURL (url_Parse : string → go URL) (rawURL : string) (policy : Policy) : go URL :=
  let policy := normalized policy in
  parsed ← map_err (λ e, unsafe ("parse URL: " +:+ error_text e)) (url_Parse rawURL);
  _ ← reject (negb (str_eqb (u_Scheme parsed) "https")
              && (negb (AllowPlainHTTP policy) || negb (str_eqb (u_Scheme parsed) "http")))
        (unsafe ("scheme " +:+ quoted_text (u_Scheme parsed) +:+ " is not allowed"));
  _ ← reject (str_eqb (Hostname parsed) ε) (unsafe "hostname is required");
  _ ← reject (u_User parsed) (unsafe "URL credentials are forbidden");
  _ ← reject (negb (str_eqb (u_Fragment parsed) ε)) (unsafe "URL fragments are forbidden");
  _ ← reject (contains_any crlfnul (u_Host parsed)) (unsafe "invalid host");
  port ← effectivePort parsed;
  _ ← reject (negb (AllowAnyPort policy) && negb (bool_decide (port ∈ AllowedPorts policy)))
        (unsafe ("port " +:+ FormatInt port +:+ " is not allowed"));
  Ok parsed.

(** * Dialling *)

(** [net.SplitHostPort]; its error is an [*AddrError]. *)
Definition SplitHostPort (hostport : string) : go (string * string) :=
  let bad := PlainError "address" in
  match CutLast COLON hostport with
  | None => Err bad
  | Some (before, port) =>
      if has_prefix "[" hostport then
        match Cut BRACKET_CLOSE hostport with
        | None => Err bad
        | Some (inside, after) =>
            let host := str_drop 1 inside in
            if negb (str_eqb after (String COLON port)) then Err bad
            else if contains_byte BRACKET_OPEN (host +:+ after) then Err bad
            else if contains_byte BRACKET_CLOSE after then Err bad
            else Ok (host, port)
        end
      else if contains_byte COLON before then Err bad
      else if contains_byte BRACKET_OPEN hostport then Err bad
      else if contains_byte BRACKET_CLOSE hostport then Err bad
      else Ok (before, port)
  end.

(** [net.JoinHostPort] *)
Definition JoinHostPort (host port : string) : string :=
  if contains_byte COLON host then "[" +:+ host +:+ "]:" +:+ port else host +:+ ":" +:+ port.

(** The addresses not seen before, in their order. *)
Fixpoint dedup (seen : list Addr) (l : list Addr) : list Addr :=
  match l with
  | [] => []
  | a :: l' => if bool_decide (a ∈ seen) then dedup seen l' else a :: dedup (a :: seen) l'
  end.

(** [netip.ParseAddr] and [Addr.String]. *)
Context (ParseAddr : string → option Addr) (addr_String : Addr → string).

Definition resolve (resolver : Resolver) (host : string) : go (list Addr) :=
  match ParseAddr host with
  | Some parsed => Ok [Unmap parsed]
  | None => ips ← resolver host; Ok (dedup [] (map Unmap ips))
  end.

(** The first check of [validateAddress]. *)
Definition not_routable (a : Addr) : bool :=
  negb (IsValid a) || IsUnspecified a || IsLoopback a || IsPrivate a || IsLinkLocalUnicast a ||
  IsLinkLocalMulticast a || IsMulticast a.

Definition validateAddress (address : Addr) (allowed : list Prefix) : go unit :=
  if existsb (λ prefix, Contains prefix address) allowed then Ok tt
  else
    _ ← reject (not_routable address)
          (unsafe ("address " +:+ addr_String address +:+ " is not publicly routable"));
    reject (existsb (λ prefix, Contains prefix address) reservedPrefixes)
      (unsafe ("address " +:+ addr_String address +:+ " is reserved")).

(** Validation of the addresses in turn, up to the first failure. *)
Fixpoint validate_all (allowed : list Prefix) (addresses : list Addr) : go unit :=
  match addresses with
  | [] => Ok tt
  | a :: rest => _ ← validateAddress a allowed; validate_all allowed rest
  end.

Context {Conn : Type}.

(** The dial loop: the addresses dialled, in order, and the outcome.  [dial] is the
    dialer's [DialContext] on a network and an address. *)
Fixpoint dial_each (dial : string → string → go Conn) (network port : string)
    (addresses : list Addr) (dialErrors : list error) : list Addr * go Conn :=
  match addresses with
  | [] => ([], Err (JoinError dialErrors))
  | a :: rest =>
      match dial network (JoinHostPort (addr_String a) port) with
      | Ok connection => ([a], Ok connection)
      | Err e =>
          let '(dialled, r) := dial_each dial network port rest (dialErrors ++ [e]) in
          (a :: dialled, r)
      end
  end.

(** The function [dialContext] returns for a normalized policy. *)
Definition dialContext (dial : string → string → go Conn) (policy : Policy) (network address : string)
    : list Addr * go Conn :=
  match SplitHostPort address with
  | Err e => ([], Err (unsafe ("split destination: " +:+ error_text e)))
  | Ok (host, port) =>
      match resolve (default DefaultResolver (p_Resolver policy)) host with
      | Err e => ([], Err (WrapError ("resolve destination: " +:+ error_text e) e))
      | Ok addresses =>
          if bool_decide (addresses = []) then ([], Err (PlainError "resolve destination: no addresses"))
          else match validate_all (AllowedCIDRs policy) addresses with
               | Err e => ([], Err e)
               | Ok _ => dial_each dial network port addresses []
               end
      end
  end.

(** The fields of the [*http.Transport] that [NewTransport] sets. *)
Record HTTPTransport := {
  ht_Proxy : option Proxy;
  ht_DialContext : string → string → list Addr * go Conn;
  ht_ForceAttemptHTTP2 : bool;
  ht_MaxIdleConns : Z;
  ht_MaxIdleConnsPerHost : Z;
  ht_IdleConnTimeout : duration;
  ht_TLSHandshakeTimeout : duration;
  ht_ResponseHeaderTimeout : duration;
  ht_TLSClientConfig : option TLSConfig;
  ht_ExpectContinueTimeout : duration
}.

(** [NewTransport]; [dialer] is what a dialer's [DialContext] does. *)
Definition NewTransport (dialer : option Dialer → string → string → go Conn) (policy : Policy) : HTTPTransport :=
  let policy := normalized policy in
  {| ht_Proxy := p_Proxy policy; ht_DialContext := dialContext (dialer (p_Dialer policy)) policy;
     ht_ForceAttemptHTTP2 := true; ht_MaxIdleConns := MaxIdleConns policy;
     ht_MaxIdleConnsPerHost := MaxIdleConnsPerHost policy; ht_IdleConnTimeout := IdleConnTimeout policy;
     ht_TLSHandshakeTimeout := TLSHandshakeTimeout policy;
     ht_ResponseHeaderTimeout := ResponseHeaderTimeout policy; ht_TLSClientConfig := p_TLSConfig policy;
     ht_ExpectContinueTimeout := Second |}.
End policy.
Arguments Policy : clear implicits.

(** [IsTemporary]; [as_dns] and [as_net] are [errors.As] for a [*net.DNSError], with
    its two flags, and for a [net.Error], with its [Timeout]; [is_errno] tells whether
    a system error is in the chain. *)
Inductive errno : Type := ECONNRESET | ECONNREFUSED | EPIPE.
Definition IsTemporary (as_dns : error → option (bool * bool)) (as_net : error → option bool)
    (is_errno : errno → error → bool) (err : option error) : bool :=
  match err with
  | None => false
  | Some e =>
      match as_dns e with
      | Some (timeout, temporary) => timeout || temporary
      | None =>
          match as_net e with
          | Some timeout => timeout
          | None => is_errno ECONNRESET e || is_errno ECONNREFUSED e || is_errno EPIPE e
          end
      end
  end.

(** * Address blocks *)

(** The addresses of a block, from its first address and prefix length. *)
Definition in_block4 (b first n : Z) : Prop := first ≤ b < first + 2 ^ (32 - n).
Definition in_block6 (b first n : Z) : Prop := first ≤ b < first + 2 ^ (128 - n).

(** The IPv4 blocks that are not dialled: this network, private, loopback, shared,
    link-local, protocol assignments, documentation, benchmarking, multicast and
    reserved. *)
Definition blocked4 : list (Z * Z) :=
  [(quad 0 0 0 0, 8); (quad 10 0 0 0, 8); (quad 127 0 0 0, 8); (quad 100 64 0 0, 10);
   (quad 169 254 0 0, 16); (quad 172 16 0 0, 12); (quad 192 168 0 0, 16); (quad 192 0 0 0, 24);
   (quad 192 0 2 0, 24); (quad 198 18 0 0, 15); (quad 198 51 100 0, 24); (quad 203 0 113 0, 24);
   (quad 224 0 0 0, 4); (quad 240 0 0 0, 4)].

(** The IPv6 blocks: loopback, unique local, link-local and multicast; and, only for
    an address without a zone, the unspecified address and documentation. *)
Definition blocked6 : list (Z * Z) :=
  [(1, 128); (Z.shiftl 64512 112, 7); (Z.shiftl 65152 112, 10); (Z.shiftl 65280 112, 8)].
Definition blocked6_unzoned : list (Z * Z) := [(0, 128); (Z.shiftl 536939960 96, 32)].

(** The addresses the policy treats as publicly routable. *)
Definition public (a : Addr) : Prop :=
  match a with
  | NoAddr => False
  | V4 b => Forall (λ x, ¬ in_block4 b x.1 x.2) blocked4
  | V6 b z => Forall (λ x, ¬ in_block6 b x.1 x.2) blocked6 ∧
              (z = ε → Forall (λ x, ¬ in_block6 b x.1 x.2) blocked6_unzoned)
  end.

(** An address of its width. *)
Definition addr_wf (a : Addr) : Prop :=
  match a with NoAddr => True | V4 b => 0 ≤ b < 2 ^ 32 | V6 b _ => 0 ≤ b < 2 ^ 128 end.

Lemma top_block (w n b k : Z) :
  0 ≤ n ≤ w → Z.shiftr b (w - n) = k ↔ k * 2 ^ (w - n) ≤ b < k * 2 ^ (w - n) + 2 ^ (w - n).
Proof.
  intros Hn. rewrite Z.shiftr_div_pow2 by lia.
  assert (0 < 2 ^ (w - n)) as Hp by (apply Z.pow_pos_nonneg; lia).
  split.
  - intros <-. pose proof (Z.div_mod b (2 ^ (w - n)) ltac:(lia)).
    pose proof (Z.mod_pos_bound b (2 ^ (w - n)) Hp). lia.
  - intros Hb. symmetry. apply (Z.div_unique_pos b (2 ^ (w - n)) k (b - k * 2 ^ (w - n))); lia.
Qed.

Lemma lxor_top (w b pb : Z) : Z.shiftr (Z.lxor b pb) w = 0 ↔ Z.shiftr b w = Z.shiftr pb w.
Proof. rewrite Z.shiftr_lxor. apply Z.lxor_eq_0_iff. Qed.

Lemma v4_top_false n b k :
  0 ≤ n ≤ 32 → (v4_top n b =? k) = false ↔ ¬ in_block4 b (k * 2 ^ (32 - n)) n.
Proof. intros Hn. rewrite Z.eqb_neq. unfold v4_top, in_block4. by rewrite top_block. Qed.

Lemma v6_top_false n b k :
  0 ≤ n ≤ 128 → (v6_top n b =? k) = false ↔ ¬ in_block6 b (k * 2 ^ (128 - n)) n.
Proof. intros Hn. rewrite Z.eqb_neq. unfold v6_top, in_block6. by rewrite top_block. Qed.

Lemma contains4_false n b pb :
  0 ≤ n ≤ 32 → pb = Z.shiftr pb (32 - n) * 2 ^ (32 - n) →
  Contains (P4 pb n) (V4 b) = false ↔ ¬ in_block4 b pb n.
Proof.
  intros Hn Hpb. cbn [Contains]. rewrite Z.eqb_neq. unfold v4_top, in_block4.
  rewrite lxor_top, top_block by done. by rewrite <-Hpb.
Qed.

Lemma contains6_false n b pb z :
  0 ≤ n ≤ 128 → pb = Z.shiftr pb (128 - n) * 2 ^ (128 - n) →
  Contains (P6 pb n) (V6 b z) = false ↔ (z = ε → ¬ in_block6 b pb n).
Proof.
  intros Hn Hpb. cbn [Contains]. rewrite andb_false_iff, Z.eqb_neq. unfold v6_top, in_block6, str_eqb.
  rewrite bool_decide_eq_false, lxor_top, top_block by done. rewrite <-Hpb.
  destruct (decide (z = ε)); tauto.
Qed.

(** Link-local multicast is multicast. *)
Lemma link_local_multicast6 b :
  0 ≤ b < 2 ^ 128 → Z.land (v6_top 16 b) 65295 = 65282 → v6_top 8 b = 255.
Proof.
  intros Hb H. unfold v6_top in *. apply (f_equal (λ x, Z.shiftr x 8)) in H.
  rewrite Z.shiftr_land, Z.shiftr_shiftr in H by lia.
  change (Z.shiftr 65295 8) with (Z.ones 8) in H. change (Z.shiftr 65282 8) with 255 in H.
  rewrite Z.land_ones in H by lia. change (128 - 16 + 8) with 120 in H. change (128 - 8) with 120.
  rewrite Z.mod_small in H; [done|]. rewrite Z.shiftr_div_pow2 by lia.
  Z.to_euclidean_division_equations. lia.
Qed.

Section validate.
Context (addr_String : Addr → string).

Lemma validateAddress_Ok address allowed :
  validateAddress addr_String address allowed = Ok tt ↔
  existsb (λ prefix, Contains prefix address) allowed = true ∨
  not_routable address = false ∧ existsb (λ prefix, Contains prefix address) reservedPrefixes = false.
Proof.
  unfold validateAddress. destruct (existsb _ allowed); [tauto|]. rewrite bind_Ok. split.
  - intros ([] & H1%reject_Ok & H2%reject_Ok). auto.
  - intros [H|[H1 H2]]; [done|]. exists tt. by rewrite !reject_Ok.
Qed.

Lemma public4 b :
  0 ≤ b < 2 ^ 32 →
  not_routable (V4 b) = false ∧ existsb (λ prefix, Contains prefix (V4 b)) reservedPrefixes = false ↔
  public (V4 b).
Proof.
  intros Hb. unfold not_routable, public, blocked4, reservedPrefixes.
  cbn [existsb IsValid IsUnspecified IsLoopback IsPrivate IsLinkLocalUnicast IsLinkLocalMulticast
       IsMulticast Unmap negb orb].
  rewrite !orb_false_iff, !v4_top_false, !contains4_false by (lia || (vm_compute; reflexivity)).
  rewrite !Forall_cons. cbn [fst snd Contains]. rewrite Z.eqb_neq.
  unfold in_block4, quad. simpl. split; intros; destruct_and?; split_and?; try done; try lia.
Qed.

Lemma public6 b z :
  0 ≤ b < 2 ^ 128 → Is4In6 (V6 b z) = false →
  not_routable (V6 b z) = false ∧
    existsb (λ prefix, Contains prefix (V6 b z)) reservedPrefixes = false ↔
  public (V6 b z).
Proof.
  intros Hb H4. unfold not_routable, public, blocked6, blocked6_unzoned, reservedPrefixes.
  unfold IsLoopback, IsPrivate, IsLinkLocalUnicast, IsLinkLocalMulticast, IsMulticast.
  replace (Unmap (V6 b z)) with (V6 b z) by (unfold Unmap; by rewrite H4).
  cbn [existsb IsValid IsUnspecified negb orb].
  rewrite !orb_false_iff, !v6_top_false, contains6_false by (lia || (vm_compute; reflexivity)).
  rewrite !Forall_cons. cbn [fst snd Contains]. rewrite andb_false_iff, !Z.eqb_neq.
  unfold str_eqb. rewrite bool_decide_eq_false.
  assert (Z.land (v6_top 16 b) 65295 ≠ 65282 ∨ ¬ ¬ in_block6 b (255 * 2 ^ (128 - 8)) 8) as Hm.
  { destruct (decide (Z.land (v6_top 16 b) 65295 = 65282)) as [E|E]; [right|by left].
    apply link_local_multicast6 in E; [|done]. intros H. apply v6_top_false in H; [|lia].
    by rewrite E in H. }
  unfold in_block6 in *. rewrite !Z.shiftl_mul_pow2 by lia.
  change (2 ^ (128 - 128)) with 1.
  split; intros; destruct_and?; split_and?; try done; try lia.
  - intros Hz. split; [match goal with H : b ≠ 0 ∨ _ |- _ => destruct H; [lia|done] end|split; [by auto|constructor]].
  - destruct (decide (z = ε)) as [Hz|Hz]; [left|by right].
    match goal with H : z = ε → _ |- _ => destruct (H Hz); lia end.
  - intros Hz. match goal with H : z = ε → _ |- _ => destruct (H Hz) as (_ & H' & _); exact H' end.
Qed.
End validate.

(** * Lemmas on policies *)

Section policies.
Context {Proxy DialerRest TLSRest : Type} (DefaultResolver : Resolver).
Abbreviation policy_of := (Policy Proxy DialerRest TLSRest).
Abbreviation normalized_of := (normalized DefaultResolver).

(** The ports a policy allows. *)
Definition port_allowed (p : policy_of) (port : Z) : Prop :=
  AllowAnyPort p = true ∨
  (if decide (AllowedPorts p = ∅) then port = 443 else port ∈ AllowedPorts p).

Lemma normalized_ports (p : policy_of) port :
  negb (AllowAnyPort (normalized_of p)) && negb (bool_decide (port ∈ AllowedPorts (normalized_of p))) = false ↔
  port_allowed p port.
Proof.
  unfold port_allowed. simpl. destruct (AllowAnyPort p); simpl; [tauto|].
  rewrite negb_false_iff, bool_decide_eq_true.
  destruct (decide (AllowedPorts p = ∅)) as [E|E].
  - rewrite bool_decide_true by done. set_solver.
  - rewrite bool_decide_false by done. naive_solver.
Qed.

Lemma or_default_idemp v d : 0 < d → or_default (or_default v d) d = or_default v d.
Proof. unfold or_default. intros. zcase; done. Qed.

Lemma or_default_pos v d : 0 < d → 0 < or_default v d.
Proof. unfold or_default. intros. zcase; lia. Qed.

(** Every rejection carries the sentinel. *)
Lemma unsafe_is_sentinel text : is_sentinel (error_text ErrUnsafeDestination) (unsafe text) = true.
Proof. done. Qed.

Lemma validateAddress_Err f a allowed e :
  validateAddress f a allowed = Err e → is_sentinel (error_text ErrUnsafeDestination) e = true.
Proof.
  unfold validateAddress. destruct (existsb _ allowed); [done|]. intros H. go_err; done.
Qed.

Lemma validate_all_Ok f allowed addresses :
  validate_all f allowed addresses = Ok tt ↔ Forall (λ a, validateAddress f a allowed = Ok tt) addresses.
Proof.
  induction addresses as [|a l IH]; simpl; [by split|]. rewrite bind_Ok, Forall_cons, <-IH.
  split; [intros ([] & ? & ?); auto|]. intros [? ?]. by exists tt.
Qed.

Lemma validate_all_Err f allowed addresses e :
  validate_all f allowed addresses = Err e → is_sentinel (error_text ErrUnsafeDestination) e = true.
Proof.
  induction addresses as [|a l IH]; simpl; [done|]. intros [H|([] & _ & H)]%bind_Err; [|by apply IH].
  by eapply validateAddress_Err.
Qed.

Lemma dedup_elem seen l a : a ∈ dedup seen l → a ∈ l.
Proof.
  revert seen. induction l as [|x l IH]; intros seen; simpl; [done|].
  case_bool_decide; [intros H2%IH; by right|].
  intros [->|H2%IH]%elem_of_cons; [by left|by right].
Qed.

Lemma dedup_complete seen l a : a ∈ l → a ∈ seen ∨ a ∈ dedup seen l.
Proof.
  revert seen. induction l as [|x l IH]; intros seen; simpl; [by intros ?%elem_of_nil|].
  intros [->|H]%elem_of_cons.
  - case_bool_decide; [by left|right; by left].
  - case_bool_decide; [by apply IH|].
    destruct (IH (x :: seen) H) as [[->|?]%elem_of_cons|?]; [right; by left|by left|right; by right].
Qed.

Lemma dedup_NoDup seen l : NoDup (dedup seen l) ∧ (∀ a, a ∈ dedup seen l → a ∉ seen).
Proof.
  revert seen. induction l as [|x l IH]; intros seen; simpl; [split; [constructor|by intros ? ?%elem_of_nil]|].
  case_bool_decide as Hx; [apply IH|]. destruct (IH (x :: seen)) as [Hn Hs]. split.
  - constructor; [|done]. intros H. apply (Hs x H). by left.
  - intros a [->|H]%elem_of_cons; [done|]. intros Ha. apply (Hs a H). by right.
Qed.

Lemma Unmap_idemp a : addr_wf a → Unmap (Unmap a) = Unmap a.
Proof.
  intros _. destruct a as [| |b z]; try done. unfold Unmap at 2 3.
  destruct (Is4In6 (V6 b z)) eqn:E; [done|]. unfold Unmap. by rewrite E.
Qed.
End policies.

(** * Properties *)

Section properties.
Context {Proxy DialerRest TLSRest Conn : Type} (DefaultResolver : Resolver).
Abbreviation policy_of := (Policy Proxy DialerRest TLSRest).

(** A permitted address: in an allowed block, or publicly routable. *)
Definition permitted (allowed : list Prefix) (a : Addr) : Prop :=
  existsb (λ prefix, Contains prefix a) allowed = true ∨ public a.

Lemma validateAddress_permitted f a allowed :
  addr_wf a → Unmap a = a → validateAddress f a allowed = Ok tt ↔ permitted allowed a.
Proof.
  intros Hwf Hm. rewrite validateAddress_Ok. unfold permitted. apply or_iff_compat_l.
  destruct a as [|b|b z]; [|by apply public4|apply public6; [done|]].
  - split; [by intros [? _]|done].
  - unfold Unmap in Hm. by destruct (Is4In6 (V6 b z)).
Qed.

(** C27 The address check is exact: an address of its family, unmapped, passes when it
    is in a block the policy allows or outside every blocked range of addresses, and
    otherwise fails with the unsafe-destination sentinel.  For an IPv6 address with
    a zone the unspecified address and the documentation block are not blocked (they are
    for one without), and no allowed block holds it. *)
Theorem validate_address_exact addr_String a allowed :
  addr_wf a → Unmap a = a →
  match validateAddress addr_String a allowed with
  | Ok _ => permitted allowed a
  | Err e => ¬ permitted allowed a ∧ is_sentinel (error_text ErrUnsafeDestination) e = true
  end.
Proof.
  intros Hwf Hm. pose proof (validateAddress_permitted addr_String a allowed Hwf Hm) as H.
  destruct (validateAddress addr_String a allowed) as [[]|e] eqn:E; [by apply H|].
  split; [by intros ?%H|by eapply validateAddress_Err].
Qed.

(** The port of a URL: the one written after its host, a numeral between 1 and 65535, or
    when none is written 443 for https and 80 for any other scheme. *)
Definition url_port (u : URL) (port : Z) : Prop :=
  (Port u = ε ∧ (u_Scheme u = "https" ∧ port = 443 ∨ u_Scheme u ≠ "https" ∧ port = 80)) ∨
  (Port u ≠ ε ∧ numeral (Port u) port ∧ 1 ≤ port ≤ 65535).

Lemma effectivePort_Ok u port : effectivePort u = Ok port ↔ url_port u port.
Proof.
  unfold effectivePort, url_port. destruct (str_eqb (Port u) ε) eqn:E.
  - apply str_eqb_true in E. unfold str_eqb.
    case_bool_decide as Hs; (split; [intros [= <-]; left; auto|]).
    + intros [[_ [[_ ->]|[? _]]]|[? _]]; done.
    + intros [[_ [[? _]|[_ ->]]]|[? _]]; done.
  - apply str_eqb_false in E. destruct (ParseUint 16 (Port u)) as [n|] eqn:En.
    + pose proof (proj1 (ParseUint_numeral 16 _ _) En) as (_ & Hn & Hlt).
      assert (0 ≤ n) as Hpos.
      { apply parse_digits_numeral in Hn. by eapply parse_digits_lower. }
      destruct (Z.eqb_spec n 0) as [->|Hz]; split; try done.
      * intros [[? _]|(_ & Hp & ? & Hp2)]; [done|].
        assert (ParseUint 16 (Port u) = Some port) as Hq by (apply ParseUint_numeral; split_and!; [done..|lia]).
        rewrite En in Hq. injection Hq as <-. lia.
      * intros [= <-]. right. split_and!; [done..|lia|lia].
      * intros [[? _]|(_ & Hp & ? & Hp2)]; [done|].
        assert (ParseUint 16 (Port u) = Some port) as Hq by (apply ParseUint_numeral; split_and!; [done..|lia]).
        rewrite En in Hq. by injection Hq as <-.
    + split; [done|]. intros [[? _]|(_ & Hp & ? & Hp2)]; [done|].
      assert (ParseUint 16 (Port u) = Some port) as Hq by (apply ParseUint_numeral; split_and!; [done..|lia]).
      by rewrite En in Hq.
Qed.

(** What the policy asks of a parsed URL. *)
Definition url_allowed (p : policy_of) (u : URL) : Prop :=
  (u_Scheme u = "https" ∨ AllowPlainHTTP p = true ∧ u_Scheme u = "http") ∧
  Hostname u ≠ ε ∧ u_User u = false ∧ u_Fragment u = ε ∧
  contains_any crlfnul (u_Host u) = false ∧
  ∃ port, url_port u port ∧ port_allowed p port.

Lemma scheme_allowed (p : policy_of) u :
  negb (str_eqb (u_Scheme u) "https") &&
    (negb (AllowPlainHTTP p) || negb (str_eqb (u_Scheme u) "http")) = false ↔
  u_Scheme u = "https" ∨ AllowPlainHTTP p = true ∧ u_Scheme u = "http".
Proof.
  unfold str_eqb. rewrite andb_false_iff, orb_false_iff, !negb_false_iff, !bool_decide_eq_true. tauto.
Qed.

Lemma ValidateURL_Ok url_Parse raw (p : policy_of) u :
  ValidateURL DefaultResolver url_Parse raw p = Ok u ↔ url_Parse raw = Ok u ∧ url_allowed p u.
Proof.
  unfold ValidateURL, url_allowed. split.
  - intros H. rewrite bind_Ok in H. destruct H as (u' & Hu%map_err_Ok & H).
    rewrite bind_Ok in H. destruct H as ([] & Hs%reject_Ok%scheme_allowed & H).
    go_inv. split_and!; try done; [by apply str_eqb_false|by apply str_eqb_true|].
    eexists. split; [by apply effectivePort_Ok|]. by apply (normalized_ports DefaultResolver).
  - intros (Hu & Hs & Hh & Hus & Hf & Hc & port & Hp%effectivePort_Ok & Hport).
    rewrite Hu. cbn [map_err mbind result_bind]. rewrite (proj2 (scheme_allowed (normalized DefaultResolver p) _) Hs).
    cbn [reject mbind result_bind]. rewrite (proj2 (str_eqb_false _ _) Hh), Hus, Hf. cbn [reject mbind result_bind].
    rewrite (proj2 (str_eqb_true ε ε) eq_refl), Hc. cbn [negb reject mbind result_bind]. rewrite Hp.
    cbn [reject mbind result_bind]. by rewrite (proj2 (normalized_ports DefaultResolver p port) Hport).
Qed.

Lemma effectivePort_Err u e :
  effectivePort u = Err e → is_sentinel (error_text ErrUnsafeDestination) e = true.
Proof.
  unfold effectivePort. destruct (str_eqb _ _); [done|]. destruct (ParseUint _ _) as [n|]; [|by intros [= <-]].
  destruct (n =? 0); [by intros [= <-]|done].
Qed.

Lemma ValidateURL_Err url_Parse raw (p : policy_of) e :
  ValidateURL DefaultResolver url_Parse raw p = Err e →
  is_sentinel (error_text ErrUnsafeDestination) e = true.
Proof.
  unfold ValidateURL. intros H. go_err; try done; [|by eapply effectivePort_Err].
  destruct (url_Parse raw); [done|]. simpl in H. by simplify_eq.
Qed.

(** C30 The URL check is exact: a URL passes, unchanged, exactly when it parses, its
    scheme is https or an allowed http, it has a host and neither credentials nor a
    fragment, no carriage return, line feed or NUL in the host, and its port - a number
    from 1 to 65535 written in the URL, or 443 for https and 80 for http - is allowed: any
    port is, or the ones listed, or with none listed port 443; every rejection is an
    unsafe destination. *)
Theorem validate_url_exact url_Parse raw (p : policy_of) :
  match ValidateURL DefaultResolver url_Parse raw p with
  | Ok u => url_Parse raw = Ok u ∧ url_allowed p u
  | Err e => is_sentinel (error_text ErrUnsafeDestination) e = true ∧
      ∀ u, url_Parse raw = Ok u → ¬ url_allowed p u
  end.
Proof.
  destruct (ValidateURL DefaultResolver url_Parse raw p) as [u|e] eqn:E; [by apply ValidateURL_Ok in E|].
  split; [by eapply ValidateURL_Err|]. intros u Hu Ha.
  assert (ValidateURL DefaultResolver url_Parse raw p = Ok u) by by apply ValidateURL_Ok. congruence.
Qed.

Lemma Unmap_wf a : addr_wf a → addr_wf (Unmap a).
Proof.
  destruct a as [| |b z]; [intros H; exact H..|]. unfold Unmap.
  destruct (Is4In6 (V6 b z)); [|intros H; exact H]. intros _. cbn [addr_wf]. change (2 ^ 32 - 1) with (Z.ones 32). rewrite Z.land_ones by lia.
  exact (Z.mod_pos_bound b (2 ^ 32) ltac:(lia)).
Qed.

(** The outcome of trying addresses in turn: the ones tried are the first ones, all
    but the last failed, and the last gave the connection or was the last there is. *)
Definition tried_in_turn (dial : Addr → go Conn) (addresses dialled : list Addr) (r : go Conn) : Prop :=
  ∃ rest, addresses = dialled ++ rest ∧
  match r with
  | Ok c => ∃ failed a, dialled = failed ++ [a] ∧ dial a = Ok c ∧
              Forall (λ b, is_ok (dial b) = false) failed
  | Err _ => rest = [] ∧ Forall (λ b, is_ok (dial b) = false) dialled
  end.

Lemma dial_each_in_turn addr_String (dial : string → string → go Conn) network port addresses errs :
  let '(dialled, r) := dial_each addr_String dial network port addresses errs in
  tried_in_turn (λ a, dial network (JoinHostPort (addr_String a) port)) addresses dialled r.
Proof.
  revert errs. induction addresses as [|a l IH]; intros errs; [by exists []|]. cbn [dial_each].
  destruct (dial network _) as [c|e] eqn:E.
  - exists l. split; [done|]. by exists [], a.
  - specialize (IH (errs ++ [e])). destruct (dial_each _ _ _ _ _ _) as [dialled r].
    destruct IH as (rest & -> & Hr). exists rest. split; [done|]. destruct r as [c|e'].
    + destruct Hr as (failed & x & -> & Hx & Hf). exists (a :: failed), x. split_and!; try done.
      constructor; [by rewrite E|done].
    + destruct Hr as [-> Hf]. split; [done|]. constructor; [by rewrite E|done].
Qed.

Lemma resolve_Ok ParseAddr resolver host addresses :
  (∀ a, ParseAddr host = Some a → addr_wf a) →
  (∀ l, resolver host = Ok l → Forall addr_wf l) →
  resolve ParseAddr resolver host = Ok addresses →
  Forall (λ a, addr_wf a ∧ Unmap a = a) addresses ∧ NoDup addresses.
Proof.
  intros Hp Hr. unfold resolve. destruct (ParseAddr host) as [a|] eqn:E.
  - intros [= <-]. split; [|by apply NoDup_singleton].
    constructor; [|constructor]. split; [by apply Unmap_wf, Hp|by apply Unmap_idemp, Hp].
  - intros (l & Hl & H)%bind_Ok. injection H as <-. split; [|by apply dedup_NoDup].
    specialize (Hr l Hl). rewrite !Forall_forall in *.
    intros x Hx%dedup_elem. apply list_elem_of_fmap in Hx as (y & -> & Hy).
    split; [by apply Unmap_wf, Hr|by apply Unmap_idemp, Hr].
Qed.

(** C6 A dial reaches permitted addresses only: nothing is dialled unless every
    address of the host, without its IPv4-in-IPv6 form and without repetitions, is
    permitted; one that is not makes the dial an unsafe destination; otherwise they
    are tried in order until one answers. *)
Theorem dial_only_permitted ParseAddr addr_String (dial : string → string → go Conn)
    (p : policy_of) network address :
  let resolver := default DefaultResolver (p_Resolver p) in
  (∀ host a, ParseAddr host = Some a → addr_wf a) →
  (∀ host l, resolver host = Ok l → Forall addr_wf l) →
  let '(dialled, r) := dialContext DefaultResolver ParseAddr addr_String dial
                         (normalized DefaultResolver p) network address in
  match SplitHostPort address with
  | Err _ => dialled = [] ∧ is_ok r = false
  | Ok (host, port) =>
      match resolve ParseAddr resolver host with
      | Err _ => dialled = [] ∧ is_ok r = false
      | Ok addresses =>
          NoDup addresses ∧ Forall (λ a, Unmap a = a) addresses ∧
          (Forall (permitted (AllowedCIDRs p)) addresses →
             tried_in_turn (λ a, dial network (JoinHostPort (addr_String a) port)) addresses dialled r) ∧
          (¬ Forall (permitted (AllowedCIDRs p)) addresses → dialled = [] ∧
             ∃ e, r = Err e ∧ is_sentinel (error_text ErrUnsafeDestination) e = true)
      end
  end.
Proof.
  intros resolver Hp Hr. unfold dialContext.
  destruct (SplitHostPort address) as [[host port]|e]; [|by split]. cbn [p_Resolver normalized default id].
  fold resolver. destruct (resolve ParseAddr resolver host) as [addresses|e] eqn:E; [|by split].
  apply resolve_Ok in E as [Hwf Hn]; [|by apply Hp|by apply Hr].
  assert (validate_all addr_String (AllowedCIDRs p) addresses = Ok tt ↔
          Forall (permitted (AllowedCIDRs p)) addresses) as Hv.
  { rewrite validate_all_Ok, !Forall_forall. rewrite Forall_forall in Hwf.
    split; intros H a Ha; destruct (Hwf a Ha) as [Hw Hu];
      apply (validateAddress_permitted addr_String _ _ Hw Hu); auto. }
  assert (Forall (λ a, Unmap a = a) addresses) as Hm by (rewrite Forall_forall in Hwf |- *; intros a Ha; apply Hwf, Ha).
  case_bool_decide as He.
  { subst addresses. split; [constructor|]. split; [constructor|].
    split; [intros _; by exists []|]. intros H. destruct H. constructor. }
  cbn [AllowedCIDRs normalized].
  destruct (validate_all addr_String (AllowedCIDRs p) addresses) as [[]|e] eqn:Ev.
  - pose proof (dial_each_in_turn addr_String dial network port addresses []) as Ht.
    destruct (dial_each _ _ _ _ _ _) as [dialled r]. split; [done|]. split; [done|]. split; [done|].
    intros H. destruct H. by apply Hv.
  - split; [done|]. split; [done|]. split; [intros H; by apply Hv in H|]. intros _. split; [done|].
    exists e. split; [done|]. by eapply validate_all_Err.
Qed.
End properties.

(** * Examples and witnesses *)

(** A resolver whose answer mixes a public address with the loopback address. *)
Definition ex_resolver : Resolver := λ host, Ok [V4 (quad 93 184 216 34); V6 281472812449793 ε].
Definition ex_parse (host : string) : option Addr := None.
Definition ex_policy : Policy unit unit unit :=
  {| AllowPlainHTTP := false; AllowAnyPort := false; AllowedPorts := ∅; AllowedCIDRs := [];
     p_Resolver := Some ex_resolver; p_Proxy := None; p_Dialer := None; p_TLSConfig := None;
     DialTimeout := 0; TLSHandshakeTimeout := 0; ResponseHeaderTimeout := 0; IdleConnTimeout := 0;
     MaxIdleConns := 0; MaxIdleConnsPerHost := 0 |}.
Definition ex_dial (network address : string) : go string := Ok address.

Lemma ex_resolved :
  resolve ex_parse ex_resolver "example.com" = Ok [V4 (quad 93 184 216 34); V4 (quad 127 0 0 1)].
Proof. vm_compute. reflexivity. Qed.

(** The unspecified address with a zone is not recognised as unspecified, and no
    block contains an address with a zone: it is treated as publicly routable,
    though the system connects it to the local host. *)
Lemma zoned_unspecified_is_dialled :
  dialContext ex_resolver (λ _, Some (V6 0 "lo")) (λ _, "::%lo") ex_dial
    (normalized ex_resolver ex_policy) "tcp" "[::%lo]:443" =
    ([V6 0 "lo"], Ok "[::%lo]:443") ∧
  (dialContext ex_resolver (λ _, Some (V6 0 ε)) (λ _, "::") ex_dial
     (normalized ex_resolver ex_policy) "tcp" "[::]:443").1 = [].
Proof. split; vm_compute; reflexivity. Qed.

Lemma validate_address_exact_witness : permitted [] (V4 (quad 8 8 8 8)).
Proof.
  refine (validate_address_exact (λ _, "8.8.8.8") (V4 (quad 8 8 8 8)) [] _ eq_refl).
  split; [vm_compute; discriminate|vm_compute; reflexivity].
Defined.

(** A URL without a port, and one with the port 0. *)
Definition ex_url_of (host : string) (raw : string) : go URL :=
  Ok {| u_Scheme := "https"; u_Host := host; u_User := false; u_Fragment := ε |}.

Lemma validate_url_exact_witness :
  (∃ u, ValidateURL ex_resolver (ex_url_of "example.com") "https://example.com" ex_policy = Ok u ∧ url_allowed ex_policy u) ∧
  (∀ u, ex_url_of "example.com:0" "https://example.com:0" = Ok u → ¬ url_allowed ex_policy u).
Proof.
  pose proof (validate_url_exact ex_resolver (ex_url_of "example.com") "https://example.com" ex_policy) as H1.
  pose proof (validate_url_exact ex_resolver (ex_url_of "example.com:0") "https://example.com:0" ex_policy) as H2.
  split.
  - destruct (ValidateURL _ _ _ _) as [u|e] eqn:E; [|by vm_compute in E]. exists u. by destruct H1.
  - destruct (ValidateURL _ (ex_url_of "example.com:0") _ _) as [u|e] eqn:E; [by vm_compute in E|]. by destruct H2.
Defined.

Lemma ex_resolver_wf host l : ex_resolver host = Ok l → Forall addr_wf l.
Proof.
  intros [= <-]. constructor; [|constructor; [|constructor]];
    (split; [vm_compute; discriminate|vm_compute; reflexivity]).
Qed.

Lemma dial_only_permitted_witness :
  let '(dialled, r) := dialContext ex_resolver ex_parse (λ _, "address") ex_dial
                         (normalized ex_resolver ex_policy) "tcp" "example.com:443" in
  dialled = [] ∧ ∃ e, r = Err e ∧ is_sentinel (error_text ErrUnsafeDestination) e = true.
Proof.
  pose proof (dial_only_permitted ex_resolver ex_parse (λ _, "address") ex_dial ex_policy "tcp"
    "example.com:443" ltac:(intros host a H; discriminate H) ex_resolver_wf) as H.
  destruct (dialContext _ _ _ _ _ _ _) as [dialled r].
  change (SplitHostPort "example.com:443") with (@Ok error _ ("example.com", "443")) in H.
  cbn iota beta in H.
  change (default ex_resolver (p_Resolver ex_policy)) with ex_resolver in H.
  rewrite ex_resolved in H. destruct H as (_ & _ & _ & H). apply H. intros Hp.
  apply Forall_cons in Hp as [_ Hp]. apply Forall_cons in Hp as [Hp _].
  destruct Hp as [Hp|Hp]; [discriminate Hp|].
  unfold public in Hp. rewrite Forall_forall in Hp. apply (Hp (quad 127 0 0 0, 8)); [right; right; left|].
  split; [vm_compute; discriminate|vm_compute; reflexivity].
Defined.
