(* ===== verification/Headers.v ===== *)
(** [net/http] headers as the code uses them, and the header checks of
    src/message.go and src/sender.go.

    A [http.Header] is a map from names to value lists.  The order in which Go
    ranges over a map is unspecified: the functions that range over one take
    that order from the class [HeaderOrder], and the theorems hold for every
    instance of it. *)

From S2P Require Import Prelude GoString Errors.

Abbreviation Header := (gmap string (list string)).

(** The order [range] visits a header map in. *)
Class HeaderOrder := {
  range_header : Header → list (string * list string);
  range_header_perm : ∀ h, range_header h ≡ₚ map_to_list h
}.

(** One such order, for concrete runs. *)
Definition map_order : HeaderOrder :=
  {| range_header := map_to_list; range_header_perm := λ h, Permutation_refl _ |}.

(** The same enumeration backwards. *)
Program Definition reverse_order : HeaderOrder :=
  {| range_header h := reverse (map_to_list h) |}.
Next Obligation. intros h. simpl. by rewrite reverse_Permutation. Qed.

(** * net/http *)

(** The bytes of an HTTP token. *)
Definition token_set : string :=
  "!#$%&'*+-.^_`|~".
Definition token_byte (c : byte) : bool :=
  ((97 <=? ord c) && (ord c <=? 122)) || ((65 <=? ord c) && (ord c <=? 90))
  || ((48 <=? ord c) && (ord c <=? 57)) || contains_byte c token_set.

Fixpoint canon_from (upper : bool) (s : string) : string :=
  match s with
  | EmptyString => ε
  | String c s' =>
      String (if upper then upper_byte c else lower_byte c)
             (canon_from (bool_decide (c = chr 45)) s')
  end.

(** [http.CanonicalHeaderKey]: a name with a byte outside the token set is
    returned unchanged. *)
Definition CanonicalHeaderKey (name : string) : string :=
  if str_forall token_byte name then canon_from true name else name.

Definition h_values (h : Header) (name : string) : list string :=
  default [] (h !! CanonicalHeaderKey name).
Definition h_get (h : Header) (name : string) : string :=
  match h_values h name with v :: _ => v | [] => ε end.
Definition h_set (h : Header) (name value : string) : Header :=
  <[CanonicalHeaderKey name := [value]]> h.
Definition h_add (h : Header) (name value : string) : Header :=
  <[CanonicalHeaderKey name := h_values h name ++ [value]]> h.
Definition h_del (h : Header) (name : string) : Header :=
  delete (CanonicalHeaderKey name) h.

(** * src/message.go *)

(** The loop of [validHeaderName]. *)
Definition validHeaderName (name : string) : bool :=
  if str_eqb name ε || negb (str_eqb (TrimSpace name) name) then false
  else str_forall token_byte name.

(** A byte a header value may hold: a tab, or printable and not DEL. *)
Definition header_value_byte (c : byte) : bool :=
  (ord c =? 9) || ((32 <=? ord c) && negb (ord c =? 127)).

Definition forbidden_headers : list string :=
  ["host"; "content-length"; "connection"; "transfer-encoding"].

(** One iteration of the loop of [validateHeaders]. *)
Definition validateHeader (entry : string * list string) : go unit :=
  let '(name, values) := entry in
  _ ← reject (negb (validHeaderName name))
        (NewError CodeInvalidMessage "invalid HTTP header name" None);
  _ ← reject (bool_decide (lower_ascii name ∈ forbidden_headers))
        (NewError CodeInvalidMessage "HTTP header cannot be set by webhook payload" None);
  reject (existsb (λ v, negb (str_forall header_value_byte v)) values)
    (NewError CodeInvalidMessage "HTTP header value contains forbidden characters" None).

Fixpoint validate_entries (entries : list (string * list string)) : go unit :=
  match entries with
  | [] => Ok tt
  | e :: entries' => _ ← validateHeader e; validate_entries entries'
  end.

Definition validateHeaders `{HeaderOrder} (headers : Header) : go unit :=
  validate_entries (range_header headers).

(** * src/sender.go *)

(** The loop body of [copyHeaders]: clear the canonical name, add each value. *)
Definition copy_entry (destination : Header) (entry : string * list string) : Header :=
  let '(name, values) := entry in
  let canonical := CanonicalHeaderKey name in
  foldl (λ d v, h_add d canonical v) (h_del destination canonical) values.

#[global] Arguments copy_entry : simpl never.

Definition copyHeaders `{HeaderOrder} (destination source : Header) : go Header :=
  _ ← validateHeaders source;
  Ok (foldl copy_entry destination (range_header source)).

Definition response_secret_headers : list string :=
  ["Authorization"; "Proxy-Authorization"; "Cookie"; "Set-Cookie"].

Definition safeResponseHeaders (source : Header) : Header :=
  foldl h_del source response_secret_headers.

(** * Lemmas *)

Lemma safeResponseHeaders_lookup h name :
  safeResponseHeaders h !! name =
    if bool_decide (name ∈ ["Authorization"; "Proxy-Authorization"; "Cookie"; "Set-Cookie"])
    then None else h !! name.
Proof.
  unfold safeResponseHeaders, response_secret_headers. cbn [foldl]. unfold h_del.
  repeat match goal with |- context [CanonicalHeaderKey ?n] =>
    let c := eval vm_compute in (CanonicalHeaderKey n) in change (CanonicalHeaderKey n) with c end.
  case_bool_decide as Hn.
  - rewrite !elem_of_cons, elem_of_nil in Hn.
    destruct Hn as [->|[->|[->|[->|[]]]]];
      repeat (rewrite lookup_delete_eq || rewrite lookup_delete_ne by done); done.
  - rewrite !not_elem_of_cons in Hn. destruct Hn as (? & ? & ? & ? & _).
    by rewrite !lookup_delete_ne by done.
Qed.

Definition entry_valid (e : string * list string) : Prop :=
  validHeaderName (e.1) = true ∧ lower_ascii (e.1) ∉ forbidden_headers ∧
  Forall (λ v, str_forall header_value_byte v = true) e.2.

Lemma validateHeader_Ok e : validateHeader e = Ok tt ↔ entry_valid e.
Proof.
  destruct e as [name values]. unfold validateHeader, entry_valid; simpl. split.
  - intros H. go_inv. split_and!; [done|by eapply bool_decide_eq_false|].
    apply Forall_forall. intros v Hv.
    apply not_true_iff_false in H. destruct (str_forall header_value_byte v) eqn:E; [done|].
    exfalso. apply H. apply existsb_exists. exists v. split; [by apply list_elem_of_In|].
    by rewrite E.
  - intros (-> & Hf & Hv). simpl. rewrite bool_decide_false by done. simpl.
    apply reject_Ok. apply not_true_iff_false. intros (v & Hin & Hb)%existsb_exists.
    rewrite Forall_forall in Hv. rewrite Hv in Hb by (by apply list_elem_of_In). done.
Qed.

Lemma validate_entries_Ok l : validate_entries l = Ok tt ↔ Forall entry_valid l.
Proof.
  induction l as [|e l IH]; simpl; [by split|].
  rewrite bind_Ok, Forall_cons, <-IH, <-validateHeader_Ok. split.
  - intros ([] & ? & ?). done.
  - intros [H1 H2]. by exists tt.
Qed.

Lemma validateHeader_Err e err :
  validateHeader e = Err err → ErrorCode (Some err) = CodeInvalidMessage.
Proof.
  destruct e as [name values]. unfold validateHeader. intros H. by go_err.
Qed.

Lemma validate_entries_Err l err :
  validate_entries l = Err err → ErrorCode (Some err) = CodeInvalidMessage.
Proof.
  induction l as [|e l IH]; simpl; [done|].
  intros [H|([] & _ & H)]%bind_Err; [by eapply validateHeader_Err|by apply IH].
Qed.

Section order.
Context `{HeaderOrder}.

Lemma range_header_elem h name values :
  (name, values) ∈ range_header h ↔ h !! name = Some values.
Proof. rewrite range_header_perm. apply elem_of_map_to_list. Qed.

(** Whether a header map is accepted does not depend on the order. *)
Lemma validateHeaders_Ok h :
  validateHeaders h = Ok tt ↔ ∀ name values, h !! name = Some values → entry_valid (name, values).
Proof.
  unfold validateHeaders. rewrite validate_entries_Ok, Forall_forall. split.
  - intros Hall name values Hl. apply Hall. by apply range_header_elem.
  - intros Hall [name values] Hin. apply Hall. by apply range_header_elem.
Qed.
End order.

(** ** Canonical names *)

Lemma upper_byte_token c : token_byte c = true → token_byte (upper_byte c) = true.
Proof.
  intros Hc. unfold upper_byte. zcase; try done. unfold token_byte.
  rewrite ord_chr by (pose proof (ord_range c); lia). zcase; done.
Qed.

Lemma lower_byte_token c : token_byte c = true → token_byte (lower_byte c) = true.
Proof.
  intros Hc. unfold lower_byte. zcase; try done. unfold token_byte.
  rewrite ord_chr by (pose proof (ord_range c); lia). zcase; done.
Qed.

Lemma canon_from_token b s :
  str_forall token_byte s = true → str_forall token_byte (canon_from b s) = true.
Proof.
  revert b. induction s as [|c s IH]; intros b; [done|]. simpl.
  intros [Hc Hs]%andb_true_iff. apply andb_true_iff. split; [|by apply IH].
  destruct b; [by apply upper_byte_token|by apply lower_byte_token].
Qed.

Lemma upper_upper c : upper_byte (upper_byte c) = upper_byte c.
Proof.
  unfold upper_byte at 2 3. pose proof (ord_range c). zcase; [|unfold upper_byte; zcase..];
    try done. unfold upper_byte. rewrite ord_chr by lia. zcase. done.
Qed.

Lemma lower_lower c : lower_byte (lower_byte c) = lower_byte c.
Proof.
  unfold lower_byte at 2 3. pose proof (ord_range c). zcase; [|unfold lower_byte; zcase..];
    try done. unfold lower_byte. rewrite ord_chr by lia. zcase. done.
Qed.

Lemma case_dash (up : bool) c :
  (if up then upper_byte c else lower_byte c) = chr 45 ↔ c = chr 45.
Proof.
  pose proof (ord_range c). split.
  - intros H1%(f_equal ord). rewrite (ord_chr 45) in H1 by lia. apply (inj ord).
    rewrite (ord_chr 45) by lia. revert H1. unfold upper_byte, lower_byte.
    destruct up; zcase; rewrite ?ord_chr by lia; lia.
  - intros ->. destruct up; reflexivity.
Qed.

Lemma canon_from_idemp b s : canon_from b (canon_from b s) = canon_from b s.
Proof.
  revert b. induction s as [|c s IH]; intros b; [done|]. cbn [canon_from]. f_equal.
  - destruct b; [apply upper_upper|apply lower_lower].
  - rewrite (bool_decide_ext _ _ (case_dash b c)). apply IH.
Qed.

Lemma CanonicalHeaderKey_idemp s :
  CanonicalHeaderKey (CanonicalHeaderKey s) = CanonicalHeaderKey s.
Proof.
  unfold CanonicalHeaderKey. destruct (str_forall token_byte s) eqn:E; [|by rewrite E].
  rewrite canon_from_token by done. apply canon_from_idemp.
Qed.

Lemma h_values_set h n v : h_values (h_set h n v) n = [v].
Proof. unfold h_values, h_set. by rewrite lookup_insert_eq. Qed.

Lemma h_values_set_ne h n m v :
  CanonicalHeaderKey n ≠ CanonicalHeaderKey m → h_values (h_set h n v) m = h_values h m.
Proof. intros. unfold h_values, h_set. by rewrite lookup_insert_ne. Qed.

Lemma h_get_values h n v : h_values h n = [v] → h_get h n = v.
Proof. unfold h_get. by intros ->. Qed.

(** ** Copying *)

Lemma foldl_h_add d c vs :
  CanonicalHeaderKey c = c →
  foldl (λ d v, h_add d c v) d vs =
    match vs with [] => d | _ => <[c := h_values d c ++ vs]> d end.
Proof.
  intros Hc. revert d. induction vs as [|v vs IH]; intros d; [done|].
  cbn [foldl]. rewrite IH. unfold h_add at 1 2 3. rewrite Hc.
  destruct vs as [|v' vs]; [done|].
  assert (h_values (<[c:=h_values d c ++ [v]]> d) c = h_values d c ++ [v]) as Hv.
  { unfold h_values at 1. by rewrite Hc, lookup_insert_eq. }
  rewrite Hv, insert_insert_eq, <-(assoc_L (++)). done.
Qed.

(** A copied entry replaces the values of its canonical name and nothing else. *)
Lemma copy_entry_spec d name values k :
  copy_entry d (name, values) !! k =
    if decide (k = CanonicalHeaderKey name)
    then match values with [] => None | _ => Some values end
    else d !! k.
Proof.
  unfold copy_entry. rewrite foldl_h_add by apply CanonicalHeaderKey_idemp.
  unfold h_del, h_values. rewrite CanonicalHeaderKey_idemp.
  set (c := CanonicalHeaderKey name). rewrite lookup_delete_eq. simpl.
  destruct (decide (k = c)) as [->|Hk].
  - destruct values; [apply lookup_delete_eq|apply lookup_insert_eq].
  - destruct values; [by apply lookup_delete_ne|].
    rewrite lookup_insert_ne by done. by apply lookup_delete_ne.
Qed.

Lemma foldl_copy_lookup l d k :
  NoDup (map (λ e, CanonicalHeaderKey (e.1)) l) →
  foldl copy_entry d l !! k =
    match list_find (λ e, CanonicalHeaderKey (e.1) = k) l with
    | Some (_, (_, values)) => match values with [] => None | _ => Some values end
    | None => d !! k
    end.
Proof.
  revert d. induction l as [|[name values] l IH]; intros d; [done|].
  cbn [map foldl]. intros [Hnin Hnd]%NoDup_cons. rewrite IH by done. simpl.
  case_decide as Hk.
  - destruct (list_find _ l) as [[i [n' v']]|] eqn:E.
    + exfalso. apply list_find_Some in E as (Hi & Hn' & _). simpl in Hn'.
      apply Hnin. simpl. rewrite Hk, <-Hn'. apply list_elem_of_fmap.
      exists (n', v'). split; [done|]. by eapply list_elem_of_lookup_2.
    + rewrite copy_entry_spec. subst k. by rewrite decide_True.
  - destruct (list_find _ l) as [[i [n' v']]|] eqn:E; simpl; [done|].
    rewrite copy_entry_spec. by rewrite decide_False by congruence.
Qed.

Lemma list_find_unique (l : list (string * list string)) k x :
  NoDup (map (λ e, CanonicalHeaderKey (e.1)) l) → x ∈ l → CanonicalHeaderKey (x.1) = k →
  ∃ i, list_find (λ e, CanonicalHeaderKey (e.1) = k) l = Some (i, x).
Proof.
  intros Hnd Hx Hk. destruct (list_find_elem_of (λ e, CanonicalHeaderKey (e.1) = k) l x Hx Hk)
    as [[i y] Hy]. exists i. rewrite Hy. do 2 f_equal.
  apply list_find_Some in Hy as (Hi & Hyk & _). apply list_elem_of_lookup in Hx as [j Hj].
  assert (i = j) as ->.
  { eapply (NoDup_lookup _ i j k Hnd); rewrite list_lookup_fmap.
    - rewrite Hi. simpl. by rewrite Hyk.
    - rewrite Hj. simpl. by rewrite Hk. }
  congruence.
Qed.

(** No two names of the map are spellings of one canonical name. *)
Definition canonical_distinct (h : Header) : Prop :=
  ∀ n1 n2 v1 v2, h !! n1 = Some v1 → h !! n2 = Some v2 →
    CanonicalHeaderKey n1 = CanonicalHeaderKey n2 → n1 = n2.

Section copy.
Context `{HeaderOrder}.

Lemma range_header_NoDup_canonical h :
  canonical_distinct h → NoDup (map (λ e, CanonicalHeaderKey (e.1)) (range_header h)).
Proof.
  intros Hd. apply NoDup_fmap_2_strong.
  - intros [n1 v1] [n2 v2] Hx Hy Hc. simpl in Hc.
    apply range_header_elem in Hx, Hy. assert (n1 = n2) as <- by eauto. congruence.
  - rewrite range_header_perm. apply NoDup_map_to_list.
Qed.

Lemma copyHeaders_hit d s r name values :
  canonical_distinct s → copyHeaders d s = Ok r → s !! name = Some values →
  r !! CanonicalHeaderKey name = match values with [] => None | _ => Some values end.
Proof.
  intros Hd Hc Hs. unfold copyHeaders in Hc. go_inv.
  rewrite foldl_copy_lookup by (by apply range_header_NoDup_canonical).
  destruct (list_find_unique (range_header s) (CanonicalHeaderKey name) (name, values))
    as [i ->]; [by apply range_header_NoDup_canonical|by apply range_header_elem|done|done].
Qed.

Lemma copyHeaders_miss d s r k :
  canonical_distinct s → copyHeaders d s = Ok r →
  (∀ name values, s !! name = Some values → CanonicalHeaderKey name ≠ k) → r !! k = d !! k.
Proof.
  intros Hd Hc Hk. unfold copyHeaders in Hc. go_inv.
  rewrite foldl_copy_lookup by (by apply range_header_NoDup_canonical).
  destruct (list_find _ _) as [[i [n v]]|] eqn:E; [|done].
  apply list_find_Some in E as (Hi & Hn & _). exfalso. eapply Hk; [|exact Hn].
  apply range_header_elem. by eapply list_elem_of_lookup_2.
Qed.

Lemma copyHeaders_Ok_valid d s r : copyHeaders d s = Ok r → validateHeaders s = Ok tt.
Proof. unfold copyHeaders. intros Hc. by go_inv. Qed.
End copy.

(** * Properties *)

(** Copying headers does not depend on the order in which the map is ranged
    over when no two names are spellings of the same header: any two runs fail
    together, or both succeed with the same headers. *)
Lemma copyHeaders_order_independent (o1 o2 : HeaderOrder) d s :
  canonical_distinct s →
  match @copyHeaders o1 d s, @copyHeaders o2 d s with
  | Ok r1, Ok r2 => r1 = r2
  | Err _, Err _ => True
  | _, _ => False
  end.
Proof.
  intros Hd.
  assert (∀ o o' : HeaderOrder, @validateHeaders o s = Ok tt → @validateHeaders o' s = Ok tt) as Hv.
  { intros o o' Ho. apply validateHeaders_Ok. by apply (proj1 (@validateHeaders_Ok o s)). }
  destruct (@copyHeaders o1 d s) as [r1|] eqn:E1, (@copyHeaders o2 d s) as [r2|] eqn:E2; try done.
  - apply map_eq. intros k.
    destruct (decide (Exists (λ e, CanonicalHeaderKey (e.1) = k) (map_to_list s))) as [He|He].
    + apply Exists_exists in He as ([n v] & Hin%elem_of_map_to_list & <-). simpl.
      by rewrite (@copyHeaders_hit o1 d s r1 n v), (@copyHeaders_hit o2 d s r2 n v).
    + assert (∀ name values, s !! name = Some values → CanonicalHeaderKey name ≠ k) as Hne.
      { intros n v Hn Hk. apply He, Exists_exists. exists (n, v).
        split; [by apply elem_of_map_to_list|done]. }
      by rewrite (@copyHeaders_miss o1 d s r1 k), (@copyHeaders_miss o2 d s r2 k).
  - apply copyHeaders_Ok_valid, (Hv _ o2) in E1. unfold copyHeaders in E2. by rewrite E1 in E2.
  - apply copyHeaders_Ok_valid, (Hv _ o1) in E2. unfold copyHeaders in E1. by rewrite E2 in E1.
Qed.

(** When two names are spellings of one header, the header sent depends on
    the iteration order of the map. *)
Lemma copyHeaders_order_dependent :
  ∃ (o1 o2 : HeaderOrder) s r1 r2,
    @copyHeaders o1 ∅ s = Ok r1 ∧ @copyHeaders o2 ∅ s = Ok r2 ∧
    h_get r1 "X-Tenant" ≠ h_get r2 "X-Tenant".
Proof.
  exists map_order, reverse_order, (<["X-Tenant" := ["a"]]> {["x-tenant" := ["b"]]}).
  do 2 eexists. split; [vm_compute; reflexivity|]. split; [vm_compute; reflexivity|].
  vm_compute. discriminate.
Qed.

(** * Witnesses *)

Lemma copyHeaders_order_independent_witness :
  match @copyHeaders map_order ∅ {["x-tenant" := ["b"]]},
        @copyHeaders reverse_order ∅ {["x-tenant" := ["b"]]} with
  | Ok r1, Ok r2 => r1 = r2
  | Err _, Err _ => True
  | _, _ => False
  end.
Proof.
  apply copyHeaders_order_independent.
  intros n1 n2 v1 v2 [-> _]%lookup_singleton_Some [-> _]%lookup_singleton_Some _. reflexivity.
Defined.
