(* ===== verification/Message.v ===== *)
(** src/message.go and the identifier checks of src/id.go: the message and
    request types, what makes them valid, and message identifiers. *)

From S2P Require Import Prelude GoString Codec GoTime Errors Headers.

(** * Identifiers: src/id.go *)

Definition messageIDPrefix : string := "msg_".

Definition control_byte (c : byte) : bool := (ord c <? 32) || (ord c =? 127).

(** The byte ['.']. *)
Definition DOT : byte := chr 46.

Definition ValidateMessageID (id : string) : go unit :=
  _ ← reject (str_eqb id ε) (NewError CodeInvalidMessage "message id is required" None);
  _ ← reject (200 <? slen id) (NewError CodeInvalidMessage "message id is too long" None);
  _ ← reject (negb (str_eqb (TrimSpace id) id) || contains_byte DOT id)
        (NewError CodeInvalidMessage "message id contains forbidden characters" None);
  reject (str_exists control_byte id)
    (NewError CodeInvalidMessage "message id contains forbidden characters" None).

(** [RandomIDGenerator.NewMessageID]: [read] is the outcome of filling the
    sixteen entropy bytes from the reader. *)
Definition NewMessageID (read : go string) : go string :=
  match read with
  | Err e => Err (JoinError [ErrIDGeneration; e])
  | Ok entropy => Ok (messageIDPrefix +:+ lower_ascii (b32_encode entropy))
  end.

(** [IDGenerator], in surroundings [E]. *)
Definition IDGenerator (E : Type) : Type := E → go string.

(** [RandomIDGenerator{Reader: reader}]; [rand_Reader] is [crypto/rand.Reader]. *)
Definition RandomIDGenerator {E} (rand_Reader : E → go string) (reader : option (E → go string))
    : IDGenerator E := λ e, NewMessageID (default rand_Reader reader e).

Definition idGeneratorOrRandom {E} (rand_Reader : E → go string) (generator : option (IDGenerator E))
    : IDGenerator E :=
  match generator with None => RandomIDGenerator rand_Reader None | Some g => g end.

(** * Event types: src/message.go *)

(** A rune an event type may hold. *)
Definition event_rune (r : Z) : bool :=
  ((97 <=? r) && (r <=? 122)) || ((65 <=? r) && (r <=? 90))
  || ((48 <=? r) && (r <=? 57)) || (r =? 95) || (r =? 45) || (r =? 46).

Definition ValidateEventType (eventType : string) : go unit :=
  _ ← reject (str_eqb eventType ε) (NewError CodeInvalidMessage "event type is required" None);
  _ ← reject (200 <? slen eventType) (NewError CodeInvalidMessage "event type is too long" None);
  reject (negb (forallb (λ '(r, _), event_rune r) (runes eventType)))
    (NewError CodeInvalidMessage "event type contains unsupported characters" None).

(** * Messages *)

(** [VerifiedMessage]. *)
Record VerifiedMessage := {
  vm_ID : string;
  vm_Type : string;
  vm_Source : string;
  vm_Timestamp : time;
  vm_Body : string;
  vm_ContentType : string;
  vm_Headers : Header;
  vm_Metadata : gmap string string
}.

(** [(m VerifiedMessage) Clone()]: slices and maps are values here, so the copy
    is the message itself. *)
Definition VerifiedMessage_Clone (m : VerifiedMessage) : VerifiedMessage :=
  {| vm_ID := vm_ID m; vm_Type := vm_Type m; vm_Source := vm_Source m;
     vm_Timestamp := vm_Timestamp m; vm_Body := vm_Body m;
     vm_ContentType := vm_ContentType m; vm_Headers := vm_Headers m;
     vm_Metadata := vm_Metadata m |}.

Definition VerifiedMessage_Validate (m : VerifiedMessage) : go unit :=
  _ ← ValidateMessageID (vm_ID m);
  _ ← ValidateEventType (vm_Type m);
  reject (str_eqb (TrimSpace (vm_Source m)) ε)
    (NewError CodeInvalidMessage "message source is required" None).

(** * Requests *)

(** The parts of an outgoing [*http.Request] that the sender sets. *)
Record HTTPRequest := { hr_Method : string; hr_URL : string; hr_Header : Header; hr_Body : string }.

Definition with_header (h : Header) (q : HTTPRequest) : HTTPRequest :=
  {| hr_Method := hr_Method q; hr_URL := hr_URL q; hr_Header := h; hr_Body := hr_Body q |}.

(** [Authenticator]: [Apply] gets the whole request and may change any part of it. *)
Definition Authenticator : Type := HTTPRequest → go HTTPRequest.

(** [SendRequest]. *)
Record SendRequest := {
  sr_ID : string;
  sr_URL : string;
  sr_EventType : string;
  sr_Body : string;
  sr_ContentType : string;
  sr_Headers : Header;
  sr_Auth : option Authenticator
}.

Definition SendRequest_Validate `{HeaderOrder} (r : SendRequest) : go unit :=
  _ ← (if str_eqb (sr_ID r) ε then Ok tt else ValidateMessageID (sr_ID r));
  _ ← ValidateEventType (sr_EventType r);
  _ ← reject (str_eqb (TrimSpace (sr_URL r)) ε)
        (NewError CodeInvalidURL "destination URL is required" None);
  _ ← reject (contains_any crlfnul (sr_ContentType r))
        (NewError CodeInvalidMessage "content type contains forbidden characters" None);
  validateHeaders (sr_Headers r).

(** [JSONBody]: [encoded] is what the JSON encoder wrote, a line feed at its end. *)
Definition trim_newline_suffix (s : string) : string :=
  match str_rev s with
  | String c r => if ord c =? 10 then str_rev r else s
  | EmptyString => s
  end.
Definition JSONBody (encoded : go string) : go string :=
  match encoded with
  | Err e => Err (NewError CodeInvalidMessage "encode JSON payload" (Some e))
  | Ok s => Ok (trim_newline_suffix s)
  end.

(** * Lemmas *)

Definition id_ok (id : string) : Prop :=
  id ≠ ε ∧ slen id ≤ 200 ∧ TrimSpace id = id ∧ contains_byte DOT id = false ∧
  str_exists control_byte id = false.

(** The identifiers that pass are exactly these. *)
Lemma ValidateMessageID_iff id : ValidateMessageID id = Ok tt ↔ id_ok id.
Proof.
  unfold ValidateMessageID, id_ok. split.
  - intros H. go_inv. split_and!; try done.
    + by eapply str_eqb_false.
    + by apply Z.ltb_ge.
    + by apply str_eqb_true.
  - intros (Hne & Hlen & Ht & Hd & Hc).
    rewrite (proj2 (str_eqb_false id ε) Hne), (proj2 (Z.ltb_ge 200 (slen id)) Hlen).
    rewrite (proj2 (str_eqb_true (TrimSpace id) id) Ht), Hd, Hc. done.
Qed.

Lemma ValidateMessageID_Err id e :
  ValidateMessageID id = Err e → ErrorCode (Some e) = CodeInvalidMessage.
Proof. unfold ValidateMessageID. intros H. by go_err. Qed.

Lemma ValidateEventType_Err t e :
  ValidateEventType t = Err e → ErrorCode (Some e) = CodeInvalidMessage.
Proof. unfold ValidateEventType. intros H. by go_err. Qed.

(** ** Runes below 128 are single bytes *)

Lemma cont_range c lo hi : cont c lo hi = true → lo ≤ ord c ≤ hi.
Proof. unfold cont. rewrite andb_true_iff, !Z.leb_le. lia. Qed.

Ltac split_conds :=
  repeat match goal with
  | H : (_ && _) = true |- _ => apply andb_true_iff in H as [? H]
  | H : cont _ _ _ = true |- _ => apply cont_range in H
  | H : (_ <=? _) = true |- _ => apply Z.leb_le in H
  | H : (_ <? _) = false |- _ => apply Z.ltb_ge in H
  end.

Lemma decode_rune_ascii c s r n :
  decode_rune (String c s) = (r, n) → r < 128 → r = ord c ∧ n = 1%nat.
Proof.
  intros H Hr. unfold decode_rune in H. unfold RuneError in H.
  repeat case_match; simplify_eq; try done; split_conds;
    repeat match goal with H : (_ =? _) = true |- _ => apply Z.eqb_eq in H end; try lia;
    repeat match goal with H : (_ =? _) = false |- _ => apply Z.eqb_neq in H end; lia.
Qed.

Lemma runes_ascii (p : Z → bool) s :
  (∀ r, p r = true → r < 128) →
  forallb (λ '(r, _), p r) (runes s) = true → str_forall (λ c, p (ord c)) s = true.
Proof.
  intros Hp. unfold runes. induction s as [|c s IH]; [done|].
  cbn [runes_from]. destruct (decode_rune (String c s)) as [r n] eqn:E.
  cbn [forallb]. intros [Hr Hs]%andb_true_iff.
  destruct (decode_rune_ascii _ _ _ _ E (Hp _ Hr)) as [-> ->].
  cbn [str_forall]. rewrite Hr. by apply IH.
Qed.

Definition event_byte (c : byte) : bool := event_rune (ord c).

Lemma ValidateEventType_bytes t :
  ValidateEventType t = Ok tt → t ≠ ε ∧ slen t ≤ 200 ∧ str_forall event_byte t = true.
Proof.
  unfold ValidateEventType. intros H. go_inv. split_and!.
  - by eapply str_eqb_false.
  - by apply Z.ltb_ge.
  - apply (runes_ascii event_rune); [|done].
    intros r. unfold event_rune. rewrite !orb_true_iff, !andb_true_iff, !Z.leb_le, !Z.eqb_eq. lia.
Qed.

(** ** Generated identifiers *)

Definition id_byte (c : byte) : bool :=
  ((97 <=? ord c) && (ord c <=? 122)) || ((50 <=? ord c) && (ord c <=? 55)) || (ord c =? 95).

Lemma id_byte_spec c :
  id_byte c = true → 97 ≤ ord c ≤ 122 ∨ 50 ≤ ord c ≤ 55 ∨ ord c = 95.
Proof. unfold id_byte. rewrite !orb_true_iff, !andb_true_iff, !Z.leb_le, Z.eqb_eq. lia. Qed.

Lemma lower_b32_symbol c : b32_symbol c = true → id_byte (lower_byte c) = true.
Proof.
  unfold b32_symbol. rewrite orb_true_iff, !andb_true_iff, !Z.leb_le. intros H.
  unfold lower_byte. zcase; unfold id_byte; rewrite ?ord_chr by lia; zcase; done.
Qed.

Lemma str_forall_map (p q : byte → bool) f s :
  (∀ c, p c = true → q (f c) = true) → str_forall p s = true → str_forall q (str_map f s) = true.
Proof.
  intros Hpq. induction s as [|c s IH]; [done|]. simpl.
  intros [Hc Hs]%andb_true_iff. by rewrite Hpq, IH.
Qed.

Lemma str_map_length f s : String.length (str_map f s) = String.length s.
Proof. induction s; simpl; auto. Qed.

Lemma id_bytes_ok id : id ≠ ε → slen id ≤ 200 → str_forall id_byte id = true → id_ok id.
Proof.
  intros Hne Hlen Hb. split_and!; [done|done|..].
  - apply TrimSpace_plain. eapply str_forall_impl; [|done].
    intros c Hc%id_byte_spec. apply plain_spec. lia.
  - eapply str_exists_false; [|done]. intros c Hc%id_byte_spec.
    apply bool_decide_false. intros ->. unfold DOT in Hc. rewrite ord_chr in Hc; lia.
  - eapply str_exists_false; [|done]. intros c Hc%id_byte_spec. unfold control_byte. zcase; done.
Qed.

Lemma opaque_id_bytes prefix entropy :
  str_forall id_byte prefix = true → String.length entropy = 16%nat →
  let id := prefix +:+ lower_ascii (b32_encode entropy) in
  str_forall id_byte id = true ∧ String.length id = (String.length prefix + 26)%nat.
Proof.
  intros Hp Hlen. simpl. split.
  - rewrite str_forall_app, Hp. unfold lower_ascii.
    eapply str_forall_map; [apply lower_b32_symbol|apply b32_encode_symbols].
  - rewrite length_str_app. unfold lower_ascii. rewrite str_map_length, b32_encode_16; done.
Qed.

#[export] Hint Resolve ValidateMessageID_Err ValidateEventType_Err : go.

(** * Properties *)

(** A generated identifier is always accepted: from any sixteen entropy bytes
    [NewMessageID] builds the prefix and 26 base32 symbols, and the result passes
    [ValidateMessageID]; when the entropy source fails it reports
    [ErrIDGeneration]. *)
Lemma generated_id_valid read :
  match read with
  | Ok entropy => slen entropy = 16 →
      ∃ id, NewMessageID read = Ok id ∧ ValidateMessageID id = Ok tt ∧ slen id = 30 ∧
        str_take 4 id = messageIDPrefix
  | Err _ => ∃ e, NewMessageID read = Err e ∧ is_sentinel (error_text ErrIDGeneration) e = true
  end.
Proof.
  destruct read as [entropy|e]; [|by eexists]. intros Hlen.
  destruct (opaque_id_bytes messageIDPrefix entropy) as [Hb Hl];
    [reflexivity|unfold slen in Hlen; lia|].
  eexists. split; [reflexivity|]. split_and!.
  - apply ValidateMessageID_iff, id_bytes_ok; [done|unfold slen; rewrite Hl; simpl; lia|done].
  - unfold slen. rewrite Hl. reflexivity.
  - reflexivity.
Qed.

Lemma generated_id_valid_witness :
  ∃ id, NewMessageID (Ok "0123456789abcdef") = Ok id ∧ ValidateMessageID id = Ok tt ∧
    slen id = 30 ∧ str_take 4 id = messageIDPrefix.
Proof. exact (generated_id_valid (Ok "0123456789abcdef") eq_refl). Defined.
