(* ===== verification/Retry.v ===== *)
(** src/retry.go: retry schedules, jitter and the next attempt time. *)

From S2P Require Import Prelude GoTime.

(** [CryptoJitter.Duration]: [random] is the little-endian uint64 read from
    crypto/rand, [None] a failed read. *)
Definition CryptoJitter (random : option Z) (max : duration) : duration :=
  if max <=? 0 then 0
  else match random with
       | None => Z.quot max 2
       | Some value => value mod ((max + 1) mod 2 ^ 64)
       end.

(** [RetryPolicy]; the [Jitter] interface is any function, [None] the nil interface. *)
Record RetryPolicy := {
  rp_Schedule : list duration;
  rp_MaxAttempts : Z;
  rp_Jitter : option (duration → duration)
}.

(** [StandardRetryPolicy]: its jitter is [CryptoJitter{}]. *)
Definition StandardRetryPolicy (random : option Z) : RetryPolicy :=
  {| rp_Schedule := [5 * Second; 5 * Minute; 30 * Minute; 2 * Hour; 5 * Hour; 10 * Hour;
                     14 * Hour; 20 * Hour; 24 * Hour];
     rp_MaxAttempts := 10;
     rp_Jitter := Some (CryptoJitter random) |}.

(** The number of attempts the policy allows. *)
Definition rp_maximum (p : RetryPolicy) : Z :=
  if rp_MaxAttempts p <=? 0 then Z.of_nat (length (rp_Schedule p)) + 1 else rp_MaxAttempts p.

(** The index of the schedule entry used after [attempt], clamped to the last. *)
Definition schedule_index (p : RetryPolicy) (attempt : Z) : nat :=
  let index := attempt - 1 in
  let len := Z.of_nat (length (rp_Schedule p)) in
  Z.to_nat (if len <=? index then len - 1 else index).

(** [(p RetryPolicy) Next]: [None] is [(time.Time{}, false)].  [random] is what
    the default jitter reads when the policy names none. *)
Definition Next (random : option Z) (p : RetryPolicy) (now : time) (attempt : Z) : option time :=
  if attempt <=? 0 then None
  else if rp_maximum p <=? attempt then None
  else match rp_Schedule p !! schedule_index p attempt with
  | None => None
  | Some delay =>
      if (delay <? 0) || (int64_max / 2 <? delay) then None
      else
        let jitter := default (CryptoJitter random) (rp_Jitter p) in
        let maximumJitter := Z.quot delay 5 in
        let j := jitter maximumJitter in
        let j := if j <? 0 then 0 else j in
        let j := if maximumJitter <? j then maximumJitter else j in
        if int64_max - j <? delay then None else Some (Add now (delay + j))
  end.

(** * Theorems *)

(** The default jitter stays within [[0, max]] for every uint64. *)
Lemma CryptoJitter_range random max :
  in_int64 max → 0 ≤ max → (∀ v, random = Some v → 0 ≤ v < 2 ^ 64) →
  0 ≤ CryptoJitter random max ≤ max.
Proof.
  unfold in_int64, int64_max, CryptoJitter. intros Hmax H0 Hr.
  destruct (Z.leb_spec max 0); [lia|].
  destruct random as [v|].
  - rewrite (Z.mod_small (max + 1)) by lia. pose proof (Z.mod_pos_bound v (max + 1)). lia.
  - rewrite Z.quot_div_nonneg by lia. Z.to_euclidean_division_equations. lia.
Qed.

Lemma schedule_index_lt p attempt :
  0 < attempt → rp_Schedule p ≠ [] →
  (schedule_index p attempt < length (rp_Schedule p))%nat.
Proof.
  intros Ha Hs. unfold schedule_index.
  assert (0 < length (rp_Schedule p))%nat by (destruct (rp_Schedule p); simpl; [done|lia]).
  case_match eqn:E; [apply Z.leb_le in E|apply Z.leb_gt in E]; lia.
Qed.

Lemma Next_Some random p now attempt t :
  Next random p now attempt = Some t →
  0 < attempt < rp_maximum p ∧
  ∃ delay j, rp_Schedule p !! schedule_index p attempt = Some delay ∧
    0 ≤ delay ≤ int64_max / 2 ∧ 0 ≤ j ≤ Z.quot delay 5 ∧ t = Add now (delay + j).
Proof.
  unfold Next. intros H.
  destruct (Z.leb_spec attempt 0); [done|].
  destruct (Z.leb_spec (rp_maximum p) attempt); [done|].
  split; [lia|].
  destruct (rp_Schedule p !! schedule_index p attempt) as [delay|] eqn:Ed; [|done].
  destruct (Z.ltb_spec delay 0); [done|]. destruct (Z.ltb_spec (int64_max / 2) delay); [done|].
  cbn [orb] in H.
  set (j := default (CryptoJitter random) (rp_Jitter p) (Z.quot delay 5)) in *.
  assert (0 ≤ Z.quot delay 5) by (rewrite Z.quot_div_nonneg by lia; apply Z.div_pos; lia).
  exists delay. eexists. split_and!; [done|lia|lia|..].
  3: { destruct (_ <? delay); [done|]. injection H as <-. reflexivity. }
  all: zcase; lia.
Qed.

(** Within the attempts allowed, a usable delay always gives a time. *)
Lemma Next_total random p now attempt delay :
  0 < attempt < rp_maximum p → rp_Schedule p !! schedule_index p attempt = Some delay →
  0 ≤ delay ≤ int64_max / 2 → is_Some (Next random p now attempt).
Proof.
  intros Ha Hd Hb. unfold Next.
  destruct (Z.leb_spec attempt 0); [lia|]. destruct (Z.leb_spec (rp_maximum p) attempt); [lia|].
  rewrite Hd. destruct (Z.ltb_spec delay 0); [lia|].
  destruct (Z.ltb_spec (int64_max / 2) delay); [lia|]. cbn [orb].
  assert (0 ≤ Z.quot delay 5 ≤ delay).
  { rewrite Z.quot_div_nonneg by lia. Z.to_euclidean_division_equations. lia. }
  match goal with |- context [int64_max - ?x <? delay] => set (j := x) end.
  assert (j ≤ Z.quot delay 5) by (subst j; zcase; lia).
  replace (int64_max - j <? delay) with false; [by eexists|].
  symmetry. apply Z.ltb_ge. unfold int64_max in *. Z.to_euclidean_division_equations. lia.
Qed.

(** * Properties *)

(** The next attempt is scheduled inside its window: whatever policy, jitter
    source and attempt number, a time that [Next] returns is the schedule's delay
    after [now] plus at most a fifth of it, computed without overflow, and it is
    only returned while attempts remain. *)
Lemma next_attempt_window random p now attempt t :
  time_sane now → Next random p now attempt = Some t →
  0 < attempt < rp_maximum p ∧
  ∃ delay, rp_Schedule p !! schedule_index p attempt = Some delay ∧ 0 ≤ delay ∧
    now + delay ≤ t ≤ now + delay + Z.quot delay 5.
Proof.
  intros Hs (Hr & delay & j & Hd & Hb & Hj & ->)%Next_Some. split; [done|].
  exists delay. split; [done|]. split; [lia|].
  rewrite Z.quot_div_nonneg in * by lia.
  rewrite time_sane_add; [lia|done|]. unfold in_int64, int64_min, int64_max in *.
  Z.to_euclidean_division_equations. lia.
Qed.

(** The standard policy schedules exactly nine retries: a time is returned
    after attempts 1 to 9 and after no other, whatever the entropy source does. *)
Lemma standard_policy_attempts random now attempt :
  is_Some (Next random (StandardRetryPolicy random) now attempt) ↔ 1 ≤ attempt ≤ 9.
Proof.
  split.
  - intros [t Ht%Next_Some]. destruct Ht as [Hr _]. change (rp_maximum _) with 10 in Hr. lia.
  - intros Ha. assert (∃ delay, rp_Schedule (StandardRetryPolicy random)
      !! schedule_index (StandardRetryPolicy random) attempt = Some delay ∧
      0 ≤ delay ≤ int64_max / 2) as (delay & Hd & Hb).
    { assert (attempt ∈ [1; 2; 3; 4; 5; 6; 7; 8; 9]) as Hin by (rewrite !elem_of_cons; lia).
      repeat (apply elem_of_cons in Hin as [->|Hin];
        [eexists; split; [reflexivity|by vm_compute]|]). by apply elem_of_nil in Hin. }
    eapply Next_total; eauto. change (rp_maximum _) with 10. lia.
Qed.

(** * Witness: the second attempt of the standard policy *)

Lemma next_attempt_window_witness :
  0 < 2 < 10 ∧
  ∃ delay, rp_Schedule (StandardRetryPolicy None) !! 1%nat = Some delay ∧ 0 ≤ delay ∧
    Second + delay ≤ Second + 330 * Second ≤ Second + delay + Z.quot delay 5.
Proof.
  apply (next_attempt_window None (StandardRetryPolicy None) Second 2 (Second + 330 * Second)).
  - by vm_compute.
  - vm_compute. reflexivity.
Defined.
