(* ===== verification/Outcome.v ===== *)
(** src/outcome.go: the classification of one HTTP attempt. *)

From S2P Require Import Prelude GoString GoTime Errors Headers.

(** [type Outcome uint8]; 0 is the zero value. *)
Definition Outcome : Type := Z.
Definition OutcomeDelivered : Outcome := 1.
Definition OutcomeRetry : Outcome := 2.
Definition OutcomePermanentFailure : Outcome := 3.
Definition OutcomeDisableDestination : Outcome := 4.

Definition Outcome_String (o : Outcome) : string :=
  if o =? OutcomeDelivered then "delivered"
  else if o =? OutcomeRetry then "retry"
  else if o =? OutcomePermanentFailure then "permanent_failure"
  else if o =? OutcomeDisableDestination then "disable_destination"
  else "unknown".

(** [AttemptResult]. *)
Record AttemptResult := {
  ar_MessageID : string;
  ar_AttemptedAt : time;
  ar_Outcome : Outcome;
  ar_StatusCode : Z;
  ar_Duration : duration;
  ar_RetryAt : time;
  ar_ResponseHeader : Header;
  ar_ResponseBody : string;
  ar_ErrorCode : Code
}.

(** [AttemptResult{}] *)
Definition empty_result : AttemptResult :=
  {| ar_MessageID := ε; ar_AttemptedAt := zero_time; ar_Outcome := 0; ar_StatusCode := 0;
     ar_Duration := 0; ar_RetryAt := zero_time; ar_ResponseHeader := ∅; ar_ResponseBody := ε;
     ar_ErrorCode := ε |}.

(** The part of a [*http.Response] the classifier looks at. *)
Record HTTPResponse := { resp_StatusCode : Z; resp_Header : Header }.

(** The cap a classifier works with. *)
Definition retry_cap (maxRetryAfter : duration) : duration :=
  if maxRetryAfter <=? 0 then 24 * Hour else maxRetryAfter.

Section classifier.
(** [http.ParseTime]: the three date formats of HTTP. *)
Context (ParseTime : string → option time).

(** [(c DefaultClassifier) retryAfter]; [maxRetryAfter] is [c.MaxRetryAfter]. *)
Definition retryAfter (maxRetryAfter : duration) (now : time) (value : string) : time :=
  let value := TrimSpace value in
  if str_eqb value ε then zero_time
  else
    let maximum := retry_cap maxRetryAfter in
    let http_date :=
      match ParseTime value with
      | Some parsed =>
          if After parsed now then
            if maximum <? Sub parsed now then Add now maximum else parsed
          else zero_time
      | None => zero_time
      end in
    match ParseInt value with
    | Some seconds =>
        if 0 <=? seconds then
          if Z.quot maximum Second <? seconds then Add now maximum
          else Add now (wrap64 (seconds * Second))
        else http_date
    | None => http_date
    end.

(** [(c DefaultClassifier) Classify]: every transport error retries, whether it
    is a [net.Error] or not. *)
Definition Classify (maxRetryAfter : duration) (now : time)
    (response : option HTTPResponse) (err : option error) : Outcome * time :=
  match err with
  | Some _ => (OutcomeRetry, zero_time)
  | None =>
      match response with
      | None => (OutcomeRetry, zero_time)
      | Some r =>
          let status := resp_StatusCode r in
          let retry := (OutcomeRetry,
                        retryAfter maxRetryAfter now (h_get (resp_Header r) "Retry-After")) in
          if (200 <=? status) && (status <=? 299) then (OutcomeDelivered, zero_time)
          else if status =? 410 then (OutcomeDisableDestination, zero_time)
          else if (status =? 408) || (status =? 425) || (status =? 429) then retry
          else if 500 <=? status then retry
          else (OutcomePermanentFailure, zero_time)
      end
  end.

(** * Lemmas *)

Lemma date_bounds maximum now parsed :
  time_sane now → in_int64 maximum → 0 < maximum →
  After parsed now = true →
  let r := if maximum <? Sub parsed now then Add now maximum else parsed in
  now ≤ r ≤ now + maximum ∨ maximum = int64_max.
Proof.
  intros Hs Hm H0 Ha%Z.ltb_lt. simpl.
  destruct (decide (maximum = int64_max)) as [->|Hne]; [by right|left].
  rewrite (time_sane_add now maximum) by done.
  destruct (Z.ltb_spec maximum (Sub parsed now)) as [H|H]; [lia|].
  unfold in_int64 in Hm. apply Sub_le in H; unfold in_int64; lia.
Qed.

Lemma seconds_bounds maximum now seconds :
  time_sane now → in_int64 maximum → 0 < maximum → 0 ≤ seconds →
  let r := if Z.quot maximum Second <? seconds then Add now maximum
           else Add now (wrap64 (seconds * Second)) in
  now ≤ r ≤ now + maximum.
Proof.
  intros Hs Hm H0 Hsec. simpl. rewrite (time_sane_add now maximum) by done.
  destruct (Z.ltb_spec (Z.quot maximum Second) seconds) as [H|H]; [lia|].
  rewrite Z.quot_div_nonneg in H by (unfold Second; lia).
  assert (0 ≤ seconds * Second ≤ maximum) as Hb.
  { split; [unfold Second; lia|]. unfold Second in *.
    pose proof (Z.mul_div_le maximum 1000000000 ltac:(lia)). lia. }
  assert (in_int64 (seconds * Second)) by (unfold in_int64, int64_min, int64_max in *; lia).
  rewrite wrap64_id, time_sane_add by done. lia.
Qed.

(** * Properties *)

(** A remote end cannot push an attempt out of the configured window: whatever
    its Retry-After text (a number, a date, neither, or a number whose product
    overflows), the time taken from it is either absent or between now and now
    plus the cap. *)
Lemma retry_after_bounded maxRetryAfter now value :
  time_sane now → in_int64 maxRetryAfter → maxRetryAfter < int64_max →
  let t := retryAfter maxRetryAfter now value in
  t = zero_time ∨ now ≤ t ≤ now + retry_cap maxRetryAfter.
Proof.
  intros Hs Hm Hlt. unfold retryAfter.
  assert (in_int64 (retry_cap maxRetryAfter) ∧ 0 < retry_cap maxRetryAfter < int64_max)
    as [Hm' [H0 Hc]].
  { unfold retry_cap. destruct (Z.leb_spec maxRetryAfter 0); [by vm_compute|done]. }
  generalize dependent (retry_cap maxRetryAfter). intros maximum Hm' H0 Hc. simpl.
  destruct (str_eqb (TrimSpace value) ε); [by left|].
  assert (∀ parsed, After parsed now = true →
    now ≤ (if maximum <? Sub parsed now then Add now maximum else parsed) ≤ now + maximum) as Hdate.
  { intros parsed Ha. destruct (date_bounds maximum now parsed Hs Hm' H0 Ha) as [?| ->]; [done|lia]. }
  destruct (ParseInt (TrimSpace value)) as [seconds|].
  - destruct (Z.leb_spec 0 seconds); [right; by apply seconds_bounds|].
    destruct (ParseTime _) as [parsed|]; [|by left].
    destruct (After parsed now) eqn:Ha; [right; auto|by left].
  - destruct (ParseTime _) as [parsed|]; [|by left].
    destruct (After parsed now) eqn:Ha; [right; auto|by left].
Qed.

(** The classification is total and separates the cases: a delivery is
    recorded exactly for a 2xx response, a destination is disabled exactly for
    410, errors and the statuses 408, 425, 429 and 5xx retry, and everything else
    fails for good. *)
Lemma classify_complete maxRetryAfter now response err :
  let o := (Classify maxRetryAfter now response err).1 in
  let status s := err = None ∧ ∃ r, response = Some r ∧ resp_StatusCode r = s in
  (o = OutcomeDelivered ↔ ∃ s, status s ∧ 200 ≤ s ≤ 299) ∧
  (o = OutcomeDisableDestination ↔ status 410) ∧
  (o = OutcomeRetry ↔ err ≠ None ∨ response = None ∨
     ∃ s, status s ∧ (s = 408 ∨ s = 425 ∨ s = 429 ∨ 500 ≤ s)) ∧
  (o = OutcomePermanentFailure ↔ ∃ s, status s ∧ s < 500 ∧ ¬ 200 ≤ s ≤ 299 ∧
     s ≠ 410 ∧ s ≠ 408 ∧ s ≠ 425 ∧ s ≠ 429).
Proof.
  unfold Classify. destruct err as [e|]; [naive_solver|].
  destruct response as [[s hdr]|]; [|naive_solver]. simpl.
  zcase; simpl; unfold OutcomeDelivered, OutcomeDisableDestination, OutcomeRetry,
    OutcomePermanentFailure; split_and!; split; intros; destruct_and?; naive_solver lia.
Qed.
End classifier.

(** * Witness: a Retry-After of two minutes, capped at one *)

Lemma retry_after_bounded_witness :
  retryAfter (λ _, None) Minute Hour "120" = Hour + Minute ∧
  (Hour + Minute = zero_time ∨ Hour ≤ Hour + Minute ≤ Hour + Minute).
Proof.
  split; [vm_compute; reflexivity|].
  apply (retry_after_bounded (λ _, None) Minute Hour "120"); by vm_compute.
Defined.
