(* ===== verification/Handler.v ===== *)
(** src/handler.go: handlers and the registry that dispatches verified messages.

    A handler acts on the application's state [W]; it returns an error or nil,
    or panics.  The registry's mutex makes each registration one step. *)

From S2P Require Import Prelude GoString GoTime Errors Headers Message.

(** [%q] of a text that holds nothing to escape. *)
Definition DQUOTE : byte := chr 34.
Definition quoted (s : string) : string := String DQUOTE (s +:+ String DQUOTE ε).

(** How a call of user code ends. *)
Inductive outcome_of_call : Type :=
| Returned (err : option error)
| Panicked (value : string).

Definition Handler (W : Type) : Type := VerifiedMessage → W → outcome_of_call * W.

Section registry.
Context {W : Type}.

(** [Registry]. *)
Record Registry := {
  reg_handlers : gmap string (Handler W);
  reg_any : option (Handler W)
}.

Definition NewRegistry : Registry := {| reg_handlers := ∅; reg_any := None |}.

(** [(r *Registry) Register]; [None] is a nil registry or a nil handler. *)
Definition Register (r : option Registry) (eventType : string) (handler : option (Handler W))
    : go Registry :=
  r ← of_option (NewError CodeInvalidConfiguration "registry is nil" None) r;
  _ ← ValidateEventType eventType;
  handler ← of_option (NewError CodeInvalidConfiguration "handler is required" None) handler;
  match reg_handlers r !! eventType with
  | Some _ =>
      Err (NewError CodeConflict ("handler already registered for " +:+ quoted eventType) None)
  | None =>
      Ok {| reg_handlers := <[eventType := handler]> (reg_handlers r); reg_any := reg_any r |}
  end.

(** [(r *Registry) RegisterAny]. *)
Definition RegisterAny (r : option Registry) (handler : option (Handler W)) : go Registry :=
  match r, handler with
  | Some r, Some handler =>
      match reg_any r with
      | Some _ => Err (NewError CodeConflict "catch-all handler already registered" None)
      | None => Ok {| reg_handlers := reg_handlers r; reg_any := Some handler |}
      end
  | _, _ => Err (NewError CodeInvalidConfiguration "registry and handler are required" None)
  end.

(** The handler a message type is dispatched to. *)
Definition dispatch (r : Registry) (eventType : string) : option (Handler W) :=
  match reg_handlers r !! eventType with Some h => Some h | None => reg_any r end.

(** The error a handler's error becomes: coded errors pass through. *)
Definition handler_error (err : error) : error :=
  match as_coded err with
  | Some _ => err
  | None => NewError CodeHandler "handle webhook" (Some err)
  end.

(** [(r *Registry) Handle]: a [Handler] itself. *)
Definition Registry_Handle (r : Registry) : Handler W := λ message w,
  match dispatch r (vm_Type message) with
  | None =>
      (Returned (Some (NewError CodeUnknownEvent
         ("no handler for event type " +:+ quoted (vm_Type message)) None)), w)
  | Some handler =>
      match handler (VerifiedMessage_Clone message) w with
      | (Returned (Some err), w') => (Returned (Some (handler_error err)), w')
      | r' => r'
      end
  end.

(** [Message[T]]. *)
Record Message (T : Type) := {
  m_ID : string; m_Type : string; m_Source : string; m_Timestamp : time; m_Data : T;
  m_Raw : string; m_ContentType : string; m_Headers : Header; m_Metadata : gmap string string
}.

(** [HandleJSON]: [unmarshal] is [json.Unmarshal] into a [T]. *)
Definition json_handler {T} (unmarshal : string → go T)
    (fn : Message T → W → outcome_of_call * W) : Handler W := λ verified w,
  match unmarshal (vm_Body verified) with
  | Err e => (Returned (Some (NewError CodeDecode "decode JSON webhook" (Some e))), w)
  | Ok data =>
      fn {| m_ID := vm_ID verified; m_Type := vm_Type verified; m_Source := vm_Source verified;
            m_Timestamp := vm_Timestamp verified; m_Data := data; m_Raw := vm_Body verified;
            m_ContentType := vm_ContentType verified; m_Headers := vm_Headers verified;
            m_Metadata := vm_Metadata verified |} w
  end.

Definition HandleJSON {T} (unmarshal : string → go T) (r : option Registry) (eventType : string)
    (fn : option (Message T → W → outcome_of_call * W)) : go Registry :=
  match fn with
  | None => Err (NewError CodeInvalidConfiguration "JSON handler is required" None)
  | Some fn => Register r eventType (Some (json_handler unmarshal fn))
  end.

(** * Lemmas *)

Lemma Register_Ok r r' t h :
  Register (Some r) t (Some h) = Ok r' →
  ValidateEventType t = Ok tt ∧ reg_handlers r !! t = None ∧
  r' = {| reg_handlers := <[t := h]> (reg_handlers r); reg_any := reg_any r |}.
Proof.
  unfold Register. intros H. go_inv. simplify_eq. simpl in *.
  match goal with H : match _ with _ => _ end = Ok _ |- _ =>
    destruct (reg_handlers _ !! t) eqn:E; [done|]; injection H as <- end.
  done.
Qed.

Lemma dispatch_registered r r' t h t' :
  Register (Some r) t (Some h) = Ok r' →
  dispatch r' t' = if decide (t' = t) then Some h else dispatch r t'.
Proof.
  intros (_ & Hn & ->)%Register_Ok. unfold dispatch. simpl.
  case_decide as Ht.
  - subst. by rewrite lookup_insert_eq.
  - by rewrite lookup_insert_ne.
Qed.

Lemma handler_error_coded err : ∃ c, as_coded (handler_error err) = Some c.
Proof. unfold handler_error. destruct (as_coded err) eqn:E; eauto. Qed.
End registry.
Arguments Registry : clear implicits.

(** * Properties *)

Section dispatching.
Context {W : Type}.

(** The registrations that build a registry, in order. *)
Inductive registration : Type :=
| ForType (eventType : string) (handler : Handler W)
| ForAny (handler : Handler W).

Definition apply_registration (r : Registry W) (x : registration) : go (Registry W) :=
  match x with
  | ForType t h => Register (Some r) t (Some h)
  | ForAny h => RegisterAny (Some r) (Some h)
  end.

Fixpoint register_all (r : Registry W) (xs : list registration) : go (Registry W) :=
  match xs with
  | [] => Ok r
  | x :: xs => r' ← apply_registration r x; register_all r' xs
  end.

Lemma register_all_spec xs r0 r :
  register_all r0 xs = Ok r →
  (∀ t h, reg_handlers r !! t = Some h ↔ reg_handlers r0 !! t = Some h ∨ ForType t h ∈ xs) ∧
  (∀ h, reg_any r = Some h ↔ reg_any r0 = Some h ∨ ForAny h ∈ xs).
Proof.
  revert r0. induction xs as [|x xs IH]; intros r0; simpl.
  - intros [= ->]. split; intros; rewrite elem_of_nil; tauto.
  - intros (r1 & H1 & [IHt IHa]%IH)%bind_Ok. destruct x as [t' h'|h']; simpl in H1.
    + apply Register_Ok in H1 as (_ & Hn & ->). simpl in *. split.
      * intros t h. rewrite IHt, lookup_insert_Some, elem_of_cons. split.
        -- intros [[[<- <-]|[? ?]]|?]; auto.
        -- intros [?|[[= -> ->]|?]]; auto. left. right. split; [congruence|done].
      * intros h. rewrite IHa, elem_of_cons. naive_solver.
    + destruct (reg_any r0) eqn:Ea; [done|]. injection H1 as <-. simpl in *. split.
      * intros t h. rewrite IHt, elem_of_cons. naive_solver.
      * intros h. rewrite IHa, elem_of_cons. naive_solver.
Qed.

(** A handler run by the registry: its error, if any, carries a code. *)
Definition run_coded (h : Handler W) (m : VerifiedMessage) (w : W) : outcome_of_call * W :=
  match h (VerifiedMessage_Clone m) w with
  | (Returned (Some err), w') => (Returned (Some (handler_error err)), w')
  | r => r
  end.

(** Dispatch follows the registrations: after any sequence of accepted
    registrations a message runs the handler registered for its type, or else the
    catch-all handler, or else no handler at all and is reported as an unknown
    event; registering a type or a catch-all twice is a conflict. *)
Lemma registry_dispatches xs r m w :
  register_all NewRegistry xs = Ok r →
  (∀ h, ForType (vm_Type m) h ∈ xs → Registry_Handle r m w = run_coded h m w) ∧
  ((∀ h, ForType (vm_Type m) h ∉ xs) →
     (∀ h, ForAny h ∈ xs → Registry_Handle r m w = run_coded h m w) ∧
     ((∀ h, ForAny h ∉ xs) → ∃ e, Registry_Handle r m w = (Returned (Some e), w) ∧
        ErrorCode (Some e) = CodeUnknownEvent)) ∧
  (∀ t h h', ForType t h ∈ xs → err_code (Register (Some r) t (Some h')) ∈ [CodeConflict; CodeInvalidMessage]) ∧
  (∀ h h', ForAny h ∈ xs → err_code (RegisterAny (Some r) (Some h')) = CodeConflict).
Proof.
  intros [Ht Ha]%register_all_spec. simpl in *. unfold Registry_Handle, dispatch. split_and!.
  - intros h Hin. by rewrite (proj2 (Ht _ _) (or_intror Hin)).
  - intros Hno. assert (reg_handlers r !! vm_Type m = None) as ->.
    { destruct (reg_handlers r !! vm_Type m) as [h|] eqn:E; [|done].
      apply Ht in E as [?|Hin]; [set_solver|by destruct (Hno h)]. }
    split.
    + intros h Hin. by rewrite (proj2 (Ha h) (or_intror Hin)).
    + intros Hnone. destruct (reg_any r) as [h|] eqn:E; [|by eexists].
      destruct (proj1 (Ha h) eq_refl) as [?|Hin]; [done|by destruct (Hnone h)].
  - intros t h h' Hin. unfold Register. cbn [of_option mbind result_bind].
    destruct (ValidateEventType t) as [[]|e] eqn:Ev; cbn [mbind result_bind].
    + rewrite (proj2 (Ht _ _) (or_intror Hin)). set_solver.
    + apply ValidateEventType_Err in Ev. unfold err_code. rewrite Ev. set_solver.
  - intros h h' Hin. unfold RegisterAny. by rewrite (proj2 (Ha h) (or_intror Hin)).
Qed.
End dispatching.

(** * Witness *)

Lemma registry_dispatches_witness :
  let h : Handler nat := λ _ w, (Returned None, S w) in
  let xs := [ForType "ping" h] in
  match register_all NewRegistry xs with
  | Ok r =>
      err_code (Register (Some r) "ping" (Some h)) ∈ [CodeConflict; CodeInvalidMessage]
  | Err _ => False
  end.
Proof.
  intros h xs. destruct (register_all NewRegistry xs) as [r|] eqn:E; [|vm_compute in E; discriminate].
  exact (proj1 (proj2 (proj2 (registry_dispatches xs r
    {| vm_ID := "m"; vm_Type := "ping"; vm_Source := "s"; vm_Timestamp := 1; vm_Body := "{}";
       vm_ContentType := "x"; vm_Headers := ∅; vm_Metadata := ∅ |} 0%nat E))) "ping" h h
    (proj2 (elem_of_cons _ _ _) (or_introl eq_refl))).
Defined.
