(* ===== verification/Auth.v ===== *)
(** src/auth.go: transport authenticators applied to the outgoing request. *)

From S2P Require Import Prelude GoString Codec Errors Headers Message.

(** A [SecretProvider]: its dynamic type's name and what [Secret] returns. *)
Record SecretProvider := { sp_type : string; sp_Secret : go string }.

(** [StaticSecret]. *)
Definition StaticSecret (s : string) : SecretProvider :=
  {| sp_type := "hookbound.StaticSecret"; sp_Secret := Ok s |}.

Definition containsHeaderControl (value : string) : bool :=
  str_exists (λ c, negb (header_value_byte c)) value.

Definition resolveSecret (provider : option SecretProvider) : go string :=
  provider ← of_option (NewError CodeInvalidConfiguration "secret provider is required" None) provider;
  secret ← map_err (λ e, NewError CodeInternal "resolve secret" (Some e)) (sp_Secret provider);
  _ ← reject (str_eqb secret ε)
        (NewError CodeInvalidConfiguration "resolved secret is empty" None);
  _ ← reject (containsHeaderControl secret)
        (NewError CodeInvalidConfiguration
           ("resolved secret contains forbidden characters for " +:+ sp_type provider) None);
  Ok secret.

Definition BearerAuth (provider : option SecretProvider) : Authenticator := λ q,
  secret ← resolveSecret provider;
  Ok (with_header (h_set (hr_Header q) "Authorization" ("Bearer " +:+ secret)) q).

(** The byte [':']. *)
Definition COLON : byte := chr 58.

Definition BasicAuth (username : string) (password : option SecretProvider) : Authenticator :=
  λ q,
  _ ← reject (str_eqb username ε || contains_byte COLON username || containsHeaderControl username)
        (NewError CodeInvalidConfiguration "invalid basic authentication username" None);
  secret ← resolveSecret password;
  let credential := b64_encode StdEncoding (username +:+ String COLON secret) in
  Ok (with_header (h_set (hr_Header q) "Authorization" ("Basic " +:+ credential)) q).

Definition HeaderAuth (name : string) (provider : option SecretProvider) : go Authenticator :=
  let canonical := CanonicalHeaderKey name in
  _ ← reject (negb (validHeaderName name))
        (NewError CodeInvalidConfiguration "invalid authentication header name" None);
  Ok (λ q, secret ← resolveSecret provider;
          Ok (with_header (h_set (hr_Header q) canonical secret) q)).

(** * Lemmas *)

Definition header_value_ok (v : string) : Prop := str_forall header_value_byte v = true.

Lemma containsHeaderControl_false v : containsHeaderControl v = false ↔ header_value_ok v.
Proof.
  unfold containsHeaderControl, header_value_ok. rewrite str_exists_forall, negb_false_iff.
  split; apply str_forall_impl; intros c; by rewrite negb_involutive.
Qed.

Lemma resolveSecret_Ok p s :
  resolveSecret p = Ok s → header_value_ok s ∧ s ≠ ε ∧ ∃ q, p = Some q ∧ sp_Secret q = Ok s.
Proof.
  unfold resolveSecret. intros H. go_inv. split_and!.
  - by apply containsHeaderControl_false.
  - by eapply str_eqb_false.
  - eauto.
Qed.

Lemma plain_header_value c : plain c = true → header_value_byte c = true.
Proof. intros Hc%plain_spec. unfold header_value_byte. zcase; done. Qed.

Lemma header_value_b64 e s : header_value_ok (b64_encode e s).
Proof.
  unfold header_value_ok. eapply str_forall_impl; [apply plain_header_value|apply b64_encode_plain].
Qed.

Lemma header_value_app a b : header_value_ok a → header_value_ok b → header_value_ok (a +:+ b).
Proof. unfold header_value_ok. intros Ha Hb. by rewrite str_forall_app, Ha, Hb. Qed.

#[export] Hint Resolve header_value_b64 header_value_app : go.

(** * Properties *)

(** The authenticators of src/auth.go. *)
Inductive repo_auth : Authenticator → string → Prop :=
| is_bearer p : repo_auth (BearerAuth p) "Authorization"
| is_basic user p : repo_auth (BasicAuth user p) "Authorization"
| is_header name p a : HeaderAuth name p = Ok a → repo_auth a (CanonicalHeaderKey name).

(** No header injection: an authenticator that succeeds sets exactly one
    header, its own, to one non-empty value without control characters, and changes
    no other header and no other part of the request; every failure leaves the
    request unsent. *)
Lemma authenticator_sets_one_safe_header a name built req :
  repo_auth a name → a built = Ok req →
  ∃ v, req = with_header (<[CanonicalHeaderKey name := [v]]> (hr_Header built)) built ∧
       header_value_ok v ∧ v ≠ ε.
Proof.
  intros Ha H.
  assert (∀ p s, resolveSecret p = Ok s → header_value_ok s ∧ s ≠ ε) as Hres
    by (intros p s (? & ? & _)%resolveSecret_Ok; done).
  destruct Ha as [p|user p|name p a Hh].
  - unfold BearerAuth in H. go_inv. eexists. split; [reflexivity|]. split; [|done].
    apply header_value_app; [reflexivity|]. by eapply Hres.
  - unfold BasicAuth in H. go_inv. eexists. split; [reflexivity|]. split; [|done].
    apply header_value_app; [reflexivity|apply header_value_b64].
  - unfold HeaderAuth in Hh. go_inv. eexists. split; [|by eapply Hres]. unfold h_set.
    done.
Qed.

(** What an authenticator, if there is one, makes of the request that was built. *)
Definition applied (auth : option Authenticator) (built req : HTTPRequest) : Prop :=
  match auth with Some apply => apply built = Ok req | None => req = built end.

(** No authenticator, or one of the repository's. *)
Definition repository_auth (auth : option Authenticator) : Prop :=
  match auth with Some apply => ∃ name, repo_auth apply name | None => True end.

Lemma applied_repository auth built req :
  repository_auth auth → applied auth built req →
  hr_Method req = hr_Method built ∧ hr_URL req = hr_URL built ∧ hr_Body req = hr_Body built.
Proof.
  destruct auth as [apply|]; simpl; [|by intros _ ->].
  intros [name Hrepo] Ha. by destruct (authenticator_sets_one_safe_header _ _ _ _ Hrepo Ha) as (v & -> & _).
Qed.

(** The authenticators that keep a header of a set, and the body, as they are. *)
Definition auth_keeps (names : list string) (auth : option Authenticator) : Prop :=
  ∀ built req, applied auth built req →
    hr_Body req = hr_Body built ∧
    ∀ name, name ∈ names → h_values (hr_Header req) name = h_values (hr_Header built) name.

Lemma no_auth_keeps names : auth_keeps names None.
Proof. by intros built req ->. Qed.

(** A repository authenticator that is not for one of these headers keeps them all. *)
Lemma repo_auth_keeps names apply own :
  repo_auth apply own → (∀ name, name ∈ names → CanonicalHeaderKey name ≠ CanonicalHeaderKey own) →
  auth_keeps names (Some apply).
Proof.
  intros Hrepo Hother built req Ha. simpl in Ha.
  destruct (authenticator_sets_one_safe_header _ _ _ _ Hrepo Ha) as (v & -> & _). split; [done|].
  intros name Hn. unfold h_values. simpl. by rewrite lookup_insert_ne by (intros E; by eapply Hother).
Qed.

(** * Witness *)

Lemma authenticator_sets_one_safe_header_witness :
  ∃ v, {| hr_Method := "POST"; hr_URL := "https://example.com/"; hr_Body := "{}";
          hr_Header := <["Authorization" := ["Bearer s3cret"]]> ∅ |} =
       with_header (<[CanonicalHeaderKey "Authorization" := [v]]> ∅)
         {| hr_Method := "POST"; hr_URL := "https://example.com/"; hr_Body := "{}"; hr_Header := ∅ |} ∧
       header_value_ok v ∧ v ≠ ε.
Proof.
  apply (authenticator_sets_one_safe_header (BearerAuth (Some (StaticSecret "s3cret")))
    "Authorization"); [constructor|vm_compute; reflexivity].
Defined.
