(* ===== verification/Replay.v ===== *)
(** src/replay.go: the in-memory replay guard, its critical sections, and the
    request goroutines that share it.

    Each critical section under the mutex is one function on the guard; a
    goroutine that finds an active claim leaves the mutex and blocks on that
    claim's channel.  Channels are numbered; closing one puts it in [g_closed]. *)

From S2P Require Import Prelude GoString GoTime Errors Message.

(** [memoryReplayEntry]. *)
Record entry := {
  e_accepted : bool;
  e_expiresAt : time;
  e_done : option nat
}.

(** [MemoryReplayGuard], with the channels made and closed so far. *)
Record guard := {
  g_entries : gmap string entry;
  g_max : Z;
  g_fresh : nat;
  g_closed : gset nat
}.

(** [NewMemoryReplayGuard] *)
Definition NewMemoryReplayGuard (maxEntries : Z) : guard :=
  {| g_entries := ∅;
     g_max := if maxEntries <=? 0 then 10000 else maxEntries;
     g_fresh := 0; g_closed := ∅ |}.

(** [source + "\x00" + id] *)
Definition replay_key (source id : string) : string := source +:+ String NUL id.

Definition set_entries (g : guard) (m : gmap string entry) : guard :=
  {| g_entries := m; g_max := g_max g; g_fresh := g_fresh g; g_closed := g_closed g |}.

(** How one pass of the loop of [Claim] ends. *)
Inductive claim_result : Type :=
| Claimed
| Duplicate
| WaitFor (done : option nat)
| CapacityReached.

Definition expired (now : time) (e : entry) : bool :=
  e_accepted e && negb (After (e_expiresAt e) now).

(** The entries left when a full map is swept of expired ones. *)
Definition sweep (g : guard) (now : time) : gmap string entry :=
  if g_max g <=? Z.of_nat (size (g_entries g))
  then filter (λ kv, expired now kv.2 = false) (g_entries g)
  else g_entries g.

(** The end of the loop body: make room, then record the claim. *)
Definition record_claim (g : guard) (now : time) (key : string) : claim_result * guard :=
  let entries := sweep g now in
  if g_max g <=? Z.of_nat (size entries) then (CapacityReached, set_entries g entries)
  else (Claimed,
        {| g_entries := <[key := {| e_accepted := false; e_expiresAt := zero_time;
                                    e_done := Some (g_fresh g) |}]> entries;
           g_max := g_max g; g_fresh := S (g_fresh g); g_closed := g_closed g |}).

(** One pass of the loop of [Claim], between [Lock] and [Unlock]. *)
Definition claim_pass (g : guard) (now : time) (key : string) : claim_result * guard :=
  match g_entries g !! key with
  | Some e =>
      if e_accepted e then
        if After (e_expiresAt e) now then (Duplicate, g)
        else record_claim (set_entries g (delete key (g_entries g))) now key
      else (WaitFor (e_done e), g)
  | None => record_claim g now key
  end.

(** What ends a wait: the channel closed, the guard then read at a later time in
    the state other goroutines left it in; or the context cancelled. *)
Inductive wait_event : Type :=
| Woken (g : guard) (now : time)
| Cancelled (err : error).

(** [(g *MemoryReplayGuard) Claim]: [None] when the goroutine is still blocked
    after the given events. *)
Fixpoint Claim (g : guard) (now : time) (key : string) (events : list wait_event)
    : option (go bool * guard) :=
  match claim_pass g now key with
  | (Claimed, g') => Some (Ok true, g')
  | (Duplicate, g') => Some (Ok false, g')
  | (CapacityReached, g') =>
      Some (Err (NewError CodeInternal "memory replay guard capacity reached" None), g')
  | (WaitFor _, g') =>
      match events with
      | [] => None
      | Woken g'' now' :: events' => Claim g'' now' key events'
      | Cancelled e :: _ =>
          Some (Err (NewError CodeInternal "wait for active replay claim" (Some e)), g')
      end
  end.

Definition close (g : guard) (done : option nat) : gset nat :=
  match done with Some c => {[c]} ∪ g_closed g | None => g_closed g end.

(** [(g *MemoryReplayGuard) Commit] *)
Definition Commit (g : guard) (key : string) (expiresAt : time) : go unit * guard :=
  let conflict :=
    (Err (NewError CodeConflict "memory replay claim is not active" None), g) in
  match g_entries g !! key with
  | None => conflict
  | Some e =>
      if e_accepted e then conflict
      else (Ok tt,
            {| g_entries := <[key := {| e_accepted := true; e_expiresAt := expiresAt;
                                        e_done := None |}]> (g_entries g);
               g_max := g_max g; g_fresh := g_fresh g; g_closed := close g (e_done e) |})
  end.

(** [(g *MemoryReplayGuard) Release] *)
Definition Release (g : guard) (key : string) : go unit * guard :=
  match g_entries g !! key with
  | None => (Ok tt, g)
  | Some e =>
      if e_accepted e then
        (Err (NewError CodeConflict "cannot release an accepted replay claim" None), g)
      else (Ok tt,
            {| g_entries := delete key (g_entries g); g_max := g_max g;
               g_fresh := g_fresh g; g_closed := close g (e_done e) |})
  end.

(** * Request goroutines *)

(** Where a request stands with its replay key. *)
Inductive thread : Type :=
| TClaim (key : string)                  (** about to take the mutex in [Claim] *)
| TWait (key : string) (done : option nat) (** blocked in the [select] of [Claim] *)
| THandle (key : string)                 (** claimed; the handler is running *)
| TSucceeded (key : string)              (** the handler returned nil; [Commit] is next *)
| TFailed (key : string)                 (** the handler failed or panicked; [Release] is next *)
| TAcked (key : string)                  (** answered as a duplicate *)
| TCommitted (key : string)              (** answered after its own commit *)
| TReleased (key : string)               (** answered after its release *)
| TError (key : string).                 (** answered with the error of [Claim] *)

(** The guard, the goroutines, and the keys whose handler has succeeded (a
    history variable). *)
Record system := {
  s_guard : guard;
  s_threads : gmap nat thread;
  s_handled : gset string
}.

(** One step of one goroutine; [now] and [expiresAt] come from the clock. *)
Inductive sys_step : system → system → Prop :=
| step_arrive g ts h i key :
    ts !! i = None →
    sys_step {| s_guard := g; s_threads := ts; s_handled := h |}
             {| s_guard := g; s_threads := <[i := TClaim key]> ts; s_handled := h |}
| step_claim g ts h i key now r g' :
    ts !! i = Some (TClaim key) → claim_pass g now key = (r, g') →
    sys_step {| s_guard := g; s_threads := ts; s_handled := h |}
             {| s_guard := g';
                s_threads := <[i := match r with
                                    | Claimed => THandle key
                                    | Duplicate => TAcked key
                                    | WaitFor done => TWait key done
                                    | CapacityReached => TError key
                                    end]> ts;
                s_handled := h |}
| step_wake g ts h i key c :
    ts !! i = Some (TWait key (Some c)) → c ∈ g_closed g →
    sys_step {| s_guard := g; s_threads := ts; s_handled := h |}
             {| s_guard := g; s_threads := <[i := TClaim key]> ts; s_handled := h |}
| step_cancel g ts h i key done :
    ts !! i = Some (TWait key done) →
    sys_step {| s_guard := g; s_threads := ts; s_handled := h |}
             {| s_guard := g; s_threads := <[i := TError key]> ts; s_handled := h |}
| step_handler_ok g ts h i key :
    ts !! i = Some (THandle key) →
    sys_step {| s_guard := g; s_threads := ts; s_handled := h |}
             {| s_guard := g; s_threads := <[i := TSucceeded key]> ts;
                s_handled := {[key]} ∪ h |}
| step_handler_fail g ts h i key :
    ts !! i = Some (THandle key) →
    sys_step {| s_guard := g; s_threads := ts; s_handled := h |}
             {| s_guard := g; s_threads := <[i := TFailed key]> ts; s_handled := h |}
| step_commit g ts h i key expiresAt r g' :
    ts !! i = Some (TSucceeded key) → Commit g key expiresAt = (r, g') →
    sys_step {| s_guard := g; s_threads := ts; s_handled := h |}
             {| s_guard := g';
                s_threads := <[i := match r with Ok _ => TCommitted key | Err _ => TError key end]> ts;
                s_handled := h |}
| step_release g ts h i key r g' :
    ts !! i = Some (TFailed key) → Release g key = (r, g') →
    sys_step {| s_guard := g; s_threads := ts; s_handled := h |}
             {| s_guard := g'; s_threads := <[i := TReleased key]> ts; s_handled := h |}.

Definition initial (maxEntries : Z) : system :=
  {| s_guard := NewMemoryReplayGuard maxEntries; s_threads := ∅; s_handled := ∅ |}.

(** The systems any interleaving of request goroutines can reach. *)
Definition reachable (maxEntries : Z) (s : system) : Prop := rtc sys_step (initial maxEntries) s.

(** * The guard's invariant *)

Definition active (e : entry) : Prop := e_accepted e = false.

Record guard_wf (g : guard) : Prop := {
  wf_max : 0 < g_max g;
  wf_size : Z.of_nat (size (g_entries g)) ≤ g_max g;
  wf_done k e : g_entries g !! k = Some e → active e →
    ∃ c, e_done e = Some c ∧ (c < g_fresh g)%nat ∧ c ∉ g_closed g;
  wf_inj k1 k2 e1 e2 c : g_entries g !! k1 = Some e1 → g_entries g !! k2 = Some e2 →
    active e1 → active e2 → e_done e1 = Some c → e_done e2 = Some c → k1 = k2;
  wf_closed c : c ∈ g_closed g → (c < g_fresh g)%nat
}.

(** [m'] drops accepted entries of [m] at most. *)
Definition sheds (m m' : gmap string entry) : Prop :=
  m' ⊆ m ∧ ∀ k e, m !! k = Some e → active e → m' !! k = Some e.

Lemma sheds_refl m : sheds m m.
Proof. split; [done|auto]. Qed.

Lemma sweep_sheds g now : sheds (g_entries g) (sweep g now).
Proof.
  unfold sweep. case_match; [|apply sheds_refl]. split; [apply map_filter_subseteq|].
  intros k e Hk Ha. apply map_lookup_filter_Some_2; [done|]. simpl. unfold expired.
  unfold active in Ha. by rewrite Ha.
Qed.

Lemma wf_shed g m : guard_wf g → sheds (g_entries g) m → guard_wf (set_entries g m).
Proof.
  intros Hwf [Hsub Hact]. destruct Hwf as [Hm Hs Hd Hi Hc]. constructor; simpl; eauto.
  - apply map_subseteq_size in Hsub. lia.
  - intros k e Hk. eapply Hd. by eapply lookup_weaken.
  - intros k1 k2 e1 e2 c H1 H2. eapply Hi; by eapply lookup_weaken.
Qed.

Lemma record_claim_spec g now key r g' :
  guard_wf g → g_entries g !! key = None → record_claim g now key = (r, g') →
  guard_wf g' ∧ g_max g' = g_max g ∧ g_closed g' = g_closed g ∧
  sheds (g_entries g) (sweep g now) ∧
  ((r = CapacityReached ∧ g_entries g' = sweep g now ∧ g_fresh g' = g_fresh g) ∨
   (r = Claimed ∧ g_fresh g' = S (g_fresh g) ∧
    g_entries g' = <[key := {| e_accepted := false; e_expiresAt := zero_time;
                               e_done := Some (g_fresh g) |}]> (sweep g now))).
Proof.
  intros Hwf Hnone. unfold record_claim.
  pose proof (sweep_sheds g now) as Hsh.
  pose proof (wf_shed g _ Hwf Hsh) as Hwf'.
  set (m := sweep g now) in *.
  assert (m !! key = None) as Hmn.
  { destruct (m !! key) eqn:E; [|done]. destruct Hsh as [Hsub _].
    eapply lookup_weaken in E; [|exact Hsub]. congruence. }
  destruct (Z.leb_spec (g_max g) (Z.of_nat (size m))); intros [= <- <-].
  { split_and!; auto. }
  split_and!; auto. destruct Hwf' as [Hmx Hs Hd Hi Hc]; simpl in *.
  constructor; simpl; [done|rewrite map_size_insert_None by done; lia|..].
  - intros k e [[<- <-]|[Hk He]]%lookup_insert_Some Ha.
    + exists (g_fresh g). split_and!; [done|lia|]. intros Hin%Hc. lia.
    + destruct (Hd k e He Ha) as (c & ? & ? & ?). exists c. split_and!; auto.
  - intros k1 k2 e1 e2 c H1 H2 Ha1 Ha2 Hc1 Hc2.
    apply lookup_insert_Some in H1 as [[<- <-]|[Hk1 He1]];
      apply lookup_insert_Some in H2 as [[<- <-]|[Hk2 He2]]; simpl in *; simplify_eq; [done|..].
    + destruct (Hd _ _ He2 Ha2) as (c' & ? & ? & ?). simplify_eq. lia.
    + destruct (Hd _ _ He1 Ha1) as (c' & ? & ? & ?). simplify_eq. lia.
    + eauto.
  - intros c Hin%Hc. lia.
Qed.

(** What one pass of [Claim] does, by its result. *)
Definition claim_post (g : guard) (now : time) (key : string) (r : claim_result) (g' : guard) : Prop :=
  guard_wf g' ∧ g_max g' = g_max g ∧ g_closed g' = g_closed g ∧
  (g_fresh g ≤ g_fresh g')%nat ∧
  (∀ k e, k ≠ key → g_entries g' !! k = Some e → g_entries g !! k = Some e) ∧
  (∀ k e, k ≠ key → g_entries g !! k = Some e → active e → g_entries g' !! k = Some e) ∧
  match r with
  | Claimed => (∀ e, g_entries g !! key = Some e → ¬ active e) ∧
      ∃ e, g_entries g' !! key = Some e ∧ active e
  | Duplicate => g' = g ∧ ∃ e, g_entries g !! key = Some e ∧ ¬ active e ∧ now < e_expiresAt e
  | WaitFor d => g' = g ∧ ∃ e, g_entries g !! key = Some e ∧ active e ∧ e_done e = d
  | CapacityReached => (∀ e, g_entries g !! key = Some e → ¬ active e) ∧
      g_entries g' !! key = None
  end.

Lemma claim_pass_spec g now key r g' :
  guard_wf g → claim_pass g now key = (r, g') → claim_post g now key r g'.
Proof.
  intros Hwf. unfold claim_pass.
  assert (∀ g0, guard_wf g0 → g_entries g0 !! key = None →
    (∀ e, g_entries g !! key = Some e → ¬ active e) →
    g_max g0 = g_max g → g_closed g0 = g_closed g → g_fresh g0 = g_fresh g →
    sheds (delete key (g_entries g)) (g_entries g0) →
    record_claim g0 now key = (r, g') → claim_post g now key r g') as Hrec.
  { intros g0 Hwf0 Hn0 Hkey Hmax Hcl Hfr [Hsub0 Hact0] Hr.
    destruct (record_claim_spec g0 now key r g' Hwf0 Hn0 Hr)
      as (Hwf' & Hm' & Hc' & [Hsub Hact] & Hcase).
    assert (∀ k e, k ≠ key → sweep g0 now !! k = Some e → g_entries g !! k = Some e) as Hback.
    { intros k e Hk He. eapply lookup_weaken in He; [|exact Hsub].
      eapply lookup_weaken in He; [|exact Hsub0]. by rewrite lookup_delete_ne in He. }
    assert (∀ k e, k ≠ key → g_entries g !! k = Some e → active e → sweep g0 now !! k = Some e)
      as Hforth.
    { intros k e Hk He Ha. apply Hact; [|done]. apply Hact0; [|done].
      by rewrite lookup_delete_ne. }
    split_and!; [done|congruence|congruence|..].
    - destruct Hcase as [(-> & _ & ->)|(-> & -> & _)]; lia.
    - intros k e Hk He. destruct Hcase as [(-> & HE & _)|(-> & _ & HE)]; rewrite HE in He;
        [|rewrite lookup_insert_ne in He by done]; eauto.
    - intros k e Hk He Ha. destruct Hcase as [(-> & HE & _)|(-> & _ & HE)]; rewrite HE;
        [|rewrite lookup_insert_ne by done]; eauto.
    - destruct Hcase as [(-> & HE & _)|(-> & _ & HE)]; rewrite HE.
      + split; [done|]. destruct (sweep g0 now !! key) eqn:E; [|done].
        eapply lookup_weaken in E; [|exact Hsub]. congruence.
      + split; [done|]. rewrite lookup_insert_eq. eexists. split; [done|]. done. }
  destruct (g_entries g !! key) as [e|] eqn:E.
  - destruct (e_accepted e) eqn:Ea.
    + destruct (After (e_expiresAt e) now) eqn:Eaf.
      * intros [= <- <-]. split_and!; auto. exists e.
        apply Z.ltb_lt in Eaf. split_and!; auto. unfold active. congruence.
      * apply Hrec; simpl; auto using sheds_refl.
        -- apply wf_shed; [done|]. split; [apply delete_subseteq|].
           intros k e' Hk Ha. destruct (decide (k = key)) as [->|?];
             [unfold active in Ha; congruence|by rewrite lookup_delete_ne].
        -- apply lookup_delete_eq.
        -- intros e' He'. unfold active. congruence.
    + intros [= <- <-]. split_and!; auto. by exists e.
  - apply Hrec; auto; [congruence|]. rewrite delete_id by done. apply sheds_refl.
Qed.

Lemma close_active g e c : e_done e = Some c → close g (e_done e) = {[c]} ∪ g_closed g.
Proof. by intros ->. Qed.

(** Committing or releasing an active claim closes its channel and keeps the rest. *)
Lemma wf_settle g key e m :
  guard_wf g → g_entries g !! key = Some e → active e →
  (∀ k, k ≠ key → m !! k = g_entries g !! k) →
  (∀ e', m !! key = Some e' → ¬ active e') →
  (size m ≤ size (g_entries g))%nat →
  guard_wf {| g_entries := m; g_max := g_max g; g_fresh := g_fresh g;
              g_closed := close g (e_done e) |}.
Proof.
  intros [Hm Hs Hd Hi Hc] Hk Ha Hother Hkey Hsz.
  destruct (Hd _ _ Hk Ha) as (c & Hec & Hlt & Hnin).
  assert (∀ k e', m !! k = Some e' → active e' → k ≠ key ∧ g_entries g !! k = Some e') as Hm'.
  { intros k e' He' Ha'. assert (k ≠ key) by (intros ->; by eapply Hkey).
    split; [done|]. by rewrite <-Hother. }
  constructor; simpl; [done|lia|..].
  - intros k e' He' Ha'. destruct (Hm' _ _ He' Ha') as [Hne He].
    destruct (Hd _ _ He Ha') as (c' & Hc' & ? & ?). exists c'. split_and!; auto.
    rewrite (close_active g e c) by done. intros [->%elem_of_singleton|?]%elem_of_union; [|done].
    apply Hne. eauto.
  - intros k1 k2 e1 e2 c' H1 H2 Ha1 Ha2. destruct (Hm' _ _ H1 Ha1), (Hm' _ _ H2 Ha2). eauto.
  - intros c'. rewrite (close_active g e c) by done.
    intros [->%elem_of_singleton|?]%elem_of_union; auto.
Qed.

(** * The goroutines' invariant *)

Definition owner_key (t : thread) : option string :=
  match t with
  | THandle k | TSucceeded k | TFailed k => Some k
  | _ => None
  end.

(** The requests that were answered 2xx, or will be unless the commit fails. *)
Definition success_key (t : thread) : option string :=
  match t with
  | TSucceeded k | TAcked k | TCommitted k => Some k
  | _ => None
  end.

Definition owns (ts : gmap nat thread) (i : nat) (key : string) : Prop :=
  ∃ t, ts !! i = Some t ∧ owner_key t = Some key.

Definition has_active (g : guard) (key : string) : Prop :=
  ∃ e, g_entries g !! key = Some e ∧ active e.

Definition waits_on (g : guard) (key : string) (c : nat) : Prop :=
  c ∈ g_closed g ∨ ∃ e, g_entries g !! key = Some e ∧ active e ∧ e_done e = Some c.

Record sys_inv (s : system) : Prop := {
  si_guard : guard_wf (s_guard s);
  si_owned key : has_active (s_guard s) key ↔ ∃ i, owns (s_threads s) i key;
  si_unique i j key : owns (s_threads s) i key → owns (s_threads s) j key → i = j;
  si_accepted key e : g_entries (s_guard s) !! key = Some e → ¬ active e → key ∈ s_handled s;
  si_success i t key : s_threads s !! i = Some t → success_key t = Some key → key ∈ s_handled s;
  si_wait i key d : s_threads s !! i = Some (TWait key d) →
    ∃ c, d = Some c ∧ waits_on (s_guard s) key c
}.

Lemma owns_insert_ne ts i j t key : i ≠ j → owns (<[i := t]> ts) j key ↔ owns ts j key.
Proof. intros. unfold owns. by rewrite lookup_insert_ne. Qed.

Lemma owns_insert_eq ts i t key : owns (<[i := t]> ts) i key ↔ owner_key t = Some key.
Proof. unfold owns. rewrite lookup_insert_eq. naive_solver. Qed.

(** One goroutine moves to [t'] while the guard changes at the key [K] only. *)
Lemma sys_inv_update g ts h i t' K g' h' :
  sys_inv {| s_guard := g; s_threads := ts; s_handled := h |} →
  guard_wf g' → h ⊆ h' →
  g_closed g ⊆ g_closed g' →
  (∀ k e, k ≠ K → active e → g_entries g' !! k = Some e ↔ g_entries g !! k = Some e) →
  (∀ k e, k ≠ K → g_entries g' !! k = Some e → g_entries g !! k = Some e) →
  (∀ e, g_entries g' !! K = Some e → ¬ active e → K ∈ h') →
  (∀ c, waits_on g K c → waits_on g' K c) →
  (∀ k, success_key t' = Some k → k ∈ h') →
  (∀ k d, t' = TWait k d → ∃ c, d = Some c ∧ waits_on g' k c) →
  (∀ k, owns ts i k → k = K) → (∀ k, owner_key t' = Some k → k = K) →
  (has_active g' K ↔ owner_key t' = Some K ∨ ∃ j, j ≠ i ∧ owns ts j K) →
  (owner_key t' = Some K → ∀ j, j ≠ i → ¬ owns ts j K) →
  sys_inv {| s_guard := g'; s_threads := <[i := t']> ts; s_handled := h' |}.
Proof.
  intros [Hwf Howned Huniq Hacc Hsucc Hwait] Hwf' Hh Hcl Hact Hsub HaccK HwK Ht's Ht'w HiK Ht'K
    HK HKuniq; simpl in *.
  constructor; simpl; [done|..].
  - intros k. destruct (decide (k = K)) as [->|Hk].
    + rewrite HK. split.
      * intros [Ho|(j & Hj & Ho)]; [exists i; by apply owns_insert_eq|].
        exists j. by apply owns_insert_ne.
      * intros [j Hj]. destruct (decide (j = i)) as [->|?].
        { left. by apply owns_insert_eq in Hj. }
        right. exists j. split; [done|]. by apply owns_insert_ne in Hj.
    + assert (has_active g' k ↔ has_active g k) as ->.
      { unfold has_active. split; intros (e & He & Ha); exists e; (split; [by apply Hact|done]). }
      rewrite Howned. split; intros [j Hj]; exists j; destruct (decide (j = i)) as [->|?].
      * exfalso. by apply Hk, HiK.
      * by apply owns_insert_ne.
      * exfalso. apply owns_insert_eq in Hj. by apply Hk, Ht'K.
      * by apply owns_insert_ne in Hj.
  - intros j1 j2 k H1 H2.
    destruct (decide (j1 = i)) as [->|N1], (decide (j2 = i)) as [->|N2]; [done|..].
    + apply owns_insert_eq in H1. assert (k = K) as -> by auto.
      apply owns_insert_ne in H2; [|done]. by destruct (HKuniq H1 j2).
    + apply owns_insert_eq in H2. assert (k = K) as -> by auto.
      apply owns_insert_ne in H1; [|done]. by destruct (HKuniq H2 j1).
    + apply owns_insert_ne in H1, H2; [|done..]. eauto.
  - intros k e He Ha. destruct (decide (k = K)) as [->|Hk]; [eauto|]. apply Hh. eauto.
  - intros j t k [[<- <-]|[Hj Ht]]%lookup_insert_Some Hk; [auto|]. apply Hh. eauto.
  - intros j k d [[<- ->]|[Hj Ht]]%lookup_insert_Some; [by apply Ht'w|].
    destruct (Hwait _ _ _ Ht) as (c & -> & Hw). exists c. split; [done|].
    destruct (decide (k = K)) as [->|Hk]; [by apply HwK|].
    destruct Hw as [Hc|(e & He & Ha & Hd)]; [left; set_solver|right].
    exists e. split_and!; [by apply Hact|done|done].
Qed.

Lemma owns_of ts i t k : ts !! i = Some t → owns ts i k ↔ owner_key t = Some k.
Proof. unfold owns. intros ->. naive_solver. Qed.

(** A step that leaves the guard alone and neither takes nor drops a claim. *)
Lemma sys_inv_same g ts h i t' h' :
  sys_inv {| s_guard := g; s_threads := ts; s_handled := h |} → h ⊆ h' →
  (∀ k, owns ts i k ↔ owner_key t' = Some k) →
  (∀ k, success_key t' = Some k → k ∈ h') →
  (∀ k d, t' = TWait k d → ∃ c, d = Some c ∧ waits_on g k c) →
  sys_inv {| s_guard := g; s_threads := <[i := t']> ts; s_handled := h' |}.
Proof.
  intros Hinv Hh Hown Hs Hw. pose proof Hinv as [Hwf Howned Huniq Hacc _ _]; simpl in *.
  eapply (sys_inv_update g ts h i t' (default ε (owner_key t'))); eauto; try done.
  - intros k Ho%Hown. by rewrite Ho.
  - intros k Ho. by rewrite Ho.
  - rewrite Howned. split.
    + intros [j Hj]. destruct (decide (j = i)) as [->|?]; [left; by apply Hown|eauto].
    + intros [Ho|(j & _ & Ho)]; eauto. exists i. by apply Hown.
  - intros Ho j Hj Ho'. apply Hj. eapply Huniq; [done|]. by apply Hown.
Qed.

(** An owner's [Commit] and [Release] succeed, and settle its claim. *)
Lemma Commit_owner g key e exp :
  g_entries g !! key = Some e → active e →
  Commit g key exp =
    (Ok tt, {| g_entries := <[key := {| e_accepted := true; e_expiresAt := exp; e_done := None |}]>
                              (g_entries g);
               g_max := g_max g; g_fresh := g_fresh g; g_closed := close g (e_done e) |}).
Proof. unfold Commit, active. intros -> ->. done. Qed.

Lemma Release_owner g key e :
  g_entries g !! key = Some e → active e →
  Release g key =
    (Ok tt, {| g_entries := delete key (g_entries g); g_max := g_max g; g_fresh := g_fresh g;
               g_closed := close g (e_done e) |}).
Proof. unfold Release, active. intros -> ->. done. Qed.

(** Settling the claim of the owner [i] of [K]: the map changes at [K] only, and
    the entry there is accepted or gone. *)
Lemma sys_inv_settle g ts h i t t' K e m :
  sys_inv {| s_guard := g; s_threads := ts; s_handled := h |} →
  ts !! i = Some t → owner_key t = Some K → g_entries g !! K = Some e → active e →
  (∀ k, k ≠ K → m !! k = g_entries g !! k) →
  (∀ e', m !! K = Some e' → ¬ active e' ∧ K ∈ h) →
  (size m ≤ size (g_entries g))%nat →
  owner_key t' = None → (∀ k, success_key t' = Some k → k ∈ h) → (∀ k d, t' ≠ TWait k d) →
  sys_inv {| s_guard := {| g_entries := m; g_max := g_max g; g_fresh := g_fresh g;
                           g_closed := close g (e_done e) |};
             s_threads := <[i := t']> ts; s_handled := h |}.
Proof.
  intros Hinv Ht Hto He Ha Hm HmK Hsz Ht' Hts Htw.
  pose proof Hinv as [Hwf Howned Huniq Hacc _ _]; simpl in *.
  assert (owns ts i K) as HiK by (by exists t).
  destruct (wf_done g Hwf _ _ He Ha) as (c & Hec & _ & _).
  eapply (sys_inv_update g ts h i t' K); eauto; simpl.
  - eapply wf_settle; eauto. intros e' He'. by apply HmK.
  - rewrite (close_active g e c) by done. set_solver.
  - intros k e' Hk _. by rewrite Hm.
  - intros k e' Hk. by rewrite Hm.
  - intros e' He' _. by apply (HmK e').
  - intros c' [Hc'|(e' & He' & Ha' & Hd')]; left; simpl; rewrite (close_active g e c) by done;
      [set_solver|]. assert (c' = c) as -> by congruence. set_solver.
  - intros k d ->. by destruct (Htw k d).
  - intros k Hk. apply (owns_of _ _ _ _ Ht) in Hk. congruence.
  - intros k. by rewrite Ht'.
  - rewrite Ht'. split.
    + intros (e' & He' & Ha'). by destruct (HmK e' He').
    + intros [?|(j & Hj & Ho)]; [done|]. exfalso. apply Hj. eauto.
Qed.

Lemma step_claim_inv g ts h i key now r g' :
  sys_inv {| s_guard := g; s_threads := ts; s_handled := h |} →
  ts !! i = Some (TClaim key) → claim_pass g now key = (r, g') →
  sys_inv {| s_guard := g';
             s_threads := <[i := match r with
                                 | Claimed => THandle key
                                 | Duplicate => TAcked key
                                 | WaitFor done => TWait key done
                                 | CapacityReached => TError key
                                 end]> ts;
             s_handled := h |}.
Proof.
  intros Hinv Ht Hpass. pose proof Hinv as [Hwf Howned Huniq Hacc _ _]; simpl in *.
  destruct (claim_pass_spec _ _ _ _ _ Hwf Hpass)
    as (Hwf' & _ & Hcl & _ & Hsub & Hact & Hr).
  assert (∀ k, ¬ owns ts i k) as Hnown by (intros k Ho%(owns_of _ _ _ _ Ht); done).
  assert (∀ k e, k ≠ key → active e → g_entries g' !! k = Some e ↔ g_entries g !! k = Some e)
    as Hiff by (split; eauto).
  destruct r; simpl.
  - destruct Hr as [Hna (e & He & Ha)].
    assert (∀ j, ¬ owns ts j key) as Hno.
    { intros j Hj. destruct (proj2 (Howned key)) as (e' & He' & Ha'); [by exists j|]. by eapply Hna. }
    eapply (sys_inv_update g ts h i (THandle key) key); eauto; try done.
    + by rewrite Hcl.
    + intros e' He' Ha'. congruence.
    + intros c [Hc|(e' & He' & Ha' & _)]; [left; by rewrite Hcl|]. by destruct (Hna e').
    + intros k Hk. by destruct (Hnown k).
    + intros k [= ->]. done.
    + split; [by left|]. intros _. by exists e.
  - destruct Hr as [-> (e & He & Ha & _)]. eapply sys_inv_same; eauto; try done.
    + intros k. split; [intros Hk; by destruct (Hnown k)|done].
    + intros k [= <-]. eauto.
  - destruct Hr as [-> (e & He & Ha & Hd)]. eapply sys_inv_same; eauto; try done.
    + intros k. split; [intros Hk; by destruct (Hnown k)|done].
    + intros k d [= <- <-]. destruct (wf_done g Hwf _ _ He Ha) as (c & Hc & _).
      exists c. split; [congruence|]. right. exists e. done.
  - destruct Hr as [Hna Hnone].
    assert (∀ j, ¬ owns ts j key) as Hno.
    { intros j Hj. destruct (proj2 (Howned key)) as (e' & He' & Ha'); [by exists j|]. by eapply Hna. }
    eapply (sys_inv_update g ts h i (TError key) key); eauto; try done.
    + by rewrite Hcl.
    + intros e' He'. congruence.
    + intros c [Hc|(e' & He' & Ha' & _)]; [left; by rewrite Hcl|]. by destruct (Hna e').
    + intros k Hk. by destruct (Hnown k).
    + split; [|intros [?|(j & _ & Hj)]; [done|by destruct (Hno j)]].
      intros (e & He & _). congruence.
Qed.

Lemma sys_step_inv s s' : sys_inv s → sys_step s s' → sys_inv s'.
Proof.
  intros Hinv Hstep. destruct Hstep as
    [g ts h i key Ht|g ts h i key now r g' Ht Hp|g ts h i key c Ht Hc|g ts h i key d Ht
    |g ts h i key Ht|g ts h i key Ht|g ts h i key exp r g' Ht Hcm|g ts h i key r g' Ht Hrl].
  - eapply sys_inv_same; eauto; try done. intros k. unfold owns. rewrite Ht. naive_solver.
  - by eapply step_claim_inv.
  - eapply sys_inv_same; eauto; try done. intros k. by rewrite (owns_of _ _ _ _ Ht).
  - eapply sys_inv_same; eauto; try done. intros k. by rewrite (owns_of _ _ _ _ Ht).
  - eapply sys_inv_same; eauto; [set_solver| |set_solver|done].
    intros k. by rewrite (owns_of _ _ _ _ Ht).
  - eapply sys_inv_same; eauto; try done. intros k. by rewrite (owns_of _ _ _ _ Ht).
  - pose proof Hinv as [Hwf Howned _ _ Hsucc _]; simpl in *.
    destruct (proj2 (Howned key)) as (e & He & Ha); [exists i; by exists (TSucceeded key)|].
    rewrite (Commit_owner g key e exp He Ha) in Hcm. injection Hcm as <- <-.
    assert (key ∈ h) by (by eapply Hsucc).
    eapply sys_inv_settle; eauto; try done.
    + intros k Hk. by rewrite lookup_insert_ne.
    + intros e'. rewrite lookup_insert_eq. intros [= <-]. done.
    + rewrite map_size_insert_Some; [done|by eexists].
  - pose proof Hinv as [Hwf Howned _ _ Hsucc _]; simpl in *.
    destruct (proj2 (Howned key)) as (e & He & Ha); [exists i; by exists (TFailed key)|].
    rewrite (Release_owner g key e He Ha) in Hrl. injection Hrl as <- <-.
    eapply sys_inv_settle; eauto; try done.
    + intros k Hk. by rewrite lookup_delete_ne.
    + intros e'. by rewrite lookup_delete_eq.
    + apply map_subseteq_size, delete_subseteq.
Qed.

Lemma initial_inv n : sys_inv (initial n).
Proof.
  constructor; simpl; [|unfold has_active, owns|unfold owns|..]; try set_solver.
  constructor; simpl; try set_solver; case_match eqn:E;
    try apply Z.leb_gt in E; rewrite ?map_size_empty; lia.
Qed.

Lemma reachable_inv n s : reachable n s → sys_inv s.
Proof.
  unfold reachable. intros H. assert (sys_inv (initial n)) as Hi by apply initial_inv.
  induction H; eauto using sys_step_inv.
Qed.

(** * Properties *)

(** C9 Mutual exclusion: whatever the interleaving, at most one request at a
    time holds the claim of a message identity (handler running, or its commit or
    release still to come), and while it does the guard reports the identity as
    in progress, never as free or accepted. *)
Theorem claim_mutual_exclusion n s i j ti tj key :
  reachable n s → s_threads s !! i = Some ti → s_threads s !! j = Some tj →
  owner_key ti = Some key → owner_key tj = Some key →
  i = j ∧ ∀ now, ∃ c, claim_pass (s_guard s) now key = (WaitFor (Some c), s_guard s).
Proof.
  intros [Hwf Howned Huniq _ _ _]%reachable_inv Hi Hj Hki Hkj.
  split; [apply (Huniq i j key); by eexists|]. intros now.
  destruct (proj2 (Howned key)) as (e & He & Ha); [exists i; by exists ti|].
  destruct (wf_done _ Hwf _ _ He Ha) as (c & Hc & _). exists c.
  unfold claim_pass. rewrite He. unfold active in Ha. by rewrite Ha, Hc.
Qed.

(** C38 A request is acknowledged (as handled or as a duplicate) only when the
    handler has already succeeded for that message identity: an in-progress or
    failed first delivery never makes a later one disappear. *)
Theorem acknowledged_after_success n s i key :
  reachable n s →
  s_threads s !! i = Some (TAcked key) ∨ s_threads s !! i = Some (TCommitted key) →
  key ∈ s_handled s.
Proof. intros Hinv%reachable_inv [H|H]; by eapply (si_success s Hinv). Qed.

(** C39 No lost wakeup: a request blocked on an active claim waits on a channel
    that is closed already, or that the one request owning the claim closes by
    its [Commit] as by its [Release], which both succeed. *)
Theorem waiter_is_woken n s i key d :
  reachable n s → s_threads s !! i = Some (TWait key d) →
  ∃ c, d = Some c ∧
    (c ∈ g_closed (s_guard s) ∨
     ∃ j t, s_threads s !! j = Some t ∧ owner_key t = Some key ∧
       (∀ exp, ∃ g', Commit (s_guard s) key exp = (Ok tt, g') ∧ c ∈ g_closed g') ∧
       (∃ g', Release (s_guard s) key = (Ok tt, g') ∧ c ∈ g_closed g')).
Proof.
  intros [Hwf Howned _ _ _ Hwait]%reachable_inv Hi.
  destruct (Hwait _ _ _ Hi) as (c & -> & [Hc|(e & He & Ha & Hd)]); exists c; (split; [done|]);
    [by left|right].
  destruct (proj1 (Howned key)) as (j & t & Ht & Hk); [by exists e|].
  exists j, t. split_and!; [done..| |].
  - intros exp. eexists. split; [by apply Commit_owner|]. simpl.
    rewrite (close_active _ _ c) by done. set_solver.
  - eexists. split; [by apply Release_owner|]. simpl.
    rewrite (close_active _ _ c) by done. set_solver.
Qed.

(** The guard stays within its configured size, and it turns a new identity
    away only when every one of its places is taken by an identity in progress or
    accepted and not yet expired. *)
Lemma guard_capacity n s now key g' :
  reachable n s →
  Z.of_nat (size (g_entries (s_guard s))) ≤ g_max (s_guard s) ∧
  (claim_pass (s_guard s) now key = (CapacityReached, g') →
   g_max g' ≤ Z.of_nat (size (g_entries g')) ∧
   ∀ k e, g_entries g' !! k = Some e → active e ∨ now < e_expiresAt e).
Proof.
  intros [Hwf _ _ _ _ _]%reachable_inv. split; [by apply wf_size|].
  assert (∀ g, record_claim g now key = (CapacityReached, g') →
    g_max g' ≤ Z.of_nat (size (g_entries g')) ∧
    ∀ k e, g_entries g' !! k = Some e → active e ∨ now < e_expiresAt e) as Hrec.
  { intros g. unfold record_claim. destruct (Z.leb_spec (g_max g) (Z.of_nat (size (sweep g now))))
      as [Hle|]; intros [= <-]; simpl. split; [done|]. intros k e He. revert He.
    unfold sweep in *. destruct (Z.leb_spec (g_max g) (Z.of_nat (size (g_entries g)))); [|lia].
    intros [_ He]%map_lookup_filter_Some. unfold expired, After, active in *. simpl in He.
    destruct (e_accepted e); [right|by left]. simpl in He. apply negb_false_iff in He. lia. }
  unfold claim_pass. repeat case_match; try done; apply Hrec.
Qed.

(** Distinct messages never share a replay key: for valid identifiers, the
    key determines the source and the identifier, whatever bytes the source has. *)
Lemma replay_key_injective source id source' id' :
  ValidateMessageID id = Ok tt → ValidateMessageID id' = Ok tt →
  replay_key source id = replay_key source' id' → source = source' ∧ id = id'.
Proof.
  intros Hid Hid'.
  assert (∀ i s j, ValidateMessageID i = Ok tt → i ≠ s +:+ String NUL j) as Hno.
  { intros i s j (_ & _ & _ & _ & Hc)%ValidateMessageID_iff ->.
    rewrite str_exists_app, orb_false_iff in Hc. by destruct Hc. }
  unfold replay_key. revert source'. induction source as [|c s IH]; intros [|c' s'] H; simpl in *.
  - by simplify_eq.
  - simplify_eq. exfalso. by eapply (Hno _ s' id' Hid).
  - simplify_eq. exfalso. by eapply (Hno _ s id Hid').
  - injection H as -> H. apply IH in H as [-> ->]. done.
Qed.

(** * Witnesses: request 0 claims identity "k" and handles it; request 1, a
    duplicate, first waits, then is acknowledged after request 0's commit *)

Definition ex_waiting : system :=
  {| s_guard := (claim_pass (NewMemoryReplayGuard 1) 5 "k").2;
     s_threads := <[1%nat := TWait "k" (Some 0%nat)]> (<[1%nat := TClaim "k"]>
       (<[0%nat := THandle "k"]> (<[0%nat := TClaim "k"]> ∅)));
     s_handled := ∅ |}.

Lemma ex_waiting_reachable : reachable 1 ex_waiting.
Proof.
  eapply rtc_l; [by apply (step_arrive _ _ _ 0 "k")|].
  eapply rtc_l; [eapply (step_claim _ _ _ 0 "k" 5); reflexivity|].
  eapply rtc_l; [by apply (step_arrive _ _ _ 1 "k")|].
  eapply rtc_l; [eapply (step_claim _ _ _ 1 "k" 6); reflexivity|].
  apply rtc_refl.
Qed.

Definition ex_acked : system :=
  let g := (Commit (s_guard ex_waiting) "k" 9).2 in
  {| s_guard := g;
     s_threads := <[1%nat := TAcked "k"]> (<[1%nat := TClaim "k"]> (<[0%nat := TCommitted "k"]>
       (<[0%nat := TSucceeded "k"]> (s_threads ex_waiting))));
     s_handled := {["k"]} ∪ ∅ |}.

Lemma ex_acked_reachable : reachable 1 ex_acked.
Proof.
  unfold reachable. transitivity ex_waiting; [apply ex_waiting_reachable|].
  eapply rtc_l; [by apply (step_handler_ok _ _ _ 0 "k")|].
  eapply rtc_l; [eapply (step_commit _ _ _ 0 "k" 9); reflexivity|].
  eapply rtc_l; [apply (step_wake _ _ _ 1 "k" 0); [reflexivity|by vm_compute]|].
  eapply rtc_l; [eapply (step_claim _ _ _ 1 "k" 7); reflexivity|].
  apply rtc_refl.
Qed.

Lemma claim_mutual_exclusion_witness :
  0%nat = 0%nat ∧ ∀ now, ∃ c, claim_pass (s_guard ex_waiting) now "k" =
                               (WaitFor (Some c), s_guard ex_waiting).
Proof.
  exact (claim_mutual_exclusion 1 ex_waiting 0 0 (THandle "k") (THandle "k") "k"
    ex_waiting_reachable eq_refl eq_refl eq_refl eq_refl).
Defined.

Lemma acknowledged_after_success_witness : "k" ∈ s_handled ex_acked.
Proof.
  exact (acknowledged_after_success 1 ex_acked 1 "k" ex_acked_reachable (or_introl eq_refl)).
Defined.

Lemma waiter_is_woken_witness :
  ∃ c, Some 0%nat = Some c ∧
    (c ∈ g_closed (s_guard ex_waiting) ∨
     ∃ j t, s_threads ex_waiting !! j = Some t ∧ owner_key t = Some "k" ∧
       (∀ exp, ∃ g', Commit (s_guard ex_waiting) "k" exp = (Ok tt, g') ∧ c ∈ g_closed g') ∧
       (∃ g', Release (s_guard ex_waiting) "k" = (Ok tt, g') ∧ c ∈ g_closed g')).
Proof. exact (waiter_is_woken 1 ex_waiting 1 "k" (Some 0%nat) ex_waiting_reachable eq_refl). Defined.

Lemma guard_capacity_witness :
  claim_pass (s_guard ex_acked) 7 "other" = (CapacityReached, s_guard ex_acked) ∧
  g_max (s_guard ex_acked) ≤ Z.of_nat (size (g_entries (s_guard ex_acked))).
Proof.
  assert (claim_pass (s_guard ex_acked) 7 "other" = (CapacityReached, s_guard ex_acked)) as H
    by (vm_compute; reflexivity).
  split; [exact H|].
  exact (proj1 (proj2 (guard_capacity 1 ex_acked 7 "other" _ ex_acked_reachable) H)).
Defined.

Lemma replay_key_injective_witness : "github" = "github" ∧ "msg_1" = "msg_1".
Proof.
  apply (replay_key_injective "github" "msg_1" "github" "msg_1"); vm_compute; reflexivity.
Defined.
