(* ===== verification/ReplaySpec.v ===== *)
(** A reference for src/replay.go: what the memory guard promises, without channels,
    without a lazily swept table and without the bookkeeping of either.

    The reference keeps a status per identity and forgets what has expired at every
    claim; the guard sweeps its table only when it is full.  States are compared by what
    is live in them, an equivalence the reference's operations respect. *)

From S2P Require Import Prelude GoString GoTime Errors Replay.

(** * The reference *)

(** In progress, or accepted until a time. *)
Abbreviation status := (option time).
Abbreviation reference := (gmap string status).

Definition live_status (now : time) (x : status) : bool :=
  match x with None => true | Some expiresAt => now <? expiresAt end.

Definition live (now : time) (s : reference) : reference := filter (λ kx, live_status now kx.2 = true) s.

Inductive answer : Type := AClaimed | ADuplicate | AWait | ACapacity | ADone | AConflict.

#[export] Instance answer_eq_dec : EqDecision answer.
Proof. solve_decision. Defined.

Definition ref_claim (maximum : Z) (now : time) (key : string) (s : reference) : answer * reference :=
  let s := live now s in
  match s !! key with
  | Some None => (AWait, s)
  | Some (Some _) => (ADuplicate, s)
  | None => if maximum <=? Z.of_nat (size s) then (ACapacity, s) else (AClaimed, <[key := None]> s)
  end.

Definition ref_commit (key : string) (expiresAt : time) (s : reference) : answer * reference :=
  match s !! key with
  | Some None => (ADone, <[key := Some expiresAt]> s)
  | _ => (AConflict, s)
  end.

Definition ref_release (key : string) (s : reference) : answer * reference :=
  match s !! key with
  | Some (Some _) => (AConflict, s)
  | _ => (ADone, delete key s)
  end.

(** * Sequences of operations *)

Inductive guard_op : Type :=
| OpClaim (key : string)
| OpCommit (key : string) (expiresAt : time)
| OpRelease (key : string).

Definition ref_op (maximum : Z) (now : time) (op : guard_op) (s : reference) : answer * reference :=
  match op with
  | OpClaim key => ref_claim maximum now key s
  | OpCommit key expiresAt => ref_commit key expiresAt s
  | OpRelease key => ref_release key s
  end.

Definition claim_answer (r : claim_result) : answer :=
  match r with
  | Claimed => AClaimed | Duplicate => ADuplicate | WaitFor _ => AWait | CapacityReached => ACapacity
  end.
Definition settle_answer (r : go unit) : answer := match r with Ok _ => ADone | Err _ => AConflict end.

Definition memory_op (now : time) (op : guard_op) (g : guard) : answer * guard :=
  match op with
  | OpClaim key => let '(r, g') := claim_pass g now key in (claim_answer r, g')
  | OpCommit key expiresAt => let '(r, g') := Commit g key expiresAt in (settle_answer r, g')
  | OpRelease key => let '(r, g') := Release g key in (settle_answer r, g')
  end.

(** The answers of operations at the given times, one after the other. *)
Fixpoint answers {S} (step : time → guard_op → S → answer * S) (ops : list (time * guard_op)) (s : S)
    : list answer :=
  match ops with
  | [] => []
  | (now, op) :: ops' => let '(a, s') := step now op s in a :: answers step ops' s'
  end.

(** A claim is released by the one who made it. *)
Fixpoint disciplined (maximum : Z) (ops : list (time * guard_op)) (s : reference) : Prop :=
  match ops with
  | [] => True
  | (now, op) :: ops' =>
      match op with OpRelease key => s !! key = Some None | _ => True end ∧
      disciplined maximum ops' (ref_op maximum now op s).2
  end.

(** * Equality of what is live *)

Definition same_live (now : time) (s s' : reference) : Prop := live now s = live now s'.

#[export] Instance same_live_equivalence now : Equivalence (same_live now).
Proof. split; unfold same_live; [by intros s|by intros s s' ->|by intros s1 s2 s3 -> ->]. Qed.

Lemma live_lookup now s k :
  live now s !! k = match s !! k with
                    | Some x => if live_status now x then Some x else None
                    | None => None
                    end.
Proof.
  unfold live. destruct (s !! k) as [x|] eqn:E.
  - destruct (live_status now x) eqn:El.
    + by apply map_lookup_filter_Some_2.
    + apply map_lookup_filter_None. right. intros y Hy. simplify_eq. simpl. congruence.
  - apply map_lookup_filter_None. by left.
Qed.

Lemma live_later now now' s : now ≤ now' → live now' (live now s) = live now' s.
Proof.
  intros Hle. apply map_eq. intros k. rewrite !live_lookup. destruct (s !! k) as [[expiresAt|]|]; [|done|done].
  simpl. destruct (Z.ltb_spec now expiresAt); [done|]. rewrite (proj2 (Z.ltb_ge _ _)); [done|lia].
Qed.

Lemma live_live now s : same_live now (live now s) s.
Proof. by apply live_later. Qed.

Lemma same_live_later now now' s s' : now ≤ now' → same_live now s s' → same_live now' s s'.
Proof. unfold same_live. intros Hle H. by rewrite <-(live_later now now' s), H, live_later. Qed.

(** Only the live part matters to updates at one identity. *)
#[export] Instance insert_live now key x : Proper (same_live now ==> same_live now) (insert key x).
Proof.
  intros s s' H. apply map_eq. intros k. pose proof (f_equal (λ m, m !! k) H) as Hk. simpl in Hk.
  rewrite !live_lookup in *. destruct (decide (k = key)) as [->|]; [by rewrite !lookup_insert_eq|].
  by rewrite !lookup_insert_ne.
Qed.

#[export] Instance delete_live now key : Proper (same_live now ==> same_live now) (delete key).
Proof.
  intros s s' H. apply map_eq. intros k. pose proof (f_equal (λ m, m !! k) H) as Hk. simpl in Hk.
  rewrite !live_lookup in *. destruct (decide (k = key)) as [->|]; [by rewrite !lookup_delete_eq|].
  by rewrite !lookup_delete_ne.
Qed.

(** Claims in progress are always live. *)
Lemma same_live_progress now s s' key : same_live now s s' → s !! key = Some None ↔ s' !! key = Some None.
Proof.
  intros H. pose proof (f_equal (λ m, m !! key) H) as Hk. simpl in Hk. rewrite !live_lookup in Hk.
  destruct (s !! key) as [[t|]|], (s' !! key) as [[t'|]|]; simpl in Hk; repeat case_match; naive_solver.
Qed.

(** Answers, and states up to what is live. *)
Definition agree (now : time) (x y : answer * reference) : Prop := x.1 = y.1 ∧ same_live now x.2 y.2.

Lemma ref_claim_live maximum now key s s' :
  same_live now s s' → agree now (ref_claim maximum now key s) (ref_claim maximum now key s').
Proof. unfold same_live, ref_claim. intros ->. by split. Qed.

Lemma ref_commit_live now key expiresAt s s' :
  same_live now s s' → agree now (ref_commit key expiresAt s) (ref_commit key expiresAt s').
Proof.
  intros H. pose proof (same_live_progress now s s' key H) as Hp. unfold ref_commit, agree.
  destruct (s !! key) as [[t|]|], (s' !! key) as [[t'|]|]; simpl; try naive_solver; split; try done; by rewrite H.
Qed.

Lemma ref_release_live now key s s' :
  s !! key = Some None → same_live now s s' → agree now (ref_release key s) (ref_release key s').
Proof.
  intros Hs H. pose proof (proj1 (same_live_progress now s s' key H) Hs) as Hs'.
  unfold ref_release, agree. rewrite Hs, Hs'. simpl. by rewrite H.
Qed.

(** * The guard as a reference *)

Definition status_of (e : entry) : status := if e_accepted e then Some (e_expiresAt e) else None.
Definition abstraction (g : guard) : reference := status_of <$> g_entries g.

Lemma live_status_of now e : live_status now (status_of e) = negb (expired now e).
Proof. unfold live_status, status_of, expired, After. destruct (e_accepted e); [|done]. simpl. by rewrite negb_involutive. Qed.

(** A full table that is swept holds what is live in it. *)
Lemma swept_abstraction now (m : gmap string entry) :
  status_of <$> filter (λ kv, expired now kv.2 = false) m = live now (status_of <$> m).
Proof.
  unfold live. rewrite map_filter_fmap. f_equal. apply map_filter_ext. intros k e _. simpl.
  rewrite live_status_of. by destruct (expired now e).
Qed.

Lemma sweep_live now g : same_live now (status_of <$> sweep g now) (abstraction g).
Proof.
  unfold sweep, abstraction. case_match; [|done]. rewrite swept_abstraction. apply live_live.
Qed.

Lemma size_live now (m : gmap string entry) : (size (live now (status_of <$> m)) ≤ size m)%nat.
Proof. rewrite <-swept_abstraction, map_size_fmap. apply map_subseteq_size, map_filter_subseteq. Qed.

(** Recording a claim: room is made exactly when what is live leaves some. *)
Lemma record_claim_abstraction g now key r g' :
  live now (abstraction g) !! key = None → record_claim g now key = (r, g') →
  agree now (claim_answer r, abstraction g') (ref_claim (g_max g) now key (abstraction g)).
Proof.
  intros Hk. unfold record_claim, ref_claim. rewrite Hk.
  assert ((g_max g <=? Z.of_nat (size (sweep g now))) =
          (g_max g <=? Z.of_nat (size (live now (abstraction g))))) as ->.
  { unfold sweep, abstraction. destruct (Z.leb_spec (g_max g) (Z.of_nat (size (g_entries g)))) as [|Hlt].
    - by rewrite <-swept_abstraction, map_size_fmap.
    - pose proof (size_live now (g_entries g)).
      by rewrite (proj2 (Z.leb_gt _ _) Hlt), (proj2 (Z.leb_gt (g_max g) (Z.of_nat (size (live _ _))))) by lia. }
  pose proof (sweep_live now g) as Hs. destruct (_ <=? _); intros [= <- <-]; unfold agree; (split; [done|]); simpl.
  - unfold abstraction at 1. simpl. by rewrite Hs, live_live.
  - unfold abstraction at 1. simpl. rewrite fmap_insert. by rewrite Hs, live_live.
Qed.

Lemma claim_abstraction g now key r g' :
  claim_pass g now key = (r, g') →
  agree now (claim_answer r, abstraction g') (ref_claim (g_max g) now key (abstraction g)).
Proof.
  assert (live now (abstraction g) !! key =
          match g_entries g !! key with
          | Some e => if expired now e then None else Some (status_of e)
          | None => None
          end) as Hk.
  { rewrite live_lookup. unfold abstraction. rewrite lookup_fmap. destruct (g_entries g !! key); [|done].
    simpl. rewrite live_status_of. by destruct (expired now _). }
  unfold claim_pass. destruct (g_entries g !! key) as [e|] eqn:E; [|by apply record_claim_abstraction].
  unfold expired in Hk. destruct (e_accepted e) eqn:Ea; simpl in Hk.
  - destruct (After (e_expiresAt e) now) eqn:Eaf; simpl in Hk.
    + intros [= <- <-]. unfold ref_claim. rewrite Hk. unfold status_of. rewrite Ea. by split; simpl; rewrite ?live_live.
    + intros Hr. assert (same_live now (abstraction (set_entries g (delete key (g_entries g)))) (abstraction g)) as Hd.
      { assert (abstraction (set_entries g (delete key (g_entries g))) = delete key (abstraction g)) as ->
          by apply fmap_delete.
        apply map_eq. intros k.
        rewrite live_lookup. destruct (decide (k = key)) as [->|]; [by rewrite lookup_delete_eq, Hk|].
        rewrite lookup_delete_ne by done. by rewrite live_lookup. }
      destruct (record_claim_abstraction _ now key r g' ltac:(by rewrite Hd) Hr) as [H1 H2].
      destruct (ref_claim_live (g_max g) now key _ _ Hd) as [H3 H4]. split; simpl in *; [congruence|by etrans].
  - intros [= <- <-]. unfold ref_claim. rewrite Hk. unfold status_of. rewrite Ea. by split; simpl; rewrite ?live_live.
Qed.

Lemma commit_abstraction g now key expiresAt r g' :
  Commit g key expiresAt = (r, g') →
  agree now (settle_answer r, abstraction g') (ref_commit key expiresAt (abstraction g)).
Proof.
  unfold Commit, ref_commit, abstraction. rewrite lookup_fmap.
  destruct (g_entries g !! key) as [e|]; simpl; [|by intros [= <- <-]].
  unfold status_of at 2. destruct (e_accepted e); intros [= <- <-]; [done|]. split; [done|]. simpl.
  by rewrite fmap_insert.
Qed.

Lemma release_abstraction g now key r g' :
  Release g key = (r, g') → agree now (settle_answer r, abstraction g') (ref_release key (abstraction g)).
Proof.
  unfold Release, ref_release, abstraction. rewrite lookup_fmap.
  destruct (g_entries g !! key) as [e|] eqn:E; simpl.
  - unfold status_of at 2. destruct (e_accepted e); intros [= <- <-]; [done|]. split; [done|]. simpl.
    by rewrite fmap_delete.
  - intros [= <- <-]. split; [done|]. simpl. by rewrite delete_id by by rewrite lookup_fmap, E.
Qed.

(** One operation, from states that agree on what is live. *)
Lemma op_agrees now op g s :
  same_live now (abstraction g) s →
  match op with OpRelease key => s !! key = Some None | _ => True end →
  let '(a, g') := memory_op now op g in
  agree now (a, abstraction g') (ref_op (g_max g) now op s) ∧ g_max g' = g_max g.
Proof.
  intros Hs Hd.
  assert (∀ x y z, agree now x y → agree now y z → agree now x z) as Htrans
    by (intros x y z [??] [??]; split; etrans; done).
  destruct op as [key|key expiresAt|key]; simpl.
  - destruct (claim_pass g now key) as [r g'] eqn:E. split.
    + eapply Htrans; [by eapply claim_abstraction|by apply ref_claim_live].
    + unfold claim_pass, record_claim in E. repeat case_match; by simplify_eq.
  - destruct (Commit g key expiresAt) as [r g'] eqn:E. split.
    + eapply Htrans; [by eapply commit_abstraction|by apply ref_commit_live].
    + unfold Commit in E. repeat case_match; by simplify_eq.
  - destruct (Release g key) as [r g'] eqn:E. split.
    + eapply Htrans; [by eapply release_abstraction|]. apply ref_release_live; [|done].
      by apply (same_live_progress now _ s key).
    + unfold Release in E. repeat case_match; by simplify_eq.
Qed.

(** Times that do not go back. *)
Definition forward (now : time) (ops : list (time * guard_op)) : Prop := StronglySorted Z.le (now :: map fst ops).

Lemma answers_agree now ops g s :
  same_live now (abstraction g) s → forward now ops → disciplined (g_max g) ops s →
  answers memory_op ops g = answers (ref_op (g_max g)) ops s.
Proof.
  revert now g s. induction ops as [|[t op] ops IH]; intros now g s Hs Hf Hd; [done|].
  cbn [answers disciplined] in *. destruct Hd as [Hop Hd].
  unfold forward in Hf. cbn [map fst] in Hf. apply StronglySorted_inv in Hf as [Hf Hle].
  apply Forall_cons in Hle as [Hle _].
  pose proof (op_agrees t op g s (same_live_later _ _ _ _ Hle Hs) Hop) as Ha.
  destruct (memory_op t op g) as [a g']. destruct Ha as [[Ha Hs'] Hmax].
  destruct (ref_op (g_max g) t op s) as [a' s']. simpl in *. rewrite Ha. f_equal. rewrite <-Hmax.
  apply (IH t); [done|done|by rewrite Hmax].
Qed.

(** * Properties *)

(** C10 The memory guard is equivalent to its reference: for every sequence of claims,
    commits and releases at times that do not go back, in which a claim is released by
    the one who made it, the guard with its lazy sweep gives answer by answer what the
    reference gives, which forgets expired identities at every claim; capacity, in
    particular, is reported exactly when that many identities are live. *)
Theorem guard_equals_reference maxEntries now ops :
  let maximum := if maxEntries <=? 0 then 10000 else maxEntries in
  forward now ops → disciplined maximum ops ∅ →
  answers memory_op ops (NewMemoryReplayGuard maxEntries) = answers (ref_op maximum) ops ∅.
Proof.
  intros maximum Hf Hd. apply (answers_agree now); [|done|done].
  unfold abstraction. simpl. by rewrite fmap_empty.
Qed.

(** * Witness: a guard of one entry; a duplicate, a full guard, an entry that expires *)

Definition ex_ops : list (time * guard_op) :=
  [(1, OpClaim "a"); (2, OpClaim "a"); (3, OpCommit "a" 10); (4, OpClaim "a"); (5, OpClaim "b");
   (10, OpClaim "b"); (11, OpRelease "b"); (12, OpClaim "a")].

Lemma guard_equals_reference_witness :
  answers memory_op ex_ops (NewMemoryReplayGuard 1) =
    [AClaimed; AWait; ADone; ADuplicate; ACapacity; AClaimed; ADone; AClaimed] ∧
  answers memory_op ex_ops (NewMemoryReplayGuard 1) = answers (ref_op 1) ex_ops ∅.
Proof.
  split; [vm_compute; reflexivity|]. apply (guard_equals_reference 1 0 ex_ops).
  - apply (bool_decide_unpack _). vm_compute. exact I.
  - by vm_compute.
Defined.
