(* ===== verification/Receiver.v ===== *)
(** src/receiver.go: the inbound pipeline - method, encoding and size checks, one
    bounded read, verification of the exact bytes, replay claim, dispatch, and
    commit or release.

    The verifier, the handler, the replay guard and the clock are interfaces;
    they act on a world [W] that the receiver threads through its calls. *)

From S2P Require Import Prelude GoString GoTime Errors Headers Message Handler Replay.

(** * Interfaces: src/signing.go, src/replay.go *)

(** [VerifyInput]. *)
Record VerifyInput := { vi_Headers : Header; vi_Body : string; vi_ReceivedAt : time }.

(** [Verification]. *)
Record Verification := {
  v_ID : string; v_Type : string; v_Source : string; v_Timestamp : time;
  v_Metadata : gmap string string
}.

(** What a verification decides from its input alone. *)
Definition verify_function : Type := VerifyInput → go Verification.

(** [Verifier], in a world [W]: [Verify] may call key providers, and time passes
    while it runs. *)
Definition Verifier (W : Type) : Type := VerifyInput → W → go Verification * W.

(** A verifier that decides as the function of the world it is called in (its keys, the
    wall clock) and leaves the world it calls [after]. *)
Definition verify_in {W} (v : W → verify_function) (after : VerifyInput → W → W) : Verifier W :=
  λ input w, (v w input, after input w).

(** [ReplayGuard], with the optional [ReplayCommitter] extension. *)
Record ReplayGuard (W : Type) := {
  rg_Claim : string → string → time → W → go bool * W;
  rg_Release : string → string → W → go unit * W;
  rg_Commit : option (string → string → time → W → go unit * W)
}.
Arguments rg_Claim {W}.
Arguments rg_Release {W}.
Arguments rg_Commit {W}.

(** * HTTP *)

(** A request body: the bytes it yields, then the read error or the end. *)
Record Reader := { rd_data : string; rd_err : option error }.

(** The parts of [*http.Request] the receiver reads. *)
Record Request := {
  rq_Method : string;
  rq_Header : Header;
  rq_ContentLength : Z;
  rq_Body : option Reader
}.

(** What was written to the [http.ResponseWriter]. *)
Record Response := { rs_Status : Z; rs_Header : Header; rs_Body : string }.

Definition bare_status (status : Z) : Response :=
  {| rs_Status := status; rs_Header := ∅; rs_Body := ε |}.

(** [http.Error(writer, message, status)] on headers [h]. *)
Definition http_error (h : Header) (message : string) (status : Z) : Response :=
  {| rs_Status := status;
     rs_Header := h_set (h_set h "Content-Type" "text/plain; charset=utf-8")
                        "X-Content-Type-Options" "nosniff";
     rs_Body := message +:+ String LF ε |}.

Definition ErrorResponder : Type := error → Response.

(** [defaultErrorResponder] *)
Definition defaultErrorResponder : ErrorResponder := λ err,
  let code := ErrorCode (Some err) in
  let '(status, message) :=
    if one_of code [CodeInvalidSignature; CodeExpiredSignature] then (401, "invalid webhook")
    else if one_of code [CodeInvalidMessage; CodeDecode] then (400, "invalid webhook")
    else if one_of code [CodeBodyTooLarge] then (413, "webhook body too large")
    else if one_of code [CodeUnknownEvent] then (422, "unsupported webhook event")
    else (500, "webhook processing failed") in
  if status =? 204 then bare_status status else http_error ∅ message status.

(** [IsClientWebhookError] *)
Definition IsClientWebhookError (err : option error) : bool :=
  one_of (ErrorCode err) [CodeInvalidSignature; CodeExpiredSignature; CodeInvalidMessage;
                          CodeDecode; CodeBodyTooLarge]
  || match err with
     | Some e => is_sentinel "http: invalid Read on closed Body" e
     | None => false
     end.

(** [io.ReadAll(io.LimitReader(reader, n))]: a limit reached ends the read before
    the reader's own error is seen. *)
Definition read_limited (n : Z) (r : Reader) : string * option error :=
  if n <=? 0 then (ε, None)
  else if n <=? slen (rd_data r) then (str_take (Z.to_nat n) (rd_data r), None)
  else (rd_data r, rd_err r).

(** [readBounded]; the limit [maximum+1] is an int64. *)
Definition readBounded (reader : option Reader) (maximum : Z) : go string :=
  match reader with
  | None => Ok ε
  | Some r =>
      let '(body, err) := read_limited (wrap64 (maximum + 1)) r in
      match err with
      | Some e => Err (NewError CodeInvalidMessage "read webhook body" (Some e))
      | None =>
          if maximum <? slen body
          then Err (NewError CodeBodyTooLarge "webhook body exceeds configured limit" None)
          else Ok body
      end
  end.

(** * The receiver *)

Section receiver.
Context {W : Type}.

(** [ReceiverConfig]; [None] is a nil interface or function. *)
Record ReceiverConfig := {
  rc_Verifier : option (Verifier W);
  rc_Handler : option (Handler W);
  rc_ReplayGuard : option (ReplayGuard W);
  rc_Clock : option (W → time * W);
  rc_MaxBodyBytes : Z;
  rc_ReplayTTL : duration;
  rc_SuccessStatus : Z;
  rc_ErrorResponder : option ErrorResponder
}.

(** [Receiver]. *)
Record Receiver := {
  r_verifier : Verifier W;
  r_handler : Handler W;
  r_replayGuard : option (ReplayGuard W);
  r_clock : W → time * W;
  r_maxBody : Z;
  r_replayTTL : duration;
  r_successStatus : Z;
  r_respondError : ErrorResponder
}.

(** [NewReceiver]; [systemClock] is the clock of a nil one. *)
Definition NewReceiver (systemClock : W → time * W) (c : ReceiverConfig) : go Receiver :=
  verifier ← of_option (NewError CodeInvalidConfiguration "verifier is required" None) (rc_Verifier c);
  handler ← of_option (NewError CodeInvalidConfiguration "handler is required" None) (rc_Handler c);
  let maxBody := if rc_MaxBodyBytes c <=? 0 then 1048576 else rc_MaxBodyBytes c in
  let ttl := if rc_ReplayTTL c <=? 0 then 10 * Minute else rc_ReplayTTL c in
  let status := if rc_SuccessStatus c =? 0 then 204 else rc_SuccessStatus c in
  _ ← reject ((status <? 200) || (299 <? status))
        (NewError CodeInvalidConfiguration "success status must be 2xx" None);
  Ok {| r_verifier := verifier; r_handler := handler; r_replayGuard := rc_ReplayGuard c;
        r_clock := clockOrSystem systemClock (rc_Clock c); r_maxBody := maxBody; r_replayTTL := ttl;
        r_successStatus := status;
        r_respondError := default defaultErrorResponder (rc_ErrorResponder c) |}.

(** [(r *Receiver) handle]: a panicking handler's claim is released before the
    panic goes on. *)
Definition handle (r : Receiver) (m : VerifiedMessage) (w : W) : outcome_of_call * W :=
  match r_handler r m w with
  | (Panicked v, w1) =>
      match r_replayGuard r with
      | Some rg => let '(_, w2) := rg_Release rg (vm_Source m) (vm_ID m) w1 in (Panicked v, w2)
      | None => (Panicked v, w1)
      end
  | r' => r'
  end.

(** How a request ends: a response, or the handler's panic. *)
Inductive served : Type :=
| Responded (resp : Response)
| Propagated (panic : string).

(** The message made of a verified body. *)
Definition verified_message (q : Request) (body : string) (verification : Verification) : VerifiedMessage :=
  {| vm_ID := v_ID verification; vm_Type := v_Type verification;
     vm_Source := v_Source verification; vm_Timestamp := v_Timestamp verification;
     vm_Body := body; vm_ContentType := h_get (rq_Header q) "Content-Type";
     vm_Headers := rq_Header q; vm_Metadata := v_Metadata verification |}.

(** Verification of the body read: the message to dispatch, and the world then. *)
Definition admit_message (r : Receiver) (q : Request) (body : string) (receivedAt : time) (w : W)
    : go VerifiedMessage * W :=
  let '(res, w1) := r_verifier r {| vi_Headers := rq_Header q; vi_Body := body;
                                    vi_ReceivedAt := receivedAt |} w in
  (verification ← res;
   let message := verified_message q body verification in
   _ ← VerifiedMessage_Validate message;
   Ok message, w1).

(** The dispatch of a claimed message, and what follows the handler's return. *)
Definition process (r : Receiver) (m : VerifiedMessage) (w : W) : served * W :=
  match handle r m w with
  | (Panicked v, w1) => (Propagated v, w1)
  | (Returned (Some err), w1) =>
      let '(err, w2) :=
        match r_replayGuard r with
        | Some rg =>
            match rg_Release rg (vm_Source m) (vm_ID m) w1 with
            | (Err releaseErr, w2) =>
                (NewError CodeHandler "handle webhook and release replay claim"
                   (Some (JoinError [err; releaseErr])), w2)
            | (Ok _, w2) => (err, w2)
            end
        | None => (err, w1)
        end in
      (Responded (r_respondError r err), w2)
  | (Returned None, w1) =>
      match r_replayGuard r ≫= rg_Commit with
      | Some commit =>
          let '(now, w2) := r_clock r w1 in
          match commit (vm_Source m) (vm_ID m) (Add now (r_replayTTL r)) w2 with
          | (Err e, w3) =>
              (Responded (r_respondError r (NewError CodeReplay "commit replay claim" (Some e))), w3)
          | (Ok _, w3) => (Responded (bare_status (r_successStatus r)), w3)
          end
      | None => (Responded (bare_status (r_successStatus r)), w1)
      end
  end.

Definition is_identity (encoding : string) : bool :=
  str_eqb (lower_ascii encoding) "identity".

(** [(r *Receiver) ServeHTTP] *)
Definition ServeHTTP (r : Receiver) (q : Request) (w : W) : served * W :=
  if negb (str_eqb (rq_Method q) "POST") then
    (Responded (http_error (h_set ∅ "Allow" "POST") "method not allowed" 405), w)
  else
    let encoding := TrimSpace (h_get (rq_Header q) "Content-Encoding") in
    if negb (str_eqb encoding ε) && negb (is_identity encoding) then
      (Responded (r_respondError r
         (NewError CodeInvalidMessage "compressed webhook bodies are not accepted" None)), w)
    else if r_maxBody r <? rq_ContentLength q then
      (Responded (r_respondError r
         (NewError CodeBodyTooLarge "webhook body exceeds configured limit" None)), w)
    else match readBounded (rq_Body q) (r_maxBody r) with
    | Err e => (Responded (r_respondError r e), w)
    | Ok body =>
        let '(receivedAt, w1) := r_clock r w in
        match admit_message r q body receivedAt w1 with
        | (Err e, w2) => (Responded (r_respondError r e), w2)
        | (Ok message, w2) =>
            match r_replayGuard r with
            | Some rg =>
                match rg_Claim rg (vm_Source message) (vm_ID message)
                        (Add receivedAt (r_replayTTL r)) w2 with
                | (Err e, w3) => (Responded (r_respondError r e), w3)
                | (Ok false, w3) => (Responded (bare_status (r_successStatus r)), w3)
                | (Ok true, w3) => process r message w3
                end
            | None => process r message w2
            end
        end
    end.

(** Request [q] passes the checks before the body is read. *)
Definition well_formed_request (r : Receiver) (q : Request) : Prop :=
  rq_Method q = "POST" ∧
  (let encoding := TrimSpace (h_get (rq_Header q) "Content-Encoding") in
   encoding = ε ∨ is_identity encoding = true) ∧
  rq_ContentLength q ≤ r_maxBody r.

(** Request [q], received at [at_] in world [w], passes every check and carries message
    [m]; verification leaves world [w']. *)
Definition delivers (r : Receiver) (q : Request) (at_ : time) (w : W) (m : VerifiedMessage) (w' : W) : Prop :=
  well_formed_request r q ∧
  ∃ body, readBounded (rq_Body q) (r_maxBody r) = Ok body ∧ admit_message r q body at_ w = (Ok m, w').

(** * Lemmas *)

(** What [ServeHTTP] does with a well-formed request whose body is read. *)
Lemma ServeHTTP_reads r q w body now w1 :
  well_formed_request r q → readBounded (rq_Body q) (r_maxBody r) = Ok body → r_clock r w = (now, w1) →
  ServeHTTP r q w =
    match admit_message r q body now w1 with
    | (Err e, w2) => (Responded (r_respondError r e), w2)
    | (Ok message, w2) =>
        match r_replayGuard r with
        | Some rg =>
            match rg_Claim rg (vm_Source message) (vm_ID message) (Add now (r_replayTTL r)) w2 with
            | (Err e, w3) => (Responded (r_respondError r e), w3)
            | (Ok false, w3) => (Responded (bare_status (r_successStatus r)), w3)
            | (Ok true, w3) => process r message w3
            end
        | None => process r message w2
        end
    end.
Proof.
  intros (Hm & He & Hl) Hb Hc. unfold ServeHTTP.
  rewrite Hm. simpl (negb (str_eqb _ _)).
  replace (negb (str_eqb (TrimSpace _) ε) && negb (is_identity _)) with false.
  2:{ destruct He as [He|He]; rewrite He; [done|]. by rewrite andb_false_r. }
  by rewrite (proj2 (Z.ltb_ge _ _) Hl), Hb, Hc.
Qed.

(** What it does with a request that carries a message. *)
Lemma ServeHTTP_delivers r q w now w1 m w2 :
  r_clock r w = (now, w1) → delivers r q now w1 m w2 →
  ServeHTTP r q w =
    match r_replayGuard r with
    | Some rg =>
        match rg_Claim rg (vm_Source m) (vm_ID m) (Add now (r_replayTTL r)) w2 with
        | (Err e, w3) => (Responded (r_respondError r e), w3)
        | (Ok false, w3) => (Responded (bare_status (r_successStatus r)), w3)
        | (Ok true, w3) => process r m w3
        end
    | None => process r m w2
    end.
Proof. intros Hc (Hq & body & Hb & Ha). by rewrite (ServeHTTP_reads r q w body now w1), Ha. Qed.

(** What it does with every other request: the responder's answer or 405, in the same
    world, or in the one after the clock was read and the verification failed. *)
Definition refuses (r : Receiver) (q : Request) (w : W) (resp : Response) (w' : W) : Prop :=
  (w' = w ∧ (resp = http_error (h_set ∅ "Allow" "POST") "method not allowed" 405 ∨
             ∃ e, resp = r_respondError r e)) ∨
  (∃ body now w1 e, well_formed_request r q ∧ readBounded (rq_Body q) (r_maxBody r) = Ok body ∧
     r_clock r w = (now, w1) ∧ admit_message r q body now w1 = (Err e, w') ∧ resp = r_respondError r e).

Lemma ServeHTTP_cases r q w :
  (∃ resp w', ServeHTTP r q w = (Responded resp, w') ∧ refuses r q w resp w') ∨
  (∃ now w1 m w2, r_clock r w = (now, w1) ∧ delivers r q now w1 m w2).
Proof.
  destruct (str_eqb (rq_Method q) "POST") eqn:Em.
  2:{ left. unfold ServeHTTP. rewrite Em. do 2 eexists. split; [done|]. left. eauto. }
  destruct (negb (str_eqb (TrimSpace (h_get (rq_Header q) "Content-Encoding")) ε) &&
            negb (is_identity (TrimSpace (h_get (rq_Header q) "Content-Encoding")))) eqn:Ee.
  { left. unfold ServeHTTP. rewrite Em, Ee. do 2 eexists. split; [done|]. left. eauto. }
  destruct (r_maxBody r <? rq_ContentLength q) eqn:El.
  { left. unfold ServeHTTP. rewrite Em, Ee, El. do 2 eexists. split; [done|]. left. eauto. }
  destruct (readBounded (rq_Body q) (r_maxBody r)) as [body|e] eqn:Eb.
  2:{ left. unfold ServeHTTP. rewrite Em, Ee, El, Eb. do 2 eexists. split; [done|]. left. eauto. }
  assert (well_formed_request r q) as Hq.
  { split_and!; [by apply str_eqb_true| |by apply Z.ltb_ge].
    apply andb_false_iff in Ee as [Ee%negb_false_iff|Ee%negb_false_iff]; [left|by right].
    by apply str_eqb_true. }
  destruct (r_clock r w) as [now w1] eqn:Ec.
  destruct (admit_message r q body now w1) as [[m|e] w2] eqn:Ea.
  - right. exists now, w1, m, w2. split; [done|]. split; [done|]. by exists body.
  - left. rewrite (ServeHTTP_reads r q w body now w1), Ea by done. do 2 eexists. split; [done|].
    right. by exists body, now, w1, e.
Qed.

Definition success (resp : Response) : Prop := 200 ≤ rs_Status resp ≤ 299.

(** The responder never answers an error with a 2xx status. *)
Definition honest (respond : ErrorResponder) : Prop := ∀ e, ¬ success (respond e).

Lemma process_success r m w resp w' :
  honest (r_respondError r) → process r m w = (Responded resp, w') → success resp →
  ∃ w1, r_handler r m w = (Returned None, w1) ∧
    match r_replayGuard r ≫= rg_Commit with
    | Some commit => let '(now, w2) := r_clock r w1 in
        commit (vm_Source m) (vm_ID m) (Add now (r_replayTTL r)) w2 = (Ok tt, w')
    | None => w' = w1
    end.
Proof.
  intros Hh. unfold process, handle.
  destruct (r_handler r m w) as [[[err|]|v] w1].
  - destruct (r_replayGuard r) as [rg|].
    + destruct (rg_Release rg _ _ w1) as [[[]|e] w2]; intros [= <- <-] Hs; by destruct (Hh _ Hs).
    + intros [= <- <-] Hs; by destruct (Hh _ Hs).
  - intros Hp Hs. exists w1. split; [done|]. destruct (r_replayGuard r ≫= rg_Commit) as [commit|].
    + destruct (r_clock r w1) as [now w2]. destruct (commit _ _ _ w2) as [[[]|e] w3];
        injection Hp as <- <-; [done|by destruct (Hh _ Hs)].
    + by injection Hp as _ <-.
  - destruct (r_replayGuard r) as [rg|]; [destruct (rg_Release rg _ _ w1) as [[[]|e] w2]|]; done.
Qed.

Lemma admit_message_Ok r q body at_ w m w' :
  admit_message r q body at_ w = (Ok m, w') →
  VerifiedMessage_Validate m = Ok tt ∧
  ∃ v, r_verifier r {| vi_Headers := rq_Header q; vi_Body := body; vi_ReceivedAt := at_ |} w = (Ok v, w') ∧
    m = verified_message q body v.
Proof.
  unfold admit_message. destruct (r_verifier r _ w) as [[v|e] w1]; [|done]. intros H.
  injection H as H <-. cbn [mbind result_bind] in H. apply bind_Ok in H as ([] & Hv & [= <-]). eauto.
Qed.
End receiver.
Arguments Receiver : clear implicits.
Arguments ReceiverConfig : clear implicits.

(** * The memory guard behind the receiver's interface *)

Section memory.
Context {A : Type} (now : A → time) (ctx_err : error).

(** [*MemoryReplayGuard] as a [ReplayGuard] of a world that holds the guard and
    the application's state.  One request runs at a time here, so a claim that
    would have to wait ends with its context. *)
Definition memory_guard : ReplayGuard (guard * A) :=
  {| rg_Claim := λ source id _ w,
       match Claim w.1 (now w.2) (replay_key source id) [Cancelled ctx_err] with
       | Some (res, g) => (res, (g, w.2))
       | None => (Ok false, w)
       end;
     rg_Release := λ source id w,
       let '(res, g) := Release w.1 (replay_key source id) in (res, (g, w.2));
     rg_Commit := Some (λ source id exp w,
       let '(res, g) := Commit w.1 (replay_key source id) exp in (res, (g, w.2))) |}.

(** An application handler: it does not touch the guard. *)
Definition app_handler (h : Handler A) : Handler (guard * A) := λ m w,
  let '(res, a) := h m w.2 in (res, (w.1, a)).

(** An application's verifier: it does not touch the guard. *)
Definition app_verifier (v : Verifier A) : Verifier (guard * A) := λ input w,
  let '(res, a) := v input w.2 in (res, (w.1, a)).

Definition idle (g : guard) : Prop := ∀ k e, g_entries g !! k = Some e → ¬ active e.

Lemma memory_claim source id exp g a res w :
  guard_wf g → idle g →
  rg_Claim memory_guard source id exp (g, a) = (res, w) →
  guard_wf w.1 ∧ w.2 = a ∧
  match res with
  | Ok true => ∀ k, has_active w.1 k ↔ k = replay_key source id
  | Ok false => w.1 = g ∧ ∃ e, g_entries g !! replay_key source id = Some e ∧ ¬ active e
  | Err _ => idle w.1
  end.
Proof.
  intros Hwf Hidle. simpl.
  destruct (claim_pass g (now a) (replay_key source id)) as [r g'] eqn:E.
  destruct (claim_pass_spec _ _ _ _ _ Hwf E) as (Hwf' & _ & _ & _ & Hsub & Hact & Hr).
  destruct r; intros [= <- <-]; simpl.
  - split_and!; [done|done|]. destruct Hr as [_ (e & He & Ha)]. intros k. split.
    + intros (e' & He' & Ha'). destruct (decide (k = replay_key source id)); [done|].
      exfalso. eapply Hidle; eauto.
    + intros ->. by exists e.
  - destruct Hr as [-> (e & He & Ha & _)]. eauto 6.
  - destruct Hr as [-> (e & He & Ha & _)]. exfalso. by eapply Hidle.
  - destruct Hr as [_ Hn]. split_and!; [done|done|]. intros k e He.
    destruct (decide (k = replay_key source id)) as [->|]; [congruence|]. eauto.
Qed.

(** Settling the only active claim leaves the guard idle. *)
Lemma settled_idle g key e m :
  guard_wf g → (∀ k, has_active g k ↔ k = key) → g_entries g !! key = Some e → active e →
  (∀ k, k ≠ key → m !! k = g_entries g !! k) → (∀ e', m !! key = Some e' → ¬ active e') →
  (size m ≤ size (g_entries g))%nat →
  let g' := {| g_entries := m; g_max := g_max g; g_fresh := g_fresh g;
               g_closed := close g (e_done e) |} in
  guard_wf g' ∧ idle g'.
Proof.
  intros Hwf Hk He Ha Hm Hme Hsz. split; [by eapply wf_settle|].
  intros k e' He' Ha'. simpl in He'. destruct (decide (k = key)) as [->|Hne]; [by eapply Hme|].
  rewrite Hm in He' by done. apply Hne, Hk. by exists e'.
Qed.

Lemma memory_release source id g a :
  guard_wf g → (∀ k, has_active g k ↔ k = replay_key source id) →
  ∃ g', rg_Release memory_guard source id (g, a) = (Ok tt, (g', a)) ∧ guard_wf g' ∧ idle g'.
Proof.
  intros Hwf Hk. destruct (proj2 (Hk _) eq_refl) as (e & He & Ha). simpl.
  rewrite (Release_owner _ _ _ He Ha). eexists. split; [done|].
  eapply settled_idle; eauto.
  - intros k Hne. by rewrite lookup_delete_ne.
  - intros e'. by rewrite lookup_delete_eq.
  - apply map_subseteq_size, delete_subseteq.
Qed.

Lemma memory_commit source id exp g a commit :
  rg_Commit memory_guard = Some commit →
  guard_wf g → (∀ k, has_active g k ↔ k = replay_key source id) →
  ∃ g', commit source id exp (g, a) = (Ok tt, (g', a)) ∧ guard_wf g' ∧ idle g'.
Proof.
  intros [= <-] Hwf Hk. destruct (proj2 (Hk _) eq_refl) as (e & He & Ha). simpl.
  rewrite (Commit_owner _ _ _ exp He Ha). eexists. split; [done|].
  eapply settled_idle; eauto.
  - intros k Hne. by rewrite lookup_insert_ne.
  - intros e'. rewrite lookup_insert_eq. by intros [= <-].
  - rewrite map_size_insert_Some; [done|by eexists].
Qed.
End memory.

Lemma default_honest : honest defaultErrorResponder.
Proof.
  intros e. unfold success, defaultErrorResponder. repeat case_match; simplify_eq; simpl; lia.
Qed.

(** A guard whose key is accepted and alive answers a claim as a duplicate. *)
Lemma memory_duplicate {A} (now : A → time) ctx source id exp g a e :
  g_entries g !! replay_key source id = Some e → ¬ active e → now a < e_expiresAt e →
  rg_Claim (memory_guard now ctx) source id exp (g, a) = (Ok false, (g, a)).
Proof.
  intros He Ha Hexp. simpl. unfold claim_pass. rewrite He. unfold active in Ha.
  destruct (e_accepted e); [|done]. unfold After. by rewrite (proj2 (Z.ltb_lt _ _)).
Qed.

(** What a limit below the largest int64 makes of a body. *)
Lemma read_limited_exact n r :
  0 < n →
  read_limited n r =
    if n <=? slen (rd_data r) then (str_take (Z.to_nat n) (rd_data r), None)
    else (rd_data r, rd_err r).
Proof. intros. unfold read_limited. by destruct (Z.leb_spec n 0); [lia|]. Qed.

Lemma readBounded_small data maximum :
  0 ≤ maximum < int64_max → slen data ≤ maximum →
  readBounded (Some {| rd_data := data; rd_err := None |}) maximum = Ok data.
Proof.
  intros Hmax Hlen. unfold readBounded.
  rewrite (wrap64_id (maximum + 1)) by (unfold in_int64, int64_min, int64_max in *; lia).
  rewrite read_limited_exact by lia. simpl.
  rewrite (proj2 (Z.leb_gt _ _)) by lia. by rewrite (proj2 (Z.ltb_ge _ _)).
Qed.

(** ** A receiver in front of a memory guard *)

Section served_by_memory.
Context {A : Type} (now : A → time) (ctx_err : error) (v : Verifier A) (h : Handler A).
Context (r : Receiver (guard * A)).

(** The receiver's guard is the memory guard, and its verifier, handler and clock
    leave the guard alone. *)
Record memory_receiver : Prop := {
  mr_guard : r_replayGuard r = Some (memory_guard now ctx_err);
  mr_verifier : r_verifier r = app_verifier v;
  mr_handler : r_handler r = app_handler h;
  mr_clock w : r_clock r w = (now w.2, w)
}.
Hypothesis Hr : memory_receiver.

(** Verification leaves the guard alone, and does not depend on it. *)
Lemma admit_guard q body at_ g a res w' :
  admit_message r q body at_ (g, a) = (res, w') →
  w' = (g, w'.2) ∧ w'.2 = (v {| vi_Headers := rq_Header q; vi_Body := body; vi_ReceivedAt := at_ |} a).2 ∧
  ∀ g', admit_message r q body at_ (g', a) = (res, (g', w'.2)).
Proof.
  unfold admit_message. rewrite (mr_verifier Hr). unfold app_verifier. simpl.
  destruct (v _ a) as [ver a']. intros [= <- <-]. by split_and!.
Qed.

Lemma delivers_guard q at_ g a m w' :
  delivers r q at_ (g, a) m w' → w' = (g, w'.2) ∧ ∀ g', delivers r q at_ (g', a) m (g', w'.2).
Proof.
  intros (Hq & body & Hb & Ha). destruct (admit_guard _ _ _ _ _ _ _ Ha) as (Hw & _ & Hg).
  split; [done|]. intros g'. split; [done|]. exists body. by rewrite Hg.
Qed.

(** What [process] leaves of a claimed message's guard. *)
Lemma process_memory m g a res w' :
  guard_wf g → (∀ k, has_active g k ↔ k = replay_key (vm_Source m) (vm_ID m)) →
  process r m (g, a) = (res, w') →
  guard_wf w'.1 ∧ idle w'.1 ∧ w'.2 = (h m a).2 ∧
  ((h m a).1 = Returned None →
     res = Responded (bare_status (r_successStatus r)) ∧
     ∃ e, g_entries w'.1 !! replay_key (vm_Source m) (vm_ID m) = Some e ∧ ¬ active e ∧
          e_expiresAt e = Add (now w'.2) (r_replayTTL r)).
Proof.
  intros Hwf Hk. unfold process, handle.
  rewrite (mr_guard Hr), (mr_handler Hr). unfold app_handler. simpl snd.
  destruct (h m a) as [[[err|]|panic] a'] eqn:Eh; simpl fst; simpl snd.
  - destruct (memory_release now ctx_err _ _ g a' Hwf Hk) as (g' & -> & Hwf' & Hi).
    intros [= <- <-]. split_and!; [done..|]. intros [=].
  - cbn [mbind option_bind memory_guard rg_Commit]. rewrite (mr_clock Hr). simpl snd.
    destruct (proj2 (Hk _) eq_refl) as (e & He & Ha). simpl fst.
    rewrite (Commit_owner _ _ _ (Add (now a') (r_replayTTL r)) He Ha). intros [= <- <-]. simpl.
    destruct (settled_idle g (replay_key (vm_Source m) (vm_ID m)) e
      (<[replay_key (vm_Source m) (vm_ID m) :=
           {| e_accepted := true; e_expiresAt := Add (now a') (r_replayTTL r); e_done := None |}]>
         (g_entries g))) as [Hwf' Hi]; auto.
    + intros k Hne. by rewrite lookup_insert_ne.
    + intros e'. rewrite lookup_insert_eq. by intros [= <-].
    + rewrite map_size_insert_Some; [done|by eexists].
    + split_and!; auto. intros _. split; [done|]. rewrite lookup_insert_eq.
      eexists. split_and!; done.
  - destruct (memory_release now ctx_err _ _ g a' Hwf Hk) as (g' & -> & Hwf' & Hi).
    intros [= <- <-]. split_and!; [done..|]. intros [=].
Qed.

(** C8 No claim outlives its request: however the request ends (rejected,
    handled, failed, or with the handler's panic passing through), the memory
    guard is left well-formed and with no identity in progress, so that the
    provider's retry is processed. *)
Theorem request_leaves_guard_idle q g a res w' :
  guard_wf g → idle g → ServeHTTP r q (g, a) = (res, w') → guard_wf w'.1 ∧ idle w'.1.
Proof.
  intros Hwf Hidle Hs.
  destruct (ServeHTTP_cases r q (g, a)) as [(resp & w & E & Hrefused)|(at_ & w1 & m & w2 & Hc & Hm)].
  - rewrite E in Hs. injection Hs as _ <-.
    destruct Hrefused as [[-> _]|(body & at_ & w1 & e & _ & _ & Hc & Ha & _)]; [done|].
    rewrite (mr_clock Hr) in Hc. injection Hc as _ <-. by destruct (admit_guard _ _ _ _ _ _ _ Ha) as [-> _].
  - rewrite (ServeHTTP_delivers _ _ _ _ _ _ _ Hc Hm), (mr_guard Hr) in Hs.
    rewrite (mr_clock Hr) in Hc. injection Hc as <- <-.
    destruct (delivers_guard _ _ _ _ _ _ Hm) as [Hw2 _]. rewrite Hw2 in Hs.
    destruct (rg_Claim (memory_guard now ctx_err) _ _ _ _) as [cr [g2 a2]] eqn:Ec.
    destruct (memory_claim _ _ _ _ _ _ _ _ _ Hwf Hidle Ec) as (Hwf2 & Ha2 & Hcase).
    simpl in *. destruct cr as [[]|e].
    + by destruct (process_memory m g2 a2 res w' Hwf2 Hcase Hs) as (? & ? & _).
    + injection Hs as _ <-. destruct Hcase as [-> _]. done.
    + by injection Hs as _ <-.
Qed.

(** The first delivery of a message, and every later one while its entry lives; [a1] and
    [a3] are the application's states after the verifications. *)
Lemma ServeHTTP_once q g g1 a a1 m :
  guard_wf g → idle g → delivers r q (now a) (g, a) m (g, a1) →
  claim_pass g (now a1) (replay_key (vm_Source m) (vm_ID m)) = (Claimed, g1) →
  (h m a1).1 = Returned None →
  ∃ g', ServeHTTP r q (g, a) = (Responded (bare_status (r_successStatus r)), (g', (h m a1).2)) ∧
    ∀ q' m' a2 a3, delivers r q' (now a2) (g', a2) m' (g', a3) →
      vm_Source m' = vm_Source m → vm_ID m' = vm_ID m →
      now a3 < Add (now (h m a1).2) (r_replayTTL r) →
      ServeHTTP r q' (g', a2) = (Responded (bare_status (r_successStatus r)), (g', a3)).
Proof.
  intros Hwf Hidle Hq Hclaim Hh.
  rewrite (ServeHTTP_delivers r q (g, a) (now a) (g, a) m _ (mr_clock Hr (g, a)) Hq), (mr_guard Hr).
  destruct (rg_Claim (memory_guard now ctx_err) _ _ _ _) as [cr [g2 a2]] eqn:Ec.
  destruct (memory_claim _ _ _ _ _ _ _ _ _ Hwf Hidle Ec) as (Hwf2 & Ha2 & Hcase).
  simpl in Ec, Ha2, Hwf2, Hcase. rewrite Hclaim in Ec. injection Ec as <- -> ->.
  destruct (process r m (g2, a2)) as [res w'] eqn:Ep.
  destruct (process_memory m g2 a2 res w' Hwf2 Hcase Ep) as (_ & _ & Hw & Hok).
  destruct (Hok Hh) as (-> & e & He & Ha & Hexp). destruct w' as [g' a']. simpl in *. subst a'.
  exists g'. split; [done|]. intros q' m' a'' a3 Hq' Hs Hi Hlt.
  rewrite (ServeHTTP_delivers r q' (g', a'') (now a'') (g', a'') m' _ (mr_clock Hr (g', a'')) Hq'), (mr_guard Hr), Hs, Hi.
  rewrite (memory_duplicate now ctx_err _ _ _ g' a3 e); [done..|]. by rewrite Hexp.
Qed.

(** A message is processed once: after the handler succeeded for a claimed
    message, the request is answered with the success status, and until the
    replay entry expires every later request that carries the same source and
    identifier is answered with the success status too, while the handler is not
    run and nothing changes but what the verification itself did. *)
Lemma duplicate_acknowledged_unhandled q g g1 a a1 m :
  guard_wf g → idle g → delivers r q (now a) (g, a) m (g, a1) →
  claim_pass g (now a1) (replay_key (vm_Source m) (vm_ID m)) = (Claimed, g1) →
  (h m a1).1 = Returned None →
  ∃ g', ServeHTTP r q (g, a) = (Responded (bare_status (r_successStatus r)), (g', (h m a1).2)) ∧
    ∀ q' m' a2 a3, delivers r q' (now a2) (g', a2) m' (g', a3) →
      vm_Source m' = vm_Source m → vm_ID m' = vm_ID m →
      now a3 < Add (now (h m a1).2) (r_replayTTL r) →
      ServeHTTP r q' (g', a2) = (Responded (bare_status (r_successStatus r)), (g', a3)).
Proof. apply ServeHTTP_once. Qed.
End served_by_memory.

(** What a 2xx answer means. *)
Lemma ServeHTTP_success {W} (r : Receiver W) q w resp w' :
  honest (r_respondError r) → ServeHTTP r q w = (Responded resp, w') → success resp →
  ∃ now w1 m w2, r_clock r w = (now, w1) ∧ delivers r q now w1 m w2 ∧
    match r_replayGuard r with
    | None => r_handler r m w2 = (Returned None, w')
    | Some rg =>
        rg_Claim rg (vm_Source m) (vm_ID m) (Add now (r_replayTTL r)) w2 = (Ok false, w') ∨
        ∃ w3 w4, rg_Claim rg (vm_Source m) (vm_ID m) (Add now (r_replayTTL r)) w2 = (Ok true, w3) ∧
          r_handler r m w3 = (Returned None, w4) ∧
          match rg_Commit rg with
          | Some commit => let '(now', w5) := r_clock r w4 in
              commit (vm_Source m) (vm_ID m) (Add now' (r_replayTTL r)) w5 = (Ok tt, w')
          | None => w' = w4
          end
    end.
Proof.
  intros Hh Hs Hok.
  destruct (ServeHTTP_cases r q w) as [(resp' & w0 & E & Hrefused)|(at_ & w1 & m & w2 & Hc & Hm)].
  { rewrite E in Hs. injection Hs as -> ->. exfalso.
    destruct Hrefused as [[_ [->|[e ->]]]|(body & at_ & w1 & e & _ & _ & _ & _ & ->)];
      [unfold success in Hok; simpl in Hok; lia|by destruct (Hh _ Hok)..]. }
  exists at_, w1, m, w2. split; [done|]. split; [done|].
  rewrite (ServeHTTP_delivers _ _ _ _ _ _ _ Hc Hm) in Hs. destruct (r_replayGuard r) as [rg|] eqn:Eg.
  - destruct (rg_Claim rg _ _ _ w2) as [[[]|e] w3] eqn:Ecl.
    + right. destruct (process_success _ _ _ _ _ Hh Hs Hok) as (w4 & Hw4 & Hcom).
      exists w3, w4. rewrite Eg in Hcom. by split_and!.
    + left. by injection Hs as _ ->.
    + injection Hs as <- _. by destruct (Hh _ Hok).
  - destruct (process_success _ _ _ _ _ Hh Hs Hok) as (w4 & Hw4 & Hcom). rewrite Eg in Hcom. simpl in Hcom.
    by rewrite Hcom.
Qed.

(** C3 A 2xx answer means the message was verified and handled: with a responder
    that answers errors outside 2xx (the default one does), success is reported only for
    a request whose bounded body passed verification and validation at the time read
    before it, and whose message the guard, asked in the state verification left,
    either knew as accepted, or let through to a handler that accepted it, whereupon
    the acceptance was committed; with no guard, the handler accepted it. *)
Theorem success_only_when_handled {W} (r : Receiver W) q w resp w' :
  honest (r_respondError r) → ServeHTTP r q w = (Responded resp, w') → success resp →
  ∃ now w1 m w2, r_clock r w = (now, w1) ∧ delivers r q now w1 m w2 ∧
    match r_replayGuard r with
    | None => r_handler r m w2 = (Returned None, w')
    | Some rg =>
        rg_Claim rg (vm_Source m) (vm_ID m) (Add now (r_replayTTL r)) w2 = (Ok false, w') ∨
        ∃ w3 w4, rg_Claim rg (vm_Source m) (vm_ID m) (Add now (r_replayTTL r)) w2 = (Ok true, w3) ∧
          r_handler r m w3 = (Returned None, w4) ∧
          match rg_Commit rg with
          | Some commit => let '(now', w5) := r_clock r w4 in
              commit (vm_Source m) (vm_ID m) (Add now' (r_replayTTL r)) w5 = (Ok tt, w')
          | None => w' = w4
          end
    end.
Proof. apply ServeHTTP_success. Qed.

(** The body limit is exact below the largest int64: a body is returned whole
    when it is at most [maximum] bytes, rejected as too large when it is longer,
    and never truncated; a reader's failure within the limit is reported. *)
Lemma readBounded_exact data err maximum :
  0 ≤ maximum < int64_max →
  readBounded (Some {| rd_data := data; rd_err := err |}) maximum =
    if maximum <? slen data
    then Err (NewError CodeBodyTooLarge "webhook body exceeds configured limit" None)
    else match err with
         | Some e => Err (NewError CodeInvalidMessage "read webhook body" (Some e))
         | None => Ok data
         end.
Proof.
  intros Hmax. unfold readBounded.
  rewrite (wrap64_id (maximum + 1)) by (unfold in_int64, int64_min, int64_max in *; lia).
  rewrite read_limited_exact by lia. simpl.
  destruct (Z.leb_spec (maximum + 1) (slen data)), (Z.ltb_spec maximum (slen data)); try lia;
    [|done].
  rewrite slen_take, (proj2 (Z.ltb_lt _ _)); [done|]. lia.
Qed.

(** At the largest int64 the limit's increment wraps: every body, whatever
    its content or read error, is returned as empty. *)
Lemma readBounded_wraps r : readBounded (Some r) int64_max = Ok ε.
Proof. reflexivity. Qed.

(** * Witnesses: a receiver whose application state is a clock and the number of
    messages handled, in front of a guard of one entry *)

Definition ex_verifier : verify_function := λ input,
  if str_eqb (vi_Body input) ε
  then Err (NewError CodeInvalidSignature "no signature" None)
  else Ok {| v_ID := vi_Body input; v_Type := "ping"; v_Source := "ex"; v_Timestamp := 7;
             v_Metadata := ∅ |}.

Definition ex_handler : Handler (time * nat) := λ _ a, (Returned None, (a.1 + 1, S a.2)).

Definition ex_receiver : Receiver (guard * (time * nat)) :=
  {| r_verifier := app_verifier (verify_in (λ _, ex_verifier) (λ _ a, a)); r_handler := app_handler ex_handler;
     r_replayGuard := Some (memory_guard fst (PlainError "context canceled"));
     r_clock := λ w, (w.2.1, w); r_maxBody := 16; r_replayTTL := 100; r_successStatus := 204;
     r_respondError := defaultErrorResponder |}.

Definition ex_request : Request :=
  {| rq_Method := "POST"; rq_Header := ∅; rq_ContentLength := 5;
     rq_Body := Some {| rd_data := "msg_1"; rd_err := None |} |}.

Definition ex_guard : guard := NewMemoryReplayGuard 1.

Definition ex_message : VerifiedMessage :=
  match (admit_message ex_receiver ex_request "msg_1" 50 (ex_guard, (50, 0%nat))).1 with
  | Ok m => m
  | Err _ => {| vm_ID := ε; vm_Type := ε; vm_Source := ε; vm_Timestamp := 0; vm_Body := ε;
                vm_ContentType := ε; vm_Headers := ∅; vm_Metadata := ∅ |}
  end.

Lemma ex_memory_receiver :
  memory_receiver fst (PlainError "context canceled") (verify_in (λ _, ex_verifier) (λ _ a, a)) ex_handler
    ex_receiver.
Proof. by constructor. Qed.

Lemma ex_guard_ok : guard_wf ex_guard ∧ idle ex_guard.
Proof.
  split; [exact (si_guard _ (initial_inv 1))|]. intros k e. unfold ex_guard. simpl.
  by rewrite lookup_empty.
Qed.

Lemma ex_delivers now w : delivers ex_receiver ex_request now w ex_message w.
Proof.
  split; [split_and!; [reflexivity|by left|by vm_compute]|]. exists "msg_1".
  split; [vm_compute; reflexivity|]. by destruct w as [g a].
Qed.

Lemma request_leaves_guard_idle_witness :
  guard_wf (ServeHTTP ex_receiver ex_request (ex_guard, (50, 0%nat))).2.1 ∧
  idle (ServeHTTP ex_receiver ex_request (ex_guard, (50, 0%nat))).2.1.
Proof.
  exact (request_leaves_guard_idle fst (PlainError "context canceled") _ ex_handler ex_receiver
    ex_memory_receiver ex_request ex_guard (50, 0%nat) _ _
    (proj1 ex_guard_ok) (proj2 ex_guard_ok) (surjective_pairing _)).
Defined.

Lemma duplicate_acknowledged_unhandled_witness :
  ∃ g', ServeHTTP ex_receiver ex_request (ex_guard, (50, 0%nat)) =
          (Responded (bare_status 204), (g', (51, 1%nat))) ∧
    ∀ q' m' a2 a3, delivers ex_receiver q' a2.1 (g', a2) m' (g', a3) →
      vm_Source m' = "ex" → vm_ID m' = "msg_1" → a3.1 < Add 51 100 →
      ServeHTTP ex_receiver q' (g', a2) = (Responded (bare_status 204), (g', a3)).
Proof.
  refine (duplicate_acknowledged_unhandled fst (PlainError "context canceled") _ ex_handler
    ex_receiver ex_memory_receiver ex_request ex_guard _ (50, 0%nat) (50, 0%nat) ex_message
    (proj1 ex_guard_ok) (proj2 ex_guard_ok) (ex_delivers 50 _) _ eq_refl).
  vm_compute. reflexivity.
Defined.

Lemma success_only_when_handled_witness :
  let w' := (ServeHTTP ex_receiver ex_request (ex_guard, (50, 0%nat))).2 in
  ∃ now w1 m w2, r_clock ex_receiver (ex_guard, (50, 0%nat)) = (now, w1) ∧
    delivers ex_receiver ex_request now w1 m w2 ∧
    match r_replayGuard ex_receiver with
    | None => r_handler ex_receiver m w2 = (Returned None, w')
    | Some rg =>
        rg_Claim rg (vm_Source m) (vm_ID m) (Add now 100) w2 = (Ok false, w') ∨
        ∃ w3 w4, rg_Claim rg (vm_Source m) (vm_ID m) (Add now 100) w2 = (Ok true, w3) ∧
          r_handler ex_receiver m w3 = (Returned None, w4) ∧
          match rg_Commit rg with
          | Some commit => let '(now', w5) := r_clock ex_receiver w4 in
              commit (vm_Source m) (vm_ID m) (Add now' 100) w5 = (Ok tt, w')
          | None => w' = w4
          end
    end.
Proof.
  refine (success_only_when_handled ex_receiver ex_request (ex_guard, (50, 0%nat))
    (bare_status 204) (ServeHTTP ex_receiver ex_request (ex_guard, (50, 0%nat))).2 default_honest _ _).
  - vm_compute. reflexivity.
  - by vm_compute.
Defined.

Lemma readBounded_exact_witness :
  readBounded (Some {| rd_data := "12345"; rd_err := None |}) 4 =
    Err (NewError CodeBodyTooLarge "webhook body exceeds configured limit" None).
Proof. apply (readBounded_exact "12345" None 4). vm_compute. by split. Defined.
