(* ===== verification/Standard.v ===== *)
(** src/standard/standard.go: the Standard Webhooks signature profile.

    HMAC-SHA256 and base64 are the executable definitions of [Codec]; Ed25519
    keys, signing and verification, and the JSON decoder, are arguments. *)

From S2P Require Import Prelude GoString Codec GoTime Errors Headers Message Receiver.

Definition HeaderID : string := "Webhook-Id".
Definition HeaderTimestamp : string := "Webhook-Timestamp".
Definition HeaderSignature : string := "Webhook-Signature".
Definition HMACSecretPrefix : string := "whsec_".
Definition PrivateKeyPrefix : string := "whsk_".
Definition PublicKeyPrefix : string := "whpk_".
Definition hmacSignatureID : string := "v1".
Definition ed25519SignatureID : string := "v1a".

(** [ed25519.PublicKeySize], [PrivateKeySize], [SignatureSize]. *)
Definition PublicKeySize : Z := 32.
Definition PrivateKeySize : Z := 64.
Definition SignatureSize : Z := 64.

(** * Keys *)

(** [decodeBase64] *)
Definition decodeBase64 (value : string) : go string :=
  match list_find (λ e, is_Some (b64_decode e value))
          [RawStdEncoding; StdEncoding; RawURLEncoding; URLEncoding] with
  | Some (_, e) => of_option (PlainError "invalid base64") (b64_decode e value)
  | None => Err (PlainError "invalid base64")
  end.

Definition bad_key_length (key : string) : bool := (slen key <? 24) || (64 <? slen key).

Definition ParseHMACSecret (value : string) : go string :=
  let encoded := TrimPrefix (TrimSpace value) HMACSecretPrefix in
  key ← map_err (λ e, NewError CodeInvalidConfiguration "decode Standard Webhooks HMAC key" (Some e))
          (decodeBase64 encoded);
  _ ← reject (bad_key_length key)
        (NewError CodeInvalidConfiguration "HMAC key must contain 24 to 64 bytes" None);
  Ok key.

Definition EncodeHMACSecret (key : string) : go string :=
  _ ← reject (bad_key_length key)
        (NewError CodeInvalidConfiguration "HMAC key must contain 24 to 64 bytes" None);
  Ok (HMACSecretPrefix +:+ b64_encode RawStdEncoding key).

(** [GenerateHMACSecret]: [read] is the outcome of filling the 32-byte key. *)
Definition GenerateHMACSecret (read : go string) : go string :=
  key ← map_err (λ e, NewError CodeInternal "generate HMAC key" (Some e)) read;
  EncodeHMACSecret key.

(** [HMACKeyProvider]: what [HMACKeys] returns. *)
Definition HMACKeyProvider : Type := go (list string).

(** [StaticHMACKeys] *)
Definition StaticHMACKeys (secrets : list string) : go HMACKeyProvider :=
  _ ← reject (bool_decide (secrets = []))
        (NewError CodeInvalidConfiguration "at least one HMAC key is required" None);
  keys ← mapM_result ParseHMACSecret secrets;
  Ok (Ok keys).

Definition validateHMACKeys (keys : list string) : go unit :=
  let n := Z.of_nat (length keys) in
  _ ← reject ((n =? 0) || (16 <? n))
        (NewError CodeInvalidConfiguration "between one and sixteen HMAC keys are required" None);
  reject (existsb bad_key_length keys)
    (NewError CodeInvalidConfiguration "HMAC key must contain 24 to 64 bytes" None).

(** [EncodePrivateKey], [EncodePublicKey], [ParsePrivateKey], [ParsePublicKey]. *)
Definition EncodePrivateKey (key : string) : go string :=
  _ ← reject (negb (slen key =? PrivateKeySize))
        (NewError CodeInvalidConfiguration "invalid Ed25519 private key length" None);
  Ok (PrivateKeyPrefix +:+ b64_encode RawStdEncoding key).

Definition EncodePublicKey (key : string) : go string :=
  _ ← reject (negb (slen key =? PublicKeySize))
        (NewError CodeInvalidConfiguration "invalid Ed25519 public key length" None);
  Ok (PublicKeyPrefix +:+ b64_encode RawStdEncoding key).

Definition parse_key (prefix : string) (size : Z) (message : string) (value : string) : go string :=
  let encoded := TrimPrefix (TrimSpace value) prefix in
  match decodeBase64 encoded with
  | Err e => Err (NewError CodeInvalidConfiguration message (Some e))
  | Ok decoded =>
      if negb (slen decoded =? size) then Err (NewError CodeInvalidConfiguration message None)
      else Ok decoded
  end.
Definition ParsePrivateKey (value : string) : go string :=
  parse_key PrivateKeyPrefix PrivateKeySize "invalid Ed25519 private key" value.
Definition ParsePublicKey (value : string) : go string :=
  parse_key PublicKeyPrefix PublicKeySize "invalid Ed25519 public key" value.

(** [GenerateEd25519KeyPair]: [generated] is what [ed25519.GenerateKey] returns. *)
Definition GenerateEd25519KeyPair (generated : go (string * string)) : go (string * string) :=
  keys ← map_err (λ e, NewError CodeInternal "generate Ed25519 key pair" (Some e)) generated;
  publicEncoded ← EncodePublicKey keys.1;
  privateEncoded ← EncodePrivateKey keys.2;
  Ok (publicEncoded, privateEncoded).

(** * Signing *)

(** [SignInput] (src/signing.go). *)
Record SignInput := {
  si_MessageID : string; si_Timestamp : time; si_Body : string; si_Headers : Header
}.

(** [Signer]. *)
Definition Signer : Type := SignInput → go Header.

Definition signedContent (messageID timestamp body : string) : string :=
  messageID +:+ String DOT (timestamp +:+ String DOT body).

Definition signature_headers (messageID timestamp : string) (signatures : list string) : Header :=
  <[HeaderID := [messageID]]> (<[HeaderTimestamp := [timestamp]]>
    (<[HeaderSignature := [Join " " signatures]]> ∅)).

Definition COMMA : byte := chr 44.

Definition hmac_signature (content key : string) : string :=
  hmacSignatureID +:+ String COMMA (b64_encode StdEncoding (hmac_sha256 key content)).

(** [(s *HMACSigner) Sign]; [None] is a nil signer or provider. *)
Definition HMACSigner_Sign (provider : option HMACKeyProvider) : Signer := λ input,
  provider ← of_option (NewError CodeInvalidConfiguration "HMAC signer is not configured" None) provider;
  _ ← ValidateMessageID (si_MessageID input);
  _ ← reject (IsZero (si_Timestamp input))
        (NewError CodeInvalidMessage "attempt timestamp is required" None);
  keys ← map_err (λ e, NewError CodeInternal "resolve HMAC signing keys" (Some e)) provider;
  _ ← validateHMACKeys keys;
  let timestamp := FormatInt (UnixSeconds (si_Timestamp input)) in
  let content := signedContent (si_MessageID input) timestamp (si_Body input) in
  Ok (signature_headers (si_MessageID input) timestamp (map (hmac_signature content) keys)).

(** [NewHMACSigner] *)
Definition NewHMACSigner (provider : option HMACKeyProvider) : go Signer :=
  provider ← of_option (NewError CodeInvalidConfiguration "HMAC key provider is required" None) provider;
  Ok (HMACSigner_Sign (Some provider)).

(** A [crypto.Signer]: whether it exposes an Ed25519 key, and its [Sign]. *)
Record CryptoSigner := { cs_is_ed25519 : bool; cs_Sign : string → go string }.

(** [NewEd25519Signer]: [None] in the list is a nil signer. *)
Definition check_signer (signer : option CryptoSigner) : go CryptoSigner :=
  signer ← of_option (NewError CodeInvalidConfiguration "Ed25519 signer is nil" None) signer;
  _ ← reject (negb (cs_is_ed25519 signer))
        (NewError CodeInvalidConfiguration "signer does not expose an Ed25519 public key" None);
  Ok signer.

Definition NewEd25519Signer (signers : list (option CryptoSigner)) : go (list CryptoSigner) :=
  let n := Z.of_nat (length signers) in
  _ ← reject ((n =? 0) || (16 <? n))
        (NewError CodeInvalidConfiguration "between one and sixteen Ed25519 signers are required" None);
  mapM_result check_signer signers.

Definition ed25519_signature (content : string) (signer : CryptoSigner) : go string :=
  signature ← map_err (λ e, NewError CodeInternal "sign with Ed25519 key" (Some e))
                (cs_Sign signer content);
  _ ← reject (negb (slen signature =? SignatureSize))
        (NewError CodeInternal "Ed25519 signer returned an invalid signature length" None);
  Ok (ed25519SignatureID +:+ String COMMA (b64_encode StdEncoding signature)).

(** [(s *Ed25519Signer) Sign] *)
Definition Ed25519Signer_Sign (signers : list CryptoSigner) : Signer := λ input,
  _ ← reject (bool_decide (length signers = 0%nat))
        (NewError CodeInvalidConfiguration "Ed25519 signer is not configured" None);
  _ ← ValidateMessageID (si_MessageID input);
  _ ← reject (IsZero (si_Timestamp input))
        (NewError CodeInvalidMessage "attempt timestamp is required" None);
  let timestamp := FormatInt (UnixSeconds (si_Timestamp input)) in
  let content := signedContent (si_MessageID input) timestamp (si_Body input) in
  signatures ← mapM_result (ed25519_signature content) signers;
  Ok (signature_headers (si_MessageID input) timestamp signatures).

(** * Verification *)

Definition EventTypeExtractor : Type := string → Header → go string.

(** [JSONTypeField]: [decode] is the first [Decode] into the envelope; [trailing]
    is the second, [None] for [io.EOF] and its error otherwise. *)
Definition JSONTypeField (decode : string → go string) (trailing : string → option (option error))
    : EventTypeExtractor := λ body _,
  type ← map_err (λ e, NewError CodeDecode "decode Standard Webhooks event type" (Some e)) (decode body);
  _ ← match trailing body with
      | None => Ok tt
      | Some err => Err (NewError CodeDecode "Standard Webhooks payload contains trailing data" err)
      end;
  _ ← ValidateEventType type;
  Ok type.

(** [VerifierConfig]; [None] is a nil interface or function. *)
Record VerifierConfig := {
  vc_HMACKeys : option HMACKeyProvider;
  vc_PublicKeys : option (go (list string));
  vc_Tolerance : duration;
  vc_Source : string;
  vc_ExtractType : option EventTypeExtractor;
  vc_AllowNoType : bool
}.

(** [NewVerifier]; [json_type] is [JSONTypeField]. *)
Definition NewVerifier (json_type : EventTypeExtractor) (c : VerifierConfig) : go VerifierConfig :=
  _ ← reject (bool_decide (vc_HMACKeys c = None ∧ vc_PublicKeys c = None))
        (NewError CodeInvalidConfiguration "verification keys are required" None);
  let tolerance := if vc_Tolerance c =? 0 then 5 * Minute else vc_Tolerance c in
  _ ← reject (tolerance <? 0)
        (NewError CodeInvalidConfiguration "signature tolerance cannot be negative" None);
  Ok {| vc_HMACKeys := vc_HMACKeys c; vc_PublicKeys := vc_PublicKeys c;
        vc_Tolerance := tolerance;
        vc_Source := if str_eqb (vc_Source c) ε then "standard-webhooks" else vc_Source c;
        vc_ExtractType :=
          match vc_ExtractType c with
          | Some f => Some f
          | None => if vc_AllowNoType c then None else Some json_type
          end;
        vc_AllowNoType := vc_AllowNoType c |}.

(** [NewHMACVerifier] *)
Definition NewHMACVerifier (json_type : EventTypeExtractor) (provider : option HMACKeyProvider)
    : go VerifierConfig :=
  NewVerifier json_type
    {| vc_HMACKeys := provider; vc_PublicKeys := None; vc_Tolerance := 0; vc_Source := ε;
       vc_ExtractType := None; vc_AllowNoType := false |}.

Definition outsideTolerance (receivedAt timestamp : time) (tolerance : duration) : bool :=
  if After timestamp receivedAt then tolerance <? Sub timestamp receivedAt
  else tolerance <? Sub receivedAt timestamp.

Record parsedSignature := { ps_version : string; ps_value : string }.

(** The loop body of [parseSignatures]. *)
Definition parse_signature (field : string) : go parsedSignature :=
  let malformed := NewError CodeInvalidSignature "malformed webhook signature" None in
  '(version, encoded) ← of_option malformed (Cut COMMA field);
  _ ← reject (str_eqb encoded ε || (256 <? slen encoded)) malformed;
  decoded ← of_option (NewError CodeInvalidSignature "decode webhook signature"
                         (Some (PlainError "illegal base64 data")))
              (b64_decode StdEncoding encoded);
  Ok {| ps_version := version; ps_value := decoded |}.

Definition parseSignatures (value : string) : go (list parsedSignature) :=
  let fields := Fields value in
  let n := Z.of_nat (length fields) in
  _ ← reject ((n =? 0) || (32 <? n))
        (NewError CodeInvalidSignature "invalid number of webhook signatures" None);
  mapM_result parse_signature fields.

Definition singleHeader (headers : Header) (name : string) : go string :=
  let missing := NewError CodeInvalidSignature
                   ("exactly one " +:+ name +:+ " header is required") None in
  match h_values headers name with
  | [v] =>
      let value := TrimSpace v in
      _ ← reject (str_eqb value ε) missing;
      _ ← reject (contains_any crlfnul value)
            (NewError CodeInvalidSignature ("invalid " +:+ name +:+ " header") None);
      Ok value
  | _ => Err missing
  end.

Section verifier.
(** [ed25519.Verify(key, content, signature)]. *)
Context (ed25519_Verify : string → string → string → bool).

(** The HMAC loops of [verifyAny]: some key and some v1 signature agree. *)
Definition hmac_match (content : string) (keys : list string) (signatures : list parsedSignature) : bool :=
  existsb (λ key,
    let expected := hmac_sha256 key content in
    existsb (λ s, str_eqb (ps_version s) hmacSignatureID && (slen (ps_value s) =? slen expected)
                  && constant_time_eq (ps_value s) expected) signatures) keys.

Definition ed25519_match (content : string) (keys : list string) (signatures : list parsedSignature)
    : bool :=
  existsb (λ key,
    existsb (λ s, str_eqb (ps_version s) ed25519SignatureID
                  && ed25519_Verify key content (ps_value s)) signatures) keys.

(** [(v *Verifier) verifyAny] *)
Definition verifyAny (c : VerifierConfig) (content : string) (signatures : list parsedSignature)
    : go bool :=
  by_hmac ← match vc_HMACKeys c with
            | None => Ok false
            | Some provider =>
                keys ← map_err (λ e, NewError CodeInternal "resolve HMAC verification keys" (Some e))
                         provider;
                _ ← validateHMACKeys keys;
                Ok (hmac_match content keys signatures)
            end;
  by_ed25519 ← match vc_PublicKeys c with
               | None => Ok false
               | Some provider =>
                   keys ← map_err (λ e, NewError CodeInternal "resolve Ed25519 verification keys" (Some e))
                            provider;
                   let n := Z.of_nat (length keys) in
                   _ ← reject ((n =? 0) || (16 <? n))
                         (NewError CodeInvalidConfiguration
                            "between one and sixteen Ed25519 public keys are required" None);
                   _ ← reject (existsb (λ key, negb (slen key =? PublicKeySize)) keys)
                         (NewError CodeInvalidConfiguration "invalid Ed25519 public key length" None);
                   Ok (ed25519_match content keys signatures)
               end;
  Ok (by_hmac || by_ed25519).

(** [(v *Verifier) Verify]; [wall] is [time.Now()], used for a zero [ReceivedAt]. *)
Definition Verify (c : VerifierConfig) (wall : time) : verify_function := λ input,
  messageID ← singleHeader (vi_Headers input) HeaderID;
  _ ← ValidateMessageID messageID;
  timestampText ← singleHeader (vi_Headers input) HeaderTimestamp;
  timestampSeconds ← of_option (NewError CodeInvalidSignature "invalid webhook timestamp"
                                  (Some (PlainError "strconv.ParseInt"))) (ParseInt timestampText);
  let timestamp := Unix timestampSeconds in
  let receivedAt := if IsZero (vi_ReceivedAt input) then wall else vi_ReceivedAt input in
  _ ← reject ((0 <? vc_Tolerance c) && outsideTolerance receivedAt timestamp (vc_Tolerance c))
        (NewError CodeExpiredSignature "webhook timestamp is outside the allowed tolerance" None);
  let signatureValues := h_values (vi_Headers input) HeaderSignature in
  _ ← reject (bool_decide (signatureValues = []))
        (NewError CodeInvalidSignature "webhook signature is required" None);
  signatures ← parseSignatures (Join " " signatureValues);
  let content := signedContent messageID timestampText (vi_Body input) in
  valid ← verifyAny c content signatures;
  _ ← reject (negb valid)
        (NewError CodeInvalidSignature "webhook signature did not match a trusted key" None);
  eventType ← match vc_ExtractType c with
              | Some extract => extract (vi_Body input) (vi_Headers input)
              | None => Ok "unknown"
              end;
  Ok {| v_ID := messageID; v_Type := eventType; v_Source := vc_Source c;
        v_Timestamp := timestamp; v_Metadata := ∅ |}.
End verifier.

(** * Lemmas *)

(** ** Header values that survive [singleHeader] *)

Lemma contains_any_crlfnul_control s :
  str_exists control_byte s = false → contains_any crlfnul s = false.
Proof.
  unfold contains_any. rewrite !str_exists_forall, !negb_false_iff. apply str_forall_impl.
  intros c Hc. apply negb_true_iff in Hc. apply negb_true_iff. unfold control_byte in Hc.
  apply orb_false_iff in Hc as [Hc _]. apply Z.ltb_ge in Hc.
  unfold contains_byte, crlfnul. cbn [str_exists].
  repeat (rewrite bool_decide_false; [|intros <-; unfold CR, LF, NUL in Hc;
    rewrite ord_chr in Hc; lia]). done.
Qed.

Lemma plain_no_control s : str_forall plain s = true → str_exists control_byte s = false.
Proof.
  intros H. eapply str_exists_false; [|done]. intros c Hc%plain_spec.
  unfold control_byte. zcase; done.
Qed.

Lemma singleHeader_value h name v :
  h_values h name = [v] → TrimSpace v = v → v ≠ ε → str_exists control_byte v = false →
  singleHeader h name = Ok v.
Proof.
  intros Hv Ht Hne Hc. unfold singleHeader. rewrite Hv, Ht.
  rewrite (proj2 (str_eqb_false v ε) Hne). by rewrite (contains_any_crlfnul_control _ Hc).
Qed.

Lemma singleHeader_Ok h name v :
  singleHeader h name = Ok v → ∃ u, h_values h name = [u] ∧ v = TrimSpace u ∧ v ≠ ε.
Proof.
  unfold singleHeader. intros H. destruct (h_values h name) as [|u [|]] eqn:E; try done.
  go_inv. exists u. split_and!; [done|done|by eapply str_eqb_false].
Qed.

Lemma FormatInt_single h name n :
  h_values h name = [FormatInt n] → singleHeader h name = Ok (FormatInt n).
Proof.
  destruct (FormatInt_num n) as [Hb Hne].
  assert (str_forall plain (FormatInt n) = true) as Hp
    by (eapply str_forall_impl; [apply num_byte_plain|done]).
  intros H. apply singleHeader_value; auto using TrimSpace_plain, plain_no_control.
Qed.

(** ** Signature lists *)

Lemma signature_token version sig :
  str_forall plain version = true →
  token (version +:+ String COMMA (b64_encode StdEncoding sig)).
Proof.
  intros Hv. split; [by destruct version|].
  rewrite str_forall_app, Hv. cbn [str_forall]. by rewrite b64_encode_plain.
Qed.

Lemma parse_signature_encoded version sig :
  contains_byte COMMA version = false → sig ≠ ε → slen sig ≤ 64 →
  parse_signature (version +:+ String COMMA (b64_encode StdEncoding sig)) =
    Ok {| ps_version := version; ps_value := sig |}.
Proof.
  intros Hv Hne Hlen. unfold parse_signature.
  rewrite (proj2 (Cut_Some COMMA _ version (b64_encode StdEncoding sig)) (conj eq_refl Hv)).
  cbn. rewrite (proj2 (str_eqb_false _ ε) (b64_encode_nonempty StdEncoding sig Hne)).
  rewrite (proj2 (Z.ltb_ge 256 _)); [|rewrite b64_encode_length;
    pose proof (slen_nonneg sig); Z.to_euclidean_division_equations; lia].
  cbn. by rewrite b64_decode_encode.
Qed.

Lemma hmac_nonempty key content : hmac_sha256 key content ≠ ε.
Proof. intros H. apply slen_0 in H. by rewrite hmac_sha256_length in H. Qed.

Definition hmac_parsed (content key : string) : parsedSignature :=
  {| ps_version := hmacSignatureID; ps_value := hmac_sha256 key content |}.

Lemma parseSignatures_Join fields parsed :
  Forall token fields → fields ≠ [] → Z.of_nat (length fields) ≤ 32 →
  Forall2 (λ f p, parse_signature f = Ok p) fields parsed →
  parseSignatures (Join " " fields) = Ok parsed.
Proof.
  intros Htok Hne Hlen Hp. unfold parseSignatures. rewrite Fields_Join by done.
  destruct fields as [|f fs]; [done|].
  rewrite (proj2 (Z.eqb_neq _ 0)) by (simpl; lia). rewrite (proj2 (Z.ltb_ge 32 _)) by lia.
  cbn [orb reject]. cbn [mbind result_bind]. by apply mapM_result_Ok.
Qed.

Lemma parse_hmac_signatures content keys :
  keys ≠ [] → Z.of_nat (length keys) ≤ 32 →
  parseSignatures (Join " " (map (hmac_signature content) keys)) =
    Ok (map (hmac_parsed content) keys).
Proof.
  intros Hne Hlen. apply parseSignatures_Join.
  - apply Forall_forall. intros f (k & -> & _)%list_elem_of_fmap. by apply signature_token.
  - by destruct keys.
  - by rewrite length_fmap.
  - clear Hne Hlen. induction keys as [|k keys IH]; [constructor|]. constructor; [|done].
    apply parse_signature_encoded; [done|apply hmac_nonempty|rewrite hmac_sha256_length; lia].
Qed.

Lemma validateHMACKeys_Ok keys :
  validateHMACKeys keys = Ok tt ↔
    keys ≠ [] ∧ Z.of_nat (length keys) ≤ 16 ∧ Forall (λ k, 24 ≤ slen k ≤ 64) keys.
Proof.
  unfold validateHMACKeys. rewrite bind_Ok.
  assert (existsb bad_key_length keys = false ↔ Forall (λ k, 24 ≤ slen k ≤ 64) keys) as Hk.
  { induction keys as [|k keys IH]; simpl; [by split|].
    rewrite orb_false_iff, Forall_cons, IH. unfold bad_key_length.
    rewrite orb_false_iff, !Z.ltb_ge. tauto. }
  split.
  - intros ([] & H1 & H2). go_inv. split_and!; [|by apply Z.ltb_ge|by apply Hk].
    intros ->. done.
  - intros (Hne & Hlen & Hall). exists tt. split; [|by apply reject_Ok, Hk].
    apply reject_Ok, orb_false_iff. split; [apply Z.eqb_neq|by apply Z.ltb_ge].
    destruct keys; [done|]. simpl. lia.
Qed.

Lemma hmac_match_true content keys keys' k :
  k ∈ keys → k ∈ keys' → hmac_match content keys (map (hmac_parsed content) keys') = true.
Proof.
  intros Hk Hk'. apply existsb_exists. exists k. split; [by apply list_elem_of_In|].
  apply existsb_exists. exists (hmac_parsed content k).
  split; [apply list_elem_of_In, list_elem_of_fmap; eauto|]. simpl.
  rewrite Z.eqb_refl. by rewrite (proj2 (constant_time_eq_true _ _)).
Qed.

Lemma hmac_match_sound content keys sigs :
  hmac_match content keys sigs = true →
  ∃ k, k ∈ keys ∧ hmac_parsed content k ∈ sigs.
Proof.
  intros (k & Hk & (s & Hs & Hm)%existsb_exists)%existsb_exists.
  exists k. split; [by apply list_elem_of_In|]. apply andb_true_iff in Hm as [Hm Hc].
  apply andb_true_iff in Hm as [Hv _]. apply str_eqb_true in Hv.
  apply constant_time_eq_true in Hc. apply list_elem_of_In. destruct s; simpl in *; subst. done.
Qed.

(** ** Freshness *)

Lemma outsideTolerance_exact receivedAt timestamp tol :
  0 ≤ tol < int64_max →
  outsideTolerance receivedAt timestamp tol = false ↔ Z.abs (receivedAt - timestamp) ≤ tol.
Proof.
  intros Htol. unfold outsideTolerance, After.
  assert (in_int64 tol) by (unfold in_int64, int64_min in *; lia).
  destruct (Z.ltb_spec receivedAt timestamp); rewrite Z.ltb_ge, Sub_le by done; lia.
Qed.

(** ** Secrets *)

Lemma decodeBase64_raw s : decodeBase64 (b64_encode RawStdEncoding s) = Ok s.
Proof.
  unfold decodeBase64. simpl list_find. rewrite decide_True.
  - by rewrite b64_decode_encode.
  - by rewrite b64_decode_encode.
Qed.

Lemma encoded_plain prefix s :
  str_forall plain prefix = true → str_forall plain (prefix +:+ b64_encode RawStdEncoding s) = true.
Proof. intros Hp. by rewrite str_forall_app, Hp, b64_encode_plain. Qed.

(** ** Authenticity: what a valid signature is *)

Definition authentic (ed : string → string → string → bool) (c : VerifierConfig)
    (content : string) (sigs : list parsedSignature) : Prop :=
  (∃ keys k, vc_HMACKeys c = Some (Ok keys) ∧ validateHMACKeys keys = Ok tt ∧ k ∈ keys ∧
     hmac_parsed content k ∈ sigs) ∨
  (∃ keys k s, vc_PublicKeys c = Some (Ok keys) ∧ k ∈ keys ∧ slen k = PublicKeySize ∧ s ∈ sigs ∧
     ps_version s = ed25519SignatureID ∧ ed k content (ps_value s) = true).

Lemma verifyAny_sound ed c content sigs :
  verifyAny ed c content sigs = Ok true → authentic ed c content sigs.
Proof.
  unfold verifyAny. intros H. go_inv.
  match goal with H : (?a || ?b) = true |- _ => apply orb_true_iff in H as [-> | ->] end.
  - left. destruct (vc_HMACKeys c) as [[keys|]|] eqn:E; simpl in *; try done.
    go_inv. match goal with H : hmac_match _ _ _ = true |- _ => apply hmac_match_sound in H as (k & Hk & Hs) end.
    exists keys, k. done.
  - right. destruct (vc_PublicKeys c) as [[keys|]|] eqn:E; simpl in *; try done.
    go_inv. match goal with H : ed25519_match _ _ _ _ = true |- _ =>
      apply existsb_exists in H as (k & Hk & (s & Hs & [Hv He]%andb_true_iff)%existsb_exists) end.
    apply str_eqb_true in Hv. exists keys, k, s. split_and!; auto; try (by apply list_elem_of_In).
    match goal with H : existsb _ keys = false |- _ =>
      rewrite <-not_true_iff_false, existsb_exists in H end.
    destruct (slen k =? PublicKeySize) eqn:El; [by apply Z.eqb_eq|].
    exfalso. match goal with H : ¬ _ |- _ => apply H end. exists k. by rewrite El.
Qed.

(** ** A signed message *)

Lemma verify_signed ed c wall input id t hs keys keys' k sh ty :
  HMACSigner_Sign (Some (Ok keys))
    {| si_MessageID := id; si_Timestamp := t; si_Body := vi_Body input; si_Headers := hs |} = Ok sh →
  vc_HMACKeys c = Some (Ok keys') → validateHMACKeys keys' = Ok tt → vc_PublicKeys c = None →
  k ∈ keys → k ∈ keys' →
  0 ≤ vc_Tolerance c < int64_max → vi_ReceivedAt input ≠ 0 →
  Z.abs (vi_ReceivedAt input - Unix (UnixSeconds t)) ≤ vc_Tolerance c →
  (∀ name, name ∈ [HeaderID; HeaderTimestamp; HeaderSignature] →
     h_values (vi_Headers input) name = h_values sh name) →
  match vc_ExtractType c with
  | Some extract => extract (vi_Body input) (vi_Headers input)
  | None => Ok "unknown"
  end = Ok ty →
  Verify ed c wall input =
    Ok {| v_ID := id; v_Type := ty; v_Source := vc_Source c;
          v_Timestamp := Unix (UnixSeconds t); v_Metadata := ∅ |}.
Proof.
  intros Hsign HK' Hkeys' HP Hk Hk' Htol Hrecv Hfresh Hhead Hty.
  unfold HMACSigner_Sign in Hsign. cbn [of_option mbind result_bind map_err si_MessageID si_Timestamp si_Body] in Hsign.
  go_inv. match goal with H : ValidateMessageID id = _ |- _ => rename H into Hid end.
  pose proof (proj1 (ValidateMessageID_iff id) Hid) as (Hne & _ & Ht & _ & Hctl).
  match goal with H : validateHMACKeys keys = _ |- _ => apply validateHMACKeys_Ok in H;
    destruct H as (Hkne & Hklen & _) end.
  assert (h_values (vi_Headers input) HeaderID = [id]) as H1.
  { rewrite Hhead by set_solver. reflexivity. }
  assert (h_values (vi_Headers input) HeaderTimestamp = [FormatInt (UnixSeconds t)]) as H2.
  { rewrite Hhead by set_solver. reflexivity. }
  set (content := signedContent id (FormatInt (UnixSeconds t)) (vi_Body input)) in *.
  assert (h_values (vi_Headers input) HeaderSignature =
          [Join " " (map (hmac_signature content) keys)]) as H3.
  { rewrite Hhead by set_solver. reflexivity. }
  unfold Verify. rewrite (singleHeader_value _ _ _ H1 Ht Hne Hctl). cbn [mbind result_bind].
  rewrite Hid. cbn [mbind result_bind]. rewrite (FormatInt_single _ _ _ H2). cbn [mbind result_bind].
  rewrite ParseInt_FormatInt by apply UnixSeconds_range. cbn [of_option mbind result_bind].
  unfold IsZero. rewrite (proj2 (Z.eqb_neq _ _) Hrecv).
  rewrite (proj2 (outsideTolerance_exact _ _ _ Htol) Hfresh), andb_false_r.
  cbn [reject mbind result_bind]. rewrite H3. cbn [Join].
  rewrite bool_decide_false by done. cbn [reject mbind result_bind].
  rewrite parse_hmac_signatures by (done || lia). cbn [mbind result_bind].
  fold content. unfold verifyAny. rewrite HK', HP. cbn [map_err mbind result_bind].
  rewrite Hkeys'. cbn [mbind result_bind].
  rewrite (hmac_match_true content keys' keys k Hk' Hk). cbn [orb negb reject mbind result_bind].
  rewrite Hty. done.
Qed.

(** What an accepted request carries. *)
Lemma standard_Verify_Ok ed c wall input v :
  0 < vc_Tolerance c < int64_max →
  Verify ed c wall input = Ok v →
  ∃ u ts n sigs,
    h_values (vi_Headers input) HeaderID = [u] ∧ v_ID v = TrimSpace u ∧ id_ok (v_ID v) ∧
    singleHeader (vi_Headers input) HeaderTimestamp = Ok ts ∧ ParseInt ts = Some n ∧
    v_Timestamp v = Unix n ∧
    Z.abs ((if IsZero (vi_ReceivedAt input) then wall else vi_ReceivedAt input) - Unix n)
      ≤ vc_Tolerance c ∧
    parseSignatures (Join " " (h_values (vi_Headers input) HeaderSignature)) = Ok sigs ∧
    authentic ed c (signedContent (v_ID v) ts (vi_Body input)) sigs.
Proof.
  intros Htol H. unfold Verify in H.
  apply bind_Ok in H as (id & Hid & H). apply bind_Ok in H as ([] & Hval & H).
  apply bind_Ok in H as (ts & Hts & H). apply bind_Ok in H as (n & Hn & H).
  apply bind_Ok in H as ([] & Hfresh & H). apply bind_Ok in H as ([] & Hsv & H).
  apply bind_Ok in H as (sigs & Hsigs & H). apply bind_Ok in H as (valid & Hvalid & H).
  go_inv. destruct (singleHeader_Ok _ _ _ Hid) as (u & Hu & -> & _).
  exists u, ts, n, sigs. simpl. split_and!; auto.
  - by apply ValidateMessageID_iff.
  - rewrite (proj2 (Z.ltb_lt 0 (vc_Tolerance c))) in Hfresh by lia. cbn [andb] in Hfresh.
    eapply outsideTolerance_exact; [|done]. lia.
  - apply verifyAny_sound. by subst valid.
Qed.

(** A verification reads three headers, and what the extractor reads. *)
Lemma singleHeader_ext h h' name : h_values h name = h_values h' name → singleHeader h name = singleHeader h' name.
Proof. unfold singleHeader. by intros ->. Qed.

Lemma Verify_headers_ext ed c wall h h' body t :
  (∀ name, name ∈ [HeaderID; HeaderTimestamp; HeaderSignature] → h_values h name = h_values h' name) →
  (∀ extract, vc_ExtractType c = Some extract → extract body h = extract body h') →
  Verify ed c wall {| vi_Headers := h; vi_Body := body; vi_ReceivedAt := t |} =
  Verify ed c wall {| vi_Headers := h'; vi_Body := body; vi_ReceivedAt := t |}.
Proof.
  intros Hh He. unfold Verify. cbn [vi_Headers vi_Body vi_ReceivedAt].
  rewrite (singleHeader_ext h h' HeaderID), (singleHeader_ext h h' HeaderTimestamp), (Hh HeaderSignature)
    by (try apply Hh; set_solver).
  destruct (vc_ExtractType c) as [extract|]; [|done]. by rewrite (He extract eq_refl).
Qed.

(** * Properties *)

(** C2 Signing then verifying succeeds, across key rotation: when the signer's keys and
    the keys of a verifier without public keys share one key, a message signed at [t] is
    accepted under the signed identifier and the second of [t], whatever other headers
    the request carries.  That is for a request with the signed body and the three
    signed headers, received at a nonzero time within the verifier's tolerance (not
    negative and below the largest duration) of that second, and of which the verifier's
    event-type extractor, when there is one, reads a type. *)
Theorem verify_accepts_signed ed c wall input id t hs keys keys' k sh ty :
  HMACSigner_Sign (Some (Ok keys))
    {| si_MessageID := id; si_Timestamp := t; si_Body := vi_Body input; si_Headers := hs |} = Ok sh →
  vc_HMACKeys c = Some (Ok keys') → validateHMACKeys keys' = Ok tt → vc_PublicKeys c = None →
  k ∈ keys → k ∈ keys' →
  0 ≤ vc_Tolerance c < int64_max → vi_ReceivedAt input ≠ 0 →
  Z.abs (vi_ReceivedAt input - Unix (UnixSeconds t)) ≤ vc_Tolerance c →
  (∀ name, name ∈ [HeaderID; HeaderTimestamp; HeaderSignature] →
     h_values (vi_Headers input) name = h_values sh name) →
  match vc_ExtractType c with
  | Some extract => extract (vi_Body input) (vi_Headers input)
  | None => Ok "unknown"
  end = Ok ty →
  Verify ed c wall input =
    Ok {| v_ID := id; v_Type := ty; v_Source := vc_Source c;
          v_Timestamp := Unix (UnixSeconds t); v_Metadata := ∅ |}.
Proof. apply verify_signed. Qed.

(** C1 Nothing verifies without a signature by a trusted key over exactly the
    received identity, timestamp text and body, inside the tolerance: if [Verify]
    accepts, the message ID is the single Webhook-Id header and valid, the
    timestamp header is fresh, and one listed signature is authentic. *)
Theorem verify_sound ed c wall input v :
  0 < vc_Tolerance c < int64_max →
  Verify ed c wall input = Ok v →
  ∃ u ts n sigs,
    h_values (vi_Headers input) HeaderID = [u] ∧ v_ID v = TrimSpace u ∧ id_ok (v_ID v) ∧
    singleHeader (vi_Headers input) HeaderTimestamp = Ok ts ∧ ParseInt ts = Some n ∧
    v_Timestamp v = Unix n ∧
    Z.abs ((if IsZero (vi_ReceivedAt input) then wall else vi_ReceivedAt input) - Unix n)
      ≤ vc_Tolerance c ∧
    parseSignatures (Join " " (h_values (vi_Headers input) HeaderSignature)) = Ok sigs ∧
    authentic ed c (signedContent (v_ID v) ts (vi_Body input)) sigs.
Proof. apply standard_Verify_Ok. Qed.

(** The signed content is unambiguous: for valid message identifiers and
    timestamp texts, two contents are equal only if identifier, timestamp text
    and body are. *)
Lemma signed_content_injective id ts body id' ts' body' n n' :
  ValidateMessageID id = Ok tt → ValidateMessageID id' = Ok tt →
  ParseInt ts = Some n → ParseInt ts' = Some n' →
  signedContent id ts body = signedContent id' ts' body' →
  id = id' ∧ ts = ts' ∧ body = body'.
Proof.
  intros (_ & _ & _ & Hd & _)%ValidateMessageID_iff (_ & _ & _ & Hd' & _)%ValidateMessageID_iff
    Hts Hts' H.
  unfold signedContent in H. apply app_sep_inj in H as [-> H]; [|done..].
  apply app_sep_inj in H as [-> ->]; [done|..];
    eapply ParseInt_no_byte; try done; unfold DOT; rewrite ord_chr; lia.
Qed.

(** A secret parses back from its serialised form: every key of an accepted
    length survives [EncodeHMACSecret] then [ParseHMACSecret], and no other key
    is ever serialised. *)
Lemma hmac_secret_roundtrip key :
  (24 ≤ slen key ≤ 64 →
     ∃ text, EncodeHMACSecret key = Ok text ∧ ParseHMACSecret text = Ok key) ∧
  (∀ text, EncodeHMACSecret key = Ok text → 24 ≤ slen key ≤ 64).
Proof.
  assert (bad_key_length key = false ↔ 24 ≤ slen key ≤ 64) as Hb.
  { unfold bad_key_length. rewrite orb_false_iff, !Z.ltb_ge. lia. }
  split.
  - intros Hlen%Hb. eexists. unfold EncodeHMACSecret. rewrite Hlen. split; [reflexivity|].
    unfold ParseHMACSecret. rewrite TrimSpace_plain by (by apply encoded_plain).
    rewrite TrimPrefix_app, decodeBase64_raw. cbn [map_err mbind result_bind]. by rewrite Hlen.
  - unfold EncodeHMACSecret. intros text H. go_inv. by apply Hb.
Qed.

(** Ed25519 key texts round-trip: keys of the right length parse back from
    the text [EncodePublicKey] or [EncodePrivateKey] writes. *)
Lemma ed25519_key_roundtrip key :
  (slen key = PublicKeySize →
     ∃ text, EncodePublicKey key = Ok text ∧ ParsePublicKey text = Ok key) ∧
  (slen key = PrivateKeySize →
     ∃ text, EncodePrivateKey key = Ok text ∧ ParsePrivateKey text = Ok key).
Proof.
  split; intros Hlen; eexists;
    unfold EncodePublicKey, EncodePrivateKey; rewrite Hlen, Z.eqb_refl;
    (split; [reflexivity|]);
    unfold ParsePublicKey, ParsePrivateKey, parse_key;
    rewrite TrimSpace_plain by (by apply encoded_plain);
    rewrite TrimPrefix_app, decodeBase64_raw; by rewrite Hlen, Z.eqb_refl.
Qed.

(** * Witnesses: a message signed at 2024-01-01 with an old and a new key, and
    received four minutes later by a verifier that only knows the new one *)

Definition ex_old_key : string := "0123456789abcdef01234567".
Definition ex_new_key : string := "fedcba9876543210fedcba98".
Definition ex_sent : time := Unix 1704067200.
Definition ex_signed : Header :=
  match HMACSigner_Sign (Some (Ok [ex_old_key; ex_new_key]))
    {| si_MessageID := "msg_1"; si_Timestamp := ex_sent; si_Body := "{}"; si_Headers := ∅ |} with
  | Ok h => h
  | Err _ => ∅
  end.
Definition ex_config : VerifierConfig :=
  {| vc_HMACKeys := Some (Ok [ex_new_key]); vc_PublicKeys := None; vc_Tolerance := 5 * Minute;
     vc_Source := "billing"; vc_ExtractType := None; vc_AllowNoType := true |}.
Definition ex_input : VerifyInput :=
  {| vi_Body := "{}"; vi_Headers := ex_signed; vi_ReceivedAt := ex_sent + 4 * Minute |}.
Definition ex_verified : Verification :=
  {| v_ID := "msg_1"; v_Type := "unknown"; v_Source := "billing"; v_Timestamp := ex_sent;
     v_Metadata := ∅ |}.

Lemma verify_accepts_signed_witness :
  Verify (λ _ _ _, false) ex_config 0 ex_input = Ok ex_verified.
Proof.
  refine (verify_accepts_signed _ ex_config 0 ex_input "msg_1" ex_sent ∅
    [ex_old_key; ex_new_key] [ex_new_key] ex_new_key ex_signed "unknown" _ _ _ _ _ _ _ _ _ _ _);
    try (vm_compute; reflexivity); try set_solver; try (vm_compute; done).
Defined.

Lemma verify_sound_witness :
  authentic (λ _ _ _, false) ex_config (signedContent "msg_1" "1704067200" "{}")
    [hmac_parsed (signedContent "msg_1" "1704067200" "{}") ex_new_key] ∧
  ∃ u ts n sigs,
    h_values ex_signed HeaderID = [u] ∧ v_ID ex_verified = TrimSpace u ∧ id_ok (v_ID ex_verified) ∧
    singleHeader ex_signed HeaderTimestamp = Ok ts ∧ ParseInt ts = Some n ∧
    v_Timestamp ex_verified = Unix n ∧
    Z.abs (ex_sent + 4 * Minute - Unix n) ≤ 5 * Minute ∧
    parseSignatures (Join " " (h_values ex_signed HeaderSignature)) = Ok sigs ∧
    authentic (λ _ _ _, false) ex_config (signedContent (v_ID ex_verified) ts "{}") sigs.
Proof.
  split.
  - left. exists [ex_new_key], ex_new_key. split_and!; [reflexivity|vm_compute; reflexivity|set_solver|set_solver].
  - refine (verify_sound (λ _ _ _, false) ex_config 0 ex_input ex_verified _ _); [done|].
    vm_compute. reflexivity.
Defined.

Lemma signed_content_injective_witness :
  "msg_1" = "msg_1" ∧ "17" = "17" ∧ "{}" = "{}".
Proof.
  apply (signed_content_injective "msg_1" "17" "{}" "msg_1" "17" "{}" 17 17);
    vm_compute; reflexivity.
Defined.
