(* ===== verification/Sender.v ===== *)
(** src/sender.go: one outbound attempt.

    The HTTP client of net/http, [url.Parse], request construction and
    [http.ParseTime] are arguments; a run returns the requests given to the client. *)

From S2P Require Import Prelude GoString Codec GoTime Errors Transport Headers Message Outcome Auth Receiver Standard.

Definition defaultUserAgent : string := "hookbound-go/0.1".

(** The [*http.Response] the sender reads. *)
Record Response := { rs_StatusCode : Z; rs_Header : Header; rs_Body : Reader }.

(** What the classifier sees of a response. *)
Definition classified (r : Response) : HTTPResponse :=
  {| resp_StatusCode := rs_StatusCode r; resp_Header := rs_Header r |}.

(** [CheckRedirect] of a client: the closure that returns the first response, or a
    function of the caller's. *)
Inductive Redirect (F : Type) : Type := UseLastResponse | CallerRedirect (f : F).
Arguments UseLastResponse {F}.
Arguments CallerRedirect {F}.

Section sender.
(** A client's round tripper and redirect functions, and the types of the fields of
    a policy that the model does not look into. *)
Context {RoundTripper RedirectFn Proxy DialerRest TLSRest : Type}.
Abbreviation policy_of := (Policy Proxy DialerRest TLSRest).

(** [*http.Client] *)
Record Client := {
  cl_Transport : RoundTripper;
  cl_CheckRedirect : option (Redirect RedirectFn);
  cl_Timeout : duration
}.

(** What one call reads: the system's clock and entropy, the error of
    [http.NewRequestWithContext] for the URL, what [client.Do] does with a request (on
    an error, the response that may come with it), and how long it takes. *)
Record environment := {
  env_now : time;
  env_entropy : go string;
  env_NewRequest : string → option error;
  env_Do : Client → HTTPRequest → result (error * option Response) Response;
  env_elapsed : duration
}.

(** [Clock] *)
Definition Clock : Type := environment → time.

(** [Classifier] *)
Definition Classifier : Type := time → option HTTPResponse → option error → Outcome * time.

(** [SenderConfig]; [None] is nil. *)
Record SenderConfig := {
  sc_Signer : option Signer;
  sc_Authenticator : option Authenticator;
  sc_NetworkPolicy : policy_of;
  sc_UnsafeHTTPClient : option Client;
  sc_Clock : option Clock;
  sc_IDGenerator : option (IDGenerator environment);
  sc_Classifier : option Classifier;
  sc_Timeout : duration;
  sc_MaxResponseBytes : Z;
  sc_UserAgent : string
}.

Record Sender := {
  s_signer : Signer;
  s_authenticator : option Authenticator;
  s_client : Client;
  s_clock : Clock;
  s_ids : IDGenerator environment;
  s_classifier : Classifier;
  s_maxResponse : Z;
  s_userAgent : string;
  s_networkPolicy : policy_of
}.

(** [net.DefaultResolver]; the transport [transport.NewTransport] builds for a
    policy; [http.ParseTime]. *)
Context (DefaultResolver : Resolver) (NewTransport : policy_of → RoundTripper)
  (ParseTime : string → option time).

(** [transport.NewClient] *)
Definition NewClient (policy : policy_of) : Client :=
  {| cl_Transport := NewTransport (normalized DefaultResolver policy);
     cl_CheckRedirect := Some UseLastResponse; cl_Timeout := 0 |}.

Definition with_redirect (r : Redirect RedirectFn) (c : Client) : Client :=
  {| cl_Transport := cl_Transport c; cl_CheckRedirect := Some r; cl_Timeout := cl_Timeout c |}.
Definition with_timeout (t : duration) (c : Client) : Client :=
  {| cl_Transport := cl_Transport c; cl_CheckRedirect := cl_CheckRedirect c; cl_Timeout := t |}.

Definition NewSender (config : SenderConfig) : go Sender :=
  signer ← of_option (NewError CodeInvalidConfiguration "signer is required" None) (sc_Signer config);
  let networkPolicy := normalized DefaultResolver (sc_NetworkPolicy config) in
  let client :=
    match sc_UnsafeHTTPClient config with
    | None => NewClient networkPolicy
    | Some c => match cl_CheckRedirect c with
                | None => with_redirect UseLastResponse c
                | Some _ => c
                end
    end in
  let timeout := if sc_Timeout config <=? 0 then 20 * Second else sc_Timeout config in
  let client := if cl_Timeout client =? 0 then with_timeout timeout client else client in
  Ok {| s_signer := signer; s_authenticator := sc_Authenticator config; s_client := client;
        s_clock := clockOrSystem env_now (sc_Clock config);
        s_ids := idGeneratorOrRandom env_entropy (sc_IDGenerator config);
        s_classifier := default (Classify ParseTime 0) (sc_Classifier config);
        s_maxResponse := if sc_MaxResponseBytes config <=? 0 then 65536 else sc_MaxResponseBytes config;
        s_userAgent := if str_eqb (sc_UserAgent config) ε then defaultUserAgent else sc_UserAgent config;
        s_networkPolicy := networkPolicy |}.

(** * Send *)

Context `{HeaderOrder} (url_Parse : string → go URL).

(** The result record while it is filled in. *)
Definition attempt (id : string) (at_ : time) : AttemptResult :=
  {| ar_MessageID := id; ar_AttemptedAt := at_; ar_Outcome := 0; ar_StatusCode := 0; ar_Duration := 0;
     ar_RetryAt := zero_time; ar_ResponseHeader := ∅; ar_ResponseBody := ε; ar_ErrorCode := ε |}.

Definition with_call (elapsed : duration) (outcome : Outcome) (retryAt : time) (code : Code)
    (status : Z) (headers : Header) (body : string) (r : AttemptResult) : AttemptResult :=
  {| ar_MessageID := ar_MessageID r; ar_AttemptedAt := ar_AttemptedAt r; ar_Outcome := outcome;
     ar_StatusCode := status; ar_Duration := elapsed; ar_RetryAt := retryAt;
     ar_ResponseHeader := headers; ar_ResponseBody := body; ar_ErrorCode := code |}.

(** From the request's validation to the URL check: its identifier. *)
Definition checked_id (s : Sender) (e : environment) (request : SendRequest) : go string :=
  _ ← SendRequest_Validate request;
  id ← (if str_eqb (sr_ID request) ε then s_ids s e else Ok (sr_ID request));
  _ ← map_err (λ er, NewError CodeUnsafeDestination "destination URL is not permitted" (Some er))
        (ValidateURL DefaultResolver url_Parse (sr_URL request) (s_networkPolicy s));
  Ok id.

(** From [http.NewRequestWithContext] to the authenticator: the request sent. *)
Definition build_request (s : Sender) (e : environment) (request : SendRequest) (id : string)
    : go HTTPRequest :=
  _ ← match env_NewRequest e (sr_URL request) with
      | Some er => Err (NewError CodeInvalidURL "create webhook request" (Some er))
      | None => Ok tt
      end;
  h ← copyHeaders ∅ (sr_Headers request);
  let contentType := if str_eqb (sr_ContentType request) ε then "application/json"
                     else sr_ContentType request in
  let h := h_set h "Content-Type" contentType in
  let h := h_set h "User-Agent" (s_userAgent s) in
  let h := h_set h "X-Hookbound-Event" (sr_EventType request) in
  signedHeaders ← s_signer s {| si_MessageID := id; si_Timestamp := s_clock s e;
                                si_Body := sr_Body request; si_Headers := h |};
  h ← copyHeaders h signedHeaders;
  let httpRequest := {| hr_Method := "POST"; hr_URL := sr_URL request; hr_Header := h;
                        hr_Body := sr_Body request |} in
  match (match sr_Auth request with Some a => Some a | None => s_authenticator s end) with
  | Some apply => apply httpRequest
  | None => Ok httpRequest
  end.

(** From [client.Do] to the end. *)
Definition finish (s : Sender) (e : environment) (result : AttemptResult) (request : HTTPRequest)
    : AttemptResult * option error :=
  match env_Do e (s_client s) request with
  | Err (transportErr, response) =>
      let '(outcome, retryAt) :=
        s_classifier s (ar_AttemptedAt result) (classified <$> response) (Some transportErr) in
      (with_call (env_elapsed e) outcome retryAt CodeTransport 0 ∅ ε result,
       Some (NewError CodeTransport "send webhook" (Some transportErr)))
  | Ok response =>
      let '(outcome, retryAt) :=
        s_classifier s (ar_AttemptedAt result) (Some (classified response)) None in
      let headers := safeResponseHeaders (rs_Header response) in
      let '(responseBody, readErr) := read_limited (wrap64 (s_maxResponse s + 1)) (rs_Body response) in
      let filled (code : Code) (body : string) :=
        with_call (env_elapsed e) outcome retryAt code (rs_StatusCode response) headers body result in
      if s_maxResponse s <? slen responseBody then
        (filled CodeBodyTooLarge (str_take (Z.to_nat (s_maxResponse s)) responseBody),
         Some (NewError CodeBodyTooLarge "webhook response exceeded configured limit" None))
      else match readErr with
           | Some er => (filled CodeResponseRead responseBody,
                         Some (NewError CodeResponseRead "read webhook response" (Some er)))
           | None => (filled ε responseBody, None)
           end
  end.

(** [Send]: the requests given to the client, in order, and what is returned. *)
Definition Send (s : option Sender) (e : environment) (request : SendRequest)
    : list HTTPRequest * (AttemptResult * option error) :=
  match s with
  | None => ([], (empty_result, Some (NewError CodeInvalidConfiguration "sender is nil" None)))
  | Some s =>
      match checked_id s e request with
      | Err er => ([], (empty_result, Some er))
      | Ok id =>
          let result := attempt id (s_clock s e) in
          match build_request s e request id with
          | Err er => ([], (result, Some er))
          | Ok httpRequest => ([httpRequest], finish s e result httpRequest)
          end
      end
  end.
End sender.

(** [IsTransportError] *)
Definition IsTransportError (err : option error) : bool :=
  str_eqb (ErrorCode err) CodeTransport ||
  match err with Some e => is_sentinel (error_text ErrUnsafeDestination) e | None => false end.

(** * Lemmas *)

Section lemmas.
Context {RoundTripper RedirectFn Proxy DialerRest TLSRest : Type}.
Abbreviation sender_of := (@Sender RoundTripper RedirectFn Proxy DialerRest TLSRest).
Abbreviation environment_of := (@environment RoundTripper RedirectFn).
Context (DefaultResolver : Resolver) `{HeaderOrder} (url_Parse : string → go URL).

Lemma checked_id_Ok (s : sender_of) (e : environment_of) request id :
  checked_id DefaultResolver url_Parse s e request = Ok id →
  SendRequest_Validate request = Ok tt ∧
  (if str_eqb (sr_ID request) ε then s_ids s e else Ok (sr_ID request)) = Ok id ∧
  ∃ u, url_Parse (sr_URL request) = Ok u ∧ url_allowed (s_networkPolicy s) u.
Proof.
  unfold checked_id. intros Hc. rewrite bind_Ok in Hc. destruct Hc as ([] & Hv & Hc).
  rewrite bind_Ok in Hc. destruct Hc as (id' & Hid & Hc). go_inv.
  match goal with Hu : ValidateURL _ _ _ _ = Ok _ |- _ => apply ValidateURL_Ok in Hu end. eauto.
Qed.

(** The headers before the signer's. *)
Definition base_headers (s : sender_of) (request : SendRequest) (h : Header) : Header :=
  h_set (h_set (h_set h "Content-Type"
    (if str_eqb (sr_ContentType request) ε then "application/json" else sr_ContentType request))
    "User-Agent" (s_userAgent s)) "X-Hookbound-Event" (sr_EventType request).

(** The authenticator a request is sent with. *)
Definition effective_auth (s : sender_of) (request : SendRequest) : option Authenticator :=
  match sr_Auth request with Some a => Some a | None => s_authenticator s end.

(** The request before the authenticator, with headers [h]. *)
Definition unauthenticated (request : SendRequest) (h : Header) : HTTPRequest :=
  {| hr_Method := "POST"; hr_URL := sr_URL request; hr_Header := h; hr_Body := sr_Body request |}.

Lemma build_request_Ok (s : sender_of) (e : environment_of) request id req :
  build_request s e request id = Ok req →
  ∃ h0 sh h2, copyHeaders ∅ (sr_Headers request) = Ok h0 ∧
    s_signer s {| si_MessageID := id; si_Timestamp := s_clock s e; si_Body := sr_Body request;
                  si_Headers := base_headers s request h0 |} = Ok sh ∧
    copyHeaders (base_headers s request h0) sh = Ok h2 ∧
    applied (effective_auth s request) (unauthenticated request h2) req.
Proof.
  unfold build_request. intros Hb. destruct (env_NewRequest e (sr_URL request)); [done|].
  cbn [mbind result_bind] in Hb. rewrite bind_Ok in Hb. destruct Hb as (h0 & Hh0 & Hb).
  rewrite bind_Ok in Hb. destruct Hb as (sh & Hsh & Hb).
  rewrite bind_Ok in Hb. destruct Hb as (h2 & Hh2 & Hb).
  exists h0, sh, h2. split_and!; try done. unfold effective_auth.
  destruct (match sr_Auth request with Some a => Some a | None => _ end); [done|]. by injection Hb as <-.
Qed.

(** The call's part of the result. *)
Lemma finish_spec (s : sender_of) (e : environment_of) result req :
  0 < s_maxResponse s < int64_max →
  let '(r, err) := finish s e result req in
  ar_MessageID r = ar_MessageID result ∧ ar_AttemptedAt r = ar_AttemptedAt result ∧
  slen (ar_ResponseBody r) ≤ s_maxResponse s ∧
  match env_Do e (s_client s) req with
  | Err (transportErr, response) =>
      (ar_Outcome r, ar_RetryAt r) =
        s_classifier s (ar_AttemptedAt result) (classified <$> response) (Some transportErr) ∧
      ErrorCode err = CodeTransport
  | Ok response =>
      (ar_Outcome r, ar_RetryAt r) =
        s_classifier s (ar_AttemptedAt result) (Some (classified response)) None ∧
      ar_StatusCode r = rs_StatusCode response ∧
      ar_ResponseHeader r = safeResponseHeaders (rs_Header response) ∧
      (if s_maxResponse s <? slen (rd_data (rs_Body response))
       then ar_ResponseBody r = str_take (Z.to_nat (s_maxResponse s)) (rd_data (rs_Body response)) ∧
            ErrorCode err = CodeBodyTooLarge
       else ar_ResponseBody r = rd_data (rs_Body response) ∧
            match rd_err (rs_Body response) with
            | Some _ => ErrorCode err = CodeResponseRead
            | None => err = None
            end)
  end.
Proof.
  intros Hmax. unfold finish. destruct (env_Do e (s_client s) req) as [response|[te response]].
  - destruct (s_classifier s _ _ None) as [outcome retryAt].
    rewrite (wrap64_id (s_maxResponse s + 1)) by (unfold in_int64, int64_min, int64_max in *; lia).
    rewrite read_limited_exact by lia. pose proof (slen_nonneg (rd_data (rs_Body response))).
    destruct (Z.leb_spec (s_maxResponse s + 1) (slen (rd_data (rs_Body response)))).
    + rewrite slen_take, Z2Nat.id by lia.
      replace (s_maxResponse s <? Z.min (s_maxResponse s + 1) (slen (rd_data (rs_Body response))))
        with true by (symmetry; apply Z.ltb_lt; lia).
      rewrite (proj2 (Z.ltb_lt _ (slen _))) by lia. simpl. split_and!; try done.
      * rewrite !slen_take, !Z2Nat.id by lia. lia.
      * apply str_take_take. lia.
    + rewrite !(proj2 (Z.ltb_ge (s_maxResponse s) _)) by lia.
      destruct (rd_err (rs_Body response)); simpl; split_and!; done || lia.
  - destruct (s_classifier s _ _ (Some te)) as [outcome retryAt]. simpl. split_and!; try done.
    change (slen ε) with 0. lia.
Qed.

Lemma finish_id (s : sender_of) (e : environment_of) result req :
  ar_MessageID (finish s e result req).1 = ar_MessageID result.
Proof.
  unfold finish. destruct (env_Do e (s_client s) req) as [response|[te response]].
  - destruct (s_classifier s _ _ None) as [outcome retryAt]. destruct (read_limited _ _) as [body err].
    destruct (_ <? _); [done|]. by destruct err.
  - by destruct (s_classifier s _ _ (Some te)) as [outcome retryAt].
Qed.

(** The requests a call gives to the client: none, or one that the authenticator made
    of a request that carries the caller's. *)
Lemma Send_calls (s : option sender_of) (e : environment_of) request :
  let '(calls, _) := Send DefaultResolver url_Parse s e request in
  calls = [] ∨ ∃ s0 h req, s = Some s0 ∧ calls = [req] ∧
    applied (effective_auth s0 request) (unauthenticated request h) req.
Proof.
  unfold Send. destruct s as [s|]; [|by left].
  destruct (checked_id DefaultResolver url_Parse s e request) as [id|er]; [|by left].
  destruct (build_request s e request id) as [req|er] eqn:Eb; [|by left].
  apply build_request_Ok in Eb as (h0 & sh & h2 & _ & _ & _ & Ha). right. by exists s, h2, req.
Qed.

(** The webhook headers of a signed message survive being copied. *)
Definition webhook_headers : list string := [HeaderID; HeaderTimestamp; HeaderSignature].

Lemma signature_headers_lookup id ts sigs name values :
  signature_headers id ts sigs !! name = Some values →
  name ∈ webhook_headers ∧ CanonicalHeaderKey name = name ∧ values ≠ [].
Proof.
  unfold signature_headers, webhook_headers.
  intros [[<- <-]|[_ [[<- <-]|[_ [[<- <-]|[_ H0]]%lookup_insert_Some]]%lookup_insert_Some]]%lookup_insert_Some;
    try discriminate H0;
    (split; [rewrite !elem_of_cons; tauto|split; [vm_compute; reflexivity|discriminate]]).
Qed.

Lemma signature_headers_distinct id ts sigs : canonical_distinct (signature_headers id ts sigs).
Proof.
  intros n1 n2 v1 v2 H1 H2 E. apply signature_headers_lookup in H1 as (_ & <- & _).
  by apply signature_headers_lookup in H2 as (_ & <- & _).
Qed.

(** The other headers survive it. *)
Lemma signature_headers_others id ts sigs d r name :
  copyHeaders d (signature_headers id ts sigs) = Ok r → CanonicalHeaderKey name ∉ webhook_headers →
  h_values r name = h_values d name.
Proof.
  intros Hc Hn. unfold h_values.
  rewrite (copyHeaders_miss d _ r _ (signature_headers_distinct id ts sigs) Hc); [done|].
  intros n v (Hin & Hcan & _)%signature_headers_lookup E. apply Hn. by rewrite <-E, Hcan.
Qed.

Lemma signature_headers_copied id ts sigs d r name :
  copyHeaders d (signature_headers id ts sigs) = Ok r → name ∈ webhook_headers →
  h_values r name = h_values (signature_headers id ts sigs) name.
Proof.
  intros Hc Hn.
  pose proof (signature_headers_distinct id ts sigs) as Hd.
  assert (CanonicalHeaderKey name = name) as Hname.
  { unfold webhook_headers in Hn. rewrite !elem_of_cons in Hn.
    destruct Hn as [->|[->|[->|[]%elem_of_nil]]]; by vm_compute. }
  assert (is_Some (signature_headers id ts sigs !! name)) as [values Hv].
  { unfold webhook_headers in Hn. rewrite !elem_of_cons in Hn. unfold signature_headers.
    destruct Hn as [->|[->|[->|[]%elem_of_nil]]]; by eexists. }
  pose proof (copyHeaders_hit d _ r name values Hd Hc Hv) as Hr.
  unfold h_values. rewrite Hname in *. rewrite Hr, Hv.
  apply signature_headers_lookup in Hv as (_ & _ & Hne). by destruct values.
Qed.

Lemma HMACSigner_Sign_Ok keys input sh :
  HMACSigner_Sign (Some (Ok keys)) input = Ok sh → ∃ id ts sigs, sh = signature_headers id ts sigs.
Proof. unfold HMACSigner_Sign. intros Hs. cbn [of_option mbind result_bind map_err] in Hs. go_inv. eauto. Qed.
End lemmas.

(** * Properties *)

Section properties.
Context {RoundTripper RedirectFn Proxy DialerRest TLSRest : Type}.
Abbreviation policy_of := (Policy Proxy DialerRest TLSRest).
Abbreviation sender_of := (@Sender RoundTripper RedirectFn Proxy DialerRest TLSRest).
Abbreviation environment_of := (@environment RoundTripper RedirectFn).
Context (DefaultResolver : Resolver) (NewTransport : policy_of → RoundTripper)
  (ParseTime : string → option time) `{HeaderOrder} (url_Parse : string → go URL).

(** What [NewSender] guarantees of the sender it returns. *)
Lemma NewSender_Ok config (s : sender_of) :
  NewSender DefaultResolver NewTransport ParseTime config = Ok s →
  0 < s_maxResponse s ∧ (sc_MaxResponseBytes config < int64_max → s_maxResponse s < int64_max) ∧
  s_userAgent s ≠ ε ∧ cl_Timeout (s_client s) ≠ 0 ∧ is_Some (cl_CheckRedirect (s_client s)) ∧
  (sc_UnsafeHTTPClient config = None →
     cl_CheckRedirect (s_client s) = Some UseLastResponse ∧
     cl_Transport (s_client s) = NewTransport (normalized DefaultResolver (s_networkPolicy s))).
Proof.
  unfold NewSender. intros Hs. rewrite bind_Ok in Hs. destruct Hs as (signer & _ & [= <-]). cbn.
  split_and!.
  - zcase.
  - unfold int64_max. zcase.
  - destruct (str_eqb (sc_UserAgent config) ε) eqn:E; [done|by apply str_eqb_false].
  - set (c := match sc_UnsafeHTTPClient config with Some _ => _ | None => _ end).
    destruct (Z.eqb_spec (cl_Timeout c) 0); [|done]. cbn. zcase. unfold Second. lia.
  - destruct (sc_UnsafeHTTPClient config) as [c|].
    + destruct (cl_CheckRedirect c) eqn:E; cbn; (destruct (_ =? 0); cbn; [|rewrite ?E]; eauto).
    + cbn. eauto.
  - intros ->. cbn. done.
Qed.

(** The headers of a response that are not kept. *)
Definition response_header (h : Header) (name : string) : option (list string) :=
  if bool_decide (name ∈ ["Authorization"; "Proxy-Authorization"; "Cookie"; "Set-Cookie"])
  then None else h !! name.


(** A request sent with HMAC keys is accepted by a verifier that shares one. *)
Lemma Send_verifies (s : sender_of) (e : environment_of) request keys
    ed (c : VerifierConfig) wall keys' k receivedAt ty :
  s_signer s = HMACSigner_Sign (Some (Ok keys)) →
  vc_HMACKeys c = Some (Ok keys') → validateHMACKeys keys' = Ok tt → vc_PublicKeys c = None →
  k ∈ keys → k ∈ keys' →
  0 ≤ vc_Tolerance c < int64_max → receivedAt ≠ 0 →
  Z.abs (receivedAt - Unix (UnixSeconds (s_clock s e))) ≤ vc_Tolerance c →
  auth_keeps [HeaderID; HeaderTimestamp; HeaderSignature] (effective_auth s request) →
  let '(calls, (r, _)) := Send DefaultResolver url_Parse (Some s) e request in
  ∀ req, calls = [req] →
    match vc_ExtractType c with
    | Some extract => extract (hr_Body req) (hr_Header req)
    | None => Ok "unknown"
    end = Ok ty →
    Verify ed c wall {| vi_Headers := hr_Header req; vi_Body := hr_Body req; vi_ReceivedAt := receivedAt |} =
      Ok {| v_ID := ar_MessageID r; v_Type := ty; v_Source := vc_Source c;
            v_Timestamp := Unix (UnixSeconds (s_clock s e)); v_Metadata := ∅ |}.
Proof.
  intros Hsigner HK HKv HP Hk Hk' Htol Hr Hfresh Hauth. unfold Send.
  destruct (checked_id DefaultResolver url_Parse s e request) as [id|er] eqn:Eid; [|done].
  destruct (build_request s e request id) as [req|er] eqn:Eb; [|done].
  pose proof (finish_id s e (attempt id (s_clock s e)) req) as Hid.
  destruct (finish s e (attempt id (s_clock s e)) req) as [r err]. simpl in Hid. rewrite Hid.
  intros req' [= <-] Hty. apply build_request_Ok in Eb as (h0 & sh & h2 & _ & Hsh & Hc & Ha).
  destruct (Hauth _ _ Ha) as [Hbody Hkept]. simpl in Hbody, Hkept.
  rewrite Hsigner in Hsh. destruct (HMACSigner_Sign_Ok _ _ _ Hsh) as (id0 & ts & sigs & ->).
  rewrite <-Hbody in Hsh.
  pose proof (verify_signed ed c wall
    {| vi_Headers := hr_Header req; vi_Body := hr_Body req; vi_ReceivedAt := receivedAt |} id (s_clock s e)
    _ keys keys' k _ ty Hsh HK HKv HP Hk Hk' Htol Hr Hfresh) as Hv.
  apply Hv; [|exact Hty]. clear Hv. cbn [vi_Headers].
  intros name Hn. transitivity (h_values h2 name); [|by eapply signature_headers_copied].
  by apply Hkept.
Qed.

(** The identifier of the result is the request's own, when it has one. *)
Lemma Send_id (s : option sender_of) (e : environment_of) request req calls r err :
  Send DefaultResolver url_Parse s e request = (req :: calls, (r, err)) → sr_ID request ≠ ε →
  ar_MessageID r = sr_ID request.
Proof.
  unfold Send. destruct s as [s|]; [|done]. intros Hsend Hid.
  destruct (checked_id DefaultResolver url_Parse s e request) as [id|er] eqn:Ei; [|done].
  destruct (build_request s e request id) as [req'|er]; [|done].
  pose proof (finish_id s e (attempt id (s_clock s e)) req') as Hf. injection Hsend as -> <- Hfin.
  rewrite Hfin in Hf. simpl in Hf. rewrite Hf. unfold checked_id in Ei.
  unfold str_eqb in Ei. rewrite bool_decide_false in Ei by done. by go_inv.
Qed.

(** C4 What is sent verifies: a request sent by a sender that signs with HMAC keys is
    accepted, under the identifier in the sender's result, by a verifier without public
    keys that shares one of the HMAC keys, whatever headers the caller added.  That is
    for a request received as it was sent, at a nonzero time within the verifier's
    tolerance (not negative and below the largest duration) of the second it was signed
    in, whose event type the verifier's extractor reads from its body and headers; and
    for any authenticator that leaves the body and the three webhook headers as they
    are. *)
Theorem sent_request_verifies (s : sender_of) (e : environment_of) request keys
    ed (c : VerifierConfig) wall keys' k receivedAt ty :
  s_signer s = HMACSigner_Sign (Some (Ok keys)) →
  vc_HMACKeys c = Some (Ok keys') → validateHMACKeys keys' = Ok tt → vc_PublicKeys c = None →
  k ∈ keys → k ∈ keys' →
  0 ≤ vc_Tolerance c < int64_max → receivedAt ≠ 0 →
  Z.abs (receivedAt - Unix (UnixSeconds (s_clock s e))) ≤ vc_Tolerance c →
  auth_keeps [HeaderID; HeaderTimestamp; HeaderSignature] (effective_auth s request) →
  let '(calls, (r, _)) := Send DefaultResolver url_Parse (Some s) e request in
  ∀ req, calls = [req] →
    match vc_ExtractType c with
    | Some extract => extract (hr_Body req) (hr_Header req)
    | None => Ok "unknown"
    end = Ok ty →
    Verify ed c wall {| vi_Headers := hr_Header req; vi_Body := hr_Body req; vi_ReceivedAt := receivedAt |} =
      Ok {| v_ID := ar_MessageID r; v_Type := ty; v_Source := vc_Source c;
            v_Timestamp := Unix (UnixSeconds (s_clock s e)); v_Metadata := ∅ |}.
Proof. apply Send_verifies. Qed.
End properties.

(** * Witnesses *)

#[local] Existing Instance map_order.

Definition ex_hmac_key : string := "0123456789abcdef01234567".
Definition ex_sender_policy : Policy unit unit unit := DefaultPolicy.
Definition ex_config : @SenderConfig unit unit unit unit unit :=
  {| sc_Signer := Some (HMACSigner_Sign (Some (Ok [ex_hmac_key]))); sc_Authenticator := None;
     sc_NetworkPolicy := ex_sender_policy; sc_UnsafeHTTPClient := None; sc_Clock := None;
     sc_IDGenerator := Some (λ _, Ok "msg_1"); sc_Classifier := None;
     sc_Timeout := 0; sc_MaxResponseBytes := 4; sc_UserAgent := ε |}.
Definition ex_made : go (@Sender unit unit unit unit unit) :=
  NewSender (λ _, Ok []) (λ _, tt) (λ _, None) ex_config.
Definition ex_sender : @Sender unit unit unit unit unit :=
  {| s_signer := HMACSigner_Sign (Some (Ok [ex_hmac_key])); s_authenticator := None;
     s_client := {| cl_Transport := tt; cl_CheckRedirect := Some UseLastResponse; cl_Timeout := 20 * Second |};
     s_clock := env_now; s_ids := λ _, Ok "msg_1"; s_classifier := Classify (λ _, None) 0; s_maxResponse := 4; s_userAgent := defaultUserAgent;
     s_networkPolicy := normalized (λ _, Ok []) ex_sender_policy |}.

Lemma ex_sender_made : ex_made = Ok ex_sender.
Proof. reflexivity. Qed.

(** The destination answers 200 with six bytes. *)
Definition ex_environment : @environment unit unit :=
  {| env_now := Unix 1700000000; env_entropy := Ok "0123456789abcdef"; env_NewRequest := λ _, None;
     env_Do := λ _ _, Ok {| rs_StatusCode := 200; rs_Header := ∅;
                            rs_Body := {| rd_data := "accept"; rd_err := None |} |};
     env_elapsed := Second |}.
Definition ex_url (raw : string) : go URL :=
  Ok {| u_Scheme := "https"; u_Host := "example.com"; u_User := false; u_Fragment := ε |}.
Definition ex_send_request : SendRequest :=
  {| sr_ID := ε; sr_URL := "https://example.com/hook"; sr_EventType := "order.paid"; sr_Body := "{}";
     sr_ContentType := ε; sr_Headers := ∅; sr_Auth := None |}.
Definition ex_sent := Send (λ _, Ok []) ex_url (Some ex_sender) ex_environment ex_send_request.

Lemma ex_sent_once : length ex_sent.1 = 1%nat.
Proof. vm_compute. reflexivity. Qed.


Definition ex_verifier_config : VerifierConfig :=
  {| vc_HMACKeys := Some (Ok [ex_hmac_key]); vc_PublicKeys := None; vc_Tolerance := 5 * Minute;
     vc_Source := "peer"; vc_ExtractType := None; vc_AllowNoType := true |}.

Lemma sent_request_verifies_witness :
  ∃ req r err, ex_sent = ([req], (r, err)) ∧
    Verify (λ _ _ _, false) ex_verifier_config zero_time
      {| vi_Headers := hr_Header req; vi_Body := hr_Body req; vi_ReceivedAt := Unix 1700000100 |} =
      Ok {| v_ID := ar_MessageID r; v_Type := "unknown"; v_Source := "peer";
            v_Timestamp := Unix (UnixSeconds (Unix 1700000000)); v_Metadata := ∅ |}.
Proof.
  assert (validateHMACKeys [ex_hmac_key] = Ok tt) as Hk by (vm_compute; reflexivity).
  assert (0 ≤ vc_Tolerance ex_verifier_config < int64_max) as Htol
    by (split; [vm_compute; discriminate|vm_compute; reflexivity]).
  assert (Unix 1700000100 ≠ 0) as Hr by (vm_compute; discriminate).
  assert (Z.abs (Unix 1700000100 - Unix (UnixSeconds (s_clock ex_sender ex_environment))) ≤ 5 * Minute) as Hf
    by (vm_compute; discriminate).
  assert (ex_hmac_key ∈ [ex_hmac_key]) as Hin by left.
  pose proof (sent_request_verifies (λ _, Ok []) ex_url ex_sender ex_environment ex_send_request
    [ex_hmac_key] (λ _ _ _, false) ex_verifier_config zero_time [ex_hmac_key] ex_hmac_key
    (Unix 1700000100) "unknown" eq_refl eq_refl Hk eq_refl Hin Hin Htol Hr Hf
    (no_auth_keeps _)) as H.
  pose proof ex_sent_once as Hl. fold ex_sent in H.
  destruct ex_sent as [[|req [|]] [r err]]; [discriminate Hl| |discriminate Hl].
  exists req, r, err. split; [reflexivity|]. exact (H req eq_refl eq_refl).
Defined.
