(* ===== verification/Cli.v ===== *)
(** src/cmd/hookbound/main.go: the command line tool.

    The flag package's parser is translated for the flags the tool defines; the
    readers of an integer and of a duration are parameters, as is the JSON type
    field of a payload.  What the commands print is kept as values; the texts the
    flag package prints about a bad flag are left out. *)

From S2P Require Import Prelude GoString Codec GoTime Errors Headers Message Receiver Standard.

Definition MINUS : byte := chr 45.
Definition EQUALS : byte := chr 61.

(** * The flag package *)

(** How a flag's value is set in the values [F]; [None] is an undefined flag. *)
Definition FlagSet (F : Type) : Type := string → option (string → F → go F).

Definition ErrHelp : error := PlainError "flag: help requested".

(** The name of a flag and its value after the first equals sign, if any; the name
    has at least one byte. *)
Definition split_flag (name : string) : string * option string :=
  match name with
  | EmptyString => (ε, None)
  | String c rest =>
      match Cut EQUALS rest with
      | Some (n, v) => (String c n, Some v)
      | None => (name, None)
      end
  end.

(** The text after one or two dashes; [None] ends the flags. *)
Definition flag_text (s : string) : option string :=
  match s with
  | String c (String d rest) =>
      if negb (bool_decide (c = MINUS)) then None
      else if bool_decide (d = MINUS) then (if str_eqb rest ε then None else Some rest)
      else Some (String d rest)
  | _ => None
  end.

Definition bad_flag_name (name : string) : bool :=
  match name with
  | EmptyString => true
  | String c _ => bool_decide (c = MINUS) || bool_decide (c = EQUALS)
  end.

(** [(f *FlagSet) Parse] with [ContinueOnError], for flags that take a value. *)
Fixpoint Parse {F} (set : FlagSet F) (arguments : list string) (f : F) : go F :=
  match arguments with
  | [] => Ok f
  | s :: arguments' =>
      match flag_text s with
      | None => Ok f
      | Some text =>
          if bad_flag_name text then Err (PlainError ("bad flag syntax: " +:+ s)) else
          let '(name, value) := split_flag text in
          match set name with
          | None =>
              if str_eqb name "help" || str_eqb name "h" then Err ErrHelp
              else Err (PlainError ("flag provided but not defined: -" +:+ name))
          | Some assign =>
              match value, arguments' with
              | Some v, _ => f' ← assign v f; Parse set arguments' f'
              | None, v :: arguments'' => f' ← assign v f; Parse set arguments'' f'
              | None, [] => Err (PlainError ("flag needs an argument: -" +:+ name))
              end
          end
      end
  end.

(** * The commands *)

(** What the tool reads: the environment, files, the input, the clock and entropy,
    and the outcome of a write to its output. *)
Record machine := {
  m_Getenv : string → string;
  m_ReadFile : string → go string;
  m_Stdin : go string;
  m_Now : time;
  m_entropy : go string;
  m_keypair : go (string * string);
  m_write : option error
}.

Record sign_flags := { sf_body : string; sf_id : string; sf_timestamp : Z; sf_secretEnv : string }.
Record verify_flags := {
  vf_body : string; vf_id : string; vf_timestamp : string; vf_signature : string;
  vf_type : string; vf_tolerance : duration; vf_secretEnv : string
}.

(** The JSON objects printed. *)
Record sign_output := { so_message_id : string; so_timestamp : Z; so_headers : Header }.
Record verify_output := {
  vo_message_id : string; vo_event_type : string; vo_source : string; vo_timestamp : Z
}.

Inductive output : Type :=
| Line (text : string)
| KeyPair (public_key private_key : string)
| Signed (o : sign_output)
| Verified (o : verify_output).

(** [printUsage] *)
Definition printUsage : output := Line
  "Hookbound — secure webhooks, both ways.

Usage:
  hookbound version
  hookbound generate-secret
  hookbound generate-keypair
  hookbound sign [--body payload.json] [--id msg_...] [--timestamp unix]
  hookbound verify --id msg_... --timestamp unix --signature v1,... [--body payload.json]

Signing secrets are read from HOOKBOUND_SECRET by default. Use --secret-env to
select another environment variable; secrets are intentionally not accepted as
command-line flag values.".

(** A result with what was written to the standard output and error. *)
Record run_result := { run_err : option error; run_stdout : list output; run_stderr : list output }.

(** [readBody] *)
Definition readBody (m : machine) (strconv_Quote : string → string) (path : string) : go string :=
  if str_eqb path ε || str_eqb path "-" then m_Stdin m
  else map_err (λ e, WrapError ("read body " +:+ strconv_Quote path +:+ ": " +:+ error_text e) e)
         (m_ReadFile m path).

(** [requiredEnvironment] *)
Definition requiredEnvironment (m : machine) (strconv_Quote : string → string) (name : string) : go string :=
  let name := TrimSpace name in
  _ ← reject (str_eqb name ε) (PlainError "secret environment variable name is required");
  let value := TrimSpace (m_Getenv m name) in
  _ ← reject (str_eqb value ε) (PlainError ("environment variable " +:+ strconv_Quote name +:+ " is empty"));
  Ok value.

Section cli.
(** [ed25519.Verify], [JSONTypeField] on the payload, the verb %q, and the readers of
    [flags.Int64] and [flags.Duration]. *)
Context (ed25519_Verify : string → string → string → bool) (json_type : EventTypeExtractor).
Context (strconv_Quote : string → string).
Context (parse_int64 : string → go Z) (parse_duration : string → go duration).

(** [-name value] for a value that is read by [read]. *)
Definition read_flag {A} (read : string → go A) (name value : string) : go A :=
  map_err (λ e, PlainError ("invalid value " +:+ strconv_Quote value +:+ " for flag -" +:+ name +:+ ": " +:+
                            error_text e)) (read value).

Definition sign_set : FlagSet sign_flags := λ name,
  if str_eqb name "body" then Some (λ v f,
    Ok {| sf_body := v; sf_id := sf_id f; sf_timestamp := sf_timestamp f; sf_secretEnv := sf_secretEnv f |})
  else if str_eqb name "id" then Some (λ v f,
    Ok {| sf_body := sf_body f; sf_id := v; sf_timestamp := sf_timestamp f; sf_secretEnv := sf_secretEnv f |})
  else if str_eqb name "timestamp" then Some (λ v f,
    t ← read_flag parse_int64 name v;
    Ok {| sf_body := sf_body f; sf_id := sf_id f; sf_timestamp := t; sf_secretEnv := sf_secretEnv f |})
  else if str_eqb name "secret-env" then Some (λ v f,
    Ok {| sf_body := sf_body f; sf_id := sf_id f; sf_timestamp := sf_timestamp f; sf_secretEnv := v |})
  else None.

Definition sign_defaults : sign_flags :=
  {| sf_body := "-"; sf_id := ε; sf_timestamp := 0; sf_secretEnv := "HOOKBOUND_SECRET" |}.

(** [sign], up to the encoding of what it prints. *)
Definition sign (m : machine) (arguments : list string) : go sign_output :=
  f ← Parse sign_set arguments sign_defaults;
  secret ← requiredEnvironment m strconv_Quote (sf_secretEnv f);
  keys ← StaticHMACKeys [secret];
  signer ← NewHMACSigner (Some keys);
  body ← readBody m strconv_Quote (sf_body f);
  let id := TrimSpace (sf_id f) in
  id ← (if str_eqb id ε then RandomIDGenerator m_entropy None m else Ok id);
  let attemptedAt := if sf_timestamp f =? 0 then m_Now m else Unix (sf_timestamp f) in
  headers ← signer {| si_MessageID := id; si_Timestamp := attemptedAt; si_Body := body; si_Headers := ∅ |};
  Ok {| so_message_id := id; so_timestamp := UnixSeconds attemptedAt; so_headers := headers |}.

Definition verify_set : FlagSet verify_flags := λ name,
  let set (body id timestamp signature type : verify_flags → string) (secretEnv : verify_flags → string) :=
    λ f, {| vf_body := body f; vf_id := id f; vf_timestamp := timestamp f; vf_signature := signature f;
            vf_type := type f; vf_tolerance := vf_tolerance f; vf_secretEnv := secretEnv f |} in
  if str_eqb name "body" then
    Some (λ v f, Ok (set (λ _, v) vf_id vf_timestamp vf_signature vf_type vf_secretEnv f))
  else if str_eqb name "id" then
    Some (λ v f, Ok (set vf_body (λ _, v) vf_timestamp vf_signature vf_type vf_secretEnv f))
  else if str_eqb name "timestamp" then
    Some (λ v f, Ok (set vf_body vf_id (λ _, v) vf_signature vf_type vf_secretEnv f))
  else if str_eqb name "signature" then
    Some (λ v f, Ok (set vf_body vf_id vf_timestamp (λ _, v) vf_type vf_secretEnv f))
  else if str_eqb name "type" then
    Some (λ v f, Ok (set vf_body vf_id vf_timestamp vf_signature (λ _, v) vf_secretEnv f))
  else if str_eqb name "tolerance" then Some (λ v f,
    t ← read_flag parse_duration name v;
    Ok {| vf_body := vf_body f; vf_id := vf_id f; vf_timestamp := vf_timestamp f;
          vf_signature := vf_signature f; vf_type := vf_type f; vf_tolerance := t;
          vf_secretEnv := vf_secretEnv f |})
  else if str_eqb name "secret-env" then
    Some (λ v f, Ok (set vf_body vf_id vf_timestamp vf_signature vf_type (λ _, v) f))
  else None.

Definition verify_defaults : verify_flags :=
  {| vf_body := "-"; vf_id := ε; vf_timestamp := ε; vf_signature := ε; vf_type := ε;
     vf_tolerance := 5 * Minute; vf_secretEnv := "HOOKBOUND_SECRET" |}.

(** The configuration [verify] makes of its flags. *)
Definition verify_config (f : verify_flags) (keys : HMACKeyProvider) : VerifierConfig :=
  {| vc_HMACKeys := Some keys; vc_PublicKeys := None; vc_Tolerance := vf_tolerance f; vc_Source := ε;
     vc_ExtractType := if str_eqb (vf_type f) ε then None else Some (λ _ _, Ok (vf_type f));
     vc_AllowNoType := false |}.

Definition verify_headers (f : verify_flags) : Header :=
  h_set (h_set (h_set ∅ HeaderID (vf_id f)) HeaderTimestamp (vf_timestamp f)) HeaderSignature (vf_signature f).

(** [verify], up to the encoding of what it prints. *)
Definition verify (m : machine) (arguments : list string) : go verify_output :=
  f ← Parse verify_set arguments verify_defaults;
  secret ← requiredEnvironment m strconv_Quote (vf_secretEnv f);
  keys ← StaticHMACKeys [secret];
  verifier ← NewVerifier json_type (verify_config f keys);
  body ← readBody m strconv_Quote (vf_body f);
  verification ← Verify ed25519_Verify verifier (m_Now m)
    {| vi_Headers := verify_headers f; vi_Body := body; vi_ReceivedAt := m_Now m |};
  Ok {| vo_message_id := v_ID verification; vo_event_type := v_Type verification;
        vo_source := v_Source verification; vo_timestamp := UnixSeconds (v_Timestamp verification) |}.

(** Printing a value on the standard output: the error is the writer's. *)
Definition print (m : machine) (o : output) : run_result :=
  {| run_err := m_write m;
     run_stdout := match m_write m with None => [o] | Some _ => [] end; run_stderr := [] |}.
Definition failed (e : error) : run_result := {| run_err := Some e; run_stdout := []; run_stderr := [] |}.
Definition print_result {A} (m : machine) (show : A → output) (r : go A) : run_result :=
  match r with Ok a => print m (show a) | Err e => failed e end.

(** [run]; [version_line] is the line of the version command. *)
Definition run (version_line : string) (m : machine) (arguments : list string) : run_result :=
  match arguments with
  | [] => {| run_err := Some (PlainError "a command is required"); run_stdout := []; run_stderr := [printUsage] |}
  | command :: arguments' =>
      if str_eqb command "version" then print m (Line version_line)
      else if str_eqb command "generate-secret" then print_result m Line (GenerateHMACSecret (m_entropy m))
      else if str_eqb command "generate-keypair" then
        print_result m (λ k, KeyPair k.1 k.2) (GenerateEd25519KeyPair (m_keypair m))
      else if str_eqb command "sign" then print_result m Signed (sign m arguments')
      else if str_eqb command "verify" then print_result m Verified (verify m arguments')
      else if one_of command ["help"; "-h"; "--help"] then
        {| run_err := None;
           run_stdout := match m_write m with None => [printUsage] | Some _ => [] end; run_stderr := [] |}
      else {| run_err := Some (PlainError ("unknown command " +:+ strconv_Quote command));
              run_stdout := []; run_stderr := [printUsage] |}
  end.

(** [main]: the exit status, with the error on the standard error. *)
Definition main (version_line : string) (m : machine) (arguments : list string)
    : Z * list output * list output :=
  let r := run version_line m arguments in
  match run_err r with
  | None => (0, run_stdout r, run_stderr r)
  | Some e => (1, run_stdout r, run_stderr r ++ [Line ("hookbound: " +:+ error_text e)])
  end.

(** * Lemmas *)

(** The values of the headers [verify] builds. *)
Lemma verify_headers_values f :
  h_values (verify_headers f) HeaderID = [vf_id f] ∧
  h_values (verify_headers f) HeaderTimestamp = [vf_timestamp f] ∧
  h_values (verify_headers f) HeaderSignature = [vf_signature f].
Proof.
  unfold verify_headers. rewrite h_values_set. split_and!; [|  |done].
  - rewrite !h_values_set_ne by (vm_compute; discriminate). by rewrite h_values_set.
  - rewrite h_values_set_ne by (vm_compute; discriminate). by rewrite h_values_set.
Qed.

(** What a successful [sign] signed, and that verification under the same key with
    the printed identifier, timestamp and signature accepts it. *)
Lemma sign_Ok m arguments out :
  sign m arguments = Ok out →
  ∃ f secret key body t,
    Parse sign_set arguments sign_defaults = Ok f ∧
    requiredEnvironment m strconv_Quote (sf_secretEnv f) = Ok secret ∧
    ParseHMACSecret secret = Ok key ∧
    readBody m strconv_Quote (sf_body f) = Ok body ∧ so_timestamp out = UnixSeconds t ∧
    HMACSigner_Sign (Some (Ok [key]))
      {| si_MessageID := so_message_id out; si_Timestamp := t; si_Body := body; si_Headers := ∅ |} =
      Ok (so_headers out).
Proof.
  unfold sign. intros Hs.
  apply bind_Ok in Hs as (f & Hf & Hs). apply bind_Ok in Hs as (secret & Hsec & Hs).
  apply bind_Ok in Hs as (keys & Hkeys & Hs). apply bind_Ok in Hs as (signer & Hsigner & Hs).
  apply bind_Ok in Hs as (body & Hbody & Hs). apply bind_Ok in Hs as (id & Hid & Hs).
  apply bind_Ok in Hs as (headers & Hh & [= <-]).
  unfold StaticHMACKeys in Hkeys. simpl in Hkeys.
  destruct (ParseHMACSecret secret) as [key|er] eqn:Hkey; [|discriminate Hkeys].
  injection Hkeys as <-. injection Hsigner as <-. exists f, secret, key, body. eexists. by split_and!.
Qed.

Lemma ParseHMACSecret_length text key : ParseHMACSecret text = Ok key → bad_key_length key = false.
Proof. unfold ParseHMACSecret. intros H. by go_inv. Qed.

(** The headers [verify] builds from what [sign] printed are the signed ones. *)
Lemma printed_headers keys input h g :
  HMACSigner_Sign (Some (Ok keys)) input = Ok h →
  vf_id g = si_MessageID input → vf_timestamp g = FormatInt (UnixSeconds (si_Timestamp input)) →
  vf_signature g = h_get h HeaderSignature →
  ∀ name, name ∈ [HeaderID; HeaderTimestamp; HeaderSignature] →
    h_values (verify_headers g) name = h_values h name.
Proof.
  unfold HMACSigner_Sign. intros Hs Hid Hts Hsig. go_inv.
  destruct (verify_headers_values g) as (V1 & V2 & V3).
  intros name Hn. repeat apply elem_of_cons in Hn as [->|Hn]; [..|by apply elem_of_nil in Hn].
  - rewrite V1, Hid. reflexivity.
  - rewrite V2, Hts. reflexivity.
  - rewrite V3, Hsig. reflexivity.
Qed.

(** * Properties *)

(** C37 What the tool signs the tool verifies: after a successful [hookbound sign],
    [hookbound verify] with the same key and payload and with the printed identifier,
    timestamp and signature prints the message as valid under that identifier and
    timestamp and exits with status 0.  That is when its flags parse, the tool runs at a
    nonzero time within the tolerance (not negative, five minutes when the flag is zero)
    of the timestamp, the event type is given by its flag or can be read from the
    payload's JSON, and printing does not fail. *)
Theorem signed_by_cli_verifies line m m' arguments arguments' f g out ty :
  sign m arguments = Ok out →
  Parse sign_set arguments sign_defaults = Ok f → Parse verify_set arguments' verify_defaults = Ok g →
  requiredEnvironment m' strconv_Quote (vf_secretEnv g) = requiredEnvironment m strconv_Quote (sf_secretEnv f) →
  readBody m' strconv_Quote (vf_body g) = readBody m strconv_Quote (sf_body f) →
  vf_id g = so_message_id out → vf_timestamp g = FormatInt (so_timestamp out) →
  vf_signature g = h_get (so_headers out) HeaderSignature →
  let tolerance := if vf_tolerance g =? 0 then 5 * Minute else vf_tolerance g in
  0 ≤ tolerance < int64_max → m_Now m' ≠ 0 → Z.abs (m_Now m' - Unix (so_timestamp out)) ≤ tolerance →
  (∀ body, readBody m' strconv_Quote (vf_body g) = Ok body →
     (if str_eqb (vf_type g) ε then json_type body (verify_headers g) else Ok (vf_type g)) = Ok ty) →
  m_write m' = None →
  main line m' ("verify" :: arguments') =
    (0, [Verified {| vo_message_id := so_message_id out; vo_event_type := ty; vo_source := "standard-webhooks";
                     vo_timestamp := so_timestamp out |}], []).
Proof.
  intros Hs Hf Hg Henv Hbody Hid Hts Hsig tolerance Htol Hnow Hfresh Hty Hw.
  apply sign_Ok in Hs as (f' & secret & key & body & t & Hf' & Hsec & Hkey & Hb & Hout & Hsigned).
  rewrite Hf in Hf'. injection Hf' as <-. rewrite Hsec in Henv. rewrite Hb in Hbody.
  assert (verify m' arguments' = Ok {| vo_message_id := so_message_id out; vo_event_type := ty;
    vo_source := "standard-webhooks"; vo_timestamp := so_timestamp out |}) as Hv.
  2: { unfold main, run. simpl. rewrite Hv. simpl. unfold print. by rewrite Hw. }
  unfold verify. rewrite Hg. simpl. rewrite Henv. simpl. unfold StaticHMACKeys. simpl. rewrite Hkey. simpl.
  unfold NewVerifier. simpl. fold tolerance. rewrite (proj2 (Z.ltb_ge tolerance 0)) by lia. simpl.
  rewrite Hbody. simpl. rewrite Hout in *.
  erewrite verify_signed with (keys := [key]) (keys' := [key]) (k := key) (t := t) (id := so_message_id out)
    (ty := ty); try done; try exact Hsigned; try (by left).
  - simpl. by rewrite UnixSeconds_Unix by apply UnixSeconds_range.
  - unfold validateHMACKeys. simpl. by rewrite (ParseHMACSecret_length _ _ Hkey).
  - simpl. by eapply printed_headers.
  - simpl. specialize (Hty body Hbody). by destruct (str_eqb (vf_type g) ε).
Qed.
End cli.

(** * A run *)

Definition ex_read_int (s : string) : go Z := of_option (PlainError "parse error") (ParseInt s).
Definition ex_quote (s : string) : string := s.
Definition ex_json_type : EventTypeExtractor := λ _ _, Ok "order.paid".

Definition ex_machine (now : time) : machine :=
  {| m_Getenv := λ name, if str_eqb name "HOOKBOUND_SECRET"
                         then "whsec_MDEyMzQ1Njc4OWFiY2RlZjAxMjM0NTY3" else ε;
     m_ReadFile := λ path, if str_eqb path "p.json" then Ok "{}" else Err (PlainError "no such file");
     m_Stdin := Ok ε; m_Now := now; m_entropy := Ok "0123456789abcdef";
     m_keypair := Err (PlainError "no entropy"); m_write := None |}.

Definition ex_sign_arguments : list string := ["--id"; "msg_1"; "-timestamp=1700000000"; "--body"; "p.json"].
Definition ex_signed : go sign_output :=
  sign ex_quote ex_read_int (ex_machine (Unix 1600000000)) ex_sign_arguments.
Definition ex_sign_output : sign_output :=
  match ex_signed with
  | Ok o => o
  | Err _ => {| so_message_id := ε; so_timestamp := 0; so_headers := ∅ |}
  end.
Definition ex_verify_arguments : list string :=
  ["--id"; so_message_id ex_sign_output; "--timestamp"; FormatInt (so_timestamp ex_sign_output);
   "--signature"; h_get (so_headers ex_sign_output) HeaderSignature; "--body"; "p.json"].

Definition ex_verified : Z * list output * list output :=
  main (λ _ _ _, false) ex_json_type ex_quote ex_read_int ex_read_int "hookbound dev"
    (ex_machine (Unix 1700000100)) ("verify" :: ex_verify_arguments).

(** A changed payload, a missing secret and an unknown command are refused with status 1
    and nothing on the standard output. *)
Definition ex_status (m : machine) (arguments : list string) : Z * list output :=
  (main (λ _ _ _, false) ex_json_type ex_quote ex_read_int ex_read_int "hookbound dev" m arguments).1.

Example ex_refused :
  ex_status (ex_machine (Unix 1700000100)) ("verify" :: take 7 ex_verify_arguments ++ ["-"]) = (1, []) ∧
  ex_status (ex_machine (Unix 1700000100)) ("sign" :: "--secret-env" :: "OTHER" :: ex_sign_arguments) = (1, []) ∧
  ex_status (ex_machine (Unix 1700000900)) ("verify" :: ex_verify_arguments) = (1, []) ∧
  ex_status (ex_machine 0) ["sing"] = (1, []).
Proof. split_and!; vm_compute; reflexivity. Qed.

Lemma signed_by_cli_verifies_witness :
  ex_verified =
    (0, [Verified {| vo_message_id := so_message_id ex_sign_output; vo_event_type := "order.paid";
                     vo_source := "standard-webhooks"; vo_timestamp := so_timestamp ex_sign_output |}], []).
Proof.
  assert (ex_signed = Ok ex_sign_output) as Hs by (vm_compute; reflexivity).
  assert (∃ f, Parse (sign_set ex_quote ex_read_int) ex_sign_arguments sign_defaults = Ok f ∧
    sf_secretEnv f = "HOOKBOUND_SECRET" ∧ sf_body f = "p.json") as (f & Hf & F1 & F2)
    by (eexists; split_and!; vm_compute; reflexivity).
  assert (∃ g, Parse (verify_set ex_quote ex_read_int) ex_verify_arguments verify_defaults = Ok g ∧
    vf_secretEnv g = "HOOKBOUND_SECRET" ∧ vf_body g = "p.json" ∧ vf_id g = so_message_id ex_sign_output ∧
    vf_timestamp g = FormatInt (so_timestamp ex_sign_output) ∧
    vf_signature g = h_get (so_headers ex_sign_output) HeaderSignature ∧
    vf_tolerance g = 5 * Minute ∧ vf_type g = ε)
    as (g & Hg & G1 & G2 & G3 & G4 & G5 & G6 & G7)
    by (eexists; split; [vm_compute; reflexivity|split_and!; vm_compute; reflexivity]).
  assert (so_timestamp ex_sign_output = 1700000000) as Hts by (vm_compute; reflexivity).
  apply (signed_by_cli_verifies (λ _ _ _, false) ex_json_type ex_quote ex_read_int ex_read_int
    "hookbound dev" (ex_machine (Unix 1600000000)) (ex_machine (Unix 1700000100))
    ex_sign_arguments ex_verify_arguments f g ex_sign_output "order.paid" Hs Hf Hg); try assumption.
  - rewrite F1, G1. vm_compute. reflexivity.
  - rewrite F2, G2. vm_compute. reflexivity.
  - rewrite G6. split; [vm_compute; discriminate|vm_compute; reflexivity].
  - vm_compute. discriminate.
  - rewrite G6, Hts. vm_compute. discriminate.
  - intros body _. rewrite G7. reflexivity.
  - reflexivity.
Defined.
