(* ===== verification/Testkit.v ===== *)
(** src/testkit: the scripted endpoint, the assertions and the deterministic clock
    and identifiers.

    The endpoint's mutex makes the part of a request between its lock and unlock one
    step; the cloning of what is kept and handed out is the identity on the model's
    values.  [testing.TB.Fatalf] ends a test: an assertion returns its text. *)

From S2P Require Import Prelude GoString GoTime Errors Headers Receiver.

(** * endpoint.go *)

Record Response := { rp_Status : Z; rp_Headers : Header; rp_Body : string; rp_Delay : duration }.

Definition Reply (status : Z) : Response :=
  {| rp_Status := status; rp_Headers := ∅; rp_Body := ε; rp_Delay := 0 |}.
Definition ReplyBody (status : Z) (body : string) : Response :=
  {| rp_Status := status; rp_Headers := ∅; rp_Body := body; rp_Delay := 0 |}.
Definition ReplyWithHeaders (status : Z) (headers : Header) : Response :=
  {| rp_Status := status; rp_Headers := headers; rp_Body := ε; rp_Delay := 0 |}.

Record CapturedRequest := {
  cq_Method : string; cq_URL : string; cq_Host : string; cq_Header : Header; cq_Body : string;
  cq_ReceivedAt : time
}.

(** [Endpoint], without its server. *)
Record Endpoint := { ep_responses : list Response; ep_requests : list CapturedRequest; ep_next : nat }.

(** [NewEndpoint] *)
Definition NewEndpoint (responses : list Response) : Endpoint :=
  {| ep_responses := responses; ep_requests := []; ep_next := 0 |}.

Definition Requests (e : Endpoint) : list CapturedRequest := ep_requests e.

(** [Request] *)
Definition Request (e : Endpoint) (index : Z) : option CapturedRequest :=
  if (index <? 0) || (Z.of_nat (length (ep_requests e)) <=? index) then None
  else ep_requests e !! Z.to_nat index.

(** [LastRequest] *)
Definition LastRequest (e : Endpoint) : option CapturedRequest :=
  if (length (ep_requests e) =? 0)%nat then None
  else ep_requests e !! (length (ep_requests e) - 1)%nat.

(** The locked part of [serveHTTP]: the request is recorded and its response chosen. *)
Definition capture (e : Endpoint) (q : CapturedRequest) : Response * Endpoint :=
  let requests := ep_requests e ++ [q] in
  match ep_responses e with
  | [] => (Reply 204, {| ep_responses := []; ep_requests := requests; ep_next := ep_next e |})
  | _ =>
      let n := length (ep_responses e) in
      let '(index, next) := if (n <=? ep_next e)%nat then ((n - 1)%nat, ep_next e)
                            else (ep_next e, S (ep_next e)) in
      (default (Reply 204) (ep_responses e !! index),
       {| ep_responses := ep_responses e; ep_requests := requests; ep_next := next |})
  end.

(** What the handler does to its response writer; a request cancelled during the
    delay is given nothing. *)
Record written := { wr_Header : Header; wr_Status : Z; wr_Body : option string }.

Definition bodiless (status : Z) : bool :=
  ((100 <=? status) && (status <? 200)) || (status =? 204) || (status =? 304).

Definition write_response `{HeaderOrder} (cancelled : bool) (r : Response) : option written :=
  if (0 <? rp_Delay r) && cancelled then None else
  let header := foldl (λ h entry, foldl (λ h v, h_add h entry.1 v) h entry.2) ∅ (range_header (rp_Headers r)) in
  let status := if rp_Status r =? 0 then 204 else rp_Status r in
  Some {| wr_Header := header; wr_Status := status;
          wr_Body := if bodiless status then None else Some (rp_Body r) |}.

(** [serveHTTP] *)
Definition serveHTTP `{HeaderOrder} (e : Endpoint) (cancelled : bool) (q : CapturedRequest)
    : option written * Endpoint :=
  let '(response, e') := capture e q in (write_response cancelled response, e').

(** The server behind an endpoint: its address, its client, and whether it is closed;
    [None] is a nil endpoint, or one without a server. *)
Record TestServer (C : Type) := { ts_URL : string; ts_Client : C; ts_closed : bool }.
Arguments ts_URL {C}.
Arguments ts_Client {C}.
Arguments ts_closed {C}.

Definition Endpoint_URL {C} (e : option (option (TestServer C))) : string :=
  match e with Some (Some s) => ts_URL s | _ => ε end.

Definition Endpoint_Client {C} (e : option (option (TestServer C))) : option C :=
  match e with Some (Some s) => Some (ts_Client s) | _ => None end.

Definition Endpoint_Close {C} (e : option (option (TestServer C))) : option (option (TestServer C)) :=
  match e with
  | Some (Some s) => Some (Some {| ts_URL := ts_URL s; ts_Client := ts_Client s; ts_closed := true |})
  | _ => e
  end.

(** * assertions.go *)

Definition RequireAttempts (e : Endpoint) (expected : Z) : result string unit :=
  let actual := Z.of_nat (length (Requests e)) in
  reject (negb (actual =? expected))
    ("expected " +:+ FormatInt expected +:+ " webhook attempts, got " +:+ FormatInt actual).

(** The loop of [RequireStableMessageID]. *)
Fixpoint stable_from (strconv_Quote : string → string) (name expected : string) (index : Z)
    (requests : list CapturedRequest) : result string unit :=
  match requests with
  | [] => Ok tt
  | q :: requests' =>
      let actual := h_get (cq_Header q) name in
      _ ← reject (negb (str_eqb actual expected))
            ("request " +:+ FormatInt (index + 2) +:+ " has message ID " +:+ strconv_Quote actual +:+
             "; expected " +:+ strconv_Quote expected);
      stable_from strconv_Quote name expected (index + 1) requests'
  end.

Definition RequireStableMessageID (strconv_Quote : string → string) (requests : list CapturedRequest)
    (headerName : string) : result string string :=
  match requests with
  | [] => Err "expected at least one captured webhook request"
  | first :: rest =>
      let headerName := if str_eqb headerName ε then "Webhook-Id" else headerName in
      let expected := h_get (cq_Header first) headerName in
      _ ← reject (str_eqb expected ε) ("first request is missing " +:+ headerName);
      _ ← stable_from strconv_Quote headerName expected 0 rest;
      Ok expected
  end.

Definition RequireBody (strconv_Quote : string → string) (q : CapturedRequest) (expected : string)
    : result string unit :=
  reject (negb (str_eqb (cq_Body q) expected))
    ("unexpected webhook body" +:+ String LF ε +:+ "actual:   " +:+ strconv_Quote (cq_Body q) +:+
     String LF ε +:+ "expected: " +:+ strconv_Quote expected).

Definition RequireHeader (strconv_Quote : string → string) (q : CapturedRequest) (name expected : string)
    : result string unit :=
  let actual := h_get (cq_Header q) name in
  reject (negb (str_eqb actual expected))
    ("unexpected " +:+ name +:+ " header: got " +:+ strconv_Quote actual +:+ ", want " +:+ strconv_Quote expected).

Definition RequireVerified {W} (verifier : option (Verifier W)) (q : CapturedRequest) (w : W)
    : result string Verification * W :=
  match verifier with
  | None => (Err "verifier is required", w)
  | Some verifier =>
      let '(res, w') := verifier {| vi_Headers := cq_Header q; vi_Body := cq_Body q;
                                    vi_ReceivedAt := cq_ReceivedAt q |} w in
      (map_err (λ err, "expected captured request to verify: " +:+ error_text err) res, w')
  end.

(** [NewRequest]: [http_NewRequest] is the error of [http.NewRequest] for the method and the
    target, which the function panics with. *)
Definition NewRequest (http_NewRequest : string → string → option error) (method target body : string)
    (headers : Header) : result error Receiver.Request :=
  match http_NewRequest method target with
  | Some e => Err e
  | None => Ok {| rq_Method := if str_eqb method ε then "GET" else method; rq_Header := headers;
                  rq_ContentLength := slen body; rq_Body := Some {| rd_data := body; rd_err := None |} |}
  end.

(** * deterministic.go *)

(** [SequenceIDs] *)
Definition SequenceIDs_NewMessageID (ids : list string) : go string * list string :=
  match ids with
  | [] => (Err (PlainError "testkit: no message IDs remain"), [])
  | id :: ids' => (Ok id, ids')
  end.

Definition NoJitter_Duration (_ : duration) : duration := 0.

(** [FixedClock]: the goroutines that call [Now], [Set] and [Advance] on it.  Each
    lock is one step; [Advance] takes the lock twice. *)
Inductive clock_call : Type :=
| CallNow
| CallSet (t : time)
| CallAdvance (d : duration)
| Returned (t : option time).

Inductive clock_step : time * list clock_call → time * list clock_call → Prop :=
| clock_now now calls i :
    calls !! i = Some CallNow → clock_step (now, calls) (now, <[i := Returned (Some now)]> calls)
| clock_set now calls i t :
    calls !! i = Some (CallSet t) → clock_step (now, calls) (t, <[i := Returned None]> calls)
| clock_advance now calls i d :
    calls !! i = Some (CallAdvance d) → clock_step (now, calls) (now, <[i := CallSet (Add now d)]> calls).

(** * Lemmas *)

(** A captured request that is replayed with [NewRequest] arrives as it was captured. *)
Lemma NewRequest_replays http_NewRequest q r maximum :
  NewRequest http_NewRequest (cq_Method q) (cq_URL q) (cq_Body q) (cq_Header q) = Ok r →
  0 ≤ maximum < int64_max → slen (cq_Body q) ≤ maximum →
  rq_Header r = cq_Header q ∧ readBounded (rq_Body r) maximum = Ok (cq_Body q).
Proof.
  unfold NewRequest. destruct (http_NewRequest _ _); [done|]. intros [= <-] Hmax Hlen.
  split; [done|]. by apply readBounded_small.
Qed.

(** Requests whose locked parts run one after the other. *)
Fixpoint captures (e : Endpoint) (qs : list CapturedRequest) : list Response * Endpoint :=
  match qs with
  | [] => ([], e)
  | q :: qs' => let '(r, e1) := capture e q in let '(rs, e2) := captures e1 qs' in (r :: rs, e2)
  end.

(** The reply to the request after [n] others: the script, then its last reply; 204
    without a script. *)
Definition scripted (responses : list Response) (n : nat) : Response :=
  default (Reply 204) (responses !! min n (length responses - 1)).

Lemma captures_from responses pre qs :
  captures {| ep_responses := responses; ep_requests := pre;
              ep_next := min (length pre) (length responses) |} qs =
    (map (scripted responses) (seq (length pre) (length qs)),
     {| ep_responses := responses; ep_requests := pre ++ qs;
        ep_next := min (length (pre ++ qs)) (length responses) |}).
Proof.
  revert pre. induction qs as [|q qs IH]; intros pre; cbn [captures]; [by rewrite app_nil_r|].
  assert (capture {| ep_responses := responses; ep_requests := pre;
                     ep_next := min (length pre) (length responses) |} q =
    (scripted responses (length pre),
     {| ep_responses := responses; ep_requests := pre ++ [q];
        ep_next := min (length (pre ++ [q])) (length responses) |})) as ->.
  { unfold capture, scripted. cbn [ep_responses ep_requests ep_next]. rewrite length_app. cbn [length].
    destruct responses as [|r rs]; [cbn [length]; rewrite !Nat.min_0_r; reflexivity|]. cbn [length].
    destruct (Nat.leb_spec (S (length rs)) (min (length pre) (S (length rs)))).
    - do 2 f_equal; [f_equal; lia|lia].
    - do 2 f_equal; [f_equal; lia|lia]. }
  rewrite IH, length_app, <-app_assoc. cbn [length seq map app]. by rewrite Nat.add_1_r.
Qed.

(** The scripted endpoint: [n] requests, in whatever order they get the lock, are
    all recorded in that order, and the [k]-th of them is given the [k]-th scripted
    reply, or the last one when the script is exhausted. *)
Lemma endpoint_replays_script responses qs :
  let '(rs, e) := captures (NewEndpoint responses) qs in
  rs = map (scripted responses) (seq 0 (length qs)) ∧ Requests e = qs.
Proof.
  pose proof (captures_from responses [] qs) as H. unfold NewEndpoint. simpl in H. by rewrite H.
Qed.

Lemma Request_lookup e index q : Request e index = Some q ↔ 0 ≤ index ∧ Requests e !! Z.to_nat index = Some q.
Proof.
  unfold Request, Requests. destruct (Z.ltb_spec index 0); simpl; [split; [done|lia]|].
  destruct (Z.leb_spec (Z.of_nat (length (ep_requests e))) index); [|by split; [intros ->|intros [_ ?]]].
  split; [done|]. intros [_ Hl]. apply lookup_lt_Some in Hl. lia.
Qed.

Lemma LastRequest_last e : LastRequest e = last (Requests e).
Proof.
  unfold LastRequest, Requests. rewrite last_lookup.
  destruct (ep_requests e) as [|q qs]; [done|]. simpl. by rewrite Nat.sub_0_r.
Qed.

(** The assertion holds exactly when every request carries the identifier. *)
Lemma RequireStableMessageID_Ok quote requests name id :
  RequireStableMessageID quote requests name = Ok id ↔
  requests ≠ [] ∧ id ≠ ε ∧
  Forall (λ q, h_get (cq_Header q) (if str_eqb name ε then "Webhook-Id" else name) = id) requests.
Proof.
  assert (∀ n i l, stable_from quote n id i l = Ok tt ↔ Forall (λ q, h_get (cq_Header q) n = id) l) as Hst.
  { intros n i l. revert i. induction l as [|q l IH]; intros i; simpl; [by split; [constructor|]|].
    rewrite Forall_cons, <-(IH (i + 1)). destruct (str_eqb (h_get (cq_Header q) n) id) eqn:E; simpl.
    - apply str_eqb_true in E. by split; [|intros [_ ?]].
    - apply str_eqb_false in E. by split; [|intros [? _]]. }
  destruct requests as [|q l]; [by split; [|intros [? _]]|]. unfold RequireStableMessageID.
  set (n := if str_eqb name ε then "Webhook-Id" else name).
  rewrite Forall_cons. destruct (str_eqb (h_get (cq_Header q) n) ε) eqn:E; simpl.
  - apply str_eqb_true in E. split; [done|]. intros (_ & Hne & <- & _). done.
  - apply str_eqb_false in E. rewrite bind_Ok. split.
    + intros ([] & Hs & [= <-]). split_and!; try done. by apply Hst in Hs.
    + intros (_ & Hne & <- & Hf). exists tt. split; [by apply Hst|done].
Qed.

(** [Advance] is not one step: of two concurrent calls one can be lost. *)
Lemma concurrent_advances_can_be_lost t d1 d2 :
  rtc clock_step (t, [CallAdvance d1; CallAdvance d2]) (Add t d1, [Returned None; Returned None]).
Proof.
  eapply rtc_l; [by apply (clock_advance t _ 0 d1)|]. eapply rtc_l; [by apply (clock_advance t _ 1 d2)|].
  eapply rtc_l; [by apply (clock_set t _ 1 (Add t d2))|].
  eapply rtc_l; [by apply (clock_set (Add t d2) _ 0 (Add t d1))|]. apply rtc_refl.
Qed.
