(* ===== verification/Heap.v ===== *)
(** Slices and maps as Go shares them: a store of objects, references into it, and the
    code that holds some of them.

    The other files take a slice or a map for its contents.  Here they are references:
    [bytes.Clone] and [Header.Clone] make new objects, and whoever holds a reference can
    change what it refers to.  A value has a view, its contents in a store, and a
    footprint, the objects the view depends on. *)

From S2P Require Import Prelude Headers.

(** * The store *)

(** A reference to an object; [None] is nil. *)
Definition loc : Type := nat.
Abbreviation ref := (option loc).

(** The backing array of a [\[\]byte], a [\[\]\[\]byte] or a [\[\]string]; a header map and a
    map of strings. *)
Inductive object : Type :=
| Bytes (contents : string)
| Slices (elements : list ref)
| Strings (elements : list string)
| HeaderMap (values : gmap string ref)
| StringMap (values : gmap string string).

Definition ref_locs (r : ref) : gset loc := match r with Some l => {[l]} | None => ∅ end.

(** The references an object holds. *)
Definition object_locs (o : object) : gset loc :=
  match o with
  | Slices rs => ⋃ (map ref_locs rs)
  | HeaderMap m => ⋃ (map (ref_locs ∘ snd) (map_to_list m))
  | _ => ∅
  end.

(** The objects, and the number of the next one. *)
Record heap := { h_objects : gmap loc object; h_next : loc }.

Definition heap_ok (h : heap) : Prop := ∀ l o, h_objects h !! l = Some o → (l < h_next h)%nat.

Definition empty_heap : heap := {| h_objects := ∅; h_next := 0%nat |}.

Definition alloc (o : object) (h : heap) : ref * heap :=
  (Some (h_next h), {| h_objects := <[h_next h := o]> (h_objects h); h_next := S (h_next h) |}).

Definition store (l : loc) (o : object) (h : heap) : heap :=
  {| h_objects := <[l := o]> (h_objects h); h_next := h_next h |}.

Definition lookup_ref (h : heap) (r : ref) : option object := r ≫= λ l, h_objects h !! l.

(** [h'] is [h] with more objects. *)
Definition extends (h h' : heap) : Prop := h_objects h ⊆ h_objects h' ∧ (h_next h ≤ h_next h')%nat.

#[export] Instance extends_preorder : PreOrder extends.
Proof.
  split; [by intros h|]. intros h1 h2 h3 [H1 N1] [H2 N2]. split; [by etrans|lia].
Qed.

Lemma alloc_ok o h : heap_ok h → heap_ok (alloc o h).2.
Proof. unfold heap_ok. simpl. intros Hok l o' [[<- _]|[_ Hl]]%lookup_insert_Some; [lia|]. apply Hok in Hl. lia. Qed.

Lemma alloc_fresh h : heap_ok h → h_objects h !! h_next h = None.
Proof. intros Hok. destruct (h_objects h !! h_next h) eqn:E; [|done]. apply Hok in E. lia. Qed.

Lemma alloc_extends o h : heap_ok h → extends h (alloc o h).2.
Proof. intros Hok. split; simpl; [by apply insert_subseteq, alloc_fresh|lia]. Qed.

(** * Values in a store *)

(** A type whose values have a view and a footprint; the view depends on nothing else. *)
Class Shared (A V : Type) := {
  view : heap → A → V;
  foot : heap → A → gset loc;
  view_local h h' a : (∀ l, l ∈ foot h a → h_objects h' !! l = h_objects h !! l) →
    view h' a = view h a ∧ foot h' a = foot h a
}.
#[global] Hint Mode Shared ! - : typeclass_instances.

(** The footprint lies inside the store. *)
Definition within `{Shared A V} (h : heap) (a : A) : Prop :=
  ∀ l, l ∈ foot h a → is_Some (h_objects h !! l).

Lemma view_extends `{Shared A V} h h' (a : A) :
  extends h h' → within h a → view h' a = view h a ∧ foot h' a = foot h a ∧ within h' a.
Proof.
  intros [Hsub _] Hin.
  assert (∀ l, l ∈ foot h a → h_objects h' !! l = h_objects h !! l) as Heq.
  { intros l Hl. destruct (Hin l Hl) as [o Ho]. rewrite Ho. by eapply lookup_weaken. }
  destruct (view_local h h' a Heq) as [Hv Hf]. split_and!; [done..|].
  intros l Hl. rewrite Hf in Hl. rewrite Heq by done. by apply Hin.
Qed.

(** A copy: the same view, made of new objects; the store only grows. *)
Definition copied `{Shared A V} (h : heap) (a : A) (x : A * heap) : Prop :=
  heap_ok x.2 ∧ extends h x.2 ∧ within x.2 x.1 ∧ (∀ l, l ∈ foot x.2 x.1 → (h_next h ≤ l)%nat) ∧
  view x.2 x.1 = view h a.

Class Clone (A : Type) {V : Type} `{Shared A V} := {
  clone : A → heap → A * heap;
  clone_copies h (a : A) : heap_ok h → within h a → copied h a (clone a h)
}.

(** ** Pairs and lists *)

#[export] Program Instance pair_shared `{Shared A V, Shared B W} : Shared (A * B) (V * W) :=
  {| view h x := (view h x.1, view h x.2); foot h x := foot h x.1 ∪ foot h x.2 |}.
Next Obligation.
  intros A V ? B W ? h h' [a b] Heq. simpl in *.
  destruct (view_local h h' a) as [-> ->]; [set_solver|]. destruct (view_local h h' b) as [-> ->]; [set_solver|done].
Qed.

#[export] Program Instance list_shared `{Shared A V} : Shared (list A) (list V) :=
  {| view h l := map (view h) l; foot h l := ⋃ (map (foot h) l) |}.
Next Obligation.
  intros A V ? h h' l Heq. induction l as [|a l IH]; simpl in *; [done|].
  destruct (view_local h h' a) as [-> ->]; [set_solver|]. destruct IH as [-> ->]; [set_solver|done].
Qed.

Lemma view_app `{Shared A V} h (l l' : list A) : view h (l ++ l') = view h l ++ view h l'.
Proof. apply map_app. Qed.

Section clones.
Context `{Shared A V} `{Shared B W}.

(** One copy after another. *)
Lemma copied_then h (a : A) (b : B) (x : A * heap) (y : B * heap) :
  heap_ok h → within h a → within h b → copied h a x → copied x.2 b y →
  copied h (a, b) ((x.1, y.1), y.2).
Proof.
  intros Hok Ha Hb (O1 & E1 & W1 & F1 & V1) (O2 & E2 & W2 & F2 & V2).
  destruct (view_extends x.2 y.2 x.1 E2 W1) as (V3 & F3 & W3). destruct (view_extends h x.2 b E1 Hb) as (V4 & _ & _).
  unfold copied, within. simpl. split_and!; [done|by etrans| | |by rewrite V3, V1, V2, V4].
  - intros l [Hl|Hl]%elem_of_union; [by apply W3|by apply W2].
  - intros l [Hl|Hl]%elem_of_union; [rewrite F3 in Hl; by apply F1|]. apply F2 in Hl. destruct E1. lia.
Qed.
End clones.

Lemma within_pair `{Shared A V} `{Shared B W} h (a : A) (b : B) : within h (a, b) ↔ within h a ∧ within h b.
Proof. unfold within. simpl. set_solver. Qed.

#[export] Program Instance pair_clone `{Clone A, Clone B} : Clone (A * B) :=
  {| clone x h := let '(a, h1) := clone x.1 h in let '(b, h2) := clone x.2 h1 in ((a, b), h2) |}.
Next Obligation.
  intros A V ? HA B W ? HB h [a b] Hok [Ha Hb]%within_pair. simpl.
  pose proof (clone_copies h a Hok Ha) as C1. destruct (clone a h) as [a' h1]. pose proof C1 as (O1 & E1 & _).
  simpl in *. destruct (view_extends h h1 b E1 Hb) as (_ & _ & Hb1).
  pose proof (clone_copies h1 b O1 Hb1) as C2. destruct (clone b h1) as [b' h2].
  exact (copied_then h a b (a', h1) (b', h2) Hok Ha Hb C1 C2).
Qed.

Fixpoint clone_list `{Clone A} (l : list A) (h : heap) : list A * heap :=
  match l with
  | [] => ([], h)
  | a :: l' => let '(a', h1) := clone a h in let '(l'', h2) := clone_list l' h1 in (a' :: l'', h2)
  end.

Lemma clone_list_copies `{Clone A} h (l : list A) : heap_ok h → within h l → copied h l (clone_list l h).
Proof.
  revert h. induction l as [|a l IH]; intros h Hok Hin; cbn [clone_list].
  { unfold copied, within. simpl. split_and!; [done|done|set_solver|set_solver|done]. }
  assert (within h a ∧ within h l) as [Ha Hl] by (unfold within in *; simpl in *; set_solver).
  pose proof (clone_copies h a Hok Ha) as C1. destruct (clone a h) as [a' h1]. pose proof C1 as (O1 & E1 & _).
  simpl in *. destruct (view_extends h h1 l E1 Hl) as (_ & _ & Hl1).
  pose proof (IH h1 O1 Hl1) as C2. destruct (clone_list l h1) as [l' h2].
  destruct (copied_then h a l (a', h1) (l', h2) Hok Ha Hl C1 C2) as (? & ? & ? & ? & [= Hv1 Hv2]).
  split_and!; [done..|]. simpl. congruence.
Qed.

#[export] Instance list_clone `{Clone A} : Clone (list A) := {| clone := clone_list; clone_copies := clone_list_copies |}.

(** ** What is not shared *)

(** A record whose shared parts are [parts]; [whole] puts the view together. *)
Program Definition shared_parts {A B V W} `{Shared B W} (parts : A → B) (whole : A → W → V) : Shared A V :=
  {| view h a := whole a (view h (parts a)); foot h a := foot h (parts a) |}.
Next Obligation. intros A B V W ? parts whole h h' a Heq. simpl in *. by destruct (view_local h h' (parts a) Heq) as [-> ->]. Qed.

(** A record is copied by copying its shared parts. *)
Lemma parts_copied {A B V W} `{Clone B (V := W)} (parts : A → B) (whole : A → W → V) (with_parts : A → B → A) h a :
  (∀ b, parts (with_parts a b) = b) → (∀ b w, whole (with_parts a b) w = whole a w) →
  heap_ok h → @within A V (shared_parts parts whole) h a →
  @copied A V (shared_parts parts whole) h a (let '(b, h') := clone (parts a) h in (with_parts a b, h')).
Proof.
  intros Hp Hw Hok Hin. pose proof (clone_copies h (parts a) Hok Hin) as Hc.
  destruct (clone (parts a) h) as [b h']. destruct Hc as (O1 & E1 & W1 & F1 & V1). cbn [fst snd] in *.
  unfold copied, within. cbn [foot view shared_parts fst snd]. rewrite Hp, Hw, V1. by split_and!.
Qed.

(** ** Leaves and spines *)

Lemma foot_present h r l o : lookup_ref h r = Some o → l ∈ ref_locs r → is_Some (h_objects h !! l).
Proof. destruct r as [l'|]; [|done]. simpl. intros Ho ->%elem_of_singleton. by exists o. Qed.

Lemma lookup_ref_local h h' r X :
  (∀ l, l ∈ ref_locs r ∪ X → h_objects h' !! l = h_objects h !! l) → lookup_ref h' r = lookup_ref h r.
Proof. destruct r as [l|]; [|done]. simpl. intros Heq. apply Heq. set_solver. Qed.

(** A reference to one object, read by [read]; nil reads as [nil]. *)
Program Definition leaf_shared {A V} (get : A → ref) (read : object → option V) (nil : V) : Shared A V :=
  {| view h a := default nil (lookup_ref h (get a) ≫= read); foot h a := ref_locs (get a) |}.
Next Obligation.
  intros A V get read nil h h' a Heq. simpl in *.
  rewrite (lookup_ref_local h h' (get a) ∅); [done|]. intros l Hl. apply Heq. set_solver.
Qed.

(** A reference to an object that holds elements. *)
Program Definition spine_shared {A E W V} `{Shared E W} (get : A → ref) (elements : object → option (list E))
    (whole : list W → V) : Shared A V :=
  {| view h a := whole (view h (default [] (lookup_ref h (get a) ≫= elements)));
     foot h a := ref_locs (get a) ∪ foot h (default [] (lookup_ref h (get a) ≫= elements)) |}.
Next Obligation.
  intros A E W V ? get elements whole h h' a Heq. cbn beta in *.
  rewrite (lookup_ref_local _ _ _ _ Heq).
  destruct (view_local h h' (default [] (lookup_ref h (get a) ≫= elements))) as [-> ->]; [|done].
  intros l Hl. apply Heq. set_solver.
Qed.

(** The state after [alloc]. *)
Lemma alloc_copied_leaf {A V} (get : A → ref) (mk : ref → A) (read : object → option V) nil h a o :
  (∀ r, get (mk r) = r) → heap_ok h →
  default nil (read o) = default nil (lookup_ref h (get a) ≫= read) →
  @copied A V (leaf_shared get read nil) h a (mk (alloc o h).1, (alloc o h).2).
Proof.
  intros Hget Hok Ho. split_and!; [by apply alloc_ok|by apply alloc_extends|..].
  - intros l. simpl. rewrite Hget. simpl. intros ->%elem_of_singleton. rewrite lookup_insert_eq. by eexists.
  - intros l. simpl. rewrite Hget. simpl. intros ->%elem_of_singleton. done.
  - simpl. rewrite Hget. simpl. by rewrite lookup_insert_eq.
Qed.

Lemma nil_copied_leaf {A V} (get : A → ref) (mk : ref → A) (read : object → option V) nil h a :
  (∀ r, get (mk r) = r) → heap_ok h → default nil (lookup_ref h (get a) ≫= read) = nil →
  @copied A V (leaf_shared get read nil) h a (mk None, h).
Proof.
  intros Hget Hok Ho. split_and!; [done|done| | |]; unfold within; simpl; rewrite Hget; simpl; [set_solver..|done].
Qed.

Lemma foot_list `{Shared A V} h (l : list A) x : x ∈ foot h l ↔ ∃ a, a ∈ l ∧ x ∈ foot h a.
Proof.
  simpl. rewrite elem_of_union_list. split.
  - intros (X & (a & -> & Ha)%list_elem_of_fmap & Hx). eauto.
  - intros (a & Ha & Hx). exists (foot h a). split; [|done]. apply list_elem_of_fmap. eauto.
Qed.

(** A new spine around copied elements, in any order. *)
Lemma alloc_copied_spine {A E W V} `{Shared E W} (get : A → ref) (mk : ref → A)
    (elements : object → option (list E)) (whole : list W → V) h a es (es' : list E) h1 o es2 :
  (∀ r, get (mk r) = r) → default [] (lookup_ref h (get a) ≫= elements) = es →
  copied h es (es', h1) → elements o = Some es2 →
  es2 ≡ₚ es' → whole (view h1 es2) = whole (view h1 es') →
  @copied A V (spine_shared get elements whole) h a (mk (alloc o h1).1, (alloc o h1).2).
Proof.
  intros Hget Hes (O1 & E1 & W1 & F1 & V1) Ho Hperm Hwhole. cbn [fst snd] in *.
  assert (∀ x, x ∈ foot h1 es2 ↔ x ∈ foot h1 es') as Hfoot
    by (intros x; rewrite !foot_list; by setoid_rewrite Hperm).
  assert (within h1 es2) as W2 by (intros l Hl; by apply W1, Hfoot).
  destruct (view_extends h1 (alloc o h1).2 es2 (alloc_extends o h1 O1) W2) as (V3 & F3 & W3).
  assert (lookup_ref (alloc o h1).2 (Some (h_next h1)) = Some o) as Hl by apply lookup_insert_eq.
  unfold copied, within. cbn [foot view spine_shared fst snd]. rewrite Hget. cbn [fst alloc].
  change ({| h_objects := _; h_next := _ |}) with (alloc o h1).2. rewrite Hl. cbn [mbind option_bind].
  rewrite Ho. cbn [default from_option ref_locs]. unfold id. rewrite V3, F3.
  split_and!; [by apply alloc_ok|etrans; [done|by apply alloc_extends]|..].
  - intros l [->%elem_of_singleton|Hx]%elem_of_union; [by exists o|]. apply W3. by rewrite F3.
  - intros l [->%elem_of_singleton|Hx]%elem_of_union; [by destruct E1|]. by apply F1, Hfoot.
  - rewrite Hwhole, V1. by rewrite <-Hes.
Qed.

Lemma nil_copied_spine {A E W V} `{Shared E W} (get : A → ref) (mk : ref → A)
    (elements : object → option (list E)) (whole : list W → V) h a :
  (∀ r, get (mk r) = r) → heap_ok h → lookup_ref h (get a) ≫= elements = None →
  @copied A V (spine_shared get elements whole) h a (mk None, h).
Proof.
  intros Hget Hok Hn. unfold copied, within. cbn [foot view spine_shared fst snd]. rewrite Hget, Hn.
  split_and!; [done|done|set_solver|set_solver|done].
Qed.

(** * The slices and maps of the program *)

(** Immutable values. *)
#[export] Program Instance string_shared : Shared string string := {| view _ s := s; foot _ _ := ∅ |}.
Next Obligation. done. Qed.
#[export] Program Instance string_clone : Clone string := {| clone s h := (s, h) |}.
Next Obligation. intros h s Hok _. unfold copied, within. simpl. split_and!; [done|done|set_solver|set_solver|done]. Qed.

(** [\[\]byte], [\[\]string], [\[\]\[\]byte], [http.Header], [map\[string\]string]. *)
Record bytes_ref := BytesRef { br : ref }.
Record strings_ref := StringsRef { sr : ref }.
Record slices_ref := SlicesRef { slr : ref }.
Record header_ref := HeaderRef { hr : ref }.
Record map_ref := MapRef { mr : ref }.

Definition as_bytes (o : object) : option string := match o with Bytes s => Some s | _ => None end.
Definition as_strings (o : object) : option (list string) := match o with Strings l => Some l | _ => None end.
Definition as_slices (o : object) : option (list bytes_ref) :=
  match o with Slices rs => Some (map BytesRef rs) | _ => None end.
Definition as_header (o : object) : option (list (string * strings_ref)) :=
  match o with HeaderMap m => Some (map (λ e, (e.1, StringsRef e.2)) (map_to_list m)) | _ => None end.
Definition as_map (o : object) : option (gmap string string) := match o with StringMap m => Some m | _ => None end.

#[export] Instance bytes_shared : Shared bytes_ref string := leaf_shared br as_bytes EmptyString.
#[export] Instance strings_shared : Shared strings_ref (list string) := leaf_shared sr as_strings [].
#[export] Instance map_shared : Shared map_ref (gmap string string) := leaf_shared mr as_map ∅.
#[export] Instance slices_shared : Shared slices_ref (list string) := spine_shared slr as_slices (λ l, l).
#[export] Instance header_shared : Shared header_ref Header := spine_shared hr as_header list_to_map.

(** [bytes.Clone] *)
Definition bytes_Clone (b : bytes_ref) (h : heap) : bytes_ref * heap :=
  match lookup_ref h (br b) ≫= as_bytes with
  | Some s => let '(r, h') := alloc (Bytes s) h in (BytesRef r, h')
  | None => (BytesRef None, h)
  end.

(** [append(\[\]byte(nil), b...)]: nil when there is nothing to append. *)
Definition append_nil (b : bytes_ref) (h : heap) : bytes_ref * heap :=
  match lookup_ref h (br b) ≫= as_bytes with
  | Some s => if bool_decide (s = EmptyString) then (BytesRef None, h) else let '(r, h') := alloc (Bytes s) h in (BytesRef r, h')
  | None => (BytesRef None, h)
  end.

Lemma bytes_Clone_copied h b : heap_ok h → copied h b (bytes_Clone b h).
Proof.
  intros Hok. unfold bytes_Clone. destruct (lookup_ref h (br b) ≫= as_bytes) as [s|] eqn:E.
  - apply (alloc_copied_leaf br BytesRef); [done|done|]. by rewrite E.
  - apply (nil_copied_leaf br BytesRef); [done|done|]. by rewrite E.
Qed.

Lemma append_nil_copied h b : heap_ok h → copied h b (append_nil b h).
Proof.
  intros Hok. unfold append_nil. destruct (lookup_ref h (br b) ≫= as_bytes) as [s|] eqn:E.
  - case_bool_decide as Hs.
    + apply (nil_copied_leaf br BytesRef); [done|done|]. by rewrite E, Hs.
    + apply (alloc_copied_leaf br BytesRef); [done|done|]. by rewrite E.
  - apply (nil_copied_leaf br BytesRef); [done|done|]. by rewrite E.
Qed.

#[export] Instance bytes_clone : Clone bytes_ref :=
  {| clone := bytes_Clone; clone_copies h b Hok _ := bytes_Clone_copied h b Hok |}.

(** [http.Header.Clone]: new value slices for all names, nil ones kept, in a new map. *)
Definition values_Clone (v : strings_ref) (h : heap) : strings_ref * heap :=
  match lookup_ref h (sr v) ≫= as_strings with
  | Some l => let '(r, h') := alloc (Strings l) h in (StringsRef r, h')
  | None => (StringsRef None, h)
  end.

#[export] Program Instance strings_clone : Clone strings_ref := {| clone := values_Clone |}.
Next Obligation.
  intros h v Hok _. unfold values_Clone. destruct (lookup_ref h (sr v) ≫= as_strings) as [s|] eqn:E.
  - apply (alloc_copied_leaf sr StringsRef); [done|done|]. by rewrite E.
  - apply (nil_copied_leaf sr StringsRef); [done|done|]. by rewrite E.
Qed.

Definition header_object (entries : list (string * strings_ref)) : object :=
  HeaderMap (list_to_map (map (λ e, (e.1, sr e.2)) entries)).

Definition Header_Clone (x : header_ref) (h : heap) : header_ref * heap :=
  match lookup_ref h (hr x) ≫= as_header with
  | Some entries =>
      let '(entries', h1) := clone entries h in
      let '(r, h2) := alloc (header_object entries') h1 in (HeaderRef r, h2)
  | None => (HeaderRef None, h)
  end.

Lemma as_header_object entries :
  NoDup (map fst entries) →
  ∃ es, as_header (header_object entries) = Some es ∧ es ≡ₚ entries.
Proof.
  intros Hnd. eexists. split; [reflexivity|]. rewrite map_to_list_to_map.
  - rewrite map_map. simpl. rewrite <-(map_id entries) at 2.  erewrite map_ext; [done|]. by intros [n []].
  - by rewrite map_map.
Qed.

Lemma clone_names h (entries entries' : list (string * strings_ref)) h1 :
  view h1 entries' = view h entries → map fst entries' = map fst entries.
Proof.
  simpl. revert entries'. induction entries as [|e es IH]; intros [|e' es'] H; try done; simpl in *.
  injection H as H1 _ H2. f_equal; [done|]. by apply IH.
Qed.

Lemma Header_Clone_copied h x : heap_ok h → within h x → copied h x (Header_Clone x h).
Proof.
  intros Hok Hin. unfold Header_Clone. destruct (lookup_ref h (hr x) ≫= as_header) as [es|] eqn:E.
  2: by apply (nil_copied_spine hr HeaderRef).
  assert (within h es) as Hes.
  { unfold within in *. cbn [foot header_shared spine_shared] in Hin. rewrite E in Hin. set_solver. }
  pose proof (clone_copies h es Hok Hes) as Hc. destruct (clone es h) as [es' h1].
  assert (NoDup (map fst es)) as Hnd.
  { destruct (lookup_ref h (hr x)) as [[]|]; try discriminate E. injection E as <-. rewrite map_map. apply NoDup_fst_map_to_list. }
  pose proof Hc as (_ & _ & _ & _ & V1). cbn [fst snd] in V1.
  rewrite <-(clone_names _ _ _ _ V1) in Hnd. destruct (as_header_object es' Hnd) as (es2 & H2 & Hperm).
  eapply (alloc_copied_spine hr HeaderRef as_header list_to_map h x es es' h1 (header_object es') es2);
    [done|by rewrite E|done|done|done|].
  simpl. apply list_to_map_proper; [|by rewrite Hperm].
  rewrite map_map. simpl. by rewrite Hperm.
Qed.

#[export] Instance header_clone : Clone header_ref := {| clone := Header_Clone; clone_copies := Header_Clone_copied |}.

(** * Code that holds references *)

(** What holders of the objects [owned] can do: make objects, and change those they own,
    with references to what they own. *)
Inductive client_step : heap * gset loc → heap * gset loc → Prop :=
| client_alloc h owned o :
    object_locs o ⊆ owned → client_step (h, owned) ((alloc o h).2, {[h_next h]} ∪ owned)
| client_store h owned l o :
    l ∈ owned → object_locs o ⊆ owned → client_step (h, owned) (store l o h, owned).

(** A value that the holders of [owned] cannot reach. *)
Record private `{Shared A V} (h : heap) (owned : gset loc) (a : A) : Prop := {
  pv_heap : heap_ok h;
  pv_within : within h a;
  pv_owned l : l ∈ owned → is_Some (h_objects h !! l);
  pv_apart : foot h a ## owned
}.

Lemma present_old h l : heap_ok h → is_Some (h_objects h !! l) → (l < h_next h)%nat.
Proof. intros Hok [o Ho]. by eapply Hok. Qed.

(** It is kept by what they do. *)
Lemma client_step_private `{Shared A V} h owned h' owned' (a : A) :
  private h owned a → client_step (h, owned) (h', owned') → private h' owned' a ∧ view h' a = view h a.
Proof.
  intros [Hok Hin Hown Hap] Hstep. remember (h, owned) as x. remember (h', owned') as y.
  destruct Hstep as [h0 owned0 o Ho|h0 owned0 l o Hl Ho]; simplify_eq.
  - destruct (view_extends h _ a (alloc_extends o h Hok) Hin) as (Hv & Hf & Hw). split; [|done].
    constructor; [by apply alloc_ok|done|..].
    + intros l [->%elem_of_singleton|Hl]%elem_of_union; simpl; [rewrite lookup_insert_eq; by eexists|].
      destruct (decide (l = h_next h)) as [->|]; [rewrite lookup_insert_eq; by eexists|].
      rewrite lookup_insert_ne by done. by apply Hown.
    + rewrite Hf. intros l Hl [->%elem_of_singleton|Hl']%elem_of_union; [|by eapply Hap].
      apply Hin, present_old in Hl; [lia|done].
  - assert (∀ l', l' ∈ foot h a → h_objects (store l o h) !! l' = h_objects h !! l') as Heq.
    { intros l' Hl'. simpl. rewrite lookup_insert_ne; [done|]. intros ->. by eapply Hap. }
    destruct (view_local h (store l o h) a Heq) as [Hv Hf]. split; [|done].
    destruct (Hown l Hl) as [o0 Ho0]. constructor.
    + intros l' o'. simpl. intros [[<- _]|[_ Hl']]%lookup_insert_Some; [|by eapply Hok]. by eapply Hok.
    + intros l' Hl'. rewrite Hf in Hl'. rewrite Heq by done. by apply Hin.
    + intros l' Hl'. simpl. destruct (decide (l' = l)) as [->|]; [rewrite lookup_insert_eq; by eexists|].
      rewrite lookup_insert_ne by done. by apply Hown.
    + by rewrite Hf.
Qed.

Lemma client_steps_private `{Shared A V} x y (a : A) :
  rtc client_step x y → private x.1 x.2 a → private y.1 y.2 a ∧ view y.1 a = view x.1 a.
Proof.
  induction 1 as [x|[h1 o1] [h2 o2] z Hs _ IH]; intros Hp; [done|].
  destruct (client_step_private h1 o1 h2 o2 a Hp Hs) as [Hp2 Hv]. destruct (IH Hp2) as [? Hv2].
  split; [done|]. simpl in *. congruence.
Qed.

(** A copy can be handed out: the holders own it, and the original stays out of reach. *)
Lemma hand_out `{Shared A V, Shared B W} h owned (a : A) (b : B) (x : B * heap) :
  private h owned a → copied h b x →
  private x.2 (foot x.2 x.1 ∪ owned) a ∧ view x.2 a = view h a ∧ view x.2 x.1 = view h b.
Proof.
  intros [Hok Hin Hown Hap] (O1 & E1 & W1 & F1 & V1). destruct (view_extends h x.2 a E1 Hin) as (Hv & Hf & Hw).
  split; [|done]. constructor; [done|done|..].
  - intros l [Hl|Hl]%elem_of_union; [by apply W1|]. destruct (Hown l Hl) as [o Ho]. exists o.
    destruct E1. by eapply lookup_weaken.
  - rewrite Hf. intros l Hl [Hl'|Hl']%elem_of_union; [|by eapply Hap].
    apply F1 in Hl'. apply Hin, present_old in Hl; [lia|done].
Qed.

(** A copy can be kept: the holders of the original do not reach it. *)
Lemma take_in `{Shared B W} h owned (b : B) (x : B * heap) :
  heap_ok h → (∀ l, l ∈ owned → is_Some (h_objects h !! l)) → copied h b x → private x.2 owned x.1.
Proof.
  intros Hok Hown (O1 & E1 & W1 & F1 & V1). constructor; [done|done|..].
  - intros l Hl. destruct (Hown l Hl) as [o Ho]. exists o. destruct E1. by eapply lookup_weaken.
  - intros l Hl Hl'. apply F1 in Hl. apply Hown, present_old in Hl'; [lia|done].
Qed.

(** What is private together with more is private with it. *)
Lemma private_pair `{Shared A V, Shared B W} h owned (a : A) (b : B) :
  private h owned a → private h owned b → private h owned (a, b).
Proof.
  intros [] []. constructor; [done|by apply within_pair|done|]. simpl. set_solver.
Qed.

(** Objects made by the code that keeps the value change nothing. *)
Lemma private_extends `{Shared A V} h h' owned (a : A) :
  private h owned a → heap_ok h' → extends h h' → private h' owned a ∧ view h' a = view h a.
Proof.
  intros [Hok Hin Hown Hap] Hok' He. destruct (view_extends h h' a He Hin) as (Hv & Hf & Hw).
  split; [|done]. constructor; [done|done| |by rewrite Hf].
  intros l Hl. destruct (Hown l Hl) as [o Ho]. exists o. destruct He. by eapply lookup_weaken.
Qed.

Lemma private_app `{Shared A V} h owned (l l' : list A) :
  private h owned l → private h owned l' → private h owned (l ++ l').
Proof.
  intros [Hok Hin Hown Hap] [_ Hin' _ Hap']. unfold within in *.
  assert (∀ x, x ∈ foot h (l ++ l') ↔ x ∈ foot h l ∨ x ∈ foot h l') as Hf.
  { intros x. rewrite !foot_list. setoid_rewrite elem_of_app. naive_solver. }
  constructor; [done| |done|].
  - intros x [Hx|Hx]%Hf; auto.
  - intros x [Hx|Hx]%Hf; [by apply Hap|by apply Hap'].
Qed.

Lemma private_one `{Shared A V} h owned (a : A) : private h owned a → private h owned [a].
Proof.
  intros [Hok Hin Hown Hap]. unfold within in *.
  constructor; [done| |done|]; unfold within; simpl; set_solver.
Qed.

Lemma private_nil `{Shared A V} h owned :
  heap_ok h → (∀ l, l ∈ owned → is_Some (h_objects h !! l)) → private h owned ([] : list A).
Proof. intros Hok Hown. constructor; [done| |done|]; unfold within; simpl; set_solver. Qed.

(** A new byte slice. *)
Lemma alloc_bytes_private h owned s :
  heap_ok h → (∀ l, l ∈ owned → is_Some (h_objects h !! l)) →
  let b := BytesRef (alloc (Bytes s) h).1 in
  private (alloc (Bytes s) h).2 owned b ∧ view (alloc (Bytes s) h).2 b = s.
Proof.
  intros Hok Hown. split; [constructor|].
  - by apply alloc_ok.
  - intros l. simpl. intros ->%elem_of_singleton. rewrite lookup_insert_eq. by eexists.
  - intros l Hl. simpl. destruct (decide (l = h_next h)) as [->|]; [rewrite lookup_insert_eq; by eexists|].
    rewrite lookup_insert_ne by done. by apply Hown.
  - simpl. intros l ->%elem_of_singleton Hl. apply Hown, present_old in Hl; [lia|done].
  - simpl. by rewrite lookup_insert_eq.
Qed.

Lemma private_fst `{Shared A V, Shared B W} h owned (x : A * B) :
  private h owned x → private h owned x.1 ∧ private h owned x.2.
Proof.
  intros [Hok Hin Hown Hap]. destruct x as [a b]. apply within_pair in Hin as [Ha Hb]. simpl in *.
  split; constructor; try done; set_solver.
Qed.

(** An element of a private list. *)
Lemma private_lookup `{Shared A V} h owned (l : list A) i a :
  private h owned l → l !! i = Some a → private h owned a.
Proof.
  intros [Hok Hin Hown Hap] Hi.
  assert (foot h a ⊆ foot h l) as Hsub.
  { intros x Hx. apply foot_list. exists a. split; [by eapply list_elem_of_lookup_2|done]. }
  constructor; [done| |done|].
  - intros x Hx. by apply Hin, Hsub.
  - intros x Hx. by apply Hap, Hsub.
Qed.

(** A record is private when its parts are. *)
Lemma private_parts {A B V W} `{Shared B W} (parts : A → B) (whole : A → W → V) h owned a :
  @private A V (shared_parts parts whole) h owned a ↔ private h owned (parts a).
Proof. split; intros []; by constructor. Qed.
