(* ===== verification/Copies.v ===== *)
(** The copies the program makes of slices and maps, and what they are for: a key
    provider, a registry and a test endpoint whose state nobody else can change.

    The definitions are those of Standard, Message, Handler and Testkit on references
    (Heap); the theorems say that, whatever the holders of other references do, they
    amount to the definitions on contents that the other files use. *)

From S2P Require Import Prelude GoString GoTime Errors Headers Message Standard Testkit Heap.

(** * The copying functions *)

(** [cloneStringMap] *)
Definition cloneStringMap (source : map_ref) (h : heap) : map_ref * heap :=
  match lookup_ref h (mr source) ≫= as_map with
  | None => (MapRef None, h)
  | Some m => let '(r, h') := alloc (StringMap m) h in (MapRef r, h')
  end.

#[export] Program Instance map_clone : Clone map_ref := {| clone := cloneStringMap |}.
Next Obligation.
  intros h m Hok _. unfold cloneStringMap. destruct (lookup_ref h (mr m) ≫= as_map) as [s|] eqn:E.
  - apply (alloc_copied_leaf mr MapRef); [done|done|]. by rewrite E.
  - apply (nil_copied_leaf mr MapRef); [done|done|]. by rewrite E.
Qed.

(** The loop of [cloneKeys]: each key is appended to nil. *)
Definition append_clone : Clone bytes_ref :=
  {| clone := append_nil; clone_copies h b Hok _ := append_nil_copied h b Hok |}.
Definition clone_each_key : list bytes_ref → heap → list bytes_ref * heap :=
  @clone_list bytes_ref string _ append_clone.

(** [cloneKeys] *)
Definition cloneKeys (keys : slices_ref) (h : heap) : slices_ref * heap :=
  let '(keys', h1) := clone_each_key (default [] (lookup_ref h (slr keys) ≫= as_slices)) h in
  let '(r, h2) := alloc (Slices (map br keys')) h1 in (SlicesRef r, h2).

#[export] Program Instance slices_clone : Clone slices_ref := {| clone := cloneKeys |}.
Next Obligation.
  intros h ks Hok Hin. unfold cloneKeys.
  assert (within h (default [] (lookup_ref h (slr ks) ≫= as_slices))) as Hes
    by (unfold within in *; cbn [foot slices_shared spine_shared] in Hin; set_solver).
  pose proof (@clone_list_copies _ _ _ append_clone h _ Hok Hes) as Hc. fold clone_each_key in Hc.
  destruct (clone_each_key _ h) as [ks' h1].
  assert (as_slices (Slices (map br ks')) = Some ks') as Hks'.
  { simpl. rewrite map_map. f_equal. rewrite <-(map_id ks') at 2. apply map_ext. by intros []. }
  by eapply (alloc_copied_spine slr SlicesRef as_slices (λ l, l) h ks _ ks' h1 (Slices (map br ks')) ks').
Qed.

(** * Static keys: src/standard/standard.go *)

(** The keys a successful [StaticHMACKeys] parsed, each in an array of its own. *)
Fixpoint alloc_keys (keys : list string) (h : heap) : list bytes_ref * heap :=
  match keys with
  | [] => ([], h)
  | key :: keys' =>
      let '(r, h1) := alloc (Bytes key) h in
      let '(rs, h2) := alloc_keys keys' h1 in (BytesRef r :: rs, h2)
  end.

Definition staticHMACKeys (secrets : list string) (h : heap) : go slices_ref * heap :=
  match StaticHMACKeys secrets with
  | Ok (Ok keys) =>
      let '(rs, h1) := alloc_keys keys h in
      let '(r, h2) := alloc (Slices (map br rs)) h1 in (Ok (SlicesRef r), h2)
  | Ok (Err er) | Err er => (Err er, h)
  end.

(** [(s staticHMACKeys) HMACKeys] *)
Definition HMACKeys (s : slices_ref) (h : heap) : slices_ref * heap := cloneKeys s h.

(** Callers get copies and do what they like with them. *)
Inductive keys_step (s : slices_ref) : heap * gset loc → heap * gset loc → Prop :=
| keys_client x y : client_step x y → keys_step s x y
| keys_call h owned : 
    keys_step s (h, owned) ((HMACKeys s h).2, foot (HMACKeys s h).2 (HMACKeys s h).1 ∪ owned).

(** * Messages: src/message.go *)

(** [VerifiedMessage] with its references. *)
Record SharedMessage := {
  sm_ID : string; sm_Type : string; sm_Source : string; sm_Timestamp : time; sm_Body : bytes_ref;
  sm_ContentType : string; sm_Headers : header_ref; sm_Metadata : map_ref
}.

Definition message_references (m : SharedMessage) : bytes_ref * (header_ref * map_ref) :=
  (sm_Body m, (sm_Headers m, sm_Metadata m)).
#[export] Instance message_shared : Shared SharedMessage VerifiedMessage :=
  shared_parts message_references
    (λ m x,
       {| vm_ID := sm_ID m; vm_Type := sm_Type m; vm_Source := sm_Source m; vm_Timestamp := sm_Timestamp m;
          vm_Body := x.1; vm_ContentType := sm_ContentType m; vm_Headers := x.2.1; vm_Metadata := x.2.2 |}).

(** [(m VerifiedMessage) Clone()] *)
Definition with_references (m : SharedMessage) (x : bytes_ref * (header_ref * map_ref)) : SharedMessage :=
  {| sm_ID := sm_ID m; sm_Type := sm_Type m; sm_Source := sm_Source m; sm_Timestamp := sm_Timestamp m;
     sm_Body := x.1; sm_ContentType := sm_ContentType m; sm_Headers := x.2.1; sm_Metadata := x.2.2 |}.

Definition message_Clone (m : SharedMessage) (h : heap) : SharedMessage * heap :=
  let '(x, h') := clone (message_references m) h in (with_references m x, h').

#[export] Program Instance message_clone : Clone SharedMessage := {| clone := message_Clone |}.
Next Obligation.
  intros h m Hok Hin.
  refine (parts_copied message_references _ with_references h m _ _ Hok Hin); [by intros [? [??]]|done].
Qed.

(** * The test endpoint: src/testkit/endpoint.go *)

(** [Response] and [CapturedRequest] with their references. *)
Record SharedResponse := {
  sp_Status : Z; sp_Headers : header_ref; sp_Body : bytes_ref; sp_Delay : duration
}.
Definition response_references (r : SharedResponse) : header_ref * bytes_ref := (sp_Headers r, sp_Body r).
#[export] Instance response_shared : Shared SharedResponse Testkit.Response :=
  shared_parts response_references
    (λ r x, {| rp_Status := sp_Status r; rp_Headers := x.1; rp_Body := x.2; rp_Delay := sp_Delay r |}).

Definition response_with (r : SharedResponse) (x : header_ref * bytes_ref) : SharedResponse :=
  {| sp_Status := sp_Status r; sp_Headers := x.1; sp_Body := x.2; sp_Delay := sp_Delay r |}.

(** [cloneResponse] *)
Definition cloneResponse (source : SharedResponse) (h : heap) : SharedResponse * heap :=
  let '(x, h') := clone (response_references source) h in (response_with source x, h').

#[export] Program Instance response_clone : Clone SharedResponse := {| clone := cloneResponse |}.
Next Obligation.
  intros h r Hok Hin.
  refine (parts_copied response_references _ response_with h r _ _ Hok Hin); [by intros []|done].
Qed.

(** [cloneResponses] *)
Definition cloneResponses (source : list SharedResponse) (h : heap) : list SharedResponse * heap := clone source h.

Record SharedRequest := {
  sq_Method : string; sq_URL : string; sq_Host : string; sq_Header : header_ref; sq_Body : bytes_ref;
  sq_ReceivedAt : time
}.
Definition request_references (q : SharedRequest) : header_ref * bytes_ref := (sq_Header q, sq_Body q).
#[export] Instance request_shared : Shared SharedRequest CapturedRequest :=
  shared_parts request_references
    (λ q x, {| cq_Method := sq_Method q; cq_URL := sq_URL q; cq_Host := sq_Host q; cq_Header := x.1;
               cq_Body := x.2; cq_ReceivedAt := sq_ReceivedAt q |}).

Definition request_with (r : SharedRequest) (x : header_ref * bytes_ref) : SharedRequest :=
  {| sq_Method := sq_Method r; sq_URL := sq_URL r; sq_Host := sq_Host r; sq_Header := x.1; sq_Body := x.2;
     sq_ReceivedAt := sq_ReceivedAt r |}.

(** [(r CapturedRequest) Clone()] *)
Definition CapturedRequest_Clone (r : SharedRequest) (h : heap) : SharedRequest * heap :=
  let '(x, h') := clone (request_references r) h in (request_with r x, h').

#[export] Program Instance request_clone : Clone SharedRequest := {| clone := CapturedRequest_Clone |}.
Next Obligation.
  intros h r Hok Hin.
  refine (parts_copied request_references _ request_with h r _ _ Hok Hin); [by intros []|done].
Qed.

(** [Endpoint], without its server and its mutex. *)
Record SharedEndpoint := { se_responses : list SharedResponse; se_requests : list SharedRequest; se_next : nat }.
Definition endpoint_references (e : SharedEndpoint) : list SharedResponse * list SharedRequest :=
  (se_responses e, se_requests e).
#[export] Instance endpoint_shared : Shared SharedEndpoint Endpoint :=
  shared_parts endpoint_references
    (λ e x, {| ep_responses := x.1; ep_requests := x.2; ep_next := se_next e |}).

(** [NewEndpoint] *)
Definition new_endpoint (responses : list SharedResponse) (h : heap) : SharedEndpoint * heap :=
  let '(rs, h') := cloneResponses responses h in
  ({| se_responses := rs; se_requests := []; se_next := 0 |}, h').

(** [Requests], [Request] and [LastRequest] *)
Definition get_requests (e : SharedEndpoint) (h : heap) : list SharedRequest * heap := clone (se_requests e) h.

Definition get_request (e : SharedEndpoint) (index : Z) (h : heap) : option SharedRequest * heap :=
  if (index <? 0) || (Z.of_nat (length (se_requests e)) <=? index) then (None, h)
  else match se_requests e !! Z.to_nat index with
       | Some q => let '(q', h') := CapturedRequest_Clone q h in (Some q', h')
       | None => (None, h)
       end.

Definition get_last (e : SharedEndpoint) (h : heap) : option SharedRequest * heap :=
  if (length (se_requests e) =? 0)%nat then (None, h)
  else match se_requests e !! (length (se_requests e) - 1)%nat with
       | Some q => let '(q', h') := CapturedRequest_Clone q h in (Some q', h')
       | None => (None, h)
       end.

(** The locked part of [serveHTTP] on a request that refers to the server's headers and
    to the body read: what is kept are copies, and so is the scripted response. *)
Definition shared_capture (e : SharedEndpoint) (q : SharedRequest) (h : heap)
    : SharedResponse * SharedEndpoint * heap :=
  let '(q', h1) := CapturedRequest_Clone q h in
  let requests := se_requests e ++ [q'] in
  let none := {| sp_Status := 204; sp_Headers := HeaderRef None; sp_Body := BytesRef None; sp_Delay := 0 |} in
  match se_responses e with
  | [] => (none, {| se_responses := []; se_requests := requests; se_next := se_next e |}, h1)
  | _ =>
      let n := length (se_responses e) in
      let '(index, next) := if (n <=? se_next e)%nat then ((n - 1)%nat, se_next e)
                            else (se_next e, S (se_next e)) in
      let '(response, h2) := match se_responses e !! index with
                             | Some r => cloneResponse r h1
                             | None => (none, h1)
                             end in
      (response, {| se_responses := se_responses e; se_requests := requests; se_next := next |}, h2)
  end.

(** Requests are served while the holders of other references do what they like; what
    the getters return is handed to them.  A step is labelled with the request it
    captured and the response it chose. *)
Record endpoint_state := { es_heap : heap; es_owned : gset loc; es_endpoint : SharedEndpoint }.

Inductive endpoint_step : endpoint_state → list (CapturedRequest * Testkit.Response) → endpoint_state → Prop :=
| step_client h owned e h' owned' :
    client_step (h, owned) (h', owned') →
    endpoint_step {| es_heap := h; es_owned := owned; es_endpoint := e |} []
                  {| es_heap := h'; es_owned := owned'; es_endpoint := e |}
| step_serve h owned e q r e' h' :
    within h q → shared_capture e q h = (r, e', h') →
    endpoint_step {| es_heap := h; es_owned := owned; es_endpoint := e |} [(view h q, view h' r)]
                  {| es_heap := h'; es_owned := owned; es_endpoint := e' |}
| step_requests h owned e qs h' :
    get_requests e h = (qs, h') →
    endpoint_step {| es_heap := h; es_owned := owned; es_endpoint := e |} []
                  {| es_heap := h'; es_owned := foot h' qs ∪ owned; es_endpoint := e |}
| step_request h owned e index q h' :
    get_request e index h = (Some q, h') →
    endpoint_step {| es_heap := h; es_owned := owned; es_endpoint := e |} []
                  {| es_heap := h'; es_owned := foot h' q ∪ owned; es_endpoint := e |}
| step_last h owned e q h' :
    get_last e h = (Some q, h') →
    endpoint_step {| es_heap := h; es_owned := owned; es_endpoint := e |} []
                  {| es_heap := h'; es_owned := foot h' q ∪ owned; es_endpoint := e |}.

Inductive endpoint_run : endpoint_state → list (CapturedRequest * Testkit.Response) → endpoint_state → Prop :=
| run_nil s : endpoint_run s [] s
| run_snoc s trace s1 x s2 : endpoint_run s trace s1 → endpoint_step s1 x s2 → endpoint_run s (trace ++ x) s2.

(** * Lemmas *)

(** ** Keys *)

Lemma owned_extends h h' (owned : gset loc) :
  extends h h' → (∀ l, l ∈ owned → is_Some (h_objects h !! l)) → ∀ l, l ∈ owned → is_Some (h_objects h' !! l).
Proof. intros [Hsub _] Hown l Hl. destruct (Hown l Hl) as [o Ho]. exists o. by eapply lookup_weaken. Qed.

Lemma alloc_keys_spec keys h owned rs h' :
  heap_ok h → (∀ l, l ∈ owned → is_Some (h_objects h !! l)) → alloc_keys keys h = (rs, h') →
  heap_ok h' ∧ extends h h' ∧ private h' owned rs ∧ view h' rs = keys.
Proof.
  revert h rs h'. induction keys as [|key keys IH]; intros h rs h' Hok Hown; cbn [alloc_keys].
  { intros [= <- <-]. split_and!; [done|done|by apply private_nil|done]. }
  pose proof (alloc_ok (Bytes key) h Hok) as Hok1. pose proof (alloc_extends (Bytes key) h Hok) as He1.
  destruct (alloc_bytes_private h owned key Hok Hown) as [Hp Hv].
  destruct (alloc (Bytes key) h) as [r h1]. cbn [fst snd] in *.
  destruct (alloc_keys keys h1) as [rs' h2] eqn:E. intros [= <- <-].
  destruct (IH h1 rs' h2 Hok1 (owned_extends _ _ _ He1 Hown) E) as (Hok2 & He2 & Hps & Hvs).
  destruct (private_extends h1 h2 owned _ Hp Hok2 He2) as [Hp2 Hv2].
  split_and!; [done|by etrans|by apply (private_app h2 owned [BytesRef r]); [apply private_one|]|].
  cbn [view list_shared map] in *. by rewrite Hv2, Hv, Hvs.
Qed.

(** A new slice of private byte slices. *)
Lemma alloc_slices_private h owned rs :
  private h owned rs →
  let s := SlicesRef (alloc (Slices (map br rs)) h).1 in
  private (alloc (Slices (map br rs)) h).2 owned s ∧ view (alloc (Slices (map br rs)) h).2 s = view h rs.
Proof.
  intros Hp. pose proof Hp as [Hok Hin Hown Hap].
  set (o := Slices (map br rs)).
  assert (as_slices o = Some rs) as Ho.
  { simpl. rewrite map_map. f_equal. rewrite <-(map_id rs) at 2. apply map_ext. by intros []. }
  destruct (private_extends h (alloc o h).2 owned rs Hp (alloc_ok o h Hok) (alloc_extends o h Hok))
    as [[Hok1 Hin1 Hown1 Hap1] Hv].
  assert (lookup_ref (alloc o h).2 (Some (h_next h)) = Some o) as Hl by apply lookup_insert_eq.
  assert (∀ l, l ∈ foot (alloc o h).2 (SlicesRef (Some (h_next h))) ↔ l = h_next h ∨ l ∈ foot (alloc o h).2 rs) as Hf.
  { intros l. cbn [foot slices_shared spine_shared slr]. rewrite Hl. cbn [mbind option_bind]. rewrite Ho.
    cbn [default from_option ref_locs]. unfold id. set_solver. }
  split; [constructor|].
  - done.
  - intros l [->|Hl']%Hf; [by exists o|by apply Hin1].
  - done.
  - intros l [->|Hl']%Hf Hl2; [apply Hown, present_old in Hl2; [lia|done]|by eapply Hap1].
  - change (alloc o h).1 with (Some (h_next h)). cbn [view slices_shared spine_shared slr].
    rewrite Hl. cbn [mbind option_bind]. rewrite Ho. exact Hv.
Qed.

Lemma staticHMACKeys_spec secrets h owned s h' :
  heap_ok h → (∀ l, l ∈ owned → is_Some (h_objects h !! l)) → staticHMACKeys secrets h = (Ok s, h') →
  ∃ keys, StaticHMACKeys secrets = Ok (Ok keys) ∧ private h' owned s ∧ view h' s = keys.
Proof.
  intros Hok Hown. unfold staticHMACKeys. destruct (StaticHMACKeys secrets) as [[keys|]|]; [|done|done].
  destruct (alloc_keys keys h) as [rs h1] eqn:E.
  destruct (alloc_keys_spec keys h owned rs h1 Hok Hown E) as (_ & _ & Hp & Hv).
  destruct (alloc_slices_private h1 owned rs Hp) as [Hp' Hv'].
  destruct (alloc (Slices (map br rs)) h1) as [r h2]. intros [= <- <-].
  exists keys. split_and!; [done|done|]. cbn [fst snd] in Hv'. by rewrite Hv', Hv.
Qed.

Lemma keys_step_private s x y :
  keys_step s x y → private x.1 x.2 s → private y.1 y.2 s ∧ view y.1 s = view x.1 s.
Proof.
  destruct 1 as [x y Hs|h owned]; intros Hp.
  - destruct x, y. by eapply client_step_private.
  - cbn [fst snd] in *. pose proof (clone_copies h s (pv_heap _ _ _ Hp) (pv_within _ _ _ Hp)) as Hc.
    fold (HMACKeys s h) in Hc. by destruct (hand_out h owned s s _ Hp Hc) as (? & ? & _).
Qed.

(** ** The endpoint *)

Definition shared_none : SharedResponse :=
  {| sp_Status := 204; sp_Headers := HeaderRef None; sp_Body := BytesRef None; sp_Delay := 0 |}.

Lemma endpoint_private h owned e :
  private h owned e ↔ private h owned (se_responses e) ∧ private h owned (se_requests e).
Proof.
  split.
  - intros Hp%private_parts. by apply private_fst in Hp.
  - intros [H1 H2]. apply private_parts. by apply private_pair.
Qed.

(** The response of the script at an index. *)
Lemma scripted_clone h owned (rs : list SharedResponse) (i : nat) :
  private h owned rs →
  let x := match rs !! i with Some r => cloneResponse r h | None => (shared_none, h) end in
  heap_ok x.2 ∧ extends h x.2 ∧ view x.2 x.1 = default (Reply 204) (view h rs !! i).
Proof.
  intros Hp. cbn zeta. cbn [view list_shared]. rewrite list_lookup_fmap. destruct (rs !! i) as [r|] eqn:Hi.
  - pose proof (private_lookup _ _ _ _ _ Hp Hi) as [Hok Hin _ _].
    by destruct (clone_copies h r Hok Hin) as (? & ? & _ & _ & ?).
  - split_and!; [apply Hp|done|done].
Qed.

Lemma endpoint_view h e :
  view h e = {| ep_responses := view h (se_responses e); ep_requests := view h (se_requests e);
                ep_next := se_next e |}.
Proof. reflexivity. Qed.

Lemma endpoint_view_inv h h' e e' :
  view h e = view h' e' →
  view h (se_responses e) = view h' (se_responses e') ∧ view h (se_requests e) = view h' (se_requests e').
Proof. intros H. exact (conj (f_equal ep_responses H) (f_equal ep_requests H)). Qed.

Lemma shared_capture_spec h owned e q r e' h' :
  private h owned e → within h q → shared_capture e q h = (r, e', h') →
  private h' owned e' ∧ (view h' r, view h' e') = capture (view h e) (view h q).
Proof.
  intros He Hin. pose proof (pv_heap _ _ _ He) as Hok. pose proof (pv_owned _ _ _ He) as Hown.
  unfold shared_capture. fold shared_none.
  pose proof (clone_copies h q Hok Hin) as Hc. change (clone q h) with (CapturedRequest_Clone q h) in Hc.
  pose proof (take_in h owned q _ Hok Hown Hc) as Hq. destruct (CapturedRequest_Clone q h) as [q' h1].
  destruct Hc as (Hok1 & He1 & _ & _ & Hvq). cbn [fst snd] in *.
  destruct (private_extends h h1 owned e He Hok1 He1) as [Hp1 Hv1].
  pose proof Hp1 as [Hrs Hqs]%endpoint_private.
  apply endpoint_view_inv in Hv1 as [Hvr Hvreq].
  assert (private h1 owned (se_requests e ++ [q'])) as Hqs' by (by apply private_app, private_one).
  assert (∀ h2 (rs : list SharedResponse) n, private h1 owned rs → heap_ok h2 → extends h1 h2 →
    let e2 := {| se_responses := rs; se_requests := se_requests e ++ [q']; se_next := n |} in
    private h2 owned e2 ∧
    view h2 e2 = {| ep_responses := view h1 rs; ep_requests := view h (se_requests e) ++ [view h q]; ep_next := n |})
    as Hend.
  { intros h2 rs n Hprs Hok2 He2. cbn zeta.
    assert (private h1 owned {| se_responses := rs; se_requests := se_requests e ++ [q']; se_next := n |}) as Hp
      by (by apply endpoint_private).
    destruct (private_extends h1 h2 owned _ Hp Hok2 He2) as [Hp2 Hv2]. split; [done|].
    rewrite Hv2, endpoint_view. cbn [se_responses se_requests se_next]. rewrite view_app. f_equal.
    by rewrite <-Hvreq, <-Hvq. }
  unfold capture. change (ep_responses (view h e)) with (view h (se_responses e)).
  change (ep_requests (view h e)) with (view h (se_requests e)). change (ep_next (view h e)) with (se_next e).
  destruct (se_responses e) as [|r0 rs0] eqn:Ers.
  - intros [= <- <- <-]. destruct (Hend h1 [] (se_next e)) as [H1 H2]; [done..|]. split; [done|]. by rewrite H2.
  - rewrite <-Ers in *. assert (length (view h (se_responses e)) = length (se_responses e)) as Hlen by apply length_map.
    rewrite Hlen.
    assert (∃ v vs, view h (se_responses e) = v :: vs) as (v & vs & Hvs) by (rewrite Ers; cbn; eauto).
    rewrite Hvs. rewrite <-Hvs.
    set (idx := if (length (se_responses e) <=? se_next e)%nat then _ else _). destruct idx as [index next].
    pose proof (scripted_clone h1 owned (se_responses e) index Hrs) as Hs. cbn zeta in Hs.
    destruct (match se_responses e !! index with Some r => _ | None => _ end) as [response h2].
    destruct Hs as (Hok2 & He2 & Hvresp). intros [= <- <- <-].
    destruct (Hend h2 (se_responses e) next Hrs Hok2 He2) as [H1 H2]. split; [done|].
    rewrite H2. cbn [fst snd] in Hvresp. by rewrite Hvresp, Hvr.
Qed.

Lemma get_request_copied h e index q' h' :
  get_request e index h = (Some q', h') →
  ∃ q, se_requests e !! Z.to_nat index = Some q ∧ CapturedRequest_Clone q h = (q', h').
Proof.
  unfold get_request. destruct (_ || _); [done|]. destruct (se_requests e !! _) as [q|]; [|done].
  destruct (CapturedRequest_Clone q h) as [q0 h0] eqn:E. intros [= <- <-]. by exists q.
Qed.

Lemma get_last_copied h e q' h' :
  get_last e h = (Some q', h') →
  ∃ q, se_requests e !! (length (se_requests e) - 1)%nat = Some q ∧ CapturedRequest_Clone q h = (q', h').
Proof.
  unfold get_last. destruct (_ =? 0)%nat; [done|]. destruct (se_requests e !! _) as [q|]; [|done].
  destruct (CapturedRequest_Clone q h) as [q0 h0] eqn:E. intros [= <- <-]. by exists q.
Qed.

(** Handing out a copy of one captured request. *)
Lemma hand_out_request h owned e i q q' h' :
  private h owned e → se_requests e !! i = Some q → CapturedRequest_Clone q h = (q', h') →
  private h' (foot h' q' ∪ owned) e ∧ view h' e = view h e ∧ view h' q' = view h q.
Proof.
  intros Hp Hi Hc. pose proof Hp as [_ Hqs]%endpoint_private.
  pose proof (private_lookup _ _ _ _ _ Hqs Hi) as [Hok Hin _ _].
  pose proof (clone_copies h q Hok Hin) as Hcopy. change (clone q h) with (CapturedRequest_Clone q h) in Hcopy.
  rewrite Hc in Hcopy. exact (hand_out h owned e q (q', h') Hp Hcopy).
Qed.

Lemma hand_out_requests h owned e qs h' :
  private h owned e → get_requests e h = (qs, h') →
  private h' (foot h' qs ∪ owned) e ∧ view h' e = view h e ∧ view h' qs = view h (se_requests e).
Proof.
  intros Hp Hg. pose proof Hp as [_ [Hok Hin _ _]]%endpoint_private.
  pose proof (clone_copies h (se_requests e) Hok Hin) as Hcopy.
  change (clone (se_requests e) h) with (get_requests e h) in Hcopy. rewrite Hg in Hcopy.
  exact (hand_out h owned e (se_requests e) (qs, h') Hp Hcopy).
Qed.

(** Every step is one request of the endpoint on contents, or none. *)
Lemma endpoint_step_spec s x s' :
  endpoint_step s x s' → private (es_heap s) (es_owned s) (es_endpoint s) →
  private (es_heap s') (es_owned s') (es_endpoint s') ∧
  captures (view (es_heap s) (es_endpoint s)) (map fst x) = (map snd x, view (es_heap s') (es_endpoint s')).
Proof.
  destruct 1 as [h owned e h' owned' Hc|h owned e q r e' h' Hin Hcap|h owned e qs h' Hg|h owned e index q h' Hg|
                 h owned e q h' Hg]; cbn [es_heap es_owned es_endpoint]; intros Hp.
  - destruct (client_step_private _ _ _ _ e Hp Hc) as [? Hv]. by rewrite Hv.
  - destruct (shared_capture_spec _ _ _ _ _ _ _ Hp Hin Hcap) as [? Hv]. split; [done|].
    cbn [map fst snd captures]. by rewrite <-Hv.
  - destruct (hand_out_requests _ _ _ _ _ Hp Hg) as (? & Hv & _). by rewrite Hv.
  - apply get_request_copied in Hg as (q0 & Hi & Hc).
    destruct (hand_out_request _ _ _ _ _ _ _ Hp Hi Hc) as (? & Hv & _). by rewrite Hv.
  - apply get_last_copied in Hg as (q0 & Hi & Hc).
    destruct (hand_out_request _ _ _ _ _ _ _ Hp Hi Hc) as (? & Hv & _). by rewrite Hv.
Qed.

Lemma captures_app e l l' :
  captures e (l ++ l') =
    let '(rs, e1) := captures e l in let '(rs', e2) := captures e1 l' in (rs ++ rs', e2).
Proof.
  revert e. induction l as [|q l IH]; intros e; cbn [app captures]; [by destruct (captures e l')|].
  destruct (capture e q) as [r e0]. rewrite IH. destruct (captures e0 l) as [rs e1].
  by destruct (captures e1 l') as [rs' e2].
Qed.

Lemma endpoint_run_spec s trace s' :
  endpoint_run s trace s' → private (es_heap s) (es_owned s) (es_endpoint s) →
  private (es_heap s') (es_owned s') (es_endpoint s') ∧
  captures (view (es_heap s) (es_endpoint s)) (map fst trace) =
    (map snd trace, view (es_heap s') (es_endpoint s')).
Proof.
  induction 1 as [s|s trace s1 x s2 _ IH Hstep]; intros Hp; [done|]. destruct (IH Hp) as [Hp1 Hc1].
  destruct (endpoint_step_spec _ _ _ Hstep Hp1) as [Hp2 Hc2]. split; [done|].
  by rewrite map_app, captures_app, Hc1, Hc2, map_app.
Qed.

Lemma new_endpoint_spec responses h owned e h' :
  heap_ok h → within h responses → (∀ l, l ∈ owned → is_Some (h_objects h !! l)) →
  new_endpoint responses h = (e, h') →
  private h' owned e ∧ view h' e = NewEndpoint (view h responses).
Proof.
  intros Hok Hin Hown. unfold new_endpoint, cloneResponses.
  pose proof (clone_copies h responses Hok Hin) as Hc. pose proof (take_in h owned responses _ Hok Hown Hc) as Hp.
  destruct (clone responses h) as [rs h1]. intros [= <- <-]. destruct Hc as (Hok1 & _ & _ & _ & Hv). cbn [fst snd] in *.
  split; [apply endpoint_private; split; [done|by apply private_nil; [|apply Hp]]|].
  rewrite endpoint_view. cbn [se_responses se_requests se_next]. by rewrite Hv.
Qed.

(** * Properties *)

(** C40 The test endpoint keeps snapshots: whatever the test, the code under test and the
    server do in between with the headers and bodies they passed in or were given, the
    n-th request is answered by the n-th scripted response as it was when the endpoint
    was made, and what [Requests] returns are the requests as they were when they
    arrived; the endpoint on shared slices and maps refines the one on their contents. *)
Theorem endpoint_keeps_snapshots responses h owned e h0 trace s :
  heap_ok h → within h responses → (∀ l, l ∈ owned → is_Some (h_objects h !! l)) →
  new_endpoint responses h = (e, h0) →
  endpoint_run {| es_heap := h0; es_owned := owned; es_endpoint := e |} trace s →
  view (es_heap s) (es_endpoint s) = (captures (NewEndpoint (view h responses)) (map fst trace)).2 ∧
  map snd trace = map (scripted (view h responses)) (seq 0 (length trace)) ∧
  let '(qs, h') := get_requests (es_endpoint s) (es_heap s) in view h' qs = map fst trace.
Proof.
  intros Hok Hin Hown Hnew Hrun. destruct (new_endpoint_spec _ _ _ _ _ Hok Hin Hown Hnew) as [Hp Hv].
  destruct (endpoint_run_spec _ _ _ Hrun Hp) as [Hp' Hc]. cbn [es_heap es_endpoint] in Hc. rewrite Hv in Hc.
  pose proof (endpoint_replays_script (view h responses) (map fst trace)) as Hr. rewrite Hc in Hr |- *.
  destruct Hr as [Hr1 Hr2]. split_and!; [done|by rewrite Hr1, length_map|].
  destruct (get_requests _ _) as [qs h'] eqn:Hg. destruct (hand_out_requests _ _ _ _ _ Hp' Hg) as (_ & _ & Hqs).
  rewrite Hqs. exact Hr2.
Qed.

(** Every call of a static provider returns the parsed keys, whatever its callers did
    with the slices of earlier calls. *)
Lemma static_keys_constant secrets h owned s h0 x :
  heap_ok h → (∀ l, l ∈ owned → is_Some (h_objects h !! l)) → staticHMACKeys secrets h = (Ok s, h0) →
  rtc (keys_step s) (h0, owned) x →
  StaticHMACKeys secrets = Ok (Ok (view (HMACKeys s x.1).2 (HMACKeys s x.1).1)).
Proof.
  intros Hok Hown Hs Hsteps. destruct (staticHMACKeys_spec _ _ _ _ _ Hok Hown Hs) as (keys & Hk & Hp & Hv).
  assert (private x.1 x.2 s ∧ view x.1 s = keys) as [Hpx Hvx].
  { clear Hok Hown Hs Hk. remember (h0, owned) as x0. change h0 with (h0, owned).1 in Hv.
    assert (private x0.1 x0.2 s ∧ view x0.1 s = keys) as Hx by (by subst). clear Hp Hv Heqx0.
    induction Hsteps as [|x y z Hstep _ IH]; [done|]. apply IH. destruct Hx as [Hp Hv].
    destruct (keys_step_private s x y Hstep Hp) as [? ->]. done. }
  destruct (clone_copies x.1 s (pv_heap _ _ _ Hpx) (pv_within _ _ _ Hpx)) as (_ & _ & _ & _ & Hc).
  change (clone s x.1) with (HMACKeys s x.1) in Hc. by rewrite Hc, Hvx.
Qed.

(** What a handler does with the message it is given does not reach the caller's. *)
Lemma handler_gets_a_copy (m : SharedMessage) h owned y :
  private h owned m →
  let '(m', h1) := message_Clone m h in
  view h1 m' = view h m ∧ (rtc client_step (h1, foot h1 m' ∪ owned) y → view y.1 m = view h m).
Proof.
  intros Hp. pose proof (clone_copies h m (pv_heap _ _ _ Hp) (pv_within _ _ _ Hp)) as Hc.
  change (clone m h) with (message_Clone m h) in Hc.
  destruct (hand_out h owned m m _ Hp Hc) as (Hp1 & Hv & Hv'). destruct (message_Clone m h) as [m' h1].
  split; [done|]. intros Hs. destruct (client_steps_private _ _ m Hs Hp1) as [_ ->]. done.
Qed.

(** * Witness: a test that reuses its body slice between two requests *)

Definition ex_heap : heap := {| h_objects := {[0%nat := Bytes "pong"; 1%nat := Bytes "ping"]}; h_next := 2%nat |}.
Definition ex_owned : gset loc := {[0%nat; 1%nat]}.
Definition ex_responses : list SharedResponse :=
  [{| sp_Status := 200; sp_Headers := HeaderRef None; sp_Body := BytesRef (Some 0%nat); sp_Delay := 0 |}].
Definition ex_incoming : SharedRequest :=
  {| sq_Method := "POST"; sq_URL := "/"; sq_Host := "h"; sq_Header := HeaderRef None;
     sq_Body := BytesRef (Some 1%nat); sq_ReceivedAt := 7 |}.
Definition ex_new := new_endpoint ex_responses ex_heap.
Definition ex_first := shared_capture ex_new.1 ex_incoming ex_new.2.
Definition ex_reused : heap := store 1%nat (Bytes "again") (store 0%nat (Bytes "changed") ex_first.2).
Definition ex_second := shared_capture ex_first.1.2 ex_incoming ex_reused.
Definition ex_final : endpoint_state :=
  {| es_heap := ex_second.2; es_owned := ex_owned; es_endpoint := ex_second.1.2 |}.
Definition ex_trace : list (CapturedRequest * Testkit.Response) :=
  [(view ex_new.2 ex_incoming, view ex_first.2 ex_first.1.1);
   (view ex_reused ex_incoming, view ex_second.2 ex_second.1.1)].

Lemma surjective_triple {A B C} (x : A * B * C) : x = (x.1.1, x.1.2, x.2).
Proof. by destruct x as [[a b] c]. Qed.

Lemma ex_within h : is_Some (h_objects h !! 1%nat) → within h ex_incoming.
Proof. intros H l Hl. assert (l = 1%nat) as -> by (cbn in Hl; set_solver). done. Qed.

Lemma ex_owns : 0%nat ∈ ex_owned ∧ 1%nat ∈ ex_owned.
Proof. unfold ex_owned. set_solver. Qed.

Lemma ex_run :
  endpoint_run {| es_heap := ex_new.2; es_owned := ex_owned; es_endpoint := ex_new.1 |} ex_trace ex_final.
Proof.
  pose proof (step_serve ex_new.2 ex_owned ex_new.1 _ _ _ _ (ex_within ex_new.2 ltac:(by eexists))
    (surjective_triple ex_first)) as S1.
  assert (client_step (ex_first.2, ex_owned) (store 0%nat (Bytes "changed") ex_first.2, ex_owned)) as C1
    by (apply client_store; [apply ex_owns|apply empty_subseteq]).
  assert (client_step (store 0%nat (Bytes "changed") ex_first.2, ex_owned) (ex_reused, ex_owned)) as C2
    by (apply client_store; [apply ex_owns|apply empty_subseteq]).
  pose proof (step_serve ex_reused ex_owned ex_first.1.2 _ _ _ _ (ex_within ex_reused ltac:(by eexists))
    (surjective_triple ex_second)) as S2.
  exact (run_snoc _ _ _ _ _ (run_snoc _ _ _ _ _ (run_snoc _ _ _ _ _ (run_snoc _ _ _ _ _ (run_nil _) S1)
    (step_client _ _ _ _ _ C1)) (step_client _ _ _ _ _ C2)) S2).
Qed.

Lemma endpoint_keeps_snapshots_witness :
  map fst ex_trace = map (λ body, {| cq_Method := "POST"; cq_URL := "/"; cq_Host := "h"; cq_Header := ∅;
                                    cq_Body := body; cq_ReceivedAt := 7 |}) ["ping"; "again"] ∧
  map rp_Body (map snd ex_trace) = ["pong"; "pong"] ∧
  let '(qs, h') := get_requests (es_endpoint ex_final) (es_heap ex_final) in view h' qs = map fst ex_trace.
Proof.
  split; [vm_compute; reflexivity|]. split; [vm_compute; reflexivity|].
  assert (heap_ok ex_heap) as Hok.
  { intros l o. unfold ex_heap. cbn [h_objects h_next]. rewrite lookup_insert_Some, lookup_singleton_Some. lia. }
  assert (within ex_heap ex_responses) as Hin.
  { intros l. cbn. intros Hl. assert (l = 0%nat) as -> by set_solver. by eexists. }
  assert (∀ l, l ∈ ex_owned → is_Some (h_objects ex_heap !! l)) as Hown.
  { intros l [->%elem_of_singleton| ->%elem_of_singleton]%elem_of_union; by eexists. }
  apply (endpoint_keeps_snapshots ex_responses ex_heap ex_owned ex_new.1 ex_new.2 ex_trace ex_final Hok Hin Hown
    (surjective_pairing ex_new) ex_run).
Defined.
