(* ===== verification/Stripe.v ===== *)
(** src/provider/stripe/stripe.go: verification of Stripe webhook signatures.  The
    JSON decoder is an argument. *)

From S2P Require Import Prelude GoString Codec GoTime Errors Headers Message Auth Receiver Standard.

Definition HeaderSignature : string := "Stripe-Signature".

(** The separators of the signature header. *)
Definition EQUALS : byte := chr 61.

(** [Verifier]; [None] is a nil [Secret]. *)
Record Verifier := { st_Secret : option SecretProvider; st_Tolerance : duration }.

Definition NewVerifier (secret : option SecretProvider) : go Verifier :=
  match secret with
  | None => Err (NewError CodeInvalidConfiguration "Stripe endpoint secret is required" None)
  | Some _ => Ok {| st_Secret := secret; st_Tolerance := 5 * Minute |}
  end.

Definition outsideTolerance (receivedAt timestamp : time) (tolerance : duration) : bool :=
  if After timestamp receivedAt then tolerance <? Sub timestamp receivedAt
  else tolerance <? Sub receivedAt timestamp.

Definition bad_signature (message : string) (cause : option error) : error :=
  NewError CodeInvalidSignature message cause.

(** What [parseHeader] has read: the timestamp once it is set, and the signatures. *)
Definition parsed : Type := option time * list string.

(** One round of the loop of [parseHeader]. *)
Definition parse_component (st : parsed) (component : string) : go parsed :=
  let '(timestamp, signatures) := st in
  match Cut EQUALS (TrimSpace component) with
  | None => Ok st
  | Some (key, raw) =>
      if str_eqb key "t" then
        _ ← reject (bool_decide (is_Some timestamp))
              (bad_signature "Stripe signature header has multiple timestamps" None);
        seconds ← of_option (bad_signature "invalid Stripe timestamp" (Some (PlainError "strconv.ParseInt")))
                    (ParseInt raw);
        Ok (Some (Unix seconds), signatures)
      else if str_eqb key "v1" then
        decoded ← of_option (bad_signature "invalid Stripe v1 signature"
                               (Some (PlainError "encoding/hex"))) (hex_decode raw);
        Ok (timestamp, signatures ++ [decoded])
      else Ok st
  end.

Fixpoint parse_components (st : parsed) (components : list string) : go parsed :=
  match components with
  | [] => Ok st
  | component :: rest => st ← parse_component st component; parse_components st rest
  end.

Definition parseHeader (value : string) : go (time * list string) :=
  _ ← reject (8192 <? slen value) (bad_signature "Stripe signature header is too large" None);
  let components := Split COMMA value in
  _ ← reject (64 <? Z.of_nat (length components))
        (bad_signature "Stripe signature header has too many components" None);
  '(timestamp, signatures) ← parse_components (None, []) components;
  let timestamp := default zero_time timestamp in
  let n := Z.of_nat (length signatures) in
  _ ← reject (IsZero timestamp || (n =? 0) || (16 <? n))
        (bad_signature "Stripe signature header is incomplete" None);
  Ok (timestamp, signatures).

(** The signed content. *)
Definition signed_content (timestamp : time) (body : string) : string :=
  FormatInt (UnixSeconds timestamp) +:+ "." +:+ body.

(** The comparison loop. *)
Definition any_signature (expected : string) (signatures : list string) : bool :=
  existsb (λ s, (slen s =? slen expected) && constant_time_eq s expected) signatures.

Section verifier.
(** [json.Unmarshal] into the envelope: its identifier and type. *)
Context (unmarshal : string → go (string * string)).

(** [Verify]; [None] is a nil verifier and [wall] is [time.Now()]. *)
Definition Verify (v : option Verifier) (wall : time) (input : VerifyInput) : go Verification :=
  let unconfigured := NewError CodeInvalidConfiguration "Stripe verifier is not configured" None in
  v ← of_option unconfigured v;
  provider ← of_option unconfigured (st_Secret v);
  _ ← reject (st_Tolerance v <? 0)
        (NewError CodeInvalidConfiguration "Stripe signature tolerance cannot be negative" None);
  value ← match h_values (vi_Headers input) HeaderSignature with
          | [value] => Ok value
          | _ => Err (bad_signature "exactly one Stripe-Signature header is required" None)
          end;
  '(timestamp, signatures) ← parseHeader value;
  let receivedAt := if IsZero (vi_ReceivedAt input) then wall else vi_ReceivedAt input in
  _ ← reject ((0 <? st_Tolerance v) && outsideTolerance receivedAt timestamp (st_Tolerance v))
        (NewError CodeExpiredSignature "Stripe signature timestamp is outside the allowed tolerance" None);
  secret ← map_err (λ e, NewError CodeInternal "resolve Stripe endpoint secret" (Some e))
             (sp_Secret provider);
  _ ← reject (str_eqb secret ε) (NewError CodeInternal "resolve Stripe endpoint secret" None);
  let expected := hmac_sha256 secret (signed_content timestamp (vi_Body input)) in
  _ ← reject (negb (any_signature expected signatures))
        (bad_signature "Stripe signature did not match" None);
  '(id, type) ← map_err (λ e, NewError CodeDecode "decode Stripe event metadata" (Some e))
                  (unmarshal (vi_Body input));
  _ ← ValidateMessageID id;
  _ ← ValidateEventType type;
  Ok {| v_ID := id; v_Type := type; v_Source := "stripe"; v_Timestamp := timestamp; v_Metadata := ∅ |}.
End verifier.

(** * Lemmas *)

(** The key and value of each component that has them. *)
Definition fields (components : list string) : list (string * string) :=
  omap (λ c, Cut EQUALS (TrimSpace c)) components.

Definition field_values (key : string) (components : list string) : list string :=
  map snd (filter (λ f, f.1 = key) (fields components)).

Lemma field_values_nil key : field_values key [] = [].
Proof. done. Qed.

Lemma field_values_cons key c l :
  field_values key (c :: l) =
    match Cut EQUALS (TrimSpace c) with
    | Some (k, raw) => if decide (k = key) then raw :: field_values key l else field_values key l
    | None => field_values key l
    end.
Proof.
  unfold field_values, fields. simpl. destruct (Cut _ _) as [[k raw]|]; [|done].
  rewrite filter_cons. simpl. by destruct (decide (k = key)).
Qed.

(** What the loop of [parseHeader] returns: the value of the only [t] component,
    and the decoded values of the [v1] components in their order. *)
Lemma parse_components_Ok components t0 sigs0 t sigs :
  parse_components (t0, sigs0) components = Ok (t, sigs) ↔
  (∃ new, sigs = sigs0 ++ new ∧
     Forall2 (λ raw s, hex_decode raw = Some s) (field_values "v1" components) new) ∧
  match t0 with
  | Some _ => field_values "t" components = [] ∧ t = t0
  | None => (field_values "t" components = [] ∧ t = None) ∨
            ∃ raw n, field_values "t" components = [raw] ∧ ParseInt raw = Some n ∧ t = Some (Unix n)
  end.
Proof.
  revert t0 sigs0. induction components as [|c l IH]; intros t0 sigs0.
  - rewrite !field_values_nil. simpl. split.
    + intros [= <- <-]. split; [exists []; rewrite app_nil_r; by split|]. destruct t0; auto.
    + intros [(new & -> & Hn) Ht]. inversion Hn; subst. rewrite app_nil_r.
      destruct t0; [by destruct Ht as [_ ->]|]. destruct Ht as [[_ ->]|(? & ? & ? & _)]; done.
  - rewrite !field_values_cons. cbn [parse_components]. unfold parse_component.
    destruct (Cut EQUALS (TrimSpace c)) as [[k raw]|]; [|apply IH].
    destruct (str_eqb k "t") eqn:Et; [apply str_eqb_true in Et as ->|apply str_eqb_false in Et].
    + rewrite decide_False, decide_True by done. destruct t0 as [t0|].
      { rewrite bool_decide_true by eauto. split; [done|]. by intros [_ [? _]]. }
      rewrite bool_decide_false by apply is_Some_None. cbn [reject mbind result_bind].
      destruct (ParseInt raw) as [n|] eqn:En; cbn [of_option mbind result_bind].
      * rewrite IH. split.
        { intros (Hn & Hl & ->). split; [done|]. right. exists raw, n. by rewrite Hl. }
        { intros (Hn & [[H _]|(raw' & n' & H & Hn' & ->)]); [done|]. split; [done|].
          by simplify_eq. }
      * split; [done|]. intros (_ & [[H _]|(raw' & n' & H & Hn' & _)]); [done|]. simplify_eq.
    + rewrite (decide_False (P := k = "t")) by done.
      destruct (str_eqb k "v1") eqn:Ev; [apply str_eqb_true in Ev as ->|apply str_eqb_false in Ev].
      * rewrite decide_True by done. destruct (hex_decode raw) as [s|] eqn:Es; cbn [of_option mbind result_bind].
        { rewrite IH. split.
          - intros [(new & -> & Hn) Ht]. split; [|done]. exists (s :: new).
            rewrite <-app_assoc. split; [done|by constructor].
          - intros [(new & -> & Hn) Ht]. split; [|done]. inversion Hn as [|? s' ? new' Hs' Hn']; subst.
            simplify_eq. exists new'. by rewrite <-app_assoc. }
        { split; [done|]. intros [(new & _ & Hn) _]. inversion Hn; simplify_eq. }
      * rewrite (decide_False (P := k = "v1")) by done. apply IH.
Qed.

Lemma parseHeader_Ok value t sigs :
  parseHeader value = Ok (t, sigs) ↔
  slen value ≤ 8192 ∧ Z.of_nat (length (Split COMMA value)) ≤ 64 ∧
  (∃ raw n, field_values "t" (Split COMMA value) = [raw] ∧ ParseInt raw = Some n ∧
     t = Unix n ∧ t ≠ zero_time) ∧
  Forall2 (λ raw s, hex_decode raw = Some s) (field_values "v1" (Split COMMA value)) sigs ∧
  sigs ≠ [] ∧ Z.of_nat (length sigs) ≤ 16.
Proof.
  unfold parseHeader. rewrite bind_Ok. setoid_rewrite bind_Ok. setoid_rewrite bind_Ok.
  split.
  - intros ([] & H1%reject_Ok%Z.ltb_ge & [] & H2%reject_Ok%Z.ltb_ge & [t' s'] & H3 & H4).
    apply parse_components_Ok in H3 as [(new & Hs & Hn) Ht]. rewrite app_nil_l in Hs. subst s'.
    go_inv. rename H into Hz, H3 into Hl, H0 into H16.
    unfold IsZero in Hz. apply Z.eqb_neq in Hz. apply Z.eqb_neq in Hl. apply Z.ltb_ge in H16.
    split_and!; [done|done| |done|intros ->; done|done].
    destruct Ht as [[_ ->]|(raw & n & Hf & Hp & ->)]; [done|]. by exists raw, n.
  - intros (H1 & H2 & (raw & n & Hf & Hp & -> & Hz) & Hn & Hne & H16).
    exists tt. split; [by apply reject_Ok, Z.ltb_ge|].
    exists tt. split; [by apply reject_Ok, Z.ltb_ge|].
    exists (Some (Unix n), sigs). split.
    { apply parse_components_Ok. split; [by exists sigs|]. right. by exists raw, n. }
    assert (IsZero (default zero_time (Some (Unix n))) = false) as -> by by apply Z.eqb_neq.
    rewrite (proj2 (Z.ltb_ge 16 _) H16). by destruct sigs.
Qed.

Lemma any_signature_true expected sigs : any_signature expected sigs = true ↔ expected ∈ sigs.
Proof.
  unfold any_signature. rewrite existsb_exists. split.
  - intros (s & Hs & [_ <-%constant_time_eq_true]%andb_true_iff). by apply list_elem_of_In.
  - intros H. exists expected. split; [by apply list_elem_of_In|].
    rewrite Z.eqb_refl. by apply constant_time_eq_true.
Qed.

(** A component of the header. *)
Definition component (key raw : string) : string := key +:+ String EQUALS raw.

(** The header Stripe sends for a timestamp and one signature per active secret. *)
Definition signature_header (n : Z) (signatures : list string) : string :=
  Join "," ((component "t" (FormatInt n)) :: map (λ s, component "v1" (hex_encode s)) signatures).

(** A component made of a key and a value without separators or spaces. *)
Definition component_value (raw : string) : Prop :=
  str_forall (λ c, b64_symbol c && negb (bool_decide (c = chr 61))) raw = true.

Lemma component_plain key raw :
  str_forall plain key = true → contains_byte EQUALS key = false → component_value raw →
  Cut EQUALS (TrimSpace (component key raw)) = Some (key, raw).
Proof.
  intros Hk He Hr. unfold component. rewrite TrimSpace_plain.
  - by apply Cut_Some.
  - rewrite str_forall_app, Hk. simpl. eapply str_forall_impl; [|exact Hr].
    intros c [Hc _]%andb_true_iff. by apply b64_symbol_plain.
Qed.

Lemma component_no_comma key raw :
  contains_byte COMMA key = false → component_value raw →
  contains_byte COMMA (component key raw) = false.
Proof.
  intros Hk Hr. unfold component, contains_byte in *. rewrite str_exists_app, Hk. cbn [str_exists orb].
  change (bool_decide (EQUALS = COMMA)) with false. cbn [orb].
  rewrite str_exists_forall, negb_false_iff. eapply str_forall_impl; [|exact Hr].
  intros c [[_ H]%andb_true_iff _]%andb_true_iff. exact H.
Qed.

Lemma FormatInt_component n : component_value (FormatInt n).
Proof.
  destruct (FormatInt_num n) as [H _]. unfold component_value. eapply str_forall_impl; [|exact H].
  intros c Hc. unfold num_byte, is_digit in Hc. unfold b64_symbol, plain.
  assert (∀ k, ord c ≠ k → 0 ≤ k < 256 → bool_decide (c = chr k) = false) as Hne.
  { intros k Hk Hr. apply bool_decide_eq_false. intros ->. by rewrite ord_chr in Hk. }
  revert Hc. zcase; intros Hc; try done; by rewrite !Hne by lia.
Qed.

Lemma hex_component s : component_value (hex_encode s).
Proof. apply hex_encode_symbols. Qed.

Lemma signature_header_split n sigs :
  Split COMMA (signature_header n sigs) =
    (component "t" (FormatInt n)) :: map (λ s, component "v1" (hex_encode s)) sigs.
Proof.
  apply Split_Join; [done|]. constructor.
  - apply (component_no_comma "t"); [done|apply FormatInt_component].
  - apply Forall_forall. intros x (s & -> & _)%list_elem_of_fmap.
    apply (component_no_comma "v1"); [done|apply hex_component].
Qed.

Lemma signature_components_values sigs :
  field_values "t" (map (λ s, component "v1" (hex_encode s)) sigs) = [] ∧
  field_values "v1" (map (λ s, component "v1" (hex_encode s)) sigs) = map hex_encode sigs.
Proof.
  induction sigs as [|s sigs [IHt IHv]]; [done|]. cbn [map]. rewrite !field_values_cons.
  rewrite (component_plain "v1" (hex_encode s)) by (done || apply hex_component).
  by rewrite decide_False, decide_True, IHt, IHv by done.
Qed.

(** Parsing reads back what was formatted. *)
Lemma parseHeader_signature_header n sigs :
  in_int64 n → Unix n ≠ zero_time → sigs ≠ [] → Z.of_nat (length sigs) ≤ 16 →
  slen (signature_header n sigs) ≤ 8192 →
  parseHeader (signature_header n sigs) = Ok (Unix n, sigs).
Proof.
  intros Hn Hz Hne H16 Hlen. destruct (signature_components_values sigs) as [Ht Hv].
  apply parseHeader_Ok. rewrite signature_header_split, !field_values_cons.
  rewrite (component_plain "t" (FormatInt n)) by (done || apply FormatInt_component).
  rewrite decide_True, decide_False, Ht, Hv by done. split_and!; try done.
  - simpl. rewrite length_map. lia.
  - exists (FormatInt n), n. by rewrite ParseInt_FormatInt.
  - clear. induction sigs as [|s sigs IH]; [constructor|]. constructor; [apply hex_decode_encode|done].
Qed.

Lemma outsideTolerance_false receivedAt timestamp tol :
  0 ≤ tol < int64_max →
  outsideTolerance receivedAt timestamp tol = false ↔ Z.abs (receivedAt - timestamp) ≤ tol.
Proof. apply outsideTolerance_exact. Qed.

(** * Properties *)

(** The time a request was received. *)
Definition received (wall : time) (input : VerifyInput) : time :=
  if IsZero (vi_ReceivedAt input) then wall else vi_ReceivedAt input.

Section properties.
Context (unmarshal : string → go (string * string)).

(** What an accepted request carries. *)
Lemma stripe_Verify_Ok v wall input r :
  st_Tolerance v < int64_max →
  Verify unmarshal (Some v) wall input = Ok r →
  ∃ value raw n sig provider secret,
    h_values (vi_Headers input) HeaderSignature = [value] ∧
    field_values "t" (Split COMMA value) = [raw] ∧ ParseInt raw = Some n ∧ v_Timestamp r = Unix n ∧
    sig ∈ field_values "v1" (Split COMMA value) ∧
    st_Secret v = Some provider ∧ sp_Secret provider = Ok secret ∧ secret ≠ ε ∧
    hex_decode sig = Some (hmac_sha256 secret (FormatInt n +:+ "." +:+ vi_Body input)) ∧
    0 ≤ st_Tolerance v ∧
    (0 < st_Tolerance v → Z.abs (received wall input - Unix n) ≤ st_Tolerance v) ∧
    unmarshal (vi_Body input) = Ok (v_ID r, v_Type r) ∧ id_ok (v_ID r) ∧
    ValidateEventType (v_Type r) = Ok tt.
Proof.
  intros Htol H. unfold Verify in H. go_inv.
  destruct (h_values (vi_Headers input) HeaderSignature) as [|value [|]] eqn:Hv; [done| |done].
  go_inv. repeat match goal with x : _ * _ |- _ => destruct x end. go_inv.
  repeat match goal with x : _ * _ |- _ => destruct x end. go_inv. simplify_eq. simpl.
  repeat match goal with H : parseHeader _ = _ |- _ =>
    apply parseHeader_Ok in H as (_ & _ & (raw & n & Ht & Hp & -> & _) & Hsigs & _ & _) end.
  match goal with H : any_signature _ _ = true |- _ => rename H into Hany end.
  apply any_signature_true, list_elem_of_lookup in Hany as [i Hi].
  destruct (Forall2_lookup_r _ _ _ _ _ Hsigs Hi) as (sig & Hsig & Hhex).
  exists x1, raw, n, sig, x0, x2. split_and!; try done.
  - by eapply list_elem_of_lookup_2.
  - by apply str_eqb_false.
  - rewrite Hhex. unfold signed_content. by rewrite UnixSeconds_Unix by by eapply ParseInt_range.
  - by apply Z.ltb_ge.
  - intros Hpos. apply outsideTolerance_false; [lia|].
    match goal with H : (0 <? _) && _ = false |- _ => rewrite (proj2 (Z.ltb_lt _ _) Hpos) in H; exact H end.
  - by apply ValidateMessageID_iff.
Qed.

(** C28 Soundness of Stripe verification, with a tolerance below the largest duration: a
    request is accepted only when its one Stripe-Signature header has exactly one
    timestamp component, one of its signatures is the HMAC-SHA256 under the configured,
    non-empty secret of that timestamp and of the raw body, and the event's identifier
    and type, read from the signed body, are well-formed; and, when the verifier's
    tolerance is positive, only when the timestamp is within it of the time of receipt (a
    verifier with the tolerance zero, which its constructor does not make, accepts any
    timestamp, and one with a negative tolerance accepts nothing). *)
Theorem stripe_verify_sound v wall input r :
  st_Tolerance v < int64_max →
  Verify unmarshal (Some v) wall input = Ok r →
  ∃ value raw n sig provider secret,
    h_values (vi_Headers input) "Stripe-Signature" = [value] ∧
    field_values "t" (Split COMMA value) = [raw] ∧ ParseInt raw = Some n ∧ v_Timestamp r = Unix n ∧
    sig ∈ field_values "v1" (Split COMMA value) ∧
    st_Secret v = Some provider ∧ sp_Secret provider = Ok secret ∧ secret ≠ ε ∧
    hex_decode sig = Some (hmac_sha256 secret (FormatInt n +:+ "." +:+ vi_Body input)) ∧
    0 ≤ st_Tolerance v ∧
    (0 < st_Tolerance v → Z.abs (received wall input - Unix n) ≤ st_Tolerance v) ∧
    unmarshal (vi_Body input) = Ok (v_ID r, v_Type r) ∧ id_ok (v_ID r) ∧
    ValidateEventType (v_Type r) = Ok tt.
Proof. apply stripe_Verify_Ok. Qed.

(** Completeness of Stripe verification: a header in Stripe's format, with one
    signature for each of up to sixteen active secrets, is accepted under each of
    them while it is fresh, with the identifier and type of the signed event. *)
Lemma stripe_verify_accepts_signed v wall input n secrets provider secret id type :
  in_int64 n → Unix n ≠ zero_time → 0 ≤ st_Tolerance v < int64_max →
  st_Secret v = Some provider → sp_Secret provider = Ok secret → secret ≠ ε →
  secret ∈ secrets → Z.of_nat (length secrets) ≤ 16 →
  let header := signature_header n
    (map (λ k, hmac_sha256 k (FormatInt n +:+ "." +:+ vi_Body input)) secrets) in
  slen header ≤ 8192 → h_values (vi_Headers input) HeaderSignature = [header] →
  Z.abs (received wall input - Unix n) ≤ st_Tolerance v →
  unmarshal (vi_Body input) = Ok (id, type) → id_ok id → ValidateEventType type = Ok tt →
  Verify unmarshal (Some v) wall input =
    Ok {| v_ID := id; v_Type := type; v_Source := "stripe"; v_Timestamp := Unix n; v_Metadata := ∅ |}.
Proof.
  intros Hn Hz Htol Hv Hp Hne Hin H16 header Hlen Hh Hfresh Hj Hid Htype.
  unfold Verify. cbn [of_option mbind result_bind]. rewrite Hv. cbn [of_option mbind result_bind].
  rewrite (proj2 (Z.ltb_ge (st_Tolerance v) 0)) by lia. cbn [reject mbind result_bind].
  rewrite Hh. cbn [mbind result_bind]. unfold header. rewrite parseHeader_signature_header; try done.
  2:{ intros E%map_eq_nil. subst. by apply elem_of_nil in Hin. }
  2:{ by rewrite length_map. }
  fold (received wall input). cbn [mbind result_bind].
  rewrite (proj2 (outsideTolerance_false _ _ _ Htol) Hfresh), andb_false_r.
  cbn [reject mbind result_bind]. rewrite Hp. cbn [map_err mbind result_bind].
  rewrite (proj2 (str_eqb_false secret ε) Hne). cbn [reject mbind result_bind].
  rewrite (proj2 (any_signature_true _ _)).
  2:{ apply list_elem_of_fmap. exists secret. split; [|done].
      unfold signed_content. by rewrite UnixSeconds_Unix. }
  cbn [negb reject mbind result_bind]. rewrite Hj. cbn [map_err mbind result_bind].
  rewrite (proj2 (ValidateMessageID_iff id) Hid), Htype. done.
Qed.
End properties.

(** * Witnesses *)

Definition ex_unmarshal (body : string) : go (string * string) := Ok ("evt_1", "invoice.paid").
Definition ex_stripe : Verifier :=
  {| st_Secret := Some (StaticSecret "current"); st_Tolerance := 5 * Minute |}.
Definition ex_stripe_header : string :=
  signature_header 1700000000
    (map (λ k, hmac_sha256 k (FormatInt 1700000000 +:+ "." +:+ "{}")) ["previous"; "current"]).
Definition ex_stripe_input : VerifyInput :=
  {| vi_Headers := {[HeaderSignature := [ex_stripe_header]]}; vi_Body := "{}";
     vi_ReceivedAt := Unix 1700000100 |}.
Definition ex_stripe_event : Verification :=
  {| v_ID := "evt_1"; v_Type := "invoice.paid"; v_Source := "stripe";
     v_Timestamp := Unix 1700000000; v_Metadata := ∅ |}.

Lemma ex_stripe_verified :
  Verify ex_unmarshal (Some ex_stripe) zero_time ex_stripe_input = Ok ex_stripe_event.
Proof. vm_compute. reflexivity. Qed.

Lemma evt_id_ok : id_ok "evt_1".
Proof. by apply ValidateMessageID_iff. Qed.

Lemma stripe_verify_sound_witness :
  ∃ n secret sig, v_Timestamp ex_stripe_event = Unix n ∧
    hex_decode sig = Some (hmac_sha256 secret (FormatInt n +:+ "." +:+ vi_Body ex_stripe_input)).
Proof.
  destruct (stripe_verify_sound ex_unmarshal ex_stripe zero_time ex_stripe_input ex_stripe_event
    eq_refl ex_stripe_verified) as (value & raw & n & sig & provider & secret & H).
  exists n, secret, sig. destruct H as (_ & _ & _ & Ht & _ & _ & _ & _ & Hs & _). by split.
Defined.

Lemma stripe_verify_accepts_signed_witness :
  Verify ex_unmarshal (Some ex_stripe) zero_time ex_stripe_input = Ok ex_stripe_event.
Proof.
  refine (stripe_verify_accepts_signed ex_unmarshal ex_stripe zero_time ex_stripe_input 1700000000
    ["previous"; "current"] (StaticSecret "current") "current" "evt_1" "invoice.paid"
    _ _ _ eq_refl eq_refl _ _ _ _ _ _ eq_refl evt_id_ok eq_refl).
  - split; vm_compute; discriminate.
  - vm_compute. discriminate.
  - split; [vm_compute; discriminate|vm_compute; reflexivity].
  - discriminate.
  - right. left.
  - vm_compute. discriminate.
  - vm_compute. discriminate.
  - vm_compute. reflexivity.
  - vm_compute. discriminate.
Defined.
