(* ===== verification/Github.v ===== *)
(** src/provider/github/github.go: verification of GitHub webhooks.  The JSON
    decoder is an argument. *)

From S2P Require Import Prelude GoString Codec GoTime Errors Headers Message Auth Receiver Standard.

Definition HeaderDelivery : string := "X-Github-Delivery".
Definition HeaderEvent : string := "X-Github-Event".
Definition HeaderSignature : string := "X-Hub-Signature-256".

(** [Verifier]; [None] is a nil [Secret]. *)
Record Verifier := { gh_Secret : option SecretProvider; gh_IncludeAction : bool }.

Definition NewVerifier (secret : option SecretProvider) : go Verifier :=
  match secret with
  | None => Err (NewError CodeInvalidConfiguration "GitHub webhook secret is required" None)
  | Some _ => Ok {| gh_Secret := secret; gh_IncludeAction := true |}
  end.

(** [single] *)
Definition single (headers : Header) (name : string) : go string :=
  let missing := NewError CodeInvalidSignature
                   "required GitHub webhook header is missing or ambiguous" None in
  match h_values headers name with
  | [value] =>
      if str_eqb (TrimSpace value) ε || contains_any crlfnul value then Err missing
      else Ok (TrimSpace value)
  | _ => Err missing
  end.

Section verifier.
(** [json.Unmarshal] of the body into the envelope: its action. *)
Context (unmarshal : string → go string).

(** The event type and metadata. *)
Definition event_metadata (includeAction : bool) (event body : string) : string * gmap string string :=
  let metadata := {["github_event" := event]} in
  if includeAction then
    match unmarshal body with
    | Ok action =>
        if str_eqb action ε then (event, metadata)
        else (event +:+ "." +:+ action, <["github_action" := action]> metadata)
    | Err _ => (event, metadata)
    end
  else (event, metadata).

(** [Verify]; [None] is a nil verifier. *)
Definition Verify (v : option Verifier) (input : VerifyInput) : go Verification :=
  let unconfigured := NewError CodeInvalidConfiguration "GitHub verifier is not configured" None in
  v ← of_option unconfigured v;
  provider ← of_option unconfigured (gh_Secret v);
  delivery ← single (vi_Headers input) HeaderDelivery;
  _ ← ValidateMessageID delivery;
  event ← single (vi_Headers input) HeaderEvent;
  signature ← single (vi_Headers input) HeaderSignature;
  let format := NewError CodeInvalidSignature "invalid GitHub signature format" None in
  encoded ← of_option format (CutPrefix signature "sha256=");
  _ ← reject (negb (slen encoded =? 64)) format;
  received ← of_option (NewError CodeInvalidSignature "decode GitHub signature"
                          (Some (PlainError "encoding/hex"))) (hex_decode encoded);
  secret ← map_err (λ e, NewError CodeInternal "resolve GitHub webhook secret" (Some e))
             (sp_Secret provider);
  _ ← reject (str_eqb secret ε) (NewError CodeInternal "resolve GitHub webhook secret" None);
  _ ← reject (negb (constant_time_eq received (hmac_sha256 secret (vi_Body input))))
        (NewError CodeInvalidSignature "GitHub signature did not match" None);
  let '(eventType, metadata) := event_metadata (gh_IncludeAction v) event (vi_Body input) in
  _ ← ValidateEventType eventType;
  Ok {| v_ID := delivery; v_Type := eventType; v_Source := "github";
        v_Timestamp := vi_ReceivedAt input; v_Metadata := metadata |}.
End verifier.

(** * Lemmas *)

(** The header [name] is there with one value, which is [v] between spaces, is not empty
    and holds no carriage return, line feed or NUL. *)
Definition lone_header (headers : Header) (name v : string) : Prop :=
  ∃ value, h_values headers name = [value] ∧ v = TrimSpace value ∧ v ≠ ε ∧
    contains_any crlfnul value = false.

Lemma single_Ok headers name v : single headers name = Ok v ↔ lone_header headers name v.
Proof.
  unfold single, lone_header. split.
  - intros H. destruct (h_values headers name) as [|value [|]]; [done| |done].
    exists value. destruct (str_eqb (TrimSpace value) ε) eqn:E; [done|].
    destruct (contains_any crlfnul value) eqn:Ec; [done|]. simpl in H. simplify_eq.
    split_and!; try done. by apply str_eqb_false.
  - intros (value & -> & -> & Hne & ->). by rewrite (proj2 (str_eqb_false _ _) Hne).
Qed.

Lemma single_plain headers name value :
  h_values headers name = [value] → value ≠ ε → str_forall plain value = true →
  single headers name = Ok value.
Proof.
  intros Hv Hne Hp. apply single_Ok. exists value. rewrite TrimSpace_plain by done. split_and!; try done.
  by apply contains_any_crlfnul_control, plain_no_control.
Qed.

(** The signature header GitHub sends. *)
Definition signature_value (secret body : string) : string :=
  "sha256=" +:+ hex_encode (hmac_sha256 secret body).

Lemma signature_value_plain secret body : str_forall plain (signature_value secret body) = true.
Proof.
  unfold signature_value. rewrite str_forall_app. apply andb_true_iff. split; [done|].
  eapply str_forall_impl; [|apply hex_encode_symbols].
  intros c [Hc _]%andb_true_iff. by apply b64_symbol_plain.
Qed.

Lemma event_metadata_type unmarshal b event body :
  (event_metadata unmarshal b event body).1 =
    match unmarshal body with
    | Ok action => if b && negb (str_eqb action ε) then event +:+ "." +:+ action else event
    | Err _ => event
    end ∧
  (event_metadata unmarshal b event body).2 !! "github_event" = Some event.
Proof.
  unfold event_metadata. destruct b, (unmarshal body) as [action|]; try destruct (str_eqb action ε);
    by vm_compute.
Qed.

(** * Properties *)

Section properties.
Context (unmarshal : string → go string).

(** C29 Soundness of GitHub verification: a request is accepted only when its signature
    header X-Hub-Signature-256 is there with one value, sha256= and the hexadecimal
    HMAC-SHA256 of the raw body under the configured, non-empty secret, its identifier is
    valid and the one value of X-GitHub-Delivery, and its type is valid and the one value
    of X-GitHub-Event, extended with a non-empty action read from the body only when the
    verifier includes it.  Each of the values is taken without the spaces around it, and
    holds no carriage return, line feed or NUL. *)
Theorem github_verify_sound v input r :
  Verify unmarshal (Some v) input = Ok r →
  ∃ provider secret encoded event,
    gh_Secret v = Some provider ∧ sp_Secret provider = Ok secret ∧ secret ≠ ε ∧
    lone_header (vi_Headers input) "X-Hub-Signature-256" ("sha256=" +:+ encoded) ∧
    hex_decode encoded = Some (hmac_sha256 secret (vi_Body input)) ∧
    lone_header (vi_Headers input) "X-Github-Delivery" (v_ID r) ∧ id_ok (v_ID r) ∧
    lone_header (vi_Headers input) "X-Github-Event" event ∧
    ValidateEventType (v_Type r) = Ok tt ∧
    (v_Type r = event ∨ ∃ action, gh_IncludeAction v = true ∧ unmarshal (vi_Body input) = Ok action ∧
       action ≠ ε ∧ v_Type r = event +:+ "." +:+ action).
Proof.
  intros H. unfold Verify in H. go_inv.
  match goal with Hx : single _ HeaderEvent = Ok ?e |- _ => rename e into event end.
  destruct (event_metadata unmarshal (gh_IncludeAction x) event (vi_Body input)) as [type metadata] eqn:E.
  pose proof (event_metadata_type unmarshal (gh_IncludeAction x) event (vi_Body input)) as [Htype _].
  rewrite E in Htype. simpl in Htype. go_inv. simplify_eq. simpl.
  repeat match goal with
  | H : CutPrefix _ _ = Some _ |- _ => apply CutPrefix_Some in H as ->
  | H : constant_time_eq _ _ = true |- _ => apply constant_time_eq_true in H as ->
  | H : str_eqb _ ε = false |- _ => apply str_eqb_false in H
  | H : ValidateMessageID _ = _ |- _ => apply ValidateMessageID_iff in H
  | H : single _ _ = Ok _ |- _ => apply single_Ok in H
  end.
  do 4 eexists. split_and!; try done.
  destruct (unmarshal (vi_Body input)) as [action|]; [|by left].
  destruct (gh_IncludeAction x && negb (str_eqb action ε)) eqn:Eb; [right|by left]. go_inv.
  exists action. split_and!; try done. by apply str_eqb_false.
Qed.

(** Completeness of GitHub verification: a request GitHub signed with the
    configured secret is accepted under the delivery's identifier, with the event
    and, when the verifier includes it, the body's action as its type. *)
Lemma github_verify_accepts_signed v input provider secret delivery event :
  gh_Secret v = Some provider → sp_Secret provider = Ok secret → secret ≠ ε →
  h_values (vi_Headers input) HeaderSignature = [signature_value secret (vi_Body input)] →
  h_values (vi_Headers input) HeaderDelivery = [delivery] → str_forall plain delivery = true →
  id_ok delivery → h_values (vi_Headers input) HeaderEvent = [event] →
  event ≠ ε → str_forall plain event = true →
  let action := match unmarshal (vi_Body input) with Ok a => a | Err _ => ε end in
  let type := if gh_IncludeAction v && negb (str_eqb action ε) then event +:+ "." +:+ action else event in
  ValidateEventType type = Ok tt →
  ∃ metadata, Verify unmarshal (Some v) input =
    Ok {| v_ID := delivery; v_Type := type; v_Source := "github";
          v_Timestamp := vi_ReceivedAt input; v_Metadata := metadata |} ∧
    metadata !! "github_event" = Some event.
Proof.
  intros Hv Hp Hne Hs Hd Hdp Hid He Hene Hep action type Htype.
  destruct (event_metadata unmarshal (gh_IncludeAction v) event (vi_Body input)) as [type' metadata] eqn:E.
  pose proof (event_metadata_type unmarshal (gh_IncludeAction v) event (vi_Body input)) as [Ht Hm].
  rewrite E in Ht, Hm. simpl in Ht, Hm. exists metadata. split; [|done].
  assert (type' = type) as ->.
  { rewrite Ht. unfold type, action. destruct (unmarshal (vi_Body input)); [done|]. by rewrite andb_false_r. }
  assert (single (vi_Headers input) HeaderDelivery = Ok delivery) as E1
    by (apply single_plain; [done|apply Hid|done]).
  assert (single (vi_Headers input) HeaderEvent = Ok event) as E2 by by apply single_plain.
  assert (single (vi_Headers input) HeaderSignature = Ok (signature_value secret (vi_Body input))) as E3
    by (apply single_plain; [done|done|apply signature_value_plain]).
  unfold Verify. cbn [of_option mbind result_bind]. rewrite Hv. cbn [of_option mbind result_bind].
  rewrite E1. cbn [mbind result_bind]. rewrite (proj2 (ValidateMessageID_iff _) Hid). cbn [mbind result_bind].
  rewrite E2. cbn [mbind result_bind]. rewrite E3. cbn [mbind result_bind].
  rewrite (proj2 (CutPrefix_Some (signature_value secret (vi_Body input)) _ _) eq_refl). cbn [of_option mbind result_bind].
  rewrite hex_encode_length, hmac_sha256_length. cbn [Z.mul Z.eqb Pos.eqb negb Pos.mul reject mbind result_bind].
  rewrite hex_decode_encode. cbn [of_option mbind result_bind].
  rewrite Hp. cbn [map_err mbind result_bind]. rewrite (proj2 (str_eqb_false _ _) Hne).
  cbn [reject mbind result_bind]. rewrite (proj2 (constant_time_eq_true _ _) eq_refl).
  cbn [negb reject mbind result_bind]. by rewrite E, Htype.
Qed.
End properties.

(** * Witnesses *)

Definition ex_action (body : string) : go string := Ok "opened".
Definition ex_github : Verifier := {| gh_Secret := Some (StaticSecret "current"); gh_IncludeAction := true |}.
Definition ex_github_input : VerifyInput :=
  {| vi_Headers := <[HeaderDelivery := ["72d3162e"]]> (<[HeaderEvent := ["issues"]]>
       {[HeaderSignature := [signature_value "current" "{}"]]});
     vi_Body := "{}"; vi_ReceivedAt := Unix 1700000100 |}.
Definition ex_github_event : Verification :=
  {| v_ID := "72d3162e"; v_Type := "issues.opened"; v_Source := "github";
     v_Timestamp := Unix 1700000100;
     v_Metadata := <["github_action" := "opened"]> {["github_event" := "issues"]} |}.

Lemma ex_github_verified : Verify ex_action (Some ex_github) ex_github_input = Ok ex_github_event.
Proof. vm_compute. reflexivity. Qed.

Lemma github_verify_sound_witness :
  ∃ provider secret encoded event,
    gh_Secret ex_github = Some provider ∧ sp_Secret provider = Ok secret ∧ secret ≠ ε ∧
    lone_header (vi_Headers ex_github_input) "X-Hub-Signature-256" ("sha256=" +:+ encoded) ∧
    hex_decode encoded = Some (hmac_sha256 secret (vi_Body ex_github_input)) ∧
    lone_header (vi_Headers ex_github_input) "X-Github-Delivery" "72d3162e" ∧ id_ok "72d3162e" ∧
    lone_header (vi_Headers ex_github_input) "X-Github-Event" event ∧
    ValidateEventType "issues.opened" = Ok tt ∧
    ("issues.opened" = event ∨ ∃ action, true = true ∧ ex_action "{}" = Ok action ∧
       action ≠ ε ∧ "issues.opened" = event +:+ "." +:+ action).
Proof.
  exact (github_verify_sound ex_action ex_github ex_github_input ex_github_event ex_github_verified).
Defined.

(** A repeated header is refused. *)
Example ex_github_ambiguous :
  is_ok (Verify ex_action (Some ex_github)
    {| vi_Headers := <["X-Github-Delivery" := ["72d3162e"; "72d3162f"]]> (vi_Headers ex_github_input);
       vi_Body := "{}"; vi_ReceivedAt := Unix 1700000100 |}) = false.
Proof. vm_compute. reflexivity. Qed.

Lemma ex_delivery_id_ok : id_ok "72d3162e".
Proof. by apply ValidateMessageID_iff. Qed.

Lemma github_verify_accepts_signed_witness :
  ∃ metadata, Verify ex_action (Some ex_github) ex_github_input =
    Ok {| v_ID := "72d3162e"; v_Type := "issues.opened"; v_Source := "github";
          v_Timestamp := vi_ReceivedAt ex_github_input; v_Metadata := metadata |} ∧
    metadata !! "github_event" = Some "issues".
Proof.
  refine (github_verify_accepts_signed ex_action ex_github ex_github_input (StaticSecret "current")
    "current" "72d3162e" "issues" eq_refl eq_refl _ _ _ eq_refl ex_delivery_id_ok _ _ eq_refl eq_refl);
    try discriminate; vm_compute; reflexivity.
Defined.
