(* ===== verification/ReplayWindow.v ===== *)
(** The replay window: a receiver that keeps accepted identities for longer than twice
    the tolerance of its verifier, over its whole life.

    A receiver (Receiver) in front of a memory guard (Replay) answers any number of
    requests while time passes.  Its verifier is known by one law only, the class
    [FreshVerifier], which the Standard Webhooks and Stripe verifiers satisfy. *)

From S2P Require Import Prelude GoString GoTime Errors Headers Message Stripe Standard Handler Replay Receiver.

(** * Fresh verifiers *)

(** A verifier that accepts a message only within [tolerance] of the time it names. *)
Class FreshVerifier {W} (v : Verifier W) (tolerance : duration) : Prop :=
  fresh_within input w res w' :
    v input w = (Ok res, w') → vi_ReceivedAt input ≠ zero_time →
    Z.abs (vi_ReceivedAt input - v_Timestamp res) ≤ tolerance.

Lemma not_zero_time t : t ≠ zero_time → IsZero t = false.
Proof. intros H. by apply Z.eqb_neq. Qed.

(** The two verifiers whose signatures cover a timestamp, with keys and a wall clock that
    depend on the world, and taking any time. *)
Lemma standard_fresh {W} ed (c : W → VerifierConfig) wall after tolerance :
  0 < tolerance < int64_max → (∀ w, vc_Tolerance (c w) = tolerance) →
  FreshVerifier (verify_in (λ w, Standard.Verify ed (c w) (wall w)) after) tolerance.
Proof.
  intros Htol Hc input w res w' [= Hv _] Hz. rewrite <-(Hc w) in Htol |- *.
  destruct (standard_Verify_Ok _ _ _ _ _ Htol Hv) as
    (u & ts & n & sigs & _ & _ & _ & _ & _ & -> & Hf & _). by rewrite not_zero_time in Hf.
Qed.

Lemma stripe_fresh {W} unmarshal (v : W → Stripe.Verifier) wall after tolerance :
  0 < tolerance < int64_max → (∀ w, st_Tolerance (v w) = tolerance) →
  FreshVerifier (verify_in (λ w, Stripe.Verify unmarshal (Some (v w)) (wall w)) after) tolerance.
Proof.
  intros Htol Hc input w res w' [= Hv _] Hz. rewrite <-(Hc w) in Htol |- *. destruct Htol as [Hpos Htol].
  destruct (stripe_Verify_Ok _ _ _ _ _ Htol Hv) as
    (value & raw & n & sig & provider & secret & _ & _ & _ & -> & _ & _ & _ & _ & _ & _ & Hf & _).
  specialize (Hf Hpos). unfold received in Hf. by rewrite not_zero_time in Hf.
Qed.

(** * What stays in the guard *)

(** Accepted identities that have not expired at [now] are kept. *)
Definition keeps (now : time) (g g' : guard) : Prop :=
  ∀ k e, g_entries g !! k = Some e → ¬ active e → now < e_expiresAt e → g_entries g' !! k = Some e.

Lemma keeps_refl now g : keeps now g g.
Proof. by intros k e. Qed.

Lemma keeps_later t t' g g' : keeps t g g' → t ≤ t' → keeps t' g g'.
Proof. intros Hk Hle k e He Ha Hlt. apply Hk; [done..|lia]. Qed.

Lemma sweep_keeps now g : keeps now g (set_entries g (sweep g now)).
Proof.
  intros k e He Ha Hexp. simpl. unfold sweep. case_match; [|done].
  apply map_lookup_filter_Some_2; [done|]. unfold expired, After. simpl.
  by rewrite (proj2 (Z.ltb_lt _ _) Hexp), andb_false_r.
Qed.

Lemma record_claim_other now g key r g' k e :
  record_claim g now key = (r, g') → k ≠ key → g_entries g !! k = Some e → ¬ active e →
  now < e_expiresAt e → g_entries g' !! k = Some e.
Proof.
  intros Hr Hk He Ha Hexp. pose proof (sweep_keeps now g k e He Ha Hexp) as Hs. simpl in Hs.
  unfold record_claim in Hr. destruct (_ <=? _); injection Hr as _ <-; simpl; [done|].
  by rewrite lookup_insert_ne.
Qed.

(** One pass of [Claim] drops none of them, and a pass that claims is for another
    identity. *)
Lemma claim_pass_keeps g now key r g' :
  claim_pass g now key = (r, g') →
  keeps now g g' ∧
  (r = Claimed → ∀ e, g_entries g !! key = Some e → ¬ active e → e_expiresAt e ≤ now).
Proof.
  unfold claim_pass, active. destruct (g_entries g !! key) as [e0|] eqn:E0.
  - destruct (e_accepted e0) eqn:Ea.
    + unfold After. destruct (Z.ltb_spec now (e_expiresAt e0)).
      * intros [= <- <-]. split; [apply keeps_refl|done].
      * intros Hr. split; [|naive_solver].
        intros k e He Ha Hexp. eapply record_claim_other; [exact Hr|..]; [naive_solver lia| |done..].
        simpl. rewrite lookup_delete_ne by naive_solver lia. done.
    + intros [= <- <-]. split; [apply keeps_refl|done].
  - intros Hr. split; [|done]. intros k e He Ha Hexp.
    eapply record_claim_other; [exact Hr|congruence|done..].
Qed.

(** Settling a claim touches its own key only. *)
Lemma Release_other g key k : k ≠ key → g_entries (Release g key).2 !! k = g_entries g !! k.
Proof.
  intros Hk. unfold Release. destruct (g_entries g !! key) as [e|]; [|done].
  destruct (e_accepted e); simpl; [done|]. by rewrite lookup_delete_ne.
Qed.

Lemma Commit_other g key exp k : k ≠ key → g_entries (Commit g key exp).2 !! k = g_entries g !! k.
Proof.
  intros Hk. unfold Commit. destruct (g_entries g !! key) as [e|]; [|done].
  destruct (e_accepted e); simpl; [done|]. by rewrite lookup_insert_ne.
Qed.

(** * A receiver's life *)

Section life.
Context {A : Type} (now : A → time) (ctx_err : error) (v : Verifier A) (h : Handler A).

(** What a handler accepted: the replay key and the timestamp of each message. *)
Definition receipt_of (m : VerifiedMessage) : string * time :=
  (replay_key (vm_Source m) (vm_ID m), vm_Timestamp m).

(** The handler with a record of the messages it accepted, and the verifier beside it. *)
Definition recording : Handler (A * list (string * time)) := λ m w,
  let '(res, a') := h m w.1 in
  (res, (a', match res with Returned None => w.2 ++ [receipt_of m] | _ => w.2 end)).
Definition unrecorded : Verifier (A * list (string * time)) := λ input w,
  let '(res, a') := v input w.1 in (res, (a', w.2)).

Abbreviation life_state := (guard * (A * list (string * time)))%type.
Context (r : Receiver life_state) (tolerance delay : duration).
Hypothesis Hr : memory_receiver (now ∘ fst) ctx_err unrecorded recording r.
Context `{!FreshVerifier v tolerance}.

(** An instant the clock can show. *)
Definition on_clock (t : time) : Prop := 0 < t ∧ time_sane t.

(** From the time a request is received to the guard's reading of the clock, [delay]
    passes at most. *)
Hypothesis Hdelay : 0 ≤ delay.
Hypothesis Hverify : ∀ input a, on_clock (now a) →
  now a ≤ now (v input a).2 ≤ now a + delay ∧ on_clock (now (v input a).2).
Hypothesis Hhandler : ∀ m a, on_clock (now a) → now a ≤ now (h m a).2 ∧ on_clock (now (h m a).2).

(** Time passes, with whatever else happens to the application's state; or a request is
    served. *)
Inductive life_step : life_state → life_state → Prop :=
| life_pass g a a' log :
    now a ≤ now a' → on_clock (now a') → life_step (g, (a, log)) (g, (a', log))
| life_serve g a log q res w' :
    ServeHTTP r q (g, (a, log)) = (res, w') → life_step (g, (a, log)) w'.

(** ** One request *)

Lemma clock_reads w : r_clock r w = (now w.2.1, w).
Proof. apply (mr_clock _ _ _ _ _ Hr). Qed.
Lemma guard_is : r_replayGuard r = Some (memory_guard (now ∘ fst) ctx_err).
Proof. apply (mr_guard _ _ _ _ _ Hr). Qed.
Lemma handler_is : r_handler r = app_handler recording.
Proof. apply (mr_handler _ _ _ _ _ Hr). Qed.

(** Verification takes time and leaves the guard and the record alone. *)
Lemma admit_message_life q body at_ g a log res w' :
  on_clock (now a) → admit_message r q body at_ (g, (a, log)) = (res, w') →
  ∃ a1, w' = (g, (a1, log)) ∧ now a ≤ now a1 ≤ now a + delay ∧ on_clock (now a1) ∧
    ∀ m, res = Ok m → at_ ≠ zero_time → Z.abs (at_ - vm_Timestamp m) ≤ tolerance.
Proof.
  intros Hc H. destruct (admit_guard _ _ _ _ _ Hr _ _ _ _ _ _ _ H) as (-> & Hw & _).
  unfold unrecorded in Hw. simpl in Hw.
  set (input := {| vi_Headers := _; vi_Body := _; vi_ReceivedAt := _ |}) in Hw.
  exists (v input a).2. destruct (Hverify input a Hc) as [Ht Hc']. split_and!; try apply Ht; try done.
  - rewrite Hw. by destruct (v input a).
  - intros m -> Hz. destruct (admit_message_Ok _ _ _ _ _ _ _ H) as (_ & ver & Hv & ->). simpl.
    rewrite (mr_verifier _ _ _ _ _ Hr) in Hv. unfold app_verifier, unrecorded in Hv. simpl in Hv.
    fold input in Hv. destruct (v input a) as [ver' a'] eqn:Ev. injection Hv as -> _.
    by apply (fresh_within input a ver a').
Qed.

(** Processing touches the guard at the claimed key only. *)
Lemma process_others m g a res w' k :
  process r m (g, a) = (res, w') → k ≠ replay_key (vm_Source m) (vm_ID m) →
  g_entries w'.1 !! k = g_entries g !! k.
Proof.
  intros Hp Hk. unfold process, handle in Hp. rewrite guard_is, handler_is in Hp.
  unfold app_handler in Hp. simpl in Hp.
  pose proof (Release_other g _ k Hk) as Hrel. destruct (recording m a) as [[[err|]|panic] a']; simpl in Hp.
  - destruct (Release g _) as [[[]|er] g2]; injection Hp as _ <-; exact Hrel.
  - rewrite clock_reads in Hp. simpl in Hp.
    pose proof (Commit_other g _ (Add (now a'.1) (r_replayTTL r)) k Hk) as Hcom.
    destruct (Commit g _ _) as [[[]|er] g2]; injection Hp as _ <-; exact Hcom.
  - destruct (Release g _) as [[[]|er] g2]; injection Hp as _ <-; exact Hrel.
Qed.

(** What a claim of the guard leaves: acceptances that had not expired, and, when the
    identity is claimed, none of it that had not. *)
Lemma memory_claim_keeps source id exp g (b : A * list (string * time)) res w :
  rg_Claim (memory_guard (now ∘ fst) ctx_err) source id exp (g, b) = (res, w) →
  keeps (now b.1) g w.1 ∧
  (res = Ok true → ∀ e, g_entries g !! replay_key source id = Some e → ¬ active e → e_expiresAt e ≤ now b.1).
Proof.
  simpl. destruct (claim_pass g (now b.1) _) as [r' g3] eqn:E.
  destruct (claim_pass_keeps _ _ _ _ _ E) as [Hk Hc]. destruct r'; intros [= <- <-]; simpl; auto; by split.
Qed.

(** What a request does: the clock and the guard go forward, and the record grows by
    the message of a fresh claim whose acceptance is then in the guard. *)
Definition accepted_now (t : time) (g : guard) (x : string * time) (g' : guard) (t' : time) : Prop :=
  t ≤ t' ∧ Z.abs (t - x.2) ≤ tolerance ∧
  (∀ e, g_entries g !! x.1 = Some e → ¬ active e → e_expiresAt e ≤ t + delay) ∧
  ∃ e, g_entries g' !! x.1 = Some e ∧ ¬ active e ∧ e_expiresAt e = Add t' (r_replayTTL r).

Lemma claimed_processed m g g2 a log res g' a' log' :
  guard_wf g2 → (∀ k, has_active g2 k ↔ k = replay_key (vm_Source m) (vm_ID m)) → on_clock (now a) →
  keeps (now a) g g2 →
  (∀ e, g_entries g !! replay_key (vm_Source m) (vm_ID m) = Some e → ¬ active e → e_expiresAt e ≤ now a) →
  process r m (g2, (a, log)) = (res, (g', (a', log'))) →
  guard_wf g' ∧ idle g' ∧ keeps (now a) g g' ∧ now a ≤ now a' ∧ on_clock (now a') ∧
  (log' = log ∨ log' = log ++ [receipt_of m] ∧
     ∃ e, g_entries g' !! (receipt_of m).1 = Some e ∧ ¬ active e ∧ e_expiresAt e = Add (now a') (r_replayTTL r)).
Proof.
  intros Hwf2 Hcase Ht Hk2 Hexp Hs.
  pose proof (λ k, process_others m g2 (a, log) res _ k Hs) as Ho.
  destruct (process_memory _ _ _ _ _ Hr m g2 (a, log) res _ Hwf2 Hcase Hs) as (Hwf' & Hidle' & Hw & Hok).
  simpl in *. destruct (Hhandler m a Ht) as [Hle Hc'].
  unfold recording in Hw, Hok. simpl in Hw, Hok. destruct (h m a) as [o a1] eqn:Eh. simpl in Hw, Hok, Hle, Hc'.
  injection Hw as -> ->. split_and!; auto.
  - intros k e He Ha Hlt. destruct (decide (k = replay_key (vm_Source m) (vm_ID m))) as [->|Hne].
    { specialize (Hexp e He Ha). lia. }
    rewrite Ho by done. by apply Hk2.
  - destruct o as [[err|]|panic]; [by left| |by left]. right.
    split; [done|]. destruct (Hok eq_refl) as (_ & e & He & Ha & Hx). by exists e.
Qed.

Lemma served_spec q g a log res g' a' log' :
  guard_wf g → idle g → on_clock (now a) → ServeHTTP r q (g, (a, log)) = (res, (g', (a', log'))) →
  guard_wf g' ∧ idle g' ∧ keeps (now a') g g' ∧ now a ≤ now a' ∧ on_clock (now a') ∧
  (log' = log ∨ ∃ x, log' = log ++ [x] ∧ accepted_now (now a) g x g' (now a')).
Proof.
  intros Hwf Hidle Ht Hs.
  destruct (ServeHTTP_cases r q (g, (a, log))) as [(resp & w & E & Hrefused)|(at_ & w1 & m & w2 & Hc & Hm)].
  { rewrite E in Hs. injection Hs as _ ->.
    destruct Hrefused as [[[= -> -> ->] _]|(body & at_ & w1 & e & _ & _ & Hc & Ha & _)].
    { split_and!; auto using keeps_refl, Z.le_refl. }
    rewrite clock_reads in Hc. injection Hc as _ <-.
    destruct (admit_message_life _ _ _ _ _ _ _ _ Ht Ha) as (a1 & [= -> -> ->] & Hd & Hc1 & _).
    split_and!; auto using keeps_refl; lia. }
  rewrite (ServeHTTP_delivers _ _ _ _ _ _ _ Hc Hm), guard_is in Hs.
  rewrite clock_reads in Hc. injection Hc as <- <-. destruct Hm as (_ & body & _ & Ha).
  destruct (admit_message_life _ _ _ _ _ _ _ _ Ht Ha) as (a1 & -> & Hd & Hc1 & Hfresh).
  destruct (rg_Claim (memory_guard (now ∘ fst) ctx_err) _ _ _ _) as [cr [g2 w2]] eqn:Ec.
  destruct (memory_claim _ _ _ _ _ _ _ _ _ Hwf Hidle Ec) as (Hwf2 & Ha2 & Hcase).
  destruct (memory_claim_keeps _ _ _ _ _ _ _ Ec) as [Hk2 Hexp].
  simpl in Ha2, Hwf2, Hcase, Hk2, Hexp. subst w2.
  destruct cr as [[]|er].
  - specialize (Hexp eq_refl).
    destruct (claimed_processed m g g2 a1 log res g' a' log' Hwf2 Hcase Hc1 Hk2 Hexp Hs)
      as (Hwf' & Hidle' & Hk' & Hle & Hc' & Hlog).
    split_and!; auto; [by eapply keeps_later|lia|].
    destruct Hlog as [->|(-> & Hin)]; [by left|right]. exists (receipt_of m). split; [done|].
    split_and!; [lia| | |done].
    + apply Hfresh; [done|]. unfold on_clock, zero_time in *. lia.
    + intros e He Hae. specialize (Hexp e He Hae). lia.
  - injection Hs as _ <- <- <-. destruct Hcase as [-> _].
    split_and!; auto using keeps_refl; lia.
  - injection Hs as _ <- <- <-. split_and!; auto; lia.
Qed.

(** ** The invariant of the life *)

(** No recorded message can be accepted again: it is too old, or still in the guard. *)
Definition shut (t : time) (g : guard) (x : string * time) : Prop :=
  x.2 + tolerance < t ∨
  ∃ e, g_entries g !! x.1 = Some e ∧ ¬ active e ∧ x.2 + tolerance + delay < e_expiresAt e.

Lemma shut_forward t t' g g' x : t ≤ t' → keeps t' g g' → shut t g x → shut t' g' x.
Proof.
  intros Hle Hk [H|(e & He & Ha & Hx)]; [left; lia|].
  destruct (Z.ltb_spec t' (e_expiresAt e)); [|left; lia]. right. exists e. by split_and!; [apply Hk|..].
Qed.

Record life_inv (w : life_state) : Prop := {
  li_guard : guard_wf w.1;
  li_idle : idle w.1;
  li_clock : on_clock (now w.2.1);
  li_shut : Forall (shut (now w.2.1) w.1) w.2.2;
  li_once : NoDup w.2.2
}.

Hypothesis Hwindow : 2 * tolerance + delay < r_replayTTL r.
Hypothesis Httl : in_int64 (r_replayTTL r).

Lemma life_inv_step w w' : life_inv w → life_step w w' → life_inv w'.
Proof.
  intros [Hwf Hidle Hc Hshut Honce] Hstep. destruct Hstep as [g a a' log Hle Hc'|g a log q res [g' [a' log']] Hs];
    simpl in *.
  - constructor; simpl; try done. eapply Forall_impl; [exact Hshut|].
    intros x. by apply shut_forward; [|apply keeps_refl].
  - destruct (served_spec _ _ _ _ _ _ _ _ Hwf Hidle Hc Hs) as (Hwf' & Hidle' & Hk & Hle & Hc' & Hlog).
    assert (Forall (shut (now a') g') log) as Hshut'.
    { eapply Forall_impl; [exact Hshut|]. intros x. by apply shut_forward. }
    constructor; simpl; try done.
    + destruct Hlog as [->|(x & -> & _ & Hf & _ & e & He & Ha & Hx)]; [done|]. apply Forall_app. split; [done|].
      apply Forall_singleton. right. exists e. split_and!; [done..|]. rewrite Hx.
      rewrite time_sane_add by (done || apply Hc'). lia.
    + destruct Hlog as [->|(x & -> & _ & Hf & Hexp & _)]; [done|]. apply NoDup_app. split_and!; [done| |apply NoDup_singleton].
      intros y Hy ->%list_elem_of_singleton. rewrite Forall_forall in Hshut.
      destruct (Hshut _ Hy) as [Hold|(e & He & Ha & Hx)]; [lia|]. specialize (Hexp e He Ha). lia.
Qed.

Lemma life_start maxEntries a : on_clock (now a) → life_inv (NewMemoryReplayGuard maxEntries, (a, [])).
Proof.
  intros Hc. constructor; simpl; [exact (si_guard _ (initial_inv maxEntries))| |done|constructor|constructor].
  intros k e. simpl. by rewrite lookup_empty.
Qed.

Lemma life_inv_reachable w w' : life_inv w → rtc life_step w w' → life_inv w'.
Proof. intros Hi. induction 1; eauto using life_inv_step. Qed.

(** C5 No message is handled twice: over the whole life of a receiver in front of its
    memory guard - any sequence of requests, valid, forged or replayed, served one after
    the other with any time between them, with handlers that take their time, fail or
    panic - no two successful runs of the handler are for the same source, identifier
    and signed timestamp.  The verifier accepts messages within its tolerance of the
    time they were received, and takes at most [delay] from then to the guard's reading
    of the clock; accepted identities are kept for longer than twice the tolerance and
    that delay; the clock shows positive times within the range of time.Time and does
    not run backwards. *)
Theorem replayed_message_handled_once maxEntries a w' :
  on_clock (now a) → rtc life_step (NewMemoryReplayGuard maxEntries, (a, [])) w' → NoDup w'.2.2.
Proof. intros Hc Hsteps. eapply li_once, life_inv_reachable; [by apply life_start|done]. Qed.
End life.
