(* ===== verification/Apps.v ===== *)
(** src/examples: the two programs that put the library together, a sender of one
    invoice event and a receiver of such events, and what they do to each other.

    The payload's JSON text and its readings are arguments, as are the parts of the
    standard library that Sender names; [log.Fatal] ends a program with an error. *)

From S2P Require Import Prelude GoString GoTime Errors Transport Headers Message Outcome Handler Auth Replay.
From S2P Require Import ReplayWindow Receiver Standard Sender.

(** The secret's variable, read by both programs. *)
Definition secret_variable : string := "HOOKBOUND_SECRET".

(** * send/main.go *)

Section send.
Context {RoundTripper RedirectFn Proxy DialerRest TLSRest : Type}.
Context (DefaultResolver : Resolver) (NewTransport : Policy Proxy DialerRest TLSRest → RoundTripper)
  (ParseTime : string → option time) `{HeaderOrder} (url_Parse : string → go URL).

(** [transport.Policy{}] *)
Definition zero_policy : Policy Proxy DialerRest TLSRest :=
  {| AllowPlainHTTP := false; AllowAnyPort := false; AllowedPorts := ∅; AllowedCIDRs := [];
     p_Resolver := None; p_Proxy := None; p_Dialer := None; p_TLSConfig := None; DialTimeout := 0;
     TLSHandshakeTimeout := 0; ResponseHeaderTimeout := 0; IdleConnTimeout := 0; MaxIdleConns := 0;
     MaxIdleConnsPerHost := 0 |}.

(** [hookbound.SenderConfig{Signer: signer}] *)
Definition signer_config (signer : Signer) : @SenderConfig RoundTripper RedirectFn Proxy DialerRest TLSRest :=
  {| sc_Signer := Some signer; sc_Authenticator := None; sc_NetworkPolicy := zero_policy;
     sc_UnsafeHTTPClient := None; sc_Clock := None; sc_IDGenerator := None; sc_Classifier := None;
     sc_Timeout := 0; sc_MaxResponseBytes := 0; sc_UserAgent := ε |}.

Definition invoice_event : string := "invoice.paid.v1".

Definition invoice_request (body : string) : SendRequest :=
  {| sr_ID := ε; sr_URL := "https://customer.example/webhooks"; sr_EventType := invoice_event;
     sr_Body := body; sr_ContentType := ε; sr_Headers := ∅; sr_Auth := None |}.

(** The line printed about a result. *)
Definition sent_line (r : AttemptResult) : string :=
  "message=" +:+ ar_MessageID r +:+ " outcome=" +:+ Outcome_String (ar_Outcome r) +:+
  " status=" +:+ FormatInt (ar_StatusCode r).

(** The sender and the body, made before anything is sent. *)
Definition send_setup (Getenv : string → string) (encoded : go string)
    : go (@Sender RoundTripper RedirectFn Proxy DialerRest TLSRest * string) :=
  keys ← StaticHMACKeys [Getenv secret_variable];
  signer ← NewHMACSigner (Some keys);
  sender ← NewSender DefaultResolver NewTransport ParseTime (signer_config signer);
  body ← JSONBody encoded;
  Ok (sender, body).

(** [main]: the requests given to the HTTP client, and the line printed or the error
    the program dies of. *)
Definition send_main (Getenv : string → string) (encoded : go string)
    (e : @environment RoundTripper RedirectFn) : list HTTPRequest * go string :=
  match send_setup Getenv encoded with
  | Err er => ([], Err er)
  | Ok (sender, body) =>
      let '(calls, (result, err)) := Send DefaultResolver url_Parse (Some sender) e (invoice_request body) in
      (calls, match err with Some er => Err er | None => Ok (sent_line result) end)
  end.
End send.

(** * receive/main.go *)

(** [invoicePaid] *)
Record invoicePaid := { ip_Type : string; ip_InvoiceID : string }.

(** The program's surroundings: the system clock, and the lines logged so far. *)
Record process_state := { ps_now : time; ps_log : list string }.

Definition log_line (line : string) (a : process_state) : process_state :=
  {| ps_now := ps_now a; ps_log := ps_log a ++ [line] |}.

(** [http.Server], without its handler; the routes of the mux; what a client's request
    to a path is answered. *)
Record Server := {
  sv_Addr : string; sv_ReadHeaderTimeout : duration; sv_ReadTimeout : duration;
  sv_WriteTimeout : duration; sv_IdleTimeout : duration
}.

Definition example_server : Server :=
  {| sv_Addr := ":8080"; sv_ReadHeaderTimeout := 5 * Second; sv_ReadTimeout := 15 * Second;
     sv_WriteTimeout := 15 * Second; sv_IdleTimeout := 60 * Second |}.

Section receive.
Context (json_type : EventTypeExtractor) (unmarshal : string → go invoicePaid).
(** The error of a request's context, for a claim that would wait. *)
Context (ctx_err : error).
(** How long a verification takes that begins at a given time. *)
Context (spends : time → duration).

(** The state a verification leaves. *)
Definition after_verification (_ : VerifyInput) (a : process_state) : process_state :=
  {| ps_now := ps_now a + spends (ps_now a); ps_log := ps_log a |}.

Definition invoice_handler (m : Handler.Message invoicePaid) (a : process_state)
    : outcome_of_call * process_state :=
  (Returned None,
   log_line ("verified invoice " +:+ ip_InvoiceID (m_Data _ m) +:+ " from " +:+ m_Source _ m) a).

(** The clock of the receiver and of its guard. *)
Definition process_clock (w : guard * process_state) : time * (guard * process_state) := (ps_now w.2, w).

(** The receiver [main] makes, with the guard it starts from. *)
Definition receive_setup (Getenv : string → string) : go (Receiver (guard * process_state) * guard) :=
  keys ← StaticHMACKeys [Getenv secret_variable];
  verifier ← NewHMACVerifier json_type (Some keys);
  registry ← HandleJSON unmarshal (Some NewRegistry) invoice_event (Some invoice_handler);
  receiver ← NewReceiver process_clock
    {| rc_Verifier := Some (app_verifier (verify_in (λ _, Verify (λ _ _ _, false) verifier zero_time) after_verification));
       rc_Handler := Some (app_handler (Registry_Handle registry));
       rc_ReplayGuard := Some (memory_guard ps_now ctx_err);
       rc_Clock := None; rc_MaxBodyBytes := 0; rc_ReplayTTL := 0; rc_SuccessStatus := 0;
       rc_ErrorResponder := None |};
  Ok (receiver, NewMemoryReplayGuard 10000).

(** The mux of [main] for a clean path: the pattern names the method and the path. *)
Definition mux (receiver : Receiver (guard * process_state)) (path : string) (q : Receiver.Request)
    (w : guard * process_state) : served * (guard * process_state) :=
  if negb (str_eqb path "/webhooks") then (Responded (http_error ∅ "404 page not found" 404), w)
  else if negb (str_eqb (rq_Method q) "POST") then
    (Responded (http_error (h_set ∅ "Allow" "POST") "Method Not Allowed" 405), w)
  else ServeHTTP receiver q w.

(** The requests the server is sent, one after the other: each has the time it arrives at
    and its path. *)
Definition arrival : Type := time * string * Receiver.Request.

Definition at_time (t : time) (w : guard * process_state) : guard * process_state :=
  (w.1, {| ps_now := t; ps_log := ps_log w.2 |}).

Fixpoint serve_all (receiver : Receiver (guard * process_state)) (requests : list arrival)
    (w : guard * process_state) : list served * (guard * process_state) :=
  match requests with
  | [] => ([], w)
  | (t, path, q) :: requests' =>
      let '(answer, w1) := mux receiver path q (at_time t w) in
      let '(answers, w2) := serve_all receiver requests' w1 in (answer :: answers, w2)
  end.

(** [main]: the error it dies of before listening, or the answers and the state they
    leave. *)
Definition receive_main (Getenv : string → string) (requests : list arrival) (a : process_state)
    : go (list served * process_state) :=
  '(receiver, g) ← receive_setup Getenv;
  let '(answers, w) := serve_all receiver requests (g, a) in Ok (answers, w.2).
End receive.

(** * Lemmas *)

Lemma StaticHMACKeys_one secret keys :
  StaticHMACKeys [secret] = Ok keys → ∃ key, ParseHMACSecret secret = Ok key ∧ keys = Ok [key].
Proof.
  unfold StaticHMACKeys. simpl. intros H. go_inv.
  match goal with H : ParseHMACSecret _ = Ok ?k |- _ => by exists k end.
Qed.

Section send_lemmas.
Context {RoundTripper RedirectFn Proxy DialerRest TLSRest : Type}.
Context (DefaultResolver : Resolver) (NewTransport : Policy Proxy DialerRest TLSRest → RoundTripper)
  (ParseTime : string → option time) `{HeaderOrder} (url_Parse : string → go URL).
Abbreviation environment_of := (@environment RoundTripper RedirectFn).

(** The sender of the program signs with the key of the variable, at the system time,
    and runs no authenticator. *)
Lemma send_setup_Ok Getenv encoded s body :
  send_setup (RedirectFn := RedirectFn) DefaultResolver NewTransport ParseTime Getenv encoded = Ok (s, body) →
  ∃ key, ParseHMACSecret (Getenv secret_variable) = Ok key ∧
    s_signer s = HMACSigner_Sign (Some (Ok [key])) ∧ s_clock s = env_now ∧
    s_ids s = RandomIDGenerator env_entropy None ∧ s_authenticator s = None.
Proof.
  unfold send_setup. intros Hs. apply bind_Ok in Hs as (keys & Hk & Hs).
  apply StaticHMACKeys_one in Hk as (key & Hkey & ->). apply bind_Ok in Hs as (signer & [= <-] & Hs).
  apply bind_Ok in Hs as (sender & Hsender & Hs). go_inv. exists key.
  unfold NewSender in Hsender. simpl in Hsender. injection Hsender as <-. by split_and!.
Qed.

(** The one request of a run that sends: its body is the payload, and it has no
    content encoding. *)
Lemma send_main_Ok Getenv encoded (e : environment_of) req printed :
  send_main DefaultResolver NewTransport ParseTime url_Parse Getenv encoded e = ([req], printed) →
  ∃ s body r err, send_setup (RedirectFn := RedirectFn) DefaultResolver NewTransport ParseTime Getenv encoded = Ok (s, body) ∧
    Send DefaultResolver url_Parse (Some s) e (invoice_request body) = ([req], (r, err)) ∧
    printed = match err with Some er => Err er | None => Ok (sent_line r) end.
Proof.
  unfold send_main. destruct (send_setup _ _ _ _ _) as [[s body]|er] eqn:Es; [|done].
  destruct (Send _ _ _ _ _) as [calls [r err]] eqn:E. intros [= -> <-]. by exists s, body, r, err.
Qed.

Lemma sent_headers (s : @Sender RoundTripper RedirectFn Proxy DialerRest TLSRest) (e : environment_of) body req rest :
  s_authenticator s = None → (∃ keys, s_signer s = HMACSigner_Sign (Some (Ok keys))) →
  Send DefaultResolver url_Parse (Some s) e (invoice_request body) = ([req], rest) →
  hr_Method req = "POST" ∧ hr_Body req = body ∧
  h_values (hr_Header req) "Content-Encoding" = [].
Proof.
  intros Ha [keys Hsig] Hs. unfold Send in Hs.
  destruct (checked_id _ _ _ _ _) as [id|er]; [|done].
  destruct (build_request s e _ id) as [req'|er] eqn:Eb; [|done]. injection Hs as -> _.
  apply build_request_Ok in Eb as (h0 & sh & h2 & Hh0 & Hsh & Hc & Hh).
  unfold effective_auth in Hh. rewrite Ha in Hh. simpl in Hh. rewrite Hh.
  split_and!; [done|done|]. simpl.
  rewrite Hsig in Hsh. apply HMACSigner_Sign_Ok in Hsh as (id' & ts & sigs & ->).
  assert (h0 = ∅) as ->.
  { unfold copyHeaders in Hh0. go_inv. assert (range_header ∅ = []) as ->; [|done].
    apply Permutation_nil_r. by rewrite range_header_perm, map_to_list_empty. }
  rewrite (signature_headers_others url_Parse _ _ _ _ _ _ Hc); [reflexivity|].
  apply (bool_decide_unpack _). by vm_compute.
Qed.
End send_lemmas.

(** The request of [req] as the server sees it: headers that a transport adds do not
    matter. *)
Record arrives (req : HTTPRequest) (q : Receiver.Request) : Prop := {
  av_method : rq_Method q = hr_Method req;
  av_length : rq_ContentLength q = slen (hr_Body req);
  av_body : rq_Body q = Some {| rd_data := hr_Body req; rd_err := None |};
  av_header name : name ∈ ["Content-Encoding"; HeaderID; HeaderTimestamp; HeaderSignature] →
    h_values (rq_Header q) name = h_values (hr_Header req) name
}.

Section receive_lemmas.
Context (decode : string → go string) (trailing : string → option (option error)).
Context (unmarshal : string → go invoicePaid) (ctx_err : error) (spends : time → duration).
Abbreviation json_type := (JSONTypeField decode trailing).

(** The verifier and the registry of the program. *)
Definition example_verifier (key : string) : VerifierConfig :=
  {| vc_HMACKeys := Some (Ok [key]); vc_PublicKeys := None; vc_Tolerance := 5 * Minute;
     vc_Source := "standard-webhooks"; vc_ExtractType := Some json_type; vc_AllowNoType := false |}.

Definition example_handler : Handler process_state :=
  Registry_Handle {| reg_handlers := {[invoice_event := json_handler unmarshal invoice_handler]};
                     reg_any := None |}.

Definition example_process_verifier (key : string) : Receiver.Verifier process_state :=
  verify_in (λ _, Verify (λ _ _ _, false) (example_verifier key) zero_time) (after_verification spends).

Definition example_receiver (key : string) : Receiver (guard * process_state) :=
  {| r_verifier := app_verifier (example_process_verifier key);
     r_handler := app_handler example_handler; r_replayGuard := Some (memory_guard ps_now ctx_err);
     r_clock := process_clock; r_maxBody := 1048576; r_replayTTL := 10 * Minute; r_successStatus := 204;
     r_respondError := defaultErrorResponder |}.

Lemma receive_setup_is Getenv key :
  ParseHMACSecret (Getenv secret_variable) = Ok key →
  receive_setup json_type unmarshal ctx_err spends Getenv = Ok (example_receiver key, NewMemoryReplayGuard 10000).
Proof.
  intros Hk. unfold receive_setup, StaticHMACKeys. simpl. rewrite Hk. reflexivity.
Qed.

Lemma example_memory key :
  memory_receiver ps_now ctx_err (example_process_verifier key) example_handler (example_receiver key).
Proof. by constructor. Qed.

(** The message a request of the sender carries for the receiver. *)
Definition invoice_message (id : string) (sent : time) (body : string) (h : Header) : VerifiedMessage :=
  {| vm_ID := id; vm_Type := invoice_event; vm_Source := "standard-webhooks"; vm_Timestamp := sent;
     vm_Body := body; vm_ContentType := h_get h "Content-Type"; vm_Headers := h; vm_Metadata := ∅ |}.

Lemma invoice_handled id sent body h inv a :
  unmarshal body = Ok inv →
  example_handler (invoice_message id sent body h) a =
    (Returned None, log_line ("verified invoice " +:+ ip_InvoiceID inv +:+ " from standard-webhooks") a).
Proof.
  intros Hu. unfold example_handler, Registry_Handle, dispatch. cbn [reg_handlers invoice_message vm_Type].
  rewrite lookup_singleton_eq. unfold json_handler. simpl. by rewrite Hu.
Qed.

Lemma invoice_delivers key req q id sent t g a :
  hr_Method req = "POST" → h_values (hr_Header req) "Content-Encoding" = [] →
  slen (hr_Body req) ≤ 1048576 → arrives req q →
  Verify (λ _ _ _, false) (example_verifier key) zero_time
    {| vi_Headers := hr_Header req; vi_Body := hr_Body req; vi_ReceivedAt := t |} =
    Ok {| v_ID := id; v_Type := invoice_event; v_Source := "standard-webhooks"; v_Timestamp := sent;
          v_Metadata := ∅ |} →
  delivers (example_receiver key) q t (g, a) (invoice_message id sent (hr_Body req) (rq_Header q))
    (g, {| ps_now := ps_now a + spends (ps_now a); ps_log := ps_log a |}).
Proof.
  intros Hm He Hlen [Hqm Hql Hqb Hqh] Hv. split; [split_and!|].
  - by rewrite Hqm.
  - left. unfold h_get. rewrite Hqh by set_solver. by rewrite He.
  - simpl. by rewrite Hql.
  - exists (hr_Body req). rewrite Hqb. split; [apply readBounded_small; [by vm_compute|done]|].
    assert (id_ok id) as Hid.
    { apply standard_Verify_Ok in Hv as (u & ts & n & sigs & _ & _ & Hid & _); [done|by vm_compute]. }
    unfold admit_message. cbn [r_verifier example_receiver]. unfold app_verifier, example_process_verifier, verify_in.
    cbn [fst snd].
    rewrite (Verify_headers_ext _ _ _ (rq_Header q) (hr_Header req)), Hv; [|set_solver|].
    + cbn [mbind result_bind]. unfold VerifiedMessage_Validate, verified_message. cbn [vm_ID vm_Type vm_Source v_ID v_Type v_Source].
      by rewrite (proj2 (ValidateMessageID_iff id) Hid).
    + intros extract [= <-]. done.
Qed.
End receive_lemmas.

(** * Properties *)

Section programs.
Context {RoundTripper RedirectFn Proxy DialerRest TLSRest : Type}.
Context (DefaultResolver : Resolver) (NewTransport : Policy Proxy DialerRest TLSRest → RoundTripper)
  (ParseTime : string → option time) `{HeaderOrder} (url_Parse : string → go URL).
Context (decode : string → go string) (trailing : string → option (option error)).
Context (unmarshal : string → go invoicePaid) (ctx_err : error) (spends : time → duration).

(** What the receiving program's verifier makes of the request the sending one sends. *)
Lemma sent_invoice_verifies Getenv encoded (e : @environment RoundTripper RedirectFn) req printed :
  send_main DefaultResolver NewTransport ParseTime url_Parse Getenv encoded e = ([req], printed) →
  decode (hr_Body req) = Ok invoice_event → trailing (hr_Body req) = None →
  ∃ key id, ParseHMACSecret (Getenv secret_variable) = Ok key ∧
    hr_Method req = "POST" ∧ h_values (hr_Header req) "Content-Encoding" = [] ∧
    ∀ t, t ≠ 0 → Z.abs (t - Unix (UnixSeconds (env_now e))) ≤ 5 * Minute →
      Verify (λ _ _ _, false) (example_verifier decode trailing key) zero_time
        {| vi_Headers := hr_Header req; vi_Body := hr_Body req; vi_ReceivedAt := t |} =
      Ok {| v_ID := id; v_Type := invoice_event; v_Source := "standard-webhooks";
            v_Timestamp := Unix (UnixSeconds (env_now e)); v_Metadata := ∅ |}.
Proof.
  intros Hmain Hd Htr. apply send_main_Ok in Hmain as (s & body & r & err & Hset & Hsend & _).
  apply send_setup_Ok in Hset as (key & Hkey & Hsig & Hclk & _ & Hauth).
  destruct (sent_headers DefaultResolver url_Parse s e body req _ Hauth (ex_intro _ _ Hsig) Hsend) as (Hm & Hb & He).
  exists key, (ar_MessageID r). split_and!; [done..|]. intros t Ht Hfresh.
  assert (validateHMACKeys [key] = Ok tt) as HK.
  { unfold ParseHMACSecret in Hkey. unfold validateHMACKeys. simpl. go_inv.
    match goal with H : bad_key_length _ = false |- _ => by rewrite H end. }
  pose proof (Send_verifies DefaultResolver url_Parse s e (invoice_request body) [key] (λ _ _ _, false)
    (example_verifier decode trailing key) zero_time [key] key t invoice_event Hsig eq_refl HK eq_refl
    ltac:(by left) ltac:(by left) ltac:(by vm_compute) Ht) as Hv.
  rewrite Hclk in Hv. rewrite Hsend in Hv. apply (Hv Hfresh); [|done|].
  - unfold effective_auth. rewrite Hauth. apply no_auth_keeps.
  - simpl. unfold JSONTypeField. by rewrite Hd, Htr.
Qed.

(** C11 The example programs work together: when the sender and the receiver are started
    with the same secret, the sender's one request reaches the receiver within five
    minutes of being signed, with a payload that decodes, carries the event type and is
    within the body limit, the receiver answers 204 and logs the invoice; and when the
    request is delivered again within those five minutes, and the guard is asked less
    than ten minutes after the first acceptance, it is answered 204 and not logged
    again. Verifications may take any time, nothing follows the payload's JSON value,
    and the times are nonzero, the end of the first verification also within the range
    that a clock can show. *)
Theorem example_invoice_logged_once Getenv encoded (e : @environment RoundTripper RedirectFn) req printed
    Getenv' q q' t t' a inv :
  send_main DefaultResolver NewTransport ParseTime url_Parse Getenv encoded e = ([req], printed) →
  Getenv' secret_variable = Getenv secret_variable →
  decode (hr_Body req) = Ok invoice_event → trailing (hr_Body req) = None →
  unmarshal (hr_Body req) = Ok inv → slen (hr_Body req) ≤ 1048576 →
  arrives req q → arrives req q' → t ≠ 0 → t' ≠ 0 → time_sane (t + spends t) →
  Z.abs (t - Unix (UnixSeconds (env_now e))) ≤ 5 * Minute →
  Z.abs (t' - Unix (UnixSeconds (env_now e))) ≤ 5 * Minute →
  t' + spends t' < t + spends t + 10 * Minute →
  receive_main (JSONTypeField decode trailing) unmarshal ctx_err spends Getenv'
      [(t, "/webhooks", q); (t', "/webhooks", q')] a =
    Ok ([Responded (bare_status 204); Responded (bare_status 204)],
        {| ps_now := t' + spends t';
           ps_log := ps_log a ++ ["verified invoice " +:+ ip_InvoiceID inv +:+ " from standard-webhooks"] |}).
Proof.
  intros Hmain Hsecret Hd Htr Hu Hlen Hq Hq' Ht Ht' Hsane Hf Hf' Hlt.
  destruct (sent_invoice_verifies Getenv encoded e req printed Hmain Hd Htr)
    as (key & id & Hkey & Hm & He & Hv).
  unfold receive_main. rewrite (receive_setup_is decode trailing unmarshal ctx_err spends Getenv' key) by congruence.
  cbn [mbind result_bind]. unfold serve_all, mux.
  rewrite (av_method _ _ Hq), (av_method _ _ Hq'), Hm.
  change (negb (str_eqb "/webhooks" "/webhooks")) with false. change (negb (str_eqb "POST" "POST")) with false.
  cbn match. set (R := example_receiver decode trailing unmarshal ctx_err spends key).
  set (sent := Unix (UnixSeconds (env_now e))) in *.
  set (a0 := {| ps_now := t; ps_log := ps_log a |}).
  set (a1 := {| ps_now := t + spends t; ps_log := ps_log a |}).
  pose proof (invoice_delivers decode trailing unmarshal ctx_err spends key req q id sent t
    (NewMemoryReplayGuard 10000) a0 Hm He Hlen Hq (Hv t Ht Hf)) as Hdel.
  pose proof (invoice_handled unmarshal id sent (hr_Body req) (rq_Header q) inv a1 Hu) as Hh.
  destruct (ServeHTTP_once ps_now ctx_err _ (example_handler unmarshal) R
    (example_memory decode trailing unmarshal ctx_err spends key) q (NewMemoryReplayGuard 10000)
    _ a0 a1 _ (si_guard _ (initial_inv 10000)) ltac:(intros k e0; simpl; by rewrite lookup_empty) Hdel
    eq_refl ltac:(by rewrite Hh)) as (g' & Hs & Hdup).
  unfold at_time at 1. cbn [fst snd]. fold a0. rewrite Hs, Hh. cbn [fst snd].
  unfold at_time. cbn [fst snd ps_log log_line].
  match goal with |- context [ServeHTTP R q' (g', ?a2)] =>
    pose proof (invoice_delivers decode trailing unmarshal ctx_err spends key req q' id sent t'
      g' a2 Hm He Hlen Hq' (Hv t' Ht' Hf')) as Hdel';
    rewrite (Hdup q' _ a2 _ Hdel' eq_refl eq_refl); [done|] end.
  rewrite Hh. cbn [snd log_line ps_now ps_log a1]. by rewrite time_sane_add; [|done|by vm_compute].
Qed.
End programs.

(** * Runs *)

#[local] Existing Instance map_order.

Definition ex_Getenv (name : string) : string :=
  if str_eqb name secret_variable then "whsec_MDEyMzQ1Njc4OWFiY2RlZjAxMjM0NTY3" else ε.
Definition ex_url_Parse (_ : string) : go URL :=
  Ok {| u_Scheme := "https"; u_Host := "customer.example"; u_User := false; u_Fragment := ε |}.
Definition ex_send_environment : @environment unit unit :=
  {| env_now := Unix 1700000000; env_entropy := Ok "0123456789abcdef"; env_NewRequest := λ _, None;
     env_Do := λ _ _, Ok {| rs_StatusCode := 204; rs_Header := ∅;
                            rs_Body := {| rd_data := ε; rd_err := None |} |};
     env_elapsed := Second |}.

(** The payload stands for its JSON text. *)
Definition ex_payload : string := "invoice inv_123".
Definition ex_run : list HTTPRequest * go string :=
  send_main (Proxy := unit) (DialerRest := unit) (TLSRest := unit) (λ _, Ok []) (λ _, tt) (λ _, None)
    ex_url_Parse ex_Getenv (Ok (ex_payload +:+ String LF ε)) ex_send_environment.
Definition ex_sent_request : HTTPRequest :=
  default {| hr_Method := ε; hr_URL := ε; hr_Header := ∅; hr_Body := ε |} (head ex_run.1).

Definition ex_decode (_ : string) : go string := Ok invoice_event.
Definition ex_trailing (_ : string) : option (option error) := None.
Definition ex_unmarshal (_ : string) : go invoicePaid := Ok {| ip_Type := invoice_event; ip_InvoiceID := "inv_123" |}.
Definition ex_ctx_err : error := PlainError "context canceled".

(** The transport adds a header of its own. *)
Definition transported (req : HTTPRequest) : Receiver.Request :=
  {| rq_Method := hr_Method req; rq_ContentLength := slen (hr_Body req);
     rq_Header := h_set (hr_Header req) "Accept-Encoding" "gzip";
     rq_Body := Some {| rd_data := hr_Body req; rd_err := None |} |}.

Lemma transported_arrives req : arrives req (transported req).
Proof.
  constructor; try reflexivity. intros name Hn. apply h_values_set_ne.
  repeat apply elem_of_cons in Hn as [->|Hn]; [by vm_compute..|]. by apply elem_of_nil in Hn.
Qed.

Definition ex_received : Receiver.Request := transported ex_sent_request.

Definition ex_state : process_state := {| ps_now := 0; ps_log := [] |}.
Definition ex_log_line : string := "verified invoice inv_123 from standard-webhooks".
(** A verification takes a second, for thousands of years. *)
Definition ex_spends (t : time) : duration := if t <? Unix 100000000000 then Second else 0.
Definition ex_receive (t t' : time) : go (list served * process_state) :=
  receive_main (JSONTypeField ex_decode ex_trailing) ex_unmarshal ex_ctx_err ex_spends ex_Getenv
    [(t, "/webhooks", ex_received); (t', "/webhooks", ex_received)] ex_state.

Lemma ex_run_sends :
  ex_run = ([ex_sent_request], Ok ("message=" +:+ "msg_gaytemzugu3doobzmfrggzdfmy" +:+ " outcome=delivered status=204")).
Proof. vm_compute. reflexivity. Qed.

Lemma example_invoice_logged_once_witness :
  ex_receive (Unix 1700000001) (Unix 1700000061) =
    Ok ([Responded (bare_status 204); Responded (bare_status 204)],
        {| ps_now := Unix 1700000062; ps_log := [ex_log_line] |}).
Proof.
  replace (Unix 1700000062) with (Unix 1700000061 + ex_spends (Unix 1700000061)) by (vm_compute; reflexivity).
  apply (example_invoice_logged_once (λ _, Ok []) (λ _, tt) (λ _, None) ex_url_Parse ex_decode ex_trailing
    ex_unmarshal ex_ctx_err ex_spends ex_Getenv (Ok (ex_payload +:+ String LF ε)) ex_send_environment ex_sent_request
    _ ex_Getenv ex_received ex_received (Unix 1700000001) (Unix 1700000061) ex_state
    {| ip_Type := invoice_event; ip_InvoiceID := "inv_123" |} ex_run_sends);
    try apply transported_arrives; vm_compute; try split; done.
Defined.

(** Other paths and methods never reach the receiver. *)
Example ex_other_requests :
  receive_main (JSONTypeField ex_decode ex_trailing) ex_unmarshal ex_ctx_err ex_spends ex_Getenv
    [(1, "/", ex_received);
     (2, "/webhooks", {| rq_Method := "GET"; rq_Header := ∅; rq_ContentLength := 0; rq_Body := None |})] ex_state =
  Ok ([Responded (http_error ∅ "404 page not found" 404);
       Responded (http_error (h_set ∅ "Allow" "POST") "Method Not Allowed" 405)],
      {| ps_now := 2; ps_log := [] |}).
Proof. vm_compute. reflexivity. Qed.

(** The default replay TTL is not longer than twice the default tolerance but equal to
    it: a request that arrives at the first instant its timestamp is accepted, and is
    delivered again at the last one, is handled twice. *)
Lemma default_window_has_an_edge :
  ex_receive (Unix 1699999700) (Unix 1700000300) =
    Ok ([Responded (bare_status 204); Responded (bare_status 204)],
        {| ps_now := Unix 1700000301; ps_log := [ex_log_line; ex_log_line] |}).
Proof. vm_compute. reflexivity. Qed.

(** ** A receiver with a longer TTL, over its life *)

Definition ex_key : string := "0123456789abcdef01234567".
Definition ex_life_verifier : Receiver.Verifier process_state :=
  example_process_verifier ex_decode ex_trailing ex_spends ex_key.
Definition ex_life_receiver : Receiver (guard * (process_state * list (string * time))) :=
  {| r_verifier := app_verifier (unrecorded ex_life_verifier);
     r_handler := app_handler (recording (example_handler ex_unmarshal));
     r_replayGuard := Some (memory_guard (ps_now ∘ fst) ex_ctx_err);
     r_clock := λ w, (ps_now w.2.1, w); r_maxBody := 1048576; r_replayTTL := 11 * Minute;
     r_successStatus := 204; r_respondError := defaultErrorResponder |}.

Definition served_at {L} (r : Receiver (guard * (process_state * L))) (q : Receiver.Request) (t : Z)
    (w : guard * (process_state * L)) : guard * (process_state * L) :=
  (ServeHTTP r q (w.1, ({| ps_now := Unix t; ps_log := ps_log w.2.1 |}, w.2.2))).2.
Definition ex_life_start : guard * (process_state * list (string * time)) :=
  (NewMemoryReplayGuard 2, ({| ps_now := Unix 1699999700; ps_log := [] |}, [])).
Definition ex_life_served := served_at ex_life_receiver ex_received.
Definition ex_life_end := ex_life_served 1700000300 (ex_life_served 1699999700 ex_life_start).

Lemma example_handler_clock unmarshal m a :
  on_clock (ps_now a) → ps_now a ≤ ps_now (example_handler unmarshal m a).2 ∧
                        on_clock (ps_now (example_handler unmarshal m a).2).
Proof.
  intros H. assert (ps_now (example_handler unmarshal m a).2 = ps_now a) as ->; [|by split].
  unfold example_handler, Registry_Handle, dispatch. cbn [reg_handlers reg_any].
  destruct ({[_ := _]} !! _) as [h|] eqn:E; [|done]. apply lookup_singleton_Some in E as [_ <-].
  unfold json_handler. by destruct (unmarshal _).
Qed.

Lemma served_at_steps r q t w :
  ps_now w.2.1 ≤ Unix t → on_clock (Unix t) → rtc (life_step ps_now r) w (served_at r q t w).
Proof.
  destruct w as [g [a log]]. simpl. intros Hle Hc.
  eapply rtc_l; [by apply (life_pass ps_now r g a {| ps_now := Unix t; ps_log := ps_log a |} log)|].
  apply rtc_once. eapply (life_serve ps_now r), surjective_pairing.
Qed.

Lemma ex_life_on_clock : on_clock (Unix 1699999700) ∧ on_clock (Unix 1700000300).
Proof. split; by vm_compute. Qed.

Lemma ex_life_first : rtc (life_step ps_now ex_life_receiver) ex_life_start (ex_life_served 1699999700 ex_life_start).
Proof. apply served_at_steps; [vm_compute; discriminate|apply ex_life_on_clock]. Qed.

Lemma ex_life_second :
  rtc (life_step ps_now ex_life_receiver) (ex_life_served 1699999700 ex_life_start) ex_life_end.
Proof. apply served_at_steps; [vm_compute; discriminate|apply ex_life_on_clock]. Qed.

Lemma ex_life_verifier_clock input a :
  on_clock (ps_now a) →
  ps_now a ≤ ps_now (ex_life_verifier input a).2 ≤ ps_now a + Second ∧ on_clock (ps_now (ex_life_verifier input a).2).
Proof.
  intros [Hpos Hs]. simpl. unfold ex_spends. destruct (Z.ltb_spec (ps_now a) (Unix 100000000000)) as [Hlt|].
  - assert (Unix 100000000000 < 1000000000000000000000) as Hu by (vm_compute; reflexivity).
    unfold on_clock, time_sane, Second in *. split_and!; try lia; [apply Z.div_pos; lia|].
    apply Z.div_le_upper_bound; lia.
  - rewrite Z.add_0_r. unfold Second. split_and!; try done; lia.
Qed.

Lemma replayed_message_handled_once_witness : length ex_life_end.2.2 = 1%nat ∧ NoDup ex_life_end.2.2.
Proof.
  split; [vm_compute; reflexivity|].
  assert (FreshVerifier ex_life_verifier (5 * Minute)) as Hf
    by (by apply standard_fresh; [vm_compute|]).
  apply (replayed_message_handled_once ps_now ex_ctx_err ex_life_verifier (example_handler ex_unmarshal)
    ex_life_receiver (5 * Minute) Second ltac:(by constructor) ltac:(vm_compute; discriminate)
    ex_life_verifier_clock (example_handler_clock ex_unmarshal) ltac:(by vm_compute)
    ltac:(vm_compute; split; discriminate) 2 {| ps_now := Unix 1699999700; ps_log := [] |} ex_life_end).
  - by vm_compute.
  - exact (rtc_trans _ _ _ ex_life_first ex_life_second).
Defined.
