(* ===== verification/PgText.v ===== *)
(** The pure parts of src/postgres/store.go, src/postgres/schema.go and
    src/postgres/models.go: states, key hashes, header canonicalisation and
    redaction, truncation of error details, and the two transition functions. *)

From S2P Require Import Prelude GoString Codec GoTime Errors Headers Message Retry Outcome.

(** * src/postgres/models.go *)

Inductive DeliveryState : Type :=
| DeliveryPending
| DeliveryInFlight
| DeliveryRetry
| DeliveryDelivered
| DeliveryPermanentFailure
| DeliveryDisabled
| DeliveryExhausted.

Inductive ReceiptState : Type :=
| ReceiptPending
| ReceiptProcessing
| ReceiptRetry
| ReceiptProcessed
| ReceiptFailed
| ReceiptExhausted.

#[export] Instance DeliveryState_eq_dec : EqDecision DeliveryState.
Proof. solve_decision. Defined.
#[export] Instance ReceiptState_eq_dec : EqDecision ReceiptState.
Proof. solve_decision. Defined.

(** The states [CompleteDelivery] gives a [completed_at]. *)
Definition delivery_terminal (s : DeliveryState) : bool :=
  match s with
  | DeliveryDelivered | DeliveryPermanentFailure | DeliveryDisabled | DeliveryExhausted => true
  | _ => false
  end.

(** The states [CompleteReceipt] gives a [processed_at]. *)
Definition receipt_terminal (s : ReceiptState) : bool :=
  match s with
  | ReceiptProcessed | ReceiptFailed | ReceiptExhausted => true
  | _ => false
  end.

(** * Identifiers and keys *)

(** [randomOpaqueID]: [read] is the outcome of [rand.Read] on sixteen bytes. *)
Definition randomOpaqueID (prefix : string) (read : go string) : go string :=
  entropy ← map_err (λ e, NewError CodeInternal "generate durable identifier" (Some e)) read;
  Ok (prefix +:+ lower_ascii (b32_encode entropy)).

(** A rune that may not appear in a key or a schema name. *)
Definition control_rune (r : Z) : bool := (r =? 0) || (r <? 32) || (r =? 127).

Definition key_prefix : string := "hookbound:publication:v1:" +:+ String NUL ε.

(** [publicationKeyHash]: [None] is the nil slice of an absent key. *)
Definition publicationKeyHash (key : string) : go (option string) :=
  if str_eqb key ε then Ok None
  else
    _ ← reject (negb (valid_utf8 key) || (512 <? slen key) || negb (str_eqb (TrimSpace key) key))
          (NewError CodeInvalidConfiguration
             "idempotency key must be valid UTF-8, at most 512 bytes, and have no surrounding whitespace"
             None);
    _ ← reject (existsb (λ '(r, _), control_rune r) (runes key))
          (NewError CodeInvalidConfiguration "idempotency key contains control characters" None);
    Ok (Some (sha256 (key_prefix +:+ key))).

(** * Headers *)

(** [slices.Sort] of header names: byte-wise order. *)
Fixpoint str_leb (s t : string) : bool :=
  match s, t with
  | EmptyString, _ => true
  | String _ _, EmptyString => false
  | String c s', String d t' =>
      if ord c <? ord d then true else if ord d <? ord c then false else str_leb s' t'
  end.

Fixpoint insert_sorted (x : string * list string) (l : list (string * list string)) :
    list (string * list string) :=
  match l with
  | [] => [x]
  | y :: l' => if str_leb (x.1) (y.1) then x :: l else y :: insert_sorted x l'
  end.

Definition sorted_entries (h : Header) : list (string * list string) :=
  foldr insert_sorted [] (map_to_list h).

(** [canonical[name] = append(canonical[name], values...)] *)
Definition append_values (canonical : Header) (entry : string * list string) : Header :=
  let name := CanonicalHeaderKey (entry.1) in
  <[name := h_values canonical name ++ entry.2]> canonical.

(** [canonicalHeaders] *)
Definition canonicalHeaders (headers : Header) : Header :=
  foldl append_values ∅ (sorted_entries headers).

Definition defaultSensitiveHeaders : list string :=
  ["Authorization"; "Proxy-Authorization"; "Cookie"; "Set-Cookie";
   "X-Api-Key"; "Api-Key"; "X-Auth-Token";
   "Webhook-Signature"; "Stripe-Signature"; "X-Hub-Signature-256"].

(** [containsSensitiveHeaders] *)
Definition containsSensitiveHeaders (headers : Header) (names : list string) : bool :=
  existsb (λ name, negb (bool_decide (h_values headers name = []))) names.

(** [redactedHeaders] *)
Definition redactedHeaders (headers : Header) (names : list string) : Header :=
  foldl h_del headers names.

(** * JSON columns *)

(** The bytes of U+FFFD. *)
Definition replacement : string := String (chr 239) (String (chr 191) (String (chr 189) ε)).

(** What a string becomes when [json.Marshal] writes it and [json.Unmarshal]
    reads it back: each byte of an invalid encoding is a U+FFFD. *)
Fixpoint json_text_from (skip : nat) (s : string) : string :=
  match s with
  | EmptyString => ε
  | String c s' =>
      match skip with
      | S k => String c (json_text_from k s')
      | O =>
          let '(r, n) := decode_rune s in
          if (r =? RuneError) && Nat.eqb n 1 then replacement +:+ json_text_from 0 s'
          else String c (json_text_from (Nat.pred n) s')
      end
  end.
Definition json_text (s : string) : string := json_text_from 0 s.

(** A header map through a JSON column. *)
Definition json_header (h : Header) : Header :=
  list_to_map (map (λ e, (json_text (e.1), map json_text (e.2))) (map_to_list h)).

(** [metadata] through a JSON column. *)
Definition json_metadata (m : gmap string string) : gmap string string :=
  list_to_map (map (λ e, (json_text (e.1), json_text (e.2))) (map_to_list m)).

#[global] Arguments json_header : simpl never.
#[global] Arguments canonicalHeaders : simpl never.
#[global] Arguments redactedHeaders : simpl never.

(** * Error details and bodies *)

(** [value[:maximum]], then bytes dropped from the end while it is not UTF-8. *)
Fixpoint drop_invalid_tail (fuel : nat) (s : string) : string :=
  if valid_utf8 s then s
  else match fuel with
       | O => s
       | S f => drop_invalid_tail f (str_take (String.length s - 1) s)
       end.

(** The bytes that end a match of [urlWithQuery]: white space and quotes. *)
Definition url_stop (c : byte) : bool :=
  let b := ord c in
  (b =? 9) || (b =? 10) || (b =? 12) || (b =? 13) || (b =? 32) || (b =? 34) || (b =? 39).

(** The longest prefix without such bytes. *)
Fixpoint url_run (s : string) : string :=
  match s with
  | EmptyString => ε
  | String c s' => if url_stop c then ε else String c (url_run s')
  end.

Definition QUESTION : byte := chr 63.

(** The match of [urlWithQuery] at the start of [s]: the scheme and the run after
    it, in which a question mark follows at least one byte. *)
Definition url_match (s : string) : option string :=
  let run_after (scheme : string) (rest : string) :=
    match url_run rest with
    | String c run => if contains_byte QUESTION run then Some (scheme +:+ String c run) else None
    | EmptyString => None
    end in
  match CutPrefix s "http://" with
  | Some rest => run_after "http://" rest
  | None => match CutPrefix s "https://" with
            | Some rest => run_after "https://" rest
            | None => None
            end
  end.

(** The replacement of a match. *)
Definition redact_match (raw : string) : string :=
  match Cut QUESTION raw with
  | Some (before, _) => before +:+ "?<redacted>"
  | None => raw
  end.

(** [redactURLQuery]: the leftmost matches, one after the other; [skip] counts the
    bytes of the current match still to pass. *)
Fixpoint redact_from (skip : nat) (s : string) : string :=
  match s with
  | EmptyString => ε
  | String c s' =>
      match skip with
      | S k => redact_from k s'
      | O =>
          match url_match s with
          | Some raw => redact_match raw +:+ redact_from (String.length raw - 1) s'
          | None => String c (redact_from 0 s')
          end
      end
  end.
Definition redactURLQuery (value : string) : string := redact_from 0 value.

(** [truncateError] *)
Definition truncateError (err : option error) (maximum : Z) : string :=
  match err with
  | None => ε
  | Some e =>
      let value := redactURLQuery (error_text e) in
      if slen value <=? maximum then value
      else let value := str_take (Z.to_nat maximum) value in
           drop_invalid_tail (String.length value) value
  end.

(** [boundedBytes]: [None] is the nil slice. *)
Definition boundedBytes (value : string) (maximum : Z) : option string :=
  if (maximum <=? 0) || (slen value =? 0) then None
  else Some (if maximum <? slen value then str_take (Z.to_nat maximum) value else value).

(** [durationMicrosecondsCeil] *)
Definition durationMicrosecondsCeil (value : duration) : Z :=
  let microseconds := Z.quot value Microsecond in
  if negb (Z.rem value Microsecond =? 0) then microseconds + 1 else microseconds.

(** [nullTime], [NULLIF(x, 0)] and [NULLIF(x, '')]. *)
Definition nullTime (value : time) : option time := if IsZero value then None else Some value.
Definition null_zero (n : Z) : option Z := if n =? 0 then None else Some n.
Definition null_empty (s : string) : option string := if str_eqb s ε then None else Some s.

(** * Transitions *)

Definition permanent_send_codes : list Code :=
  [CodeInvalidMessage; CodeInvalidURL; CodeUnsafeDestination; CodeInvalidConfiguration].

(** [normalizedOutcome] *)
Definition normalizedOutcome (outcome : Outcome) (sendErr : option error) : Outcome :=
  if negb (outcome =? 0) then outcome
  else match sendErr with
       | None => OutcomeRetry
       | Some _ =>
           if one_of (ErrorCode sendErr) permanent_send_codes then OutcomePermanentFailure
           else OutcomeRetry
       end.

(** [deliveryTransition]; [random] is what the default jitter reads. *)
Definition deliveryTransition (random : option Z) (now : time) (attempt : Z)
    (result : AttemptResult) (sendErr : option error) (retry : RetryPolicy)
    : DeliveryState * time :=
  let outcome := normalizedOutcome (ar_Outcome result) sendErr in
  if outcome =? OutcomeDelivered then (DeliveryDelivered, zero_time)
  else if outcome =? OutcomeDisableDestination then (DeliveryDisabled, zero_time)
  else if outcome =? OutcomePermanentFailure then (DeliveryPermanentFailure, zero_time)
  else match Next random retry now attempt with
       | None => (DeliveryExhausted, zero_time)
       | Some policyNext =>
           if negb (IsZero (ar_RetryAt result)) && After (ar_RetryAt result) policyNext
           then (DeliveryRetry, ar_RetryAt result)
           else (DeliveryRetry, policyNext)
       end.

Definition permanent_handler_codes : list Code :=
  [CodeInvalidConfiguration; CodeInvalidMessage; CodeDecode; CodeUnknownEvent].

(** [receiptTransition] *)
Definition receiptTransition (random : option Z) (now : time) (attempt : Z)
    (handlerErr : option error) (retry : RetryPolicy) : ReceiptState * time :=
  match handlerErr with
  | None => (ReceiptProcessed, zero_time)
  | Some _ =>
      if one_of (ErrorCode handlerErr) permanent_handler_codes then (ReceiptFailed, zero_time)
      else match Next random retry now attempt with
           | Some next => (ReceiptRetry, next)
           | None => (ReceiptExhausted, zero_time)
           end
  end.
