(* ===== verification/PgTextFacts.v ===== *)
(** Facts of the pure parts of src/postgres: JSON columns, header
    canonicalisation and redaction, error details, and the transitions. *)

From S2P Require Import Prelude GoString Codec GoTime Errors Headers Message Retry Outcome PgText.

(** * Valid UTF-8 through a JSON column *)

Lemma json_text_from_valid s skip :
  forallb (λ '(r, n), negb ((r =? RuneError) && (Nat.eqb n 1))) (runes_from skip s) = true →
  json_text_from skip s = s.
Proof.
  revert skip. induction s as [|c s IH]; intros [|k] H; try done.
  - cbn [runes_from] in H. cbn [json_text_from].
    destruct (decode_rune (String c s)) as [r n]. cbn [forallb] in H.
    apply andb_true_iff in H as [Hr H]. apply negb_true_iff in Hr. rewrite Hr. by rewrite IH.
  - cbn [runes_from] in H. cbn [json_text_from]. by rewrite IH.
Qed.

Lemma json_text_valid s : valid_utf8 s = true → json_text s = s.
Proof. apply json_text_from_valid. Qed.

Lemma decode_ascii c s : ord c < 128 → decode_rune (String c s) = (ord c, 1%nat).
Proof. intros H. unfold decode_rune. by rewrite (proj2 (Z.ltb_lt _ _)). Qed.

Lemma valid_utf8_ascii s : str_forall (λ c, ord c <? 128) s = true → valid_utf8 s = true.
Proof.
  unfold valid_utf8, runes. induction s as [|c s IH]; [done|].
  cbn [str_forall]. intros [Hc%Z.ltb_lt Hs]%andb_true_iff.
  cbn [runes_from]. rewrite decode_ascii by done. cbn [forallb Nat.pred].
  rewrite IH by done. rewrite andb_true_r, negb_true_iff, andb_false_iff. left.
  apply Z.eqb_neq. unfold RuneError. lia.
Qed.

(** * Header canonicalisation *)

Lemma insert_sorted_perm x l : insert_sorted x l ≡ₚ x :: l.
Proof.
  induction l as [|y l IH]; simpl; [done|]. case_match; [done|].
  rewrite IH. constructor.
Qed.

Lemma sorted_entries_perm h : sorted_entries h ≡ₚ map_to_list h.
Proof.
  unfold sorted_entries. induction (map_to_list h) as [|x l IH]; simpl; [done|].
  by rewrite insert_sorted_perm, IH.
Qed.

(** The names of the map are canonical. *)
Definition canonical_names (h : Header) : Prop :=
  ∀ n v, h !! n = Some v → CanonicalHeaderKey n = n.

Lemma append_values_canonical h e : canonical_names h → canonical_names (append_values h e).
Proof.
  unfold append_values. intros Hh n v [[<- _]|[_ Hn]]%lookup_insert_Some;
    [apply CanonicalHeaderKey_idemp|by eapply Hh].
Qed.

Lemma canonicalHeaders_names h : canonical_names (canonicalHeaders h).
Proof.
  unfold canonicalHeaders. assert (canonical_names (∅ : Header)) as H0 by (intros n v; by rewrite lookup_empty).
  revert H0. generalize (∅ : Header). induction (sorted_entries h) as [|x l IH]; simpl; [done|].
  intros acc Hacc. by apply IH, append_values_canonical.
Qed.

Lemma foldl_append_fixed l acc :
  NoDup (l.*1) → (∀ n v, (n, v) ∈ l → CanonicalHeaderKey n = n ∧ acc !! n = None) →
  foldl append_values acc l = list_to_map l ∪ acc.
Proof.
  revert acc. induction l as [|[n v] l IH]; intros acc Hnd Hl; simpl.
  { by rewrite map_empty_union. }
  apply NoDup_cons in Hnd as [Hn Hnd].
  destruct (Hl n v) as [Hc Ha]; [left|].
  rewrite IH; [|done|].
  - unfold append_values, h_values. simpl. rewrite !Hc, Ha. simpl.
    rewrite <-insert_union_r by (by apply not_elem_of_list_to_map_1).
    by rewrite insert_union_l.
  - intros n' v' Hin. destruct (Hl n' v') as [Hc' Ha']; [by right|]. split; [done|].
    unfold append_values. simpl. rewrite Hc, lookup_insert_ne; [done|].
    intros ->. apply Hn. apply list_elem_of_fmap. by exists (n', v').
Qed.

Lemma canonicalHeaders_fixed h : canonical_names h → canonicalHeaders h = h.
Proof.
  intros Hh. unfold canonicalHeaders. rewrite foldl_append_fixed.
  - rewrite map_union_empty. rewrite <-(list_to_map_to_list h) at 2.
    apply list_to_map_proper; [|apply sorted_entries_perm].
    rewrite sorted_entries_perm. apply NoDup_fst_map_to_list.
  - rewrite sorted_entries_perm. apply NoDup_fst_map_to_list.
  - intros n v Hin. rewrite sorted_entries_perm, elem_of_map_to_list in Hin.
    split; [by eapply Hh|apply lookup_empty].
Qed.

Lemma canonicalHeaders_idemp h : canonicalHeaders (canonicalHeaders h) = canonicalHeaders h.
Proof. apply canonicalHeaders_fixed, canonicalHeaders_names. Qed.

(** What holds of every name, made canonical, and of every value. *)
Lemma canonicalHeaders_all (P Q : string → Prop) h :
  (∀ n v, h !! n = Some v → P (CanonicalHeaderKey n) ∧ Forall Q v) →
  ∀ n v, canonicalHeaders h !! n = Some v → P n ∧ Forall Q v.
Proof.
  intros Hh. unfold canonicalHeaders.
  assert (∀ n v, (n, v) ∈ sorted_entries h → P (CanonicalHeaderKey n) ∧ Forall Q v) as Hl.
  { intros n v Hin. apply Hh. rewrite sorted_entries_perm, elem_of_map_to_list in Hin. done. }
  assert (∀ n v, (∅ : Header) !! n = Some v → P n ∧ Forall Q v) as H0
    by (intros n v; by rewrite lookup_empty).
  revert Hl H0. generalize (∅ : Header). induction (sorted_entries h) as [|[n v] l IH]; simpl; [done|].
  intros acc Hl Hacc. apply IH; [intros; apply Hl; by right|].
  destruct (Hl n v) as [HP HQ]; [left|].
  unfold append_values. intros n' v' [[<- <-]|[_ Hn]]%lookup_insert_Some; [|by apply Hacc].
  simpl. split; [done|].
  apply Forall_app. split; [|done]. unfold h_values.
  destruct (acc !! _) eqn:E; simpl; [by eapply Hacc|constructor].
Qed.

Lemma json_header_fixed h :
  (∀ n v, h !! n = Some v → valid_utf8 n = true ∧ Forall (λ x, valid_utf8 x = true) v) →
  json_header h = h.
Proof.
  intros Hh. unfold json_header. rewrite <-(list_to_map_to_list h) at 2. f_equal.
  rewrite <-(map_id (map_to_list h)) at 2. apply map_ext_in. intros [n v] Hin.
  apply list_elem_of_In, elem_of_map_to_list, Hh in Hin as [Hn Hv]. simpl.
  rewrite json_text_valid by done. f_equal.
  rewrite <-(map_id v) at 2. apply map_ext_in. intros x Hx.
  apply json_text_valid. rewrite Forall_forall in Hv. by apply Hv, list_elem_of_In.
Qed.

Lemma token_ascii s : str_forall token_byte s = true → valid_utf8 s = true.
Proof.
  intros Hs. apply valid_utf8_ascii. eapply str_forall_impl; [|exact Hs].
  intros c Hc. apply Z.ltb_lt. unfold token_byte in Hc.
  rewrite !orb_true_iff, !andb_true_iff, !Z.leb_le in Hc.
  destruct Hc as [Hc|Hc]; [lia|].
  assert (str_forall (λ c, ord c <? 128) token_set = true) as Hset by reflexivity.
  unfold contains_byte in Hc.
  revert Hset Hc. generalize token_set. induction s0 as [|d t IH]; [done|]. cbn [str_forall str_exists].
  intros [Hd Ht]%andb_true_iff [Hb|Hb]%orb_true_iff; [|by apply IH].
  apply bool_decide_eq_true in Hb as ->. by apply Z.ltb_lt.
Qed.

(** The stored headers of an accepted request, when their values are UTF-8. *)
Lemma stored_headers_fixed `{HeaderOrder} h :
  validateHeaders h = Ok tt →
  (∀ n v, h !! n = Some v → Forall (λ x, valid_utf8 x = true) v) →
  json_header (canonicalHeaders h) = canonicalHeaders h.
Proof.
  intros Hv Hu. apply json_header_fixed, canonicalHeaders_all. intros n v Hn. split; [|by eapply Hu].
  pose proof (proj1 (validateHeaders_Ok h) Hv) as Hv'. destruct (Hv' _ _ Hn) as (Hname & _). simpl in Hname.
  unfold validHeaderName in Hname. case_match; [done|].
  apply token_ascii. unfold CanonicalHeaderKey. rewrite Hname. by apply canon_from_token.
Qed.

(** * Redaction *)

Lemma redacted_values h names name :
  name ∈ names → h_values (redactedHeaders h names) name = [].
Proof.
  unfold redactedHeaders. intros Hin.
  assert (∀ l (h : Header), h !! CanonicalHeaderKey name = None →
    foldl h_del h l !! CanonicalHeaderKey name = None) as Hkeep.
  { induction l as [|n l IH]; intros h' Hn; simpl; [done|]. apply IH. unfold h_del.
    destruct (decide (CanonicalHeaderKey n = CanonicalHeaderKey name)) as [->|];
      [apply lookup_delete_eq|by rewrite lookup_delete_ne]. }
  apply list_elem_of_split in Hin as (l1 & l2 & ->). rewrite foldl_app. simpl.
  unfold h_values. rewrite Hkeep; [done|]. apply lookup_delete_eq.
Qed.

Lemma redacted_kept h names k v :
  h !! k = Some v → (∀ name, name ∈ names → CanonicalHeaderKey name ≠ k) →
  redactedHeaders h names !! k = Some v.
Proof.
  unfold redactedHeaders. revert h. induction names as [|n l IH]; intros h Hk Hn; [done|].
  apply IH; [|intros; apply Hn; by right]. unfold h_del.
  rewrite lookup_delete_ne; [done|]. apply Hn. left.
Qed.

(** * Error details *)

Lemma length_str_take n s : String.length (str_take n s) = Nat.min n (String.length s).
Proof. pose proof (slen_take n s) as H. unfold slen in H. lia. Qed.

Lemma drop_invalid_tail_valid fuel s :
  (String.length s ≤ fuel)%nat → valid_utf8 (drop_invalid_tail fuel s) = true.
Proof.
  revert s. induction fuel as [|f IH]; intros s Hl; cbn [drop_invalid_tail].
  - destruct s; [done|simpl in Hl; lia].
  - destruct (valid_utf8 s) eqn:E; [done|]. apply IH. rewrite length_str_take.
    destruct s; [done|simpl in *; lia].
Qed.

Lemma drop_invalid_tail_length fuel s :
  (String.length (drop_invalid_tail fuel s) ≤ String.length s)%nat.
Proof.
  revert s. induction fuel as [|f IH]; intros s; cbn [drop_invalid_tail];
    destruct (valid_utf8 s); try lia.
  etransitivity; [apply IH|]. rewrite length_str_take. lia.
Qed.

Lemma contains_Cut sep s : contains_byte sep s = true → is_Some (Cut sep s).
Proof.
  unfold contains_byte. induction s as [|c s IH]; [done|]. cbn [str_exists Cut].
  case_bool_decide; [by eexists|]. intros Hs. destruct (IH Hs) as [[b r] ->]. by eexists.
Qed.

(** What [urlWithQuery] matches keeps nothing of its query. *)
Lemma redact_match_query raw :
  contains_byte QUESTION raw = true →
  ∃ before rest, raw = before +:+ String QUESTION rest ∧ contains_byte QUESTION before = false ∧
    redact_match raw = before +:+ "?<redacted>".
Proof.
  intros [[b r] Hc]%contains_Cut. unfold redact_match. rewrite Hc.
  apply Cut_Some in Hc as [-> ?]. by exists b, r.
Qed.

(** * Properties *)

(** A stored error detail fits its bound and is valid UTF-8 whenever it had to
    be cut: the loop that repairs the cut always ends with a valid text. *)
Lemma error_detail_bounded err maximum :
  0 ≤ maximum →
  slen (truncateError err maximum) ≤ maximum ∧
  (∀ e, err = Some e → maximum < slen (redactURLQuery (error_text e)) →
     valid_utf8 (truncateError err maximum) = true).
Proof.
  intros Hm. unfold truncateError. destruct err as [e|]; [|by split].
  set (value := redactURLQuery (error_text e)).
  destruct (Z.leb_spec (slen value) maximum) as [Hl|Hl].
  - split; [done|]. intros e' [= <-]. fold value. lia.
  - split.
    + pose proof (drop_invalid_tail_length (String.length (str_take (Z.to_nat maximum) value))
        (str_take (Z.to_nat maximum) value)) as Hd.
      pose proof (length_str_take (Z.to_nat maximum) value). unfold slen. lia.
    + intros _ _ _. by apply drop_invalid_tail_valid.
Qed.

(** The outcome of an attempt decides the delivery's next state: delivered,
    disabled and permanent failures are final whatever the policy says; every
    other outcome retries exactly while the policy allows another attempt and is
    exhausted otherwise; a retry is never earlier than the policy's time, and
    later only because the destination asked for it. *)
Lemma delivery_transition_table random now attempt r err retry :
  let o := normalizedOutcome (ar_Outcome r) err in
  let '(state, next) := deliveryTransition random now attempt r err retry in
  (state = DeliveryDelivered ↔ o = OutcomeDelivered) ∧
  (state = DeliveryDisabled ↔ o = OutcomeDisableDestination) ∧
  (state = DeliveryPermanentFailure ↔ o = OutcomePermanentFailure) ∧
  (delivery_terminal state = true → next = zero_time) ∧
  (state = DeliveryRetry ↔ o ∉ [OutcomeDelivered; OutcomeDisableDestination; OutcomePermanentFailure] ∧
     is_Some (Next random retry now attempt)) ∧
  (state = DeliveryExhausted ↔ o ∉ [OutcomeDelivered; OutcomeDisableDestination; OutcomePermanentFailure] ∧
     Next random retry now attempt = None) ∧
  (state = DeliveryRetry → ∃ t, Next random retry now attempt = Some t ∧ t ≤ next ∧
     (next = t ∨ next = ar_RetryAt r)).
Proof.
  unfold deliveryTransition. cbv zeta.
  generalize (normalizedOutcome (ar_Outcome r) err). intros o.
  assert (o ∉ ([] : list Z)) by apply not_elem_of_nil.
  unfold OutcomeDelivered, OutcomeDisableDestination, OutcomePermanentFailure.
  destruct (Z.eqb_spec o 1) as [->|N1]; [|destruct (Z.eqb_spec o 4) as [->|N2];
    [|destruct (Z.eqb_spec o 3) as [->|N3];
      [|destruct (Next random retry now attempt) as [t|]; [destruct (negb _ && After _ _) eqn:E|]]]];
    cbv iota beta; rewrite !not_elem_of_cons.
  1-3,6: split_and!; naive_solver.
  - apply andb_true_iff in E as [_ Ha%Z.ltb_lt]. split_and!; try naive_solver.
    intros _. exists t. split_and!; [done|lia|by right].
  - split_and!; naive_solver.
Qed.

(** A text cut in the middle of a character. *)
Definition cut_error : error := PlainError ("ab" +:+ String (chr 195) (String (chr 169) "c")).

Lemma error_detail_bounded_witness :
  truncateError (Some cut_error) 3 = "ab" ∧
  valid_utf8 (truncateError (Some cut_error) 3) = true.
Proof.
  split; [by vm_compute|].
  apply (proj2 (error_detail_bounded (Some cut_error) 3 ltac:(lia)) cut_error eq_refl). by vm_compute.
Defined.
