(* ===== verification/PgSchema.v ===== *)
(** src/postgres/schema.go: schema names, quoting and the qualification of
    queries; the splitting of migration files of src/postgres/migrate.go. *)

From S2P Require Import Prelude GoString Codec Errors Handler PgText.

(** * Schema names *)

Definition defaultSchema : string := "public".

(** [strings.ToLower] on valid UTF-8, as far as it decides a comparison with
    ASCII text: besides the capital letters only U+0130 and U+212A have a lower
    case in ASCII. *)
Fixpoint lower_from (skip : nat) (s : string) : string :=
  match s with
  | EmptyString => ε
  | String c s' =>
      match skip with
      | S k => lower_from k s'
      | O =>
          let '(r, n) := decode_rune s in
          if r =? 304 then String (chr 105) (lower_from (Nat.pred n) s')
          else if r =? 8490 then String (chr 107) (lower_from (Nat.pred n) s')
          else str_take n (String (lower_byte c) s') +:+ lower_from (Nat.pred n) s'
      end
  end.
Definition to_lower (s : string) : string := lower_from 0 s.

Definition schema_control : error :=
  NewError CodeInvalidConfiguration "PostgreSQL schema contains control characters" None.
Definition schema_digit : error :=
  NewError CodeInvalidConfiguration "PostgreSQL schema cannot begin with a digit" None.

(** The loop of [normalizeSchema]; [first] is [index == 0]. *)
Fixpoint check_schema_runes (first : bool) (rs : list (Z * nat)) : go unit :=
  match rs with
  | [] => Ok tt
  | (r, _) :: rs' =>
      _ ← reject (control_rune r) schema_control;
      _ ← reject (first && (48 <=? r) && (r <=? 57)) schema_digit;
      check_schema_runes false rs'
  end.

(** [normalizeSchema] *)
Definition normalizeSchema (schema : string) : go string :=
  let schema := if str_eqb schema ε then defaultSchema else schema in
  _ ← reject (negb (valid_utf8 schema) || (63 <? slen schema))
        (NewError CodeInvalidConfiguration
           "PostgreSQL schema must be valid UTF-8 and at most 63 bytes" None);
  _ ← check_schema_runes true (runes schema);
  _ ← reject (negb (str_eqb (TrimSpace schema) schema) || str_eqb schema ε)
        (NewError CodeInvalidConfiguration
           "PostgreSQL schema cannot be empty or surrounded by whitespace" None);
  let lower := to_lower schema in
  _ ← reject (has_prefix "pg_" lower || str_eqb lower "information_schema")
        (NewError CodeInvalidConfiguration
           "PostgreSQL system schemas cannot be used by Hookbound" None);
  Ok schema.

(** * Quoting *)

(** [strings.ReplaceAll(identifier, q, q+q)] for the quote [q]. *)
Fixpoint double_quotes (s : string) : string :=
  match s with
  | EmptyString => ε
  | String c s' =>
      if bool_decide (c = DQUOTE) then String DQUOTE (String DQUOTE (double_quotes s'))
      else String c (double_quotes s')
  end.

(** [quoteIdentifier] *)
Definition quoteIdentifier (identifier : string) : string :=
  String DQUOTE (double_quotes identifier +:+ String DQUOTE ε).

(** [qualifiedRelation] *)
Definition qualifiedRelation (schema table : string) : string :=
  quoteIdentifier schema +:+ "." +:+ quoteIdentifier table.

(** [relationNames] *)
Record relationNames := {
  rn_messages : string; rn_deliveries : string; rn_attempts : string;
  rn_receipts : string; rn_migrations : string
}.

(** [relationsForSchema] *)
Definition relationsForSchema (schema : string) : relationNames :=
  {| rn_messages := qualifiedRelation schema "hookbound_messages";
     rn_deliveries := qualifiedRelation schema "hookbound_deliveries";
     rn_attempts := qualifiedRelation schema "hookbound_attempts";
     rn_receipts := qualifiedRelation schema "hookbound_receipts";
     rn_migrations := qualifiedRelation schema "hookbound_schema_migrations" |}.

(** [schemaSearchPath] *)
Definition schemaSearchPath (schema : string) : string :=
  quoteIdentifier schema +:+ ", pg_catalog".

(** [strings.NewReplacer(pairs...).Replace]: at each position the first pair whose
    key is a prefix, without rescanning what was written. *)
Fixpoint replace_from (pairs : list (string * string)) (skip : nat) (s : string) : string :=
  match s with
  | EmptyString => ε
  | String c s' =>
      match skip with
      | S k => replace_from pairs k s'
      | O =>
          match list_find (λ p, has_prefix (p.1) s = true) pairs with
          | Some (_, (old, new)) => new +:+ replace_from pairs (String.length old - 1) s'
          | None => String c (replace_from pairs 0 s')
          end
      end
  end.

(** [(s *Store) qualifyQuery] *)
Definition qualifyQuery (relations : relationNames) (query : string) : string :=
  replace_from
    [("hookbound_schema_migrations", rn_migrations relations);
     ("hookbound_messages", rn_messages relations);
     ("hookbound_deliveries", rn_deliveries relations);
     ("hookbound_attempts", rn_attempts relations);
     ("hookbound_receipts", rn_receipts relations)] 0 query.

(** * src/postgres/migrate.go *)

(** [migrationChecksum] *)
Definition migrationChecksum (contents : string) : string := hex_encode (sha256 contents).

Definition statement_marker : string := "-- hookbound:statement".

(** [strings.Split(contents, marker)]; [acc] is the current part, reversed. *)
Fixpoint split_marker (skip : nat) (acc : string) (s : string) : list string :=
  match s with
  | EmptyString => [str_rev acc]
  | String c s' =>
      match skip with
      | S k => split_marker k acc s'
      | O => if has_prefix statement_marker s
             then str_rev acc :: split_marker (String.length statement_marker - 1) ε s'
             else split_marker 0 (String c acc) s'
      end
  end.

(** [splitStatements] *)
Definition splitStatements (contents : string) : list string :=
  filter (λ t, negb (str_eqb t ε) = true) (map TrimSpace (split_marker 0 ε contents)).

(** * PostgreSQL's reading of a quoted identifier *)

(** The identifier a quoted token denotes, and the text after it. *)
Fixpoint read_quoted (s : string) : option (string * string) :=
  match s with
  | EmptyString => None
  | String c s' =>
      if bool_decide (c = DQUOTE) then
        match s' with
        | String d s'' =>
            if bool_decide (d = DQUOTE)
            then match read_quoted s'' with
                 | Some (i, rest) => Some (String DQUOTE i, rest)
                 | None => None
                 end
            else Some (ε, s')
        | EmptyString => Some (ε, ε)
        end
      else match read_quoted s' with
           | Some (i, rest) => Some (String c i, rest)
           | None => None
           end
  end.

(** An identifier token at the start of [s]. *)
Definition read_identifier (s : string) : option (string * string) :=
  match s with
  | String c s' => if bool_decide (c = DQUOTE) then read_quoted s' else None
  | EmptyString => None
  end.

(** * Lemmas *)

Definition starts_with_quote (s : string) : bool :=
  match s with String c _ => bool_decide (c = DQUOTE) | EmptyString => false end.

Lemma read_double_quotes id rest :
  starts_with_quote rest = false →
  read_quoted (double_quotes id +:+ String DQUOTE rest) = Some (id, rest).
Proof.
  intros Hr. induction id as [|c id IH]; simpl.
  - destruct rest as [|d rest]; [done|]. simpl in Hr. by rewrite Hr.
  - case_bool_decide as Hc; simpl.
    + rewrite IH. by subst c.
    + rewrite bool_decide_false by done. by rewrite IH.
Qed.

Lemma str_app_cons c s t : String c s +:+ t = String c (s +:+ t).
Proof. reflexivity. Qed.

Lemma read_quoteIdentifier id rest :
  starts_with_quote rest = false →
  read_identifier (quoteIdentifier id +:+ rest) = Some (id, rest).
Proof.
  intros Hr. unfold quoteIdentifier, read_identifier. rewrite !str_app_cons, str_app_assoc.
  rewrite bool_decide_true by done. by apply read_double_quotes.
Qed.

(** ** The statements of a file *)

(** [parts] is [contents] cut at every occurrence of [marker]: with the marker between
    them they are the contents, and none of them holds it. *)
Definition cut_at (marker contents : string) (parts : list string) : Prop :=
  contents = Join marker parts ∧ Forall (λ part, ∀ a b, part ≠ a +:+ marker +:+ b) parts.

Lemma has_prefix_true p s : has_prefix p s = true → s = p +:+ str_drop (String.length p) s.
Proof.
  revert s. induction p as [|c p IH]; intros s; simpl; [by rewrite app_ε_l|].
  destruct s as [|d s]; [done|]. intros [Hc%bool_decide_eq_true Hp]%andb_true_iff. subst d.
  rewrite app_cons. f_equal. by apply IH.
Qed.

Lemma split_marker_skip k acc s : split_marker k acc s = split_marker 0 acc (str_drop k s).
Proof.
  revert s. induction k as [|k IH]; intros s; [done|].
  destruct s as [|c s]; [done|]. simpl. apply IH.
Qed.

Lemma str_app_split x a b : x +:+ a = x +:+ b → a = b.
Proof. induction x as [|c x IH]; [done|]. rewrite !app_cons. intros [= H]. by apply IH. Qed.

(** A text that starts as long as [x] or later inside [x +:+ s] starts inside [s]. *)
Lemma app_long_prefix x s a b :
  x +:+ s = a +:+ b → (String.length x ≤ String.length a)%nat → ∃ a', a = x +:+ a' ∧ s = a' +:+ b.
Proof.
  revert a. induction x as [|c x IH]; intros a; [rewrite app_ε_l; intros ->; by exists a|].
  destruct a as [|d a]; simpl; [lia|]. rewrite !app_cons. intros [= -> H] Hl.
  destruct (IH a H) as (a' & -> & ->); [lia|]. by exists a'.
Qed.

Lemma split_marker_cut acc s :
  (∀ a b, str_rev acc +:+ s = a +:+ statement_marker +:+ b → (String.length (str_rev acc) ≤ String.length a)%nat) →
  ∃ part parts, split_marker 0 acc s = part :: parts ∧ cut_at statement_marker (str_rev acc +:+ s) (part :: parts).
Proof.
  remember (String.length s) as n eqn:Hn. assert (String.length s ≤ n)%nat as Hlen by lia. clear Hn.
  revert acc s Hlen. induction n as [|n IH]; intros acc s Hlen Hinv.
  all: assert (∀ t, str_rev acc +:+ s = str_rev acc +:+ t → ∀ a b, str_rev acc ≠ a +:+ statement_marker +:+ b) as Hacc
    by (intros _ _ a b E; specialize (Hinv a (b +:+ s)); rewrite E, !str_app_assoc in Hinv;
        specialize (Hinv eq_refl); rewrite !length_str_app in Hinv; simpl in Hinv; lia).
  all: destruct s as [|c s]; [exists (str_rev acc), []; split; [done|]; split;
    [by rewrite app_ε_r|constructor; [by apply (Hacc ε)|constructor]]|].
  { simpl in Hlen. lia. }
  cbn [split_marker]. destruct (has_prefix statement_marker (String c s)) eqn:Ep.
  - apply has_prefix_true in Ep. set (t := str_drop (String.length statement_marker) (String c s)) in *.
    rewrite split_marker_skip. change (str_drop (String.length statement_marker - 1) s) with t.
    destruct (IH ε t) as (part & parts & -> & Hc & Hf).
    { rewrite Ep in Hlen. rewrite length_str_app in Hlen. simpl in Hlen. lia. }
    { intros a b _. simpl. lia. }
    exists (str_rev acc), (part :: parts). split; [done|]. split; [|constructor; [by apply (Hacc (String c s))|done]].
    cbn [Join]. rewrite Ep. change (Join statement_marker (part :: parts)) with (Join statement_marker (part :: parts)) in Hc.
    change (str_rev ε +:+ t) with t in Hc. by rewrite Hc.
  - assert (str_rev acc +:+ String c s = str_rev (String c acc) +:+ s) as E.
    { rewrite str_rev_cons, str_app_assoc. done. }
    rewrite E. apply IH; [simpl in Hlen; lia|]. intros a b Hab. rewrite <-E in Hab.
    specialize (Hinv a b Hab). rewrite str_rev_cons, length_str_app. simpl.
    destruct (decide (String.length a = String.length (str_rev acc))) as [El|]; [|lia]. exfalso.
    destruct (app_long_prefix _ _ _ _ Hab) as (a' & -> & Hs); [lia|].
    rewrite length_str_app in El. destruct a' as [|d a']; [|simpl in El; lia].
    rewrite app_ε_l in Hs. rewrite Hs, has_prefix_app in Ep. done.
Qed.

(** The statements are the parts between the markers without the spaces around them,
    but for those that are only spaces. *)
Lemma splitStatements_spec contents :
  ∃ parts, cut_at "-- hookbound:statement" contents parts ∧
    splitStatements contents = filter (λ t, t ≠ ε) (map TrimSpace parts).
Proof.
  destruct (split_marker_cut ε contents) as (part & parts & E & Hc); [intros a b _; simpl; lia|].
  exists (part :: parts). split; [exact Hc|]. unfold splitStatements. rewrite E. apply list_filter_iff.
  intros t. unfold str_eqb. rewrite negb_true_iff, bool_decide_eq_false. done.
Qed.

(** * Properties *)

(** A schema name cannot escape its quotes: PostgreSQL reads a qualified
    relation, whatever follows it, as exactly the configured schema, a dot and
    the table's own name, so that no schema text changes the statement. *)
Lemma qualified_relation_reads_back schema table rest :
  starts_with_quote rest = false →
  ∃ tail, read_identifier (qualifiedRelation schema table +:+ rest) = Some (schema, String (chr 46) tail) ∧
    read_identifier tail = Some (table, rest).
Proof.
  intros Hr. unfold qualifiedRelation. exists (quoteIdentifier table +:+ rest). split.
  - rewrite !str_app_assoc. by apply read_quoteIdentifier.
  - by apply read_quoteIdentifier.
Qed.

Lemma qualified_relation_reads_back_witness :
  ∃ tail, read_identifier (qualifiedRelation (quoted "; DROP TABLE x") "hookbound_messages" +:+ " m") =
      Some (quoted "; DROP TABLE x", String (chr 46) tail) ∧
    read_identifier tail = Some ("hookbound_messages", " m").
Proof. exact (qualified_relation_reads_back (quoted "; DROP TABLE x") "hookbound_messages" " m" eq_refl). Defined.
