(* ===== verification/PgModel.v ===== *)
(** The database of src/postgres as the code sees it: the tables of
    src/postgres/migrations with their constraints, and the sessions that run
    the statements of src/postgres/store.go.

    A statement is a function on the tables.  An operation is a sequence of
    calls to the database in a state-and-error monad; its [world] holds the
    committed tables and, inside a transaction, the tables as the transaction
    sees them.  What the code does not control is in the environment [env]: which
    calls fail, before or after taking effect, what other sessions commit in
    between (under READ COMMITTED), which rows they hold locked, the clocks, the
    entropy, and the precision of timestamptz. *)

From S2P Require Import Prelude GoString Codec GoTime Errors Headers PgText.

(** * Tables *)

(** hookbound_messages *)
Record MessageRow := {
  mr_event_type : string;
  mr_body : string;
  mr_content_type : string;
  mr_created_at : time
}.

(** hookbound_deliveries *)
Record Delivery := {
  d_message_id : string;
  d_destination_url : string;
  d_headers : Header;
  d_key : option string;
  d_state : DeliveryState;
  d_attempt_count : Z;
  d_next_attempt_at : time;
  d_lease_expires_at : option time;
  d_last_status_code : option Z;
  d_last_error_code : option string;
  d_created_at : time;
  d_updated_at : time;
  d_completed_at : option time
}.

(** hookbound_attempts *)
Record Attempt := {
  a_delivery_id : string;
  a_number : Z;
  a_started_at : time;
  a_finished_at : option time;
  a_outcome : option string;
  a_status_code : option Z;
  a_duration_ns : option Z;
  a_error_code : option string;
  a_error_detail : option string;
  a_response_headers : option Header;
  a_response_body : option string;
  a_next_attempt_at : option time
}.

(** hookbound_receipts *)
Record Receipt := {
  r_event_type : string;
  r_event_timestamp : time;
  r_body : string;
  r_content_type : string;
  r_headers : Header;
  r_metadata : gmap string string;
  r_state : ReceiptState;
  r_attempt_count : Z;
  r_next_attempt_at : time;
  r_lease_expires_at : option time;
  r_last_error_code : option string;
  r_last_error_detail : option string;
  r_received_at : time;
  r_processed_at : option time;
  r_updated_at : time
}.

(** The tables by primary key; that of the receipts is (source, message_id). *)
Record DB := {
  messages : gmap string MessageRow;
  deliveries : gmap string Delivery;
  attempts : gmap string Attempt;
  receipts : gmap (string * string) Receipt
}.

Definition set_messages (m : gmap string MessageRow) (db : DB) : DB :=
  {| messages := m; deliveries := deliveries db; attempts := attempts db;
     receipts := receipts db |}.
Definition set_deliveries (m : gmap string Delivery) (db : DB) : DB :=
  {| messages := messages db; deliveries := m; attempts := attempts db;
     receipts := receipts db |}.
Definition set_attempts (m : gmap string Attempt) (db : DB) : DB :=
  {| messages := messages db; deliveries := deliveries db; attempts := m;
     receipts := receipts db |}.
Definition set_receipts (m : gmap (string * string) Receipt) (db : DB) : DB :=
  {| messages := messages db; deliveries := deliveries db; attempts := attempts db;
     receipts := m |}.

Definition empty_db : DB :=
  {| messages := ∅; deliveries := ∅; attempts := ∅; receipts := ∅ |}.

(** * Column types *)

Definition int4_max : Z := 2 ^ 31 - 1.
Definition int4_ok (n : Z) : bool := (- 2 ^ 31 <=? n) && (n <=? int4_max).

(** [text]: valid UTF-8 without the zero byte. *)
Definition pg_text (s : string) : bool := valid_utf8 s && negb (contains_byte NUL s).

(** [jsonb] holds no zero character. *)
Definition pg_json_header (h : Header) : bool :=
  forallb (λ e, negb (contains_byte NUL (e.1)) &&
                forallb (λ v, negb (contains_byte NUL v)) (e.2)) (map_to_list h).
Definition pg_json_metadata (m : gmap string string) : bool :=
  forallb (λ e, negb (contains_byte NUL (e.1)) && negb (contains_byte NUL (e.2)))
    (map_to_list m).

(** * The environment *)

(** A call fails before it takes effect, or its effect stays and the reply is lost. *)
Inductive fault : Type := NoFault | FailBefore | FailAfter.

(** What the code does not control, by the number of the call. *)
Record env := {
  en_fault : nat → fault;
  en_error : nat → error;
  en_others : nat → DB → DB;
  en_message_locked : nat → string → bool;
  en_message_rank : nat → string → Z;
  en_delivery_locked : nat → string → bool;
  en_delivery_rank : nat → string → Z;
  en_receipt_locked : nat → string * string → bool;
  en_receipt_rank : nat → string * string → Z;
  en_clock : nat → time;
  en_entropy : nat → go string;
  en_ids : nat → go string;
  en_jitter : nat → option Z;
  en_timestamptz : time → time
}.

(** The committed tables, the view of the open transaction, and the calls made. *)
Record world := { w_db : DB; w_tx : option DB; w_tick : nat }.

Definition tick (w : world) : world :=
  {| w_db := w_db w; w_tx := w_tx w; w_tick := S (w_tick w) |}.

(** The tables a statement of this session reads. *)
Definition visible (w : world) : DB := default (w_db w) (w_tx w).

Definition write (w : world) (db : DB) : world :=
  match w_tx w with
  | Some _ => {| w_db := w_db w; w_tx := Some db; w_tick := w_tick w |}
  | None => {| w_db := db; w_tx := None; w_tick := w_tick w |}
  end.

Definition rollback (w : world) : world :=
  {| w_db := w_db w; w_tx := None; w_tick := w_tick w |}.

(** * Operations *)

Definition M (A : Type) : Type := env → world → go A * world.

#[export] Instance M_ret : MRet M := λ A a _ w, (Ok a, w).
#[export] Instance M_bind : MBind M := λ A B f m e w,
  match m e w with
  | (Ok a, w') => f a e w'
  | (Err er, w') => (Err er, w')
  end.

(** A pure computation that may fail. *)
Definition lift {A} (m : go A) : M A := λ _ w, (m, w).
Definition throw {A} (er : error) : M A := lift (Err er).

(** Reading the environment is one call. *)
Definition ask {A} (f : env → nat → go A) : M A := λ e w, (f e (w_tick w), tick w).

Definition persistence (message : string) (cause : error) : error :=
  NewError CodePersistence message (Some cause).

(** Run [stmt] on the tables in view; its failure is wrapped with [message]. *)
Definition exec {A} (message : string) (stmt : env → nat → DB → go (A * DB)) : M A := λ e w,
  let n := w_tick w in
  let w := tick w in
  match en_fault e n with
  | FailBefore => (Err (persistence message (en_error e n)), w)
  | f =>
      match stmt e n (visible w) with
      | Err er => (Err (persistence message er), w)
      | Ok (a, db) =>
          match f with
          | NoFault => (Ok a, write w db)
          | _ => (Err (persistence message (en_error e n)), write w db)
          end
      end
  end.

(** A statement that only reads. *)
Definition query {A} (message : string) (q : env → nat → DB → go A) : M A :=
  exec message (λ e n db, a ← q e n db; Ok (a, db)).

(** [result.RowsAffected()] *)
Definition RowsAffected (message : string) (rows : Z) : M Z :=
  query message (λ _ _ _, Ok rows).

Definition Begin (message : string) : M unit := λ e w,
  let n := w_tick w in
  let w := tick w in
  match en_fault e n with
  | NoFault => (Ok tt, {| w_db := w_db w; w_tx := Some (w_db w); w_tick := w_tick w |})
  | _ => (Err (persistence message (en_error e n)), w)
  end.

Definition CommitTx (message : string) : M unit := λ e w,
  let n := w_tick w in
  let w := tick w in
  let done := {| w_db := visible w; w_tx := None; w_tick := w_tick w |} in
  match en_fault e n with
  | NoFault => (Ok tt, done)
  | FailBefore => (Err (persistence message (en_error e n)), rollback w)
  | FailAfter => (Err (persistence message (en_error e n)), done)
  end.

(** [defer tx.Rollback()] *)
Definition finally_rollback {A} (body : M A) : M A := λ e w,
  let '(r, w') := body e w in (r, rollback w').

(** [tx, err := BeginTx(...)] with the deferred rollback around [body]. *)
Definition with_tx {A} (message : string) (body : M A) : M A :=
  _ ← Begin message; finally_rollback body.

(** [tx == nil] *)
Definition require_tx : M unit := λ _ w,
  (match w_tx w with
   | Some _ => Ok tt
   | None => Err (NewError CodeInvalidConfiguration "transaction is required" None)
   end, w).

(** What other sessions commit while this one is between two statements. *)
Definition others : M unit := λ e w,
  let f := en_others e (w_tick w) in
  (Ok tt, {| w_db := f (w_db w); w_tx := f <$> w_tx w; w_tick := S (w_tick w) |}).

Definition no_rows : error := PlainError "sql: no rows in result set".

(** * Well-formed tables *)

Record delivery_wf (db : DB) (id : string) (d : Delivery) : Prop := {
  dw_message : is_Some (messages db !! d_message_id d);
  dw_count : 0 ≤ d_attempt_count d ≤ int4_max;
  dw_fresh : d_state d = DeliveryPending ↔ d_attempt_count d = 0;
  dw_lease : d_state d = DeliveryInFlight ↔ is_Some (d_lease_expires_at d);
  dw_completed : delivery_terminal (d_state d) = true ↔ is_Some (d_completed_at d);
  dw_attempts k : 1 ≤ k ≤ d_attempt_count d ↔
    ∃ aid a, attempts db !! aid = Some a ∧ a_delivery_id a = id ∧ a_number a = k;
  dw_open aid a : attempts db !! aid = Some a → a_delivery_id a = id →
    (a_finished_at a = None ↔ d_state d = DeliveryInFlight ∧ a_number a = d_attempt_count d)
}.

Record receipt_wf (r : Receipt) : Prop := {
  rw_count : 0 ≤ r_attempt_count r ≤ int4_max;
  rw_fresh : r_state r = ReceiptPending ↔ r_attempt_count r = 0;
  rw_lease : r_state r = ReceiptProcessing ↔ is_Some (r_lease_expires_at r);
  rw_processed : receipt_terminal (r_state r) = true ↔ is_Some (r_processed_at r)
}.

(** The invariant of the four tables. *)
Record db_wf (db : DB) : Prop := {
  wf_delivery id d : deliveries db !! id = Some d → delivery_wf db id d;
  wf_attempt aid a : attempts db !! aid = Some a → is_Some (deliveries db !! a_delivery_id a);
  wf_number aid1 aid2 a1 a2 :
    attempts db !! aid1 = Some a1 → attempts db !! aid2 = Some a2 →
    a_delivery_id a1 = a_delivery_id a2 → a_number a1 = a_number a2 → aid1 = aid2;
  wf_key id1 id2 d1 d2 k :
    deliveries db !! id1 = Some d1 → deliveries db !! id2 = Some d2 →
    d_key d1 = Some k → d_key d2 = Some k → id1 = id2;
  wf_receipt k r : receipts db !! k = Some r → receipt_wf r
}.

(** * Reasoning about operations *)

(** From committed tables [db] and a transaction's view [tx], [m] ends in [Q] with
    a result and in [X] with an error, whatever the calls made before. *)
Definition wp {A} (e : env) (m : M A) (Q : A → DB → option DB → Prop)
    (X : error → DB → option DB → Prop) (db : DB) (tx : option DB) : Prop :=
  ∀ n, match m e {| w_db := db; w_tx := tx; w_tick := n |} with
       | (Ok a, w) => Q a (w_db w) (w_tx w)
       | (Err er, w) => X er (w_db w) (w_tx w)
       end.

Lemma empty_db_wf : db_wf empty_db.
Proof. constructor; simpl; intros; by rewrite lookup_empty in *. Qed.

Section wp.
Context (e : env).

Lemma wp_mret {A} (a : A) Q X db tx : Q a db tx → wp e (mret a) Q X db tx.
Proof. by intros H n. Qed.

Lemma wp_lift {A} (m : go A) Q X db tx :
  match m with Ok a => Q a db tx | Err er => X er db tx end → wp e (lift m) Q X db tx.
Proof. intros H n. simpl. by destruct m. Qed.

Lemma wp_ask {A} (f : env → nat → go A) Q X db tx :
  (∀ n, match f e n with Ok a => Q a db tx | Err er => X er db tx end) →
  wp e (ask f) Q X db tx.
Proof. intros H n. specialize (H n). unfold ask. simpl. by destruct (f e n). Qed.

Lemma wp_bind {A B} (m : M A) (f : A → M B) Q X db tx :
  wp e m (λ a, wp e (f a) Q X) X db tx → wp e (m ≫= f) Q X db tx.
Proof.
  intros H n. specialize (H n). unfold mbind, M_bind.
  destruct (m e _) as [[a|er] w]; [|done]. destruct w as [db' tx' n']. apply (H n').
Qed.

Lemma wp_mono {A} (m : M A) (Q Q' : A → DB → option DB → Prop) X X' db tx :
  wp e m Q X db tx → (∀ a db tx, Q a db tx → Q' a db tx) → (∀ er db tx, X er db tx → X' er db tx) →
  wp e m Q' X' db tx.
Proof. intros H HQ HX n. specialize (H n). destruct (m e _) as [[a|er] w]; auto. Qed.

Lemma wp_and {A} (m : M A) (Q Q' : A → DB → option DB → Prop) X X' db tx :
  wp e m Q X db tx → wp e m Q' X' db tx →
  wp e m (λ a db tx, Q a db tx ∧ Q' a db tx) (λ er db tx, X er db tx ∧ X' er db tx) db tx.
Proof. intros H H' n. specialize (H n). specialize (H' n). by destruct (m e _) as [[a|er] w]. Qed.

Lemma wp_exec {A} message (stmt : env → nat → DB → go (A * DB)) Q X db tx :
  (∀ er, X er db tx) →
  (∀ n a db', stmt e n (default db tx) = Ok (a, db') →
     let db1 := match tx with Some _ => db | None => db' end in
     let tx1 := match tx with Some _ => Some db' | None => None end in
     Q a db1 tx1 ∧ ∀ er, X er db1 tx1) →
  wp e (exec message stmt) Q X db tx.
Proof.
  intros HX HQ n. unfold exec. simpl. unfold visible. simpl. specialize (HQ n).
  destruct (en_fault e n); simpl; [|auto|];
    (destruct (stmt e n (default db tx)) as [[a db']|er]; simpl; [|auto];
     destruct (HQ a db' eq_refl) as [? ?]; destruct tx; simpl in *; auto).
Qed.

Lemma wp_query {A} message (q : env → nat → DB → go A) Q X db tx :
  (∀ er, X er db tx) →
  (∀ n a, q e n (default db tx) = Ok a → Q a db tx) →
  wp e (query message q) Q X db tx.
Proof.
  intros HX HQ. apply wp_exec; [done|]. intros n a db' Hq.
  apply bind_Ok in Hq as (a' & Hq & [= -> <-]). destruct tx; simpl in *; eauto.
Qed.

Lemma wp_RowsAffected message rows Q X db tx :
  (∀ er, X er db tx) → Q rows db tx → wp e (RowsAffected message rows) Q X db tx.
Proof. intros HX HQ. apply wp_query; [done|]. by intros n a [= <-]. Qed.

Lemma wp_others Q X db tx :
  (∀ n, Q tt (en_others e n db) (en_others e n <$> tx)) → wp e others Q X db tx.
Proof. intros H n. apply H. Qed.

Lemma wp_commit message Q X db v :
  (∀ er, X er db None) → Q tt v None → (∀ er, X er v None) →
  wp e (CommitTx message) Q X db (Some v).
Proof. intros H1 H2 H3 n. unfold CommitTx. simpl. destruct (en_fault e n); simpl; auto. Qed.

Lemma wp_finally {A} (body : M A) Q X db tx :
  wp e body (λ a db' _, Q a db' None) (λ er db' _, X er db' None) db tx →
  wp e (finally_rollback body) Q X db tx.
Proof.
  intros H n. specialize (H n). unfold finally_rollback.
  by destruct (body e _) as [[a|er] w].
Qed.

Lemma wp_with_tx {A} message (body : M A) Q X db :
  (∀ er, X er db None) →
  wp e body (λ a db' _, Q a db' None) (λ er db' _, X er db' None) db (Some db) →
  wp e (with_tx message body) Q X db None.
Proof.
  intros HX H. apply wp_bind. intros n. unfold Begin. simpl.
  destruct (en_fault e n); simpl; [|done..]. by apply wp_finally.
Qed.

Lemma wp_require_tx Q X db v : Q tt db (Some v) → wp e require_tx Q X db (Some v).
Proof. by intros H n. Qed.
End wp.
