(* ===== verification/PgOutbound.v ===== *)
(** src/postgres/store.go, the outbox: publication, claims, lease renewal and
    completion of deliveries, statement by statement. *)

From S2P Require Import Prelude GoString Codec GoTime Errors Headers Message Retry Outcome.
From S2P Require Import PgText PgSchema PgModel.

(** * The store *)

(** [Store]; [st_clock] and [st_ids] tell whether a clock and an identifier
    generator are configured. *)
Record Store := {
  st_relations : relationNames;
  st_clock : bool;
  st_ids : bool;
  st_maxResponseBodyBytes : Z;
  st_sensitiveHeaderNames : list string;
  st_persistErrorDetails : bool
}.

(** [StoreConfig] *)
Record StoreConfig := {
  sc_Schema : string;
  sc_Clock : bool;
  sc_IDGenerator : bool;
  sc_MaxResponseBodyBytes : Z;
  sc_SensitiveHeaders : list string;
  sc_PersistErrorDetails : bool
}.

(** [NewStoreWithConfig]; [db] tells whether the database handle is not nil. *)
Definition NewStoreWithConfig (db : bool) (config : StoreConfig) : go Store :=
  _ ← reject (negb db)
        (NewError CodeInvalidConfiguration "PostgreSQL database is required" None);
  _ ← reject (sc_MaxResponseBodyBytes config <? 0)
        (NewError CodeInvalidConfiguration
           "maximum persisted response body cannot be negative" None);
  schema ← normalizeSchema (sc_Schema config);
  Ok {| st_relations := relationsForSchema schema;
        st_clock := sc_Clock config; st_ids := sc_IDGenerator config;
        st_maxResponseBodyBytes := sc_MaxResponseBodyBytes config;
        st_sensitiveHeaderNames := defaultSensitiveHeaders ++ sc_SensitiveHeaders config;
        st_persistErrorDetails := sc_PersistErrorDetails config |}.

(** [NewStore] *)
Definition NewStore (db : bool) (clock ids : bool) : go Store :=
  NewStoreWithConfig db
    {| sc_Schema := ε; sc_Clock := clock; sc_IDGenerator := ids; sc_MaxResponseBodyBytes := 0;
       sc_SensitiveHeaders := []; sc_PersistErrorDetails := false |}.

(** [(s *Store) now]: the configured clock, or the process's; [en_clock] is either. *)
Definition Store_now (_ : Store) : M time := ask (λ e n, Ok (en_clock e n)).

(** [(s *Store) authoritativeNow] *)
Definition authoritativeNow (s : Store) : M time :=
  if st_clock s then Store_now s
  else query "read PostgreSQL clock" (λ e n _, Ok (en_clock e n)).

(** [(s *Store) newMessageID] *)
Definition newMessageID (s : Store) : M string :=
  if st_ids s then ask en_ids else ask (λ e n, NewMessageID (en_entropy e n)).

(** [randomOpaqueID] with the process's entropy. *)
Definition opaqueID (prefix : string) : M string :=
  ask (λ e n, randomOpaqueID prefix (en_entropy e n)).

(** [(s *Store) errorDetail] *)
Definition errorDetail (s : Store) (err : option error) : string :=
  if st_persistErrorDetails s then truncateError err 2048 else ε.

(** * Publication *)

(** [Publication] *)
Record Publication := { pub_MessageID : string; pub_DeliveryID : string }.

(** INSERT INTO hookbound_messages ... ON CONFLICT (id) DO NOTHING: the rows inserted. *)
Definition insert_message (id eventType body contentType : string) (createdAt : time)
    : env → nat → DB → go (Z * DB) := λ e _ db,
  _ ← reject (negb (pg_text id && pg_text eventType && pg_text contentType))
        (PlainError "invalid byte sequence for text");
  match messages db !! id with
  | Some _ => Ok (0, db)
  | None =>
      Ok (1, set_messages (<[id := {| mr_event_type := eventType; mr_body := body;
                                      mr_content_type := contentType;
                                      mr_created_at := en_timestamptz e createdAt |}]>
                             (messages db)) db)
  end.

(** SELECT event_type, body, content_type FROM hookbound_messages WHERE id = $1 *)
Definition select_message (id : string) : env → nat → DB → go MessageRow := λ _ _ db,
  of_option no_rows (messages db !! id).

(** The delivery with idempotency key [k]. *)
Definition delivery_with_key (k : string) (db : DB) : option (string * Delivery) :=
  head (filter (λ p, d_key (p.2) = Some k) (map_to_list (deliveries db))).

(** A published delivery. *)
Definition new_delivery (messageID url : string) (headers : Header) (key : option string)
    (now : time) : Delivery :=
  {| d_message_id := messageID; d_destination_url := url; d_headers := json_header headers;
     d_key := key; d_state := DeliveryPending; d_attempt_count := 0;
     d_next_attempt_at := now; d_lease_expires_at := None;
     d_last_status_code := None; d_last_error_code := None;
     d_created_at := now; d_updated_at := now; d_completed_at := None |}.

(** INSERT INTO hookbound_deliveries ... ON CONFLICT (idempotency_key_hash) DO
    NOTHING; the primary key and the foreign key are checked on insertion. *)
Definition insert_delivery (id messageID url : string) (headers : Header) (key : option string)
    (createdAt : time) : env → nat → DB → go (Z * DB) := λ e _ db,
  _ ← reject (negb (pg_text id && pg_text url && pg_json_header headers))
        (PlainError "invalid byte sequence for text");
  match key ≫= λ k, delivery_with_key k db with
  | Some _ => Ok (0, db)
  | None =>
      _ ← reject (bool_decide (is_Some (deliveries db !! id)))
            (PlainError "duplicate key value violates unique constraint");
      _ ← reject (bool_decide (messages db !! messageID = None))
            (PlainError "insert violates foreign key constraint");
      Ok (1, set_deliveries
               (<[id := new_delivery messageID url headers key (en_timestamptz e createdAt)]>
                  (deliveries db)) db)
  end.

(** The row read by [findIdempotentPublication], if any. *)
Definition select_publication (k : string) : env → nat → DB → go (option (string * Delivery * MessageRow)) :=
  λ _ _ db,
  Ok (p ← delivery_with_key k db;
      m ← messages db !! d_message_id (p.2);
      Some (p, m)).

(** DELETE FROM hookbound_messages m WHERE m.id = $1 AND NOT EXISTS (...) *)
Definition delete_unreferenced (id : string) : env → nat → DB → go (unit * DB) := λ _ _ db,
  if bool_decide (map_Forall (λ _ d, d_message_id d ≠ id) (deliveries db))
  then Ok (tt, set_messages (delete id (messages db)) db)
  else Ok (tt, db).

(** The content a stored publication must have to answer a request again. *)
Definition same_publication (request : SendRequest) (contentType : string) (explicit : bool)
    (d : Delivery) (m : MessageRow) : bool :=
  str_eqb (mr_event_type m) (sr_EventType request) && str_eqb (mr_body m) (sr_Body request) &&
  str_eqb (mr_content_type m) contentType && str_eqb (d_destination_url d) (sr_URL request) &&
  bool_decide (canonicalHeaders (d_headers d) = canonicalHeaders (sr_Headers request)) &&
  (if explicit then str_eqb (d_message_id d) (sr_ID request) else true).

(** [(s *Store) findIdempotentPublication]: [None] is [found = false]. *)
Definition findIdempotentPublication (keyHash : string) (request : SendRequest)
    (contentType : string) (explicit : bool) : M (option Publication) :=
  row ← query "read idempotent webhook publication" (select_publication keyHash);
  match row with
  | None => mret None
  | Some ((id, d), m) =>
      if same_publication request contentType explicit d m
      then mret (Some {| pub_MessageID := d_message_id d; pub_DeliveryID := id |})
      else throw (NewError CodeConflict
             "idempotency key already exists with different immutable publication content" None)
  end.

(** The request as it is stored: canonical headers, and the identifier chosen. *)
Definition with_headers (request : SendRequest) (h : Header) : SendRequest :=
  {| sr_ID := sr_ID request; sr_URL := sr_URL request; sr_EventType := sr_EventType request;
     sr_Body := sr_Body request; sr_ContentType := sr_ContentType request; sr_Headers := h;
     sr_Auth := sr_Auth request |}.
Definition with_id (request : SendRequest) (id : string) : SendRequest :=
  {| sr_ID := id; sr_URL := sr_URL request; sr_EventType := sr_EventType request;
     sr_Body := sr_Body request; sr_ContentType := sr_ContentType request;
     sr_Headers := sr_Headers request; sr_Auth := sr_Auth request |}.

Section enqueue.
Context `{HeaderOrder}.

(** The checks of [EnqueueTxWithOptions] before it touches the database: the
    key's hash. *)
Definition check_enqueue (s : Store) (request : SendRequest) (key : string) : go (option string) :=
  _ ← reject (match sr_Auth request with Some _ => true | None => false end)
        (NewError CodeInvalidConfiguration
           "per-request authenticators cannot be persisted; configure authentication on Runtime"
           None);
  _ ← SendRequest_Validate request;
  _ ← reject (containsSensitiveHeaders (sr_Headers request) (st_sensitiveHeaderNames s))
        (NewError CodeInvalidConfiguration
           "durable deliveries cannot persist authorization or cookie headers; configure a runtime authenticator"
           None);
  publicationKeyHash key.

Definition content_type (request : SendRequest) : string :=
  if str_eqb (sr_ContentType request) ε then "application/json" else sr_ContentType request.

(** From the first INSERT of [EnqueueTxWithOptions] on: [request] has its
    identifier, [explicit] tells whether the caller chose it. *)
Definition store_publication (request : SendRequest) (contentType : string)
    (keyHash : option string) (explicit : bool) (createdAt : time) : M Publication :=
  rows ← exec "insert webhook message"
           (insert_message (sr_ID request) (sr_EventType request) (sr_Body request) contentType
              createdAt);
  rows ← RowsAffected "inspect webhook message insert" rows;
  let messageInserted := rows =? 1 in
  _ ← (if rows =? 0 then
         existing ← query "read existing webhook message" (select_message (sr_ID request));
         lift (reject (negb (str_eqb (mr_event_type existing) (sr_EventType request))
                       || negb (str_eqb (mr_content_type existing) contentType)
                       || negb (str_eqb (mr_body existing) (sr_Body request)))
                 (NewError CodeConflict
                    "message ID already exists with different immutable content" None))
       else mret tt);
  deliveryID ← opaqueID "dlv_";
  _ ← others;
  rows ← exec "insert webhook delivery"
           (insert_delivery deliveryID (sr_ID request) (sr_URL request) (sr_Headers request)
              keyHash createdAt);
  rows ← RowsAffected "inspect webhook delivery insert" rows;
  if rows =? 1 then
    mret {| pub_MessageID := sr_ID request; pub_DeliveryID := deliveryID |}
  else match keyHash with
  | None =>
      throw (NewError CodePersistence "webhook delivery insert affected no rows" None)
  | Some k =>
      found ← findIdempotentPublication k request contentType explicit;
      match found with
      | None =>
          throw (NewError CodePersistence
                   "idempotent webhook publication disappeared during enqueue" None)
      | Some publication =>
          _ ← (if messageInserted then
                 exec "remove unreferenced message after idempotent enqueue race"
                   (delete_unreferenced (sr_ID request))
               else mret tt);
          mret publication
      end
  end.

(** [(s *Store) EnqueueTxWithOptions] *)
Definition EnqueueTxWithOptions (s : Store) (request : SendRequest) (key : string)
    : M Publication :=
  _ ← require_tx;
  keyHash ← lift (check_enqueue s request key);
  let explicit := negb (str_eqb (sr_ID request) ε) in
  let request := with_headers request (canonicalHeaders (sr_Headers request)) in
  let contentType := content_type request in
  _ ← others;
  found ← match keyHash with
          | Some k => findIdempotentPublication k request contentType explicit
          | None => mret None
          end;
  match found with
  | Some publication => mret publication
  | None =>
      id ← (if explicit then mret (sr_ID request) else newMessageID s);
      createdAt ← authoritativeNow s;
      _ ← others;
      store_publication (with_id request id) contentType keyHash explicit createdAt
  end.

(** [(s *Store) EnqueueWithOptions] *)
Definition EnqueueWithOptions (s : Store) (request : SendRequest) (key : string) : M Publication :=
  with_tx "begin enqueue transaction"
    (publication ← EnqueueTxWithOptions s request key;
     _ ← CommitTx "commit enqueue transaction";
     mret publication).

(** [(s *Store) EnqueueTx] *)
Definition EnqueueTx (s : Store) (request : SendRequest) : M Publication := EnqueueTxWithOptions s request ε.

(** [(s *Store) Enqueue] *)
Definition Enqueue (s : Store) (request : SendRequest) : M Publication :=
  EnqueueWithOptions s request ε.
End enqueue.

(** * Claims *)

(** [ClaimedDelivery] *)
Record ClaimedDelivery := {
  cd_DeliveryID : string;
  cd_AttemptID : string;
  cd_Attempt : Z;
  cd_MessageID : string;
  cd_Destination : string;
  cd_EventType : string;
  cd_Body : string;
  cd_ContentType : string;
  cd_Headers : Header;
  cd_StartedAt : time
}.

(** The WHERE clause of the claim. *)
Definition delivery_due (now : time) (d : Delivery) : bool :=
  match d_state d with
  | DeliveryPending | DeliveryRetry => d_next_attempt_at d <=? now
  | DeliveryInFlight =>
      match d_lease_expires_at d with Some lease => lease <=? now | None => false end
  | _ => false
  end.

(** ORDER BY next_attempt_at, created_at; [rank] orders what the query leaves open. *)
Definition delivery_before (rank : string → Z) (x y : string * Delivery) : bool :=
  let '(i, d) := x in
  let '(j, f) := y in
  if d_next_attempt_at d =? d_next_attempt_at f then
    if d_created_at d =? d_created_at f then rank i <? rank j
    else d_created_at d <? d_created_at f
  else d_next_attempt_at d <? d_next_attempt_at f.

#[global] Arguments delivery_before : simpl never.

(** LIMIT 1: the first row of a list in an order. *)
Fixpoint first_by {A} (before : A → A → bool) (l : list A) : option A :=
  match l with
  | [] => None
  | x :: l' =>
      match first_by before l' with
      | None => Some x
      | Some y => if before y x then Some y else Some x
      end
  end.

(** SELECT ... FOR UPDATE OF d SKIP LOCKED LIMIT 1 *)
Definition select_due_delivery (now : time)
    : env → nat → DB → go (option (string * Delivery * MessageRow)) := λ e n db,
  let rows := filter (λ p, delivery_due now (p.2) = true ∧ en_delivery_locked e n (p.1) = false ∧
                           is_Some (messages db !! d_message_id (p.2)))
                (map_to_list (deliveries db)) in
  match first_by (delivery_before (en_delivery_rank e n)) rows with
  | None => Ok None
  | Some (id, d) =>
      _ ← reject (negb (int4_ok (d_attempt_count d + 1))) (PlainError "integer out of range");
      Ok (m ← messages db !! d_message_id d; Some (id, d, m))
  end.

(** An attempt of delivery [id] with number [n] that is not finished. *)
Definition open_attempt (id : string) (n : Z) (a : Attempt) : bool :=
  str_eqb (a_delivery_id a) id && (a_number a =? n) &&
  match a_finished_at a with None => true | Some _ => false end.

(** An attempt given up because its lease ran out. *)
Definition expired_attempt (finished : time) (a : Attempt) : Attempt :=
  {| a_delivery_id := a_delivery_id a; a_number := a_number a; a_started_at := a_started_at a;
     a_finished_at := Some finished; a_outcome := Some "retry";
     a_status_code := a_status_code a; a_duration_ns := a_duration_ns a;
     a_error_code := Some "lease_expired";
     a_error_detail := Some "worker lease expired before completion";
     a_response_headers := a_response_headers a; a_response_body := a_response_body a;
     a_next_attempt_at := a_next_attempt_at a |}.

Definition expire_open (finished : time) (id : string) (n : Z) (a : Attempt) : Attempt :=
  if open_attempt id n a then expired_attempt finished a else a.

(** UPDATE hookbound_attempts SET outcome = 'retry', error_code = 'lease_expired' ... *)
Definition expire_attempt (now : time) (id : string) (n : Z) : env → nat → DB → go (unit * DB) :=
  λ e _ db,
  Ok (tt, set_attempts (expire_open (en_timestamptz e now) id n <$> attempts db) db).

(** A delivery leased for its next attempt. *)
Definition leased (attempt : Z) (lease updated : time) (d : Delivery) : Delivery :=
  {| d_message_id := d_message_id d; d_destination_url := d_destination_url d;
     d_headers := d_headers d; d_key := d_key d; d_state := DeliveryInFlight;
     d_attempt_count := attempt; d_next_attempt_at := d_next_attempt_at d;
     d_lease_expires_at := Some lease; d_last_status_code := d_last_status_code d;
     d_last_error_code := d_last_error_code d; d_created_at := d_created_at d;
     d_updated_at := updated; d_completed_at := d_completed_at d |}.

(** UPDATE hookbound_deliveries SET state = 'in_flight' ... WHERE id = $4 *)
Definition lease_delivery (now leaseEnd : time) (attempt : Z) (id : string)
    : env → nat → DB → go (unit * DB) := λ e _ db,
  Ok (tt, set_deliveries
            (alter (leased attempt (en_timestamptz e leaseEnd) (en_timestamptz e now)) id
               (deliveries db)) db).

(** A new attempt. *)
Definition started_attempt (id : string) (n : Z) (now : time) : Attempt :=
  {| a_delivery_id := id; a_number := n; a_started_at := now;
     a_finished_at := None; a_outcome := None; a_status_code := None;
     a_duration_ns := None; a_error_code := None; a_error_detail := None;
     a_response_headers := None; a_response_body := None; a_next_attempt_at := None |}.

(** INSERT INTO hookbound_attempts: the primary key, the foreign key and the
    unique (delivery_id, attempt_number). *)
Definition insert_attempt (aid id : string) (n : Z) (now : time) : env → nat → DB → go (unit * DB) :=
  λ e _ db,
  _ ← reject (bool_decide (is_Some (attempts db !! aid)))
        (PlainError "duplicate key value violates unique constraint");
  _ ← reject (bool_decide (¬ map_Forall (λ _ a, ¬ (a_delivery_id a = id ∧ a_number a = n))
                               (attempts db)))
        (PlainError "duplicate key value violates unique constraint");
  _ ← reject (bool_decide (deliveries db !! id = None))
        (PlainError "insert violates foreign key constraint");
  Ok (tt, set_attempts
            (<[aid := started_attempt id n (en_timestamptz e now)]> (attempts db)) db).

(** The claim of row [d] of delivery [id] as attempt [aid]. *)
Definition claim_of (now : time) (id : string) (d : Delivery) (m : MessageRow) (aid : string)
    : ClaimedDelivery :=
  {| cd_DeliveryID := id; cd_AttemptID := aid; cd_Attempt := d_attempt_count d + 1;
     cd_MessageID := d_message_id d; cd_Destination := d_destination_url d;
     cd_EventType := mr_event_type m; cd_Body := mr_body m;
     cd_ContentType := mr_content_type m; cd_Headers := d_headers d; cd_StartedAt := now |}.

(** From the row read by [ClaimDelivery] to its commit. *)
Definition lease_claimed (now : time) (lease : duration) (id : string) (d : Delivery)
    (m : MessageRow) : M ClaimedDelivery :=
  let attempt := d_attempt_count d + 1 in
  _ ← (if decide (d_state d = DeliveryInFlight) then
         if 0 <? d_attempt_count d then
           exec "expire abandoned webhook attempt" (expire_attempt now id (d_attempt_count d))
         else mret tt
       else mret tt);
  attemptID ← opaqueID "att_";
  _ ← exec "lease webhook delivery" (lease_delivery now (Add now lease) attempt id);
  _ ← exec "insert webhook attempt" (insert_attempt attemptID id attempt now);
  _ ← CommitTx "commit delivery claim";
  mret (claim_of now id d m attemptID).

(** [(s *Store) ClaimDelivery]: [None] is (nil, nil). *)
Definition ClaimDelivery (s : Store) (lease : duration) : M (option ClaimedDelivery) :=
  let lease := if lease <=? 0 then Minute else lease in
  with_tx "begin delivery claim"
    (now ← authoritativeNow s;
     _ ← others;
     row ← query "claim due webhook delivery" (λ e n db, select_due_delivery (en_timestamptz e now) e n db);
     match row with
     | None => mret None
     | Some ((id, d), m) =>
         claimed ← lease_claimed now lease id d m;
         mret (Some claimed)
     end).

(** The WHERE clause of a renewal and what makes a claim current: the delivery is
    in flight with the claim's attempt number, and the claim's attempt is open. *)
Definition owns_delivery (c : ClaimedDelivery) (db : DB) : bool :=
  match deliveries db !! cd_DeliveryID c, attempts db !! cd_AttemptID c with
  | Some d, Some a =>
      bool_decide (d_state d = DeliveryInFlight) && (d_attempt_count d =? cd_Attempt c) &&
      open_attempt (cd_DeliveryID c) (d_attempt_count d) a
  | _, _ => false
  end.

(** UPDATE ... SET lease_expires_at ... : the rows updated. *)
Definition renew_delivery (c : ClaimedDelivery) (now leaseEnd : time) : DB → go (Z * DB) := λ db,
  match deliveries db !! cd_DeliveryID c with
  | Some d =>
      if owns_delivery c db && match d_lease_expires_at d with Some l => now <? l | None => false end
      then Ok (1, set_deliveries
                    (<[cd_DeliveryID c := leased (d_attempt_count d) leaseEnd now d]> (deliveries db)) db)
      else Ok (0, db)
  | None => Ok (0, db)
  end.

(** [(s *Store) RenewDeliveryLease]; [None] is a nil claim. *)
Definition RenewDeliveryLease (s : Store) (claimed : option ClaimedDelivery) (lease : duration)
    : M unit :=
  c ← lift (of_option (NewError CodeInvalidConfiguration "claimed delivery is required" None) claimed);
  _ ← lift (reject (lease <=? 0)
              (NewError CodeInvalidConfiguration "delivery lease duration must be positive" None));
  _ ← others;
  rows ← (if st_clock s then
            now ← Store_now s;
            exec "renew webhook delivery lease" (λ e _ db,
              renew_delivery c (en_timestamptz e now) (en_timestamptz e (Add now lease)) db)
          else
            exec "renew webhook delivery lease" (λ e n db,
              let now := en_timestamptz e (en_clock e n) in
              renew_delivery c now (now + durationMicrosecondsCeil lease * Microsecond) db));
  rows ← RowsAffected "inspect webhook delivery lease renewal" rows;
  lift (reject (negb (rows =? 1))
          (NewError CodeConflict "delivery lease expired or was lost before renewal" None)).

(** * Completion *)

(** The columns [CompleteDelivery] writes into the attempt. *)
Record attempt_end := {
  ae_outcome : string; ae_status : Z; ae_duration : Z; ae_code : string; ae_detail : string;
  ae_headers : Header; ae_body : option string; ae_next : option time
}.

Definition finished_attempt (ts : time → time) (now : time) (x : attempt_end) (a : Attempt)
    : Attempt :=
  {| a_delivery_id := a_delivery_id a; a_number := a_number a;
     a_started_at := a_started_at a; a_finished_at := Some (ts now);
     a_outcome := Some (ae_outcome x); a_status_code := null_zero (ae_status x);
     a_duration_ns := Some (ae_duration x); a_error_code := null_empty (ae_code x);
     a_error_detail := null_empty (ae_detail x);
     a_response_headers := Some (json_header (ae_headers x));
     a_response_body := ae_body x; a_next_attempt_at := ts <$> ae_next x |}.

(** UPDATE hookbound_attempts ... WHERE id = $10 AND ... finished_at IS NULL *)
Definition finish_attempt (c : ClaimedDelivery) (now : time) (x : attempt_end)
    : env → nat → DB → go (Z * DB) := λ e _ db,
  _ ← reject (negb (pg_text (ae_code x) && pg_text (ae_detail x) && pg_json_header (ae_headers x)
                    && int4_ok (ae_status x)))
        (PlainError "invalid input for column");
  match attempts db !! cd_AttemptID c with
  | Some a =>
      if open_attempt (cd_DeliveryID c) (cd_Attempt c) a then
        Ok (1, set_attempts
          (<[cd_AttemptID c := finished_attempt (en_timestamptz e) now x a]> (attempts db)) db)
      else Ok (0, db)
  | None => Ok (0, db)
  end.

(** A delivery after its attempt. *)
Definition settled (state : DeliveryState) (next : option time) (status : Z) (code : string)
    (now : time) (completed : option time) (d : Delivery) : Delivery :=
  {| d_message_id := d_message_id d; d_destination_url := d_destination_url d;
     d_headers := d_headers d; d_key := d_key d; d_state := state;
     d_attempt_count := d_attempt_count d;
     d_next_attempt_at := default (d_next_attempt_at d) next; d_lease_expires_at := None;
     d_last_status_code := null_zero status; d_last_error_code := null_empty code;
     d_created_at := d_created_at d; d_updated_at := now; d_completed_at := completed |}.

(** UPDATE hookbound_deliveries ... WHERE id = $7 AND state = 'in_flight' AND attempt_count = $8 *)
Definition settle_delivery (c : ClaimedDelivery) (state : DeliveryState) (next : option time)
    (status : Z) (code : string) (now : time) (completed : option time)
    : env → nat → DB → go (Z * DB) := λ e _ db,
  match deliveries db !! cd_DeliveryID c with
  | Some d =>
      if bool_decide (d_state d = DeliveryInFlight) && (d_attempt_count d =? cd_Attempt c) then
        Ok (1, set_deliveries
          (<[cd_DeliveryID c :=
               settled state (en_timestamptz e <$> next) status code (en_timestamptz e now)
                 (en_timestamptz e <$> completed) d]> (deliveries db)) db)
      else Ok (0, db)
  | None => Ok (0, db)
  end.

(** The error code stored with an attempt. *)
Definition attempt_code (result : AttemptResult) (sendErr : option error) : string :=
  if str_eqb (ar_ErrorCode result) ε
  then match sendErr with Some _ => ErrorCode sendErr | None => ε end
  else ar_ErrorCode result.

(** [result.Outcome = normalizedOutcome(result.Outcome, sendErr)] *)
Definition with_outcome (result : AttemptResult) (outcome : Outcome) : AttemptResult :=
  {| ar_MessageID := ar_MessageID result; ar_AttemptedAt := ar_AttemptedAt result;
     ar_Outcome := outcome; ar_StatusCode := ar_StatusCode result;
     ar_Duration := ar_Duration result; ar_RetryAt := ar_RetryAt result;
     ar_ResponseHeader := ar_ResponseHeader result; ar_ResponseBody := ar_ResponseBody result;
     ar_ErrorCode := ar_ErrorCode result |}.

(** [(s *Store) CompleteDelivery]; [None] is a nil claim. *)
Definition CompleteDelivery (s : Store) (claimed : option ClaimedDelivery) (result : AttemptResult)
    (sendErr : option error) (retry : RetryPolicy) : M unit :=
  c ← lift (of_option (NewError CodeInvalidConfiguration "claimed delivery is required" None) claimed);
  let result := with_outcome result (normalizedOutcome (ar_Outcome result) sendErr) in
  let responseHeaders := redactedHeaders (ar_ResponseHeader result) (st_sensitiveHeaderNames s) in
  let code := attempt_code result sendErr in
  with_tx "begin delivery completion"
    (now ← authoritativeNow s;
     random ← ask (λ e n, Ok (en_jitter e n));
     let '(state, nextAttempt) := deliveryTransition random now (cd_Attempt c) result sendErr retry in
     _ ← others;
     rows ← exec "complete webhook attempt"
              (finish_attempt c now
                 {| ae_outcome := Outcome_String (ar_Outcome result);
                    ae_status := ar_StatusCode result; ae_duration := ar_Duration result;
                    ae_code := code; ae_detail := errorDetail s sendErr;
                    ae_headers := responseHeaders;
                    ae_body := boundedBytes (ar_ResponseBody result) (st_maxResponseBodyBytes s);
                    ae_next := nullTime nextAttempt |});
     rows ← RowsAffected "inspect webhook attempt completion" rows;
     _ ← lift (reject (negb (rows =? 1))
                 (NewError CodeConflict
                    "webhook attempt was already completed or did not match its delivery" None));
     let completedAt := if delivery_terminal state then Some now else None in
     rows ← exec "complete webhook delivery"
              (settle_delivery c state (nullTime nextAttempt) (ar_StatusCode result) code now
                 completedAt);
     rows ← RowsAffected "inspect webhook delivery completion" rows;
     _ ← lift (reject (negb (rows =? 1))
                 (NewError CodeConflict "delivery lease was lost before completion" None));
     CommitTx "commit delivery completion").
