(* ===== verification/PgInbound.v ===== *)
(** src/postgres/store.go, the inbox: receipts, their claims, lease renewal and
    completion. *)

From S2P Require Import Prelude GoString Codec GoTime Errors Headers Message Retry Outcome.
From S2P Require Import PgText PgSchema PgModel PgOutbound.

(** * Persisting a verified message *)

(** A receipt as it is first stored. *)
Definition new_receipt (message : VerifiedMessage) (headers : Header)
    (metadata : gmap string string) (ts : time → time) (now : time) : Receipt :=
  {| r_event_type := vm_Type message; r_event_timestamp := ts (vm_Timestamp message);
     r_body := vm_Body message; r_content_type := vm_ContentType message;
     r_headers := json_header headers; r_metadata := json_metadata metadata;
     r_state := ReceiptPending; r_attempt_count := 0; r_next_attempt_at := ts now;
     r_lease_expires_at := None; r_last_error_code := None; r_last_error_detail := None;
     r_received_at := ts now; r_processed_at := None; r_updated_at := ts now |}.

Definition receipt_key (message : VerifiedMessage) : string * string :=
  (vm_Source message, vm_ID message).

(** INSERT INTO hookbound_receipts ... ON CONFLICT (source, message_id) DO NOTHING *)
Definition insert_receipt (message : VerifiedMessage) (headers : Header) (now : time)
    : env → nat → DB → go (Z * DB) := λ e _ db,
  _ ← reject (negb (pg_text (vm_Source message) && pg_text (vm_ID message) &&
                    pg_text (vm_Type message) && pg_text (vm_ContentType message) &&
                    pg_json_header headers && pg_json_metadata (vm_Metadata message)))
        (PlainError "invalid input for column");
  match receipts db !! receipt_key message with
  | Some _ => Ok (0, db)
  | None =>
      Ok (1, set_receipts
               (<[receipt_key message :=
                    new_receipt message headers (vm_Metadata message) (en_timestamptz e) now]>
                  (receipts db)) db)
  end.

(** SELECT event_type, body, content_type FROM hookbound_receipts WHERE ... *)
Definition select_receipt (key : string * string) : env → nat → DB → go Receipt := λ _ _ db,
  of_option no_rows (receipts db !! key).

(** [(s *Store) Handle] *)
Definition Handle (s : Store) (message : VerifiedMessage) : M unit :=
  _ ← lift (VerifiedMessage_Validate message);
  let headers := redactedHeaders (vm_Headers message) (st_sensitiveHeaderNames s) in
  now ← authoritativeNow s;
  _ ← others;
  rows ← exec "persist webhook receipt" (insert_receipt message headers now);
  rows ← RowsAffected "inspect webhook receipt insert" rows;
  if rows =? 0 then
    _ ← others;
    existing ← query "read existing webhook receipt" (select_receipt (receipt_key message));
    lift (reject (negb (str_eqb (r_event_type existing) (vm_Type message))
                  || negb (str_eqb (r_content_type existing) (vm_ContentType message))
                  || negb (str_eqb (r_body existing) (vm_Body message)))
            (NewError CodeConflict
               "receipt ID already exists with different immutable content" None))
  else mret tt.

(** * Claims *)

(** [ClaimedReceipt] *)
Record ClaimedReceipt := {
  cr_Message : VerifiedMessage;
  cr_Attempt : Z;
  cr_StartedAt : time
}.

Definition cr_key (c : ClaimedReceipt) : string * string := receipt_key (cr_Message c).

(** The WHERE clause of the claim. *)
Definition receipt_due (now : time) (r : Receipt) : bool :=
  match r_state r with
  | ReceiptPending | ReceiptRetry => r_next_attempt_at r <=? now
  | ReceiptProcessing =>
      match r_lease_expires_at r with Some lease => lease <=? now | None => false end
  | _ => false
  end.

(** ORDER BY next_attempt_at, received_at *)
Definition receipt_before (rank : string * string → Z) (x y : (string * string) * Receipt) : bool :=
  let '(i, r) := x in
  let '(j, q) := y in
  if r_next_attempt_at r =? r_next_attempt_at q then
    if r_received_at r =? r_received_at q then rank i <? rank j
    else r_received_at r <? r_received_at q
  else r_next_attempt_at r <? r_next_attempt_at q.

(** SELECT ... FOR UPDATE SKIP LOCKED LIMIT 1 *)
Definition select_due_receipt (now : time)
    : env → nat → DB → go (option ((string * string) * Receipt)) := λ e n db,
  let rows := filter (λ p, receipt_due now (p.2) = true ∧ en_receipt_locked e n (p.1) = false)
                (map_to_list (receipts db)) in
  match first_by (receipt_before (en_receipt_rank e n)) rows with
  | None => Ok None
  | Some (key, r) =>
      _ ← reject (negb (int4_ok (r_attempt_count r + 1))) (PlainError "integer out of range");
      Ok (Some (key, r))
  end.

(** A receipt leased for an attempt. *)
Definition processing (attempt : Z) (lease updated : time) (r : Receipt) : Receipt :=
  {| r_event_type := r_event_type r; r_event_timestamp := r_event_timestamp r;
     r_body := r_body r; r_content_type := r_content_type r; r_headers := r_headers r;
     r_metadata := r_metadata r; r_state := ReceiptProcessing; r_attempt_count := attempt;
     r_next_attempt_at := r_next_attempt_at r; r_lease_expires_at := Some lease;
     r_last_error_code := r_last_error_code r; r_last_error_detail := r_last_error_detail r;
     r_received_at := r_received_at r; r_processed_at := r_processed_at r;
     r_updated_at := updated |}.

(** UPDATE hookbound_receipts SET state = 'processing' ... *)
Definition lease_receipt (now leaseEnd : time) (attempt : Z) (key : string * string)
    : env → nat → DB → go (unit * DB) := λ e _ db,
  Ok (tt, set_receipts
            (alter (processing attempt (en_timestamptz e leaseEnd) (en_timestamptz e now)) key
               (receipts db)) db).

(** The message a claimed row holds. *)
Definition claimed_message (key : string * string) (r : Receipt) : VerifiedMessage :=
  {| vm_ID := key.2; vm_Type := r_event_type r; vm_Source := key.1;
     vm_Timestamp := r_event_timestamp r; vm_Body := r_body r;
     vm_ContentType := r_content_type r; vm_Headers := r_headers r;
     vm_Metadata := r_metadata r |}.

(** [(s *Store) ClaimReceipt] *)
Definition ClaimReceipt (s : Store) (lease : duration) : M (option ClaimedReceipt) :=
  let lease := if lease <=? 0 then Minute else lease in
  with_tx "begin receipt claim"
    (now ← authoritativeNow s;
     _ ← others;
     row ← query "claim due webhook receipt" (λ e n db, select_due_receipt (en_timestamptz e now) e n db);
     match row with
     | None => mret None
     | Some (key, r) =>
         let attempt := r_attempt_count r + 1 in
         _ ← exec "lease webhook receipt" (lease_receipt now (Add now lease) attempt key);
         _ ← CommitTx "commit receipt claim";
         mret (Some {| cr_Message := claimed_message key r; cr_Attempt := attempt;
                       cr_StartedAt := now |})
     end).

(** What makes a receipt claim current. *)
Definition owns_receipt (c : ClaimedReceipt) (db : DB) : bool :=
  match receipts db !! cr_key c with
  | Some r => bool_decide (r_state r = ReceiptProcessing) && (r_attempt_count r =? cr_Attempt c)
  | None => false
  end.

(** UPDATE ... SET lease_expires_at ... : the rows updated. *)
Definition renew_receipt (c : ClaimedReceipt) (now leaseEnd : time) : DB → go (Z * DB) := λ db,
  match receipts db !! cr_key c with
  | Some r =>
      if owns_receipt c db && match r_lease_expires_at r with Some l => now <? l | None => false end
      then Ok (1, set_receipts
                    (<[cr_key c := processing (r_attempt_count r) leaseEnd now r]> (receipts db)) db)
      else Ok (0, db)
  | None => Ok (0, db)
  end.

(** [(s *Store) RenewReceiptLease]; [None] is a nil claim. *)
Definition RenewReceiptLease (s : Store) (claimed : option ClaimedReceipt) (lease : duration)
    : M unit :=
  c ← lift (of_option (NewError CodeInvalidConfiguration "claimed receipt is required" None) claimed);
  _ ← lift (reject (lease <=? 0)
              (NewError CodeInvalidConfiguration "receipt lease duration must be positive" None));
  _ ← others;
  rows ← (if st_clock s then
            now ← Store_now s;
            exec "renew webhook receipt lease" (λ e _ db,
              renew_receipt c (en_timestamptz e now) (en_timestamptz e (Add now lease)) db)
          else
            exec "renew webhook receipt lease" (λ e n db,
              let now := en_timestamptz e (en_clock e n) in
              renew_receipt c now (now + durationMicrosecondsCeil lease * Microsecond) db));
  rows ← RowsAffected "inspect webhook receipt lease renewal" rows;
  lift (reject (negb (rows =? 1))
          (NewError CodeConflict "receipt lease expired or was lost before renewal" None)).

(** * Completion *)

(** A receipt after its attempt. *)
Definition finished_receipt (state : ReceiptState) (next : option time) (code detail : string)
    (processed : option time) (now : time) (r : Receipt) : Receipt :=
  {| r_event_type := r_event_type r; r_event_timestamp := r_event_timestamp r;
     r_body := r_body r; r_content_type := r_content_type r; r_headers := r_headers r;
     r_metadata := r_metadata r; r_state := state; r_attempt_count := r_attempt_count r;
     r_next_attempt_at := default (r_next_attempt_at r) next; r_lease_expires_at := None;
     r_last_error_code := null_empty code; r_last_error_detail := null_empty detail;
     r_received_at := r_received_at r; r_processed_at := processed; r_updated_at := now |}.

(** UPDATE hookbound_receipts ... WHERE ... state = 'processing' AND attempt_count = $9 *)
Definition settle_receipt (c : ClaimedReceipt) (state : ReceiptState) (next : option time)
    (code detail : string) (processed : option time) (now : time)
    : env → nat → DB → go (Z * DB) := λ e _ db,
  _ ← reject (negb (pg_text code && pg_text detail)) (PlainError "invalid input for column");
  match receipts db !! cr_key c with
  | Some r =>
      if owns_receipt c db then
        Ok (1, set_receipts
          (<[cr_key c := finished_receipt state (en_timestamptz e <$> next) code detail
                           (en_timestamptz e <$> processed) (en_timestamptz e now) r]>
             (receipts db)) db)
      else Ok (0, db)
  | None => Ok (0, db)
  end.

(** [(s *Store) CompleteReceipt]; [None] is a nil claim. *)
Definition CompleteReceipt (s : Store) (claimed : option ClaimedReceipt)
    (handlerErr : option error) (retry : RetryPolicy) : M unit :=
  c ← lift (of_option (NewError CodeInvalidConfiguration "claimed receipt is required" None) claimed);
  now ← authoritativeNow s;
  random ← ask (λ e n, Ok (en_jitter e n));
  let '(state, next) := receiptTransition random now (cr_Attempt c) handlerErr retry in
  let processedAt := if receipt_terminal state then Some now else None in
  _ ← others;
  rows ← exec "complete webhook receipt"
           (settle_receipt c state (nullTime next) (ErrorCode handlerErr) (errorDetail s handlerErr)
              processedAt now);
  rows ← RowsAffected "inspect receipt completion" rows;
  lift (reject (negb (rows =? 1))
          (NewError CodeConflict "receipt lease was lost before completion" None)).
