(* ===== verification/PgCleanup.v ===== *)
(** src/postgres/cleanup.go: one bounded retention pass. *)

From S2P Require Import Prelude GoString GoTime Errors Headers PgText PgSchema PgModel PgOutbound.

(** [RetentionPolicy] *)
Record RetentionPolicy := {
  rp_DeliveredRetention : duration;
  rp_FailedDeliveryRetention : duration;
  rp_ReceiptRetention : duration;
  rp_OrphanMessageRetention : duration;
  rp_BatchSize : Z
}.

(** [CleanupResult] *)
Record CleanupResult := {
  cl_DeliveredDeliveries : Z;
  cl_FailedDeliveries : Z;
  cl_Receipts : Z;
  cl_OrphanMessages : Z
}.

(** [(r CleanupResult) Total()] *)
Definition Total (r : CleanupResult) : Z :=
  wrap64 (cl_DeliveredDeliveries r + cl_FailedDeliveries r + cl_Receipts r + cl_OrphanMessages r).

Definition defaultCleanupBatchSize : Z := 1000.
Definition maximumCleanupBatchSize : Z := 10000.

(** [normalizeRetentionPolicy] *)
Definition normalizeRetentionPolicy (policy : RetentionPolicy) : go RetentionPolicy :=
  _ ← reject ((rp_DeliveredRetention policy <? 0) || (rp_FailedDeliveryRetention policy <? 0)
              || (rp_ReceiptRetention policy <? 0) || (rp_OrphanMessageRetention policy <? 0))
        (NewError CodeInvalidConfiguration "retention durations cannot be negative" None);
  _ ← reject ((rp_BatchSize policy <? 0) || (maximumCleanupBatchSize <? rp_BatchSize policy))
        (NewError CodeInvalidConfiguration
           "cleanup batch size must be zero or between 1 and 10000" None);
  Ok {| rp_DeliveredRetention := rp_DeliveredRetention policy;
        rp_FailedDeliveryRetention := rp_FailedDeliveryRetention policy;
        rp_ReceiptRetention := rp_ReceiptRetention policy;
        rp_OrphanMessageRetention := rp_OrphanMessageRetention policy;
        rp_BatchSize := if rp_BatchSize policy =? 0 then defaultCleanupBatchSize
                        else rp_BatchSize policy |}.

(** ORDER BY ... LIMIT $2: insertion sort, then the first rows. *)
Fixpoint insert_by {A} (before : A → A → bool) (x : A) (l : list A) : list A :=
  match l with
  | [] => [x]
  | y :: l' => if before y x then y :: insert_by before x l' else x :: l
  end.
Definition sort_by {A} (before : A → A → bool) (l : list A) : list A :=
  foldr (insert_by before) [] l.

(** The columns a pass is ordered by: a time, then the place of the primary key
    in the order of its collation. *)
Definition time_rank_before (x y : time * Z) : bool :=
  if x.1 =? y.1 then x.2 <? y.2 else x.1 <? y.1.

(** Rows [(key, row)] of a table: those that qualify and are not locked, in the
    order of [column], at most [limit] of them. *)
Definition candidates {K V} (column : K → V → time * Z) (due : V → bool)
    (locked : K → bool) (limit : Z) (rows : list (K * V)) : list K :=
  map fst (firstn (Z.to_nat limit)
    (sort_by (λ p q, time_rank_before (column (p.1) (p.2)) (column (q.1) (q.2)))
       (filter (λ p, due (p.2) = true ∧ locked (p.1) = false) rows))).

Definition completed_before (cutoff : time) (d : Delivery) : bool :=
  match d_completed_at d with Some t => t <? cutoff | None => false end.

Definition delivered_due (cutoff : time) (d : Delivery) : bool :=
  bool_decide (d_state d = DeliveryDelivered) && completed_before cutoff d.

Definition failed_due (cutoff : time) (d : Delivery) : bool :=
  (bool_decide (d_state d = DeliveryPermanentFailure) || bool_decide (d_state d = DeliveryDisabled)
   || bool_decide (d_state d = DeliveryExhausted)) && completed_before cutoff d.

Definition receipt_purge_due (cutoff : time) (r : Receipt) : bool :=
  receipt_terminal (r_state r) &&
  match r_processed_at r with Some t => t <? cutoff | None => false end.

(** DELETE FROM hookbound_deliveries: the attempts go with their delivery. *)
Definition remove_deliveries (ids : list string) (db : DB) : DB :=
  {| messages := messages db;
     deliveries := filter (λ p, p.1 ∉ ids) (deliveries db);
     attempts := filter (λ p, a_delivery_id (p.2) ∉ ids) (attempts db);
     receipts := receipts db |}.

(** WITH candidates AS (...) DELETE FROM hookbound_deliveries ... *)
Definition purge_deliveries (due : Delivery → bool) (limit : Z) : env → nat → DB → go (Z * DB) :=
  λ e n db,
  let ids := candidates (λ id d, (default 0 (d_completed_at d), en_delivery_rank e n id)) due
               (en_delivery_locked e n) limit (map_to_list (deliveries db)) in
  Ok (Z.of_nat (length ids), remove_deliveries ids db).

(** WITH candidates AS (...) DELETE FROM hookbound_receipts ... *)
Definition purge_receipts (due : Receipt → bool) (limit : Z) : env → nat → DB → go (Z * DB) :=
  λ e n db,
  let keys := candidates (λ k r, (default 0 (r_processed_at r), en_receipt_rank e n k)) due
                (en_receipt_locked e n) limit (map_to_list (receipts db)) in
  Ok (Z.of_nat (length keys), set_receipts (filter (λ p, p.1 ∉ keys) (receipts db)) db).

(** No delivery references message [id]. *)
Definition unreferenced (db : DB) (id : string) : bool :=
  bool_decide (map_Forall (λ _ d, d_message_id d ≠ id) (deliveries db)).

(** WITH candidates AS (...) DELETE FROM hookbound_messages ... *)
Definition purge_messages (cutoff : time) (limit : Z) : env → nat → DB → go (Z * DB) :=
  λ e n db,
  let ids := candidates (λ id m, (mr_created_at m, en_message_rank e n id))
               (λ m, mr_created_at m <? cutoff)
               (λ id, en_message_locked e n id || negb (unreferenced db id)) limit
               (map_to_list (messages db)) in
  Ok (Z.of_nat (length ids), set_messages (filter (λ p, p.1 ∉ ids) (messages db)) db).

(** [cleanupRows]; the caller wraps either error with [message]. *)
Definition cleanupRows (message : string) (stmt : env → nat → DB → go (Z * DB)) : M Z :=
  rows ← exec message stmt; RowsAffected message rows.

(** One category of the pass: skipped when its retention is zero. *)
Definition category (retention : duration) (message : string) (now : time)
    (purge : (time → time) → time → env → nat → DB → go (Z * DB)) : M Z :=
  if 0 <? retention then
    cleanupRows message (λ e n db, purge (en_timestamptz e) (Add now (- retention)) e n db)
  else mret 0.

(** [(s *Store) Cleanup]; [None] is a nil store. *)
Definition Cleanup (s : option Store) (policy : RetentionPolicy) : M CleanupResult :=
  policy ← lift (normalizeRetentionPolicy policy);
  s ← lift (of_option (NewError CodeInvalidConfiguration "durable store is required" None) s);
  if (rp_DeliveredRetention policy =? 0) && (rp_FailedDeliveryRetention policy =? 0)
     && (rp_ReceiptRetention policy =? 0) && (rp_OrphanMessageRetention policy =? 0)
  then mret {| cl_DeliveredDeliveries := 0; cl_FailedDeliveries := 0; cl_Receipts := 0;
               cl_OrphanMessages := 0 |}
  else
    with_tx "begin webhook retention cleanup"
      (now ← authoritativeNow s;
       let size := rp_BatchSize policy in
       _ ← others;
       delivered ← category (rp_DeliveredRetention policy) "remove retained delivered webhooks" now
                     (λ ts cutoff, purge_deliveries (delivered_due (ts cutoff)) size);
       failed ← category (rp_FailedDeliveryRetention policy) "remove retained failed webhooks" now
                  (λ ts cutoff, purge_deliveries (failed_due (ts cutoff)) size);
       received ← category (rp_ReceiptRetention policy) "remove retained webhook receipts" now
                    (λ ts cutoff, purge_receipts (receipt_purge_due (ts cutoff)) size);
       orphans ← category (rp_OrphanMessageRetention policy)
                   "remove retained orphan webhook messages" now
                   (λ ts cutoff, purge_messages (ts cutoff) size);
       _ ← CommitTx "commit webhook retention cleanup";
       mret {| cl_DeliveredDeliveries := delivered; cl_FailedDeliveries := failed;
               cl_Receipts := received; cl_OrphanMessages := orphans |}).
