(* ===== verification/PgSpec.v ===== *)
(** The abstract machine the store implements: the atomic changes of the tables,
    each with the event it is for and the condition under which it may happen, and what every sequence of
    them keeps.  PgRefine.v shows that the operations of src/postgres make no
    other changes. *)

From S2P Require Import Prelude GoString GoTime Errors Headers Message.
From S2P Require Import PgText PgModel PgOutbound PgInbound PgCleanup.

(** * Steps *)

(** A delivery as it is published. *)
Definition fresh_delivery (d : Delivery) : Prop :=
  d_state d = DeliveryPending ∧ d_attempt_count d = 0 ∧ d_lease_expires_at d = None ∧
  d_completed_at d = None.

(** The tables after delivery [id] is claimed by attempt [aid] until [lease]. *)
Definition claim_tables (now lease : time) (id : string) (d : Delivery) (aid : string) (db : DB) : DB :=
  {| messages := messages db;
     deliveries := <[id := leased (d_attempt_count d + 1) lease now d]> (deliveries db);
     attempts := <[aid := started_attempt id (d_attempt_count d + 1) now]>
                   (if decide (d_state d = DeliveryInFlight ∧ 0 < d_attempt_count d)
                    then expire_open now id (d_attempt_count d) <$> attempts db
                    else attempts db);
     receipts := receipts db |}.

(** The states an attempt can leave its delivery in. *)
Definition attempt_result (s : DeliveryState) : Prop :=
  s = DeliveryRetry ∨ delivery_terminal s = true.
Definition receipt_result (s : ReceiptState) : Prop :=
  s = ReceiptRetry ∨ receipt_terminal s = true.

(** What a step does, for whom: a claim names the time it is judged at, a renewal and
    a completion the attempt or the claim they are made for. *)
Inductive event : Type :=
| EvPublish
| EvForget
| EvClaim (due : time)
| EvRenew (attempt : string)
| EvComplete (attempt : string)
| EvPurge
| EvReceive
| EvClaimReceipt (due : time)
| EvRenewReceipt (key : string * string) (attempt : Z)
| EvCompleteReceipt (key : string * string) (attempt : Z).

Inductive table_step : event → DB → DB → Prop :=
| step_message db id m :
    messages db !! id = None →
    table_step EvPublish db (set_messages (<[id := m]> (messages db)) db)
| step_publish db id d :
    deliveries db !! id = None → is_Some (messages db !! d_message_id d) → fresh_delivery d →
    (∀ k id' d', d_key d = Some k → deliveries db !! id' = Some d' → d_key d' ≠ Some k) →
    table_step EvPublish db (set_deliveries (<[id := d]> (deliveries db)) db)
| step_drop_messages db m' :
    m' ⊆ messages db →
    (∀ id' d, deliveries db !! id' = Some d → m' !! d_message_id d = messages db !! d_message_id d) →
    table_step EvForget db (set_messages m' db)
| step_claim db id d aid due now lease :
    deliveries db !! id = Some d → delivery_due due d = true → attempts db !! aid = None →
    d_attempt_count d + 1 ≤ int4_max →
    table_step (EvClaim due) db (claim_tables now lease id d aid db)
| step_renew db id d aid a l now lease :
    deliveries db !! id = Some d → d_state d = DeliveryInFlight →
    attempts db !! aid = Some a → open_attempt id (d_attempt_count d) a = true →
    d_lease_expires_at d = Some l → now < l →
    table_step (EvRenew aid) db
      (set_deliveries (<[id := leased (d_attempt_count d) lease now d]> (deliveries db)) db)
| step_complete db id d aid a ts x state next status code now completed :
    deliveries db !! id = Some d → d_state d = DeliveryInFlight →
    attempts db !! aid = Some a → open_attempt id (d_attempt_count d) a = true →
    attempt_result state → (delivery_terminal state = true ↔ is_Some completed) →
    table_step (EvComplete aid) db
      (set_deliveries (<[id := settled state next status code (ts now) completed d]> (deliveries db))
         (set_attempts (<[aid := finished_attempt ts now x a]> (attempts db)) db))
| step_purge_deliveries db (ids : list string) :
    (∀ id d, id ∈ ids → deliveries db !! id = Some d → delivery_terminal (d_state d) = true) →
    table_step EvPurge db (remove_deliveries ids db)
| step_receive db key message headers ts now :
    receipts db !! key = None → key = receipt_key message →
    table_step EvReceive db (set_receipts
      (<[key := new_receipt message headers (vm_Metadata message) ts now]> (receipts db)) db)
| step_claim_receipt db key r due now lease :
    receipts db !! key = Some r → receipt_due due r = true → r_attempt_count r + 1 ≤ int4_max →
    table_step (EvClaimReceipt due) db
      (set_receipts (<[key := processing (r_attempt_count r + 1) lease now r]> (receipts db)) db)
| step_renew_receipt db key r l now lease :
    receipts db !! key = Some r → r_state r = ReceiptProcessing →
    r_lease_expires_at r = Some l → now < l →
    table_step (EvRenewReceipt key (r_attempt_count r)) db
      (set_receipts (<[key := processing (r_attempt_count r) lease now r]> (receipts db)) db)
| step_complete_receipt db key r state next code detail processed now :
    receipts db !! key = Some r → r_state r = ReceiptProcessing → receipt_result state →
    (receipt_terminal state = true ↔ is_Some processed) →
    table_step (EvCompleteReceipt key (r_attempt_count r)) db (set_receipts
      (<[key := finished_receipt state next code detail processed now r]> (receipts db)) db)
| step_purge_receipts db (keys : list (string * string)) :
    (∀ key r, key ∈ keys → receipts db !! key = Some r → receipt_terminal (r_state r) = true) →
    table_step EvPurge db (set_receipts (filter (λ p, p.1 ∉ keys) (receipts db)) db).

(** A step for an event that is allowed; and any step. *)
Definition allowed_step (P : event → Prop) (db db' : DB) : Prop := ∃ ev, P ev ∧ table_step ev db db'.
Definition db_step : DB → DB → Prop := allowed_step (λ _, True).

Lemma allowed_step_mono (P Q : event → Prop) db db' :
  (∀ ev, P ev → Q ev) → allowed_step P db db' → allowed_step Q db db'.
Proof. intros HPQ (ev & Hev & Hs). exists ev. auto. Qed.

Lemma allowed_db_step P db db' : allowed_step P db db' → db_step db db'.
Proof. by apply allowed_step_mono. Qed.

(** * Every step keeps the tables well-formed *)

Lemma open_attempt_true id n a :
  open_attempt id n a = true ↔ a_delivery_id a = id ∧ a_number a = n ∧ a_finished_at a = None.
Proof.
  unfold open_attempt. rewrite !andb_true_iff, Z.eqb_eq. unfold str_eqb.
  rewrite bool_decide_eq_true. destruct (a_finished_at a); naive_solver.
Qed.

Lemma expire_open_fields now id n a :
  a_delivery_id (expire_open now id n a) = a_delivery_id a ∧
  a_number (expire_open now id n a) = a_number a.
Proof. unfold expire_open. by destruct (open_attempt id n a). Qed.

(** A delivery is well-formed as long as its message and its attempts are there. *)
Lemma delivery_wf_frame db db' id d :
  delivery_wf db id d → is_Some (messages db' !! d_message_id d) →
  (∀ aid a, a_delivery_id a = id → attempts db' !! aid = Some a ↔ attempts db !! aid = Some a) →
  delivery_wf db' id d.
Proof.
  intros [Hm Hc Hf Hl Ht Ha Ho] Hm' Heq. constructor; auto.
  - intros k. rewrite Ha. split; intros (aid & a & Hx & Hd & Hn); exists aid, a;
      (split; [by apply Heq|done]).
  - intros aid a Hx Hd. apply (Ho aid); [by apply Heq|done].
Qed.

Section claim_wf.
Context (db : DB) (id : string) (d : Delivery) (aid : string) (due now lease : time).
Hypothesis Hwf : db_wf db.
Hypothesis Hd : deliveries db !! id = Some d.
Hypothesis Hdue : delivery_due due d = true.
Hypothesis Haid : attempts db !! aid = None.
Hypothesis Hmax : d_attempt_count d + 1 ≤ int4_max.

Let before := (if decide (d_state d = DeliveryInFlight ∧ 0 < d_attempt_count d)
               then expire_open now id (d_attempt_count d) <$> attempts db else attempts db).

Lemma due_not_terminal : delivery_terminal (d_state d) = false.
Proof. unfold delivery_due in Hdue. by destruct (d_state d). Qed.

(** The attempts before the new one: every one of [id] is finished. *)
Lemma before_lookup aid' a' :
  before !! aid' = Some a' →
  ∃ a, attempts db !! aid' = Some a ∧ a_delivery_id a' = a_delivery_id a ∧
    a_number a' = a_number a ∧ (a_delivery_id a ≠ id → a' = a) ∧
    (a_delivery_id a = id → a_finished_at a' ≠ None).
Proof.
  pose proof (wf_delivery _ Hwf _ _ Hd) as Hdw. unfold before. case_decide as Hs.
  - intros (a & <- & Ha)%lookup_fmap_Some. exists a.
    destruct (expire_open_fields now id (d_attempt_count d) a) as [-> ->].
    split_and!; auto; unfold expire_open;
      destruct (open_attempt id (d_attempt_count d) a) eqn:Eo; try done.
    + apply open_attempt_true in Eo as (? & _). done.
    + intros Hid Hf. apply (dw_open _ _ _ Hdw _ _ Ha Hid) in Hf as Hf'. destruct Hf' as [_ Hn].
      apply not_true_iff_false in Eo. apply Eo, open_attempt_true. done.
  - intros Ha. exists a'. split_and!; auto. intros Hid Hf.
    apply (dw_open _ _ _ Hdw _ _ Ha Hid) in Hf as [Hin _]. apply Hs. split; [done|].
    pose proof (dw_count _ _ _ Hdw). assert (d_attempt_count d ≠ 0); [|lia].
    by rewrite <-(dw_fresh _ _ _ Hdw), Hin.
Qed.

Lemma before_back aid' a :
  attempts db !! aid' = Some a →
  ∃ a', before !! aid' = Some a' ∧ a_delivery_id a' = a_delivery_id a ∧ a_number a' = a_number a.
Proof.
  intros Ha. unfold before. case_decide; [|by exists a].
  eexists. rewrite lookup_fmap, Ha. split; [done|].
  apply expire_open_fields.
Qed.

(** The attempt numbers of [id] before the claim. *)
Lemma before_number aid' a' :
  before !! aid' = Some a' → a_delivery_id a' = id → 1 ≤ a_number a' ≤ d_attempt_count d.
Proof.
  intros Ha Hid. destruct (before_lookup _ _ Ha) as (a0 & Ha0 & E1 & E2 & _).
  apply (dw_attempts _ _ _ (wf_delivery _ Hwf _ _ Hd)). exists aid', a0. split_and!; congruence.
Qed.

Lemma claimed_delivery_wf :
  delivery_wf (claim_tables now lease id d aid db) id (leased (d_attempt_count d + 1) lease now d).
Proof.
  pose proof (wf_delivery _ Hwf _ _ Hd) as Hdw. pose proof (dw_count _ _ _ Hdw) as Hc.
  constructor; simpl; fold before; [apply Hdw|lia|by split; [|lia]|by split; [eexists|]|..].
  - rewrite <-(dw_completed _ _ _ Hdw), due_not_terminal. done.
  - intros k. split.
    + intros Hk. destruct (decide (k = d_attempt_count d + 1)) as [->|].
      { exists aid. eexists. rewrite lookup_insert_eq. done. }
      destruct (proj1 (dw_attempts _ _ _ Hdw k)) as (aid' & a & Ha & Hid & Hn); [lia|].
      destruct (before_back _ _ Ha) as (a' & Ha' & <- & <-) in Hid, Hn.
      exists aid', a'. rewrite lookup_insert_ne by congruence. done.
    + intros (aid' & a & [[<- <-]|[Hne Ha]]%lookup_insert_Some & Hid & <-); simpl; [lia|].
      pose proof (before_number _ _ Ha Hid). lia.
  - intros aid' a [[<- <-]|[Hne Ha]]%lookup_insert_Some Hid; simpl; [done|].
    destruct (before_lookup _ _ Ha) as (a0 & Ha0 & E1 & E2 & _ & Hfin).
    split; [intros Hf; exfalso; eapply Hfin; congruence|].
    intros [_ Hn]. pose proof (before_number _ _ Ha Hid). lia.
Qed.

Lemma unclaimed_delivery_wf id' d' :
  id' ≠ id → deliveries db !! id' = Some d' →
  delivery_wf (claim_tables now lease id d aid db) id' d'.
Proof.
  intros Hne Hd'. pose proof (wf_delivery _ Hwf _ _ Hd') as Hdw'.
  eapply delivery_wf_frame; [done|apply Hdw'|]. intros aid' a Hid. simpl. fold before. split.
  - intros [[<- <-]|[? Ha]]%lookup_insert_Some; [done|].
    destruct (before_lookup _ _ Ha) as (a0 & Ha0 & E1 & _ & E2 & _). rewrite E2; [done|]. congruence.
  - intros Ha. rewrite lookup_insert_ne by congruence.
    destruct (before_back _ _ Ha) as (a' & Ha' & E1 & _). rewrite Ha'.
    destruct (before_lookup _ _ Ha') as (a0 & Ha0 & _ & _ & E2 & _). f_equal.
    simplify_eq. apply E2. congruence.
Qed.

Lemma claim_wf : db_wf (claim_tables now lease id d aid db).
Proof.
  constructor; simpl; fold before.
  - intros id' d' [[<- <-]|[Hne Hd']]%lookup_insert_Some;
      [apply claimed_delivery_wf|by apply unclaimed_delivery_wf].
  - intros aid' a. rewrite lookup_insert_is_Some.
    intros [[<- <-]|[Hne Ha]]%lookup_insert_Some; [by left|].
    destruct (before_lookup _ _ Ha) as (a0 & Ha0 & -> & _).
    destruct (decide (id = a_delivery_id a0)); [by left|right]. split; [done|].
    by eapply (wf_attempt _ Hwf).
  - intros a1 a2 x1 x2 [[<- <-]|[N1 H1]]%lookup_insert_Some [[<- <-]|[N2 H2]]%lookup_insert_Some;
      simpl; intros Ed En; [done|..].
    + pose proof (before_number _ _ H2 (eq_sym Ed)). lia.
    + pose proof (before_number _ _ H1 Ed). lia.
    + destruct (before_lookup _ _ H1) as (y1 & Hy1 & ? & ? & _).
      destruct (before_lookup _ _ H2) as (y2 & Hy2 & ? & ? & _).
      eapply (wf_number _ Hwf a1 a2 y1 y2); congruence.
  - intros i1 i2 d1 d2 k H1 H2 K1 K2.
    assert (∀ i x, <[id := leased (d_attempt_count d + 1) lease now d]> (deliveries db) !! i = Some x →
      ∃ x', deliveries db !! i = Some x' ∧ d_key x = d_key x') as Hk.
    { intros i x [[<- <-]|[? Hx]]%lookup_insert_Some; eauto. }
    destruct (Hk _ _ H1) as (x1 & Hx1 & E1), (Hk _ _ H2) as (x2 & Hx2 & E2).
    eapply (wf_key _ Hwf i1 i2 x1 x2 k); congruence.
  - apply Hwf.
Qed.
End claim_wf.

(** Replacing one delivery, and what is recorded in its attempts. *)
Section replace_wf.
Context (db : DB) (id : string) (d d' : Delivery) (at' : gmap string Attempt).
Hypothesis Hwf : db_wf db.
Hypothesis Hd : deliveries db !! id = Some d.
Hypothesis Hkey : d_key d' = d_key d.
Hypothesis Hfields : ∀ aid,
  (λ a, (a_delivery_id a, a_number a)) <$> at' !! aid =
  (λ a, (a_delivery_id a, a_number a)) <$> attempts db !! aid.
Hypothesis Hothers : ∀ aid a, a_delivery_id a ≠ id →
  at' !! aid = Some a ↔ attempts db !! aid = Some a.

Let db' := set_deliveries (<[id := d']> (deliveries db)) (set_attempts at' db).

Lemma replaced_attempt aid a :
  at' !! aid = Some a →
  ∃ a0, attempts db !! aid = Some a0 ∧ a_delivery_id a0 = a_delivery_id a ∧ a_number a0 = a_number a.
Proof.
  intros Ha. pose proof (Hfields aid) as Hf. rewrite Ha in Hf. simpl in Hf.
  destruct (attempts db !! aid) as [a0|]; [|done]. exists a0. by simplify_eq/=.
Qed.

Lemma replaced_back aid a :
  attempts db !! aid = Some a →
  ∃ a', at' !! aid = Some a' ∧ a_delivery_id a' = a_delivery_id a ∧ a_number a' = a_number a.
Proof.
  intros Ha. pose proof (Hfields aid) as Hf. rewrite Ha in Hf. simpl in Hf.
  destruct (at' !! aid) as [a0|]; [|done]. exists a0. by simplify_eq/=.
Qed.

Lemma replace_wf : delivery_wf db' id d' → db_wf db'.
Proof.
  intros Hd'. constructor; simpl.
  - intros i x [[<- <-]|[Hne Hx]]%lookup_insert_Some; [done|].
    eapply delivery_wf_frame; [by apply (wf_delivery _ Hwf)|by apply (wf_delivery _ Hwf _ _ Hx)|].
    intros aid a Hi. apply Hothers. congruence.
  - intros aid a (a0 & Ha0 & <- & _)%replaced_attempt. apply lookup_insert_is_Some'.
    right. by eapply (wf_attempt _ Hwf).
  - intros i1 i2 a1 a2 (x1 & Hx1 & ? & ?)%replaced_attempt (x2 & Hx2 & ? & ?)%replaced_attempt ? ?.
    eapply (wf_number _ Hwf i1 i2 x1 x2); congruence.
  - intros i1 i2 x1 x2 k H1 H2 K1 K2.
    assert (∀ i x, <[id := d']> (deliveries db) !! i = Some x →
      ∃ y, deliveries db !! i = Some y ∧ d_key x = d_key y) as Hk.
    { intros i x [[<- <-]|[? Hx]]%lookup_insert_Some; eauto. }
    destruct (Hk _ _ H1) as (y1 & Hy1 & E1), (Hk _ _ H2) as (y2 & Hy2 & E2).
    eapply (wf_key _ Hwf i1 i2 y1 y2 k); congruence.
  - apply Hwf.
Qed.
End replace_wf.

Lemma renew_wf db id d l now lease :
  db_wf db → deliveries db !! id = Some d → d_state d = DeliveryInFlight →
  d_lease_expires_at d = Some l →
  db_wf (set_deliveries (<[id := leased (d_attempt_count d) lease now d]> (deliveries db)) db).
Proof.
  intros Hwf Hd Hs Hl.
  pose proof (wf_delivery _ Hwf _ _ Hd) as [Hm Hc Hf Hle Ht Ha Ho].
  apply (replace_wf db id d _ (attempts db)); auto.
  constructor; simpl; auto.
  - rewrite <-Hf, Hs. done.
  - split; [by eexists|done].
  - rewrite <-Ht, Hs. done.
  - intros aid a Hx Hid. rewrite (Ho _ _ Hx Hid), Hs. done.
Qed.

Lemma complete_wf db id d aid a ts x state next status code now completed :
  db_wf db → deliveries db !! id = Some d → d_state d = DeliveryInFlight →
  attempts db !! aid = Some a → open_attempt id (d_attempt_count d) a = true →
  attempt_result state → (delivery_terminal state = true ↔ is_Some completed) →
  db_wf (set_deliveries (<[id := settled state next status code (ts now) completed d]> (deliveries db))
           (set_attempts (<[aid := finished_attempt ts now x a]> (attempts db)) db)).
Proof.
  intros Hwf Hd Hs Ha (Hid & Hn & Hop)%open_attempt_true Hres Hcomp.
  pose proof (wf_delivery _ Hwf _ _ Hd) as Hdw. pose proof Hdw as [Hm Hc Hf Hle Ht Hat Ho].
  assert (∀ aid', (λ a, (a_delivery_id a, a_number a)) <$>
      <[aid := finished_attempt ts now x a]> (attempts db) !! aid' =
    (λ a, (a_delivery_id a, a_number a)) <$> attempts db !! aid') as Hfields.
  { intros aid'. destruct (decide (aid' = aid)) as [->|].
    - by rewrite lookup_insert_eq, Ha.
    - by rewrite lookup_insert_ne. }
  eapply (replace_wf db id d); auto.
  - intros aid' a' Hne. destruct (decide (aid' = aid)) as [->|]; [|by rewrite lookup_insert_ne].
    rewrite lookup_insert_eq. split; [intros [= <-]|]; simpl in *; congruence.
  - constructor; simpl; auto.
    + rewrite <-Hf, Hs. destruct Hres as [->|]; [done|]. split; [intros ->|]; done.
    + split; [intros ->|by intros []]. destruct Hres as [?|?]; done.
    + intros k. rewrite Hat. split; intros (aid' & a' & Hx & Hi & Hk).
      * destruct (replaced_back db _ Hfields _ _ Hx) as (y & Hy & E1 & E2).
        exists aid', y. split_and!; congruence.
      * destruct (replaced_attempt db _ Hfields _ _ Hx) as (y & Hy & E1 & E2).
        exists aid', y. split_and!; congruence.
    + intros aid' a' [[<- <-]|[Hne Hx]]%lookup_insert_Some Hi; simpl.
      * split; [done|]. intros [-> _]. by destruct Hres.
      * rewrite (Ho _ _ Hx Hi), Hs. split; intros [Hst Hk]; exfalso.
        -- apply Hne. eapply (wf_number _ Hwf aid aid'); eauto; congruence.
        -- subst state. by destruct Hres.
Qed.

Lemma purge_deliveries_wf db ids : db_wf db → db_wf (remove_deliveries ids db).
Proof.
  intros Hwf. constructor; simpl.
  - intros id d [Hd Hni]%map_lookup_filter_Some. simpl in Hni.
    eapply delivery_wf_frame; [by apply (wf_delivery _ Hwf)|by apply (wf_delivery _ Hwf _ _ Hd)|].
    intros aid a <-. simpl. rewrite map_lookup_filter_Some. simpl. tauto.
  - intros aid a [Ha Hni]%map_lookup_filter_Some. simpl in Hni.
    destruct (wf_attempt _ Hwf _ _ Ha) as [d Hd]. exists d. by apply map_lookup_filter_Some.
  - intros i1 i2 a1 a2 [H1 _]%map_lookup_filter_Some [H2 _]%map_lookup_filter_Some.
    by apply (wf_number _ Hwf).
  - intros i1 i2 d1 d2 k [H1 _]%map_lookup_filter_Some [H2 _]%map_lookup_filter_Some.
    by apply (wf_key _ Hwf).
  - apply Hwf.
Qed.

Lemma messages_wf db m' :
  db_wf db → (∀ id d, deliveries db !! id = Some d → is_Some (m' !! d_message_id d)) →
  db_wf (set_messages m' db).
Proof.
  intros Hwf Hm. constructor; simpl; try apply Hwf.
  intros id d Hd. eapply delivery_wf_frame; [by apply (wf_delivery _ Hwf)|by eapply Hm|done].
Qed.

Lemma publish_wf db id d :
  db_wf db → deliveries db !! id = None → is_Some (messages db !! d_message_id d) →
  fresh_delivery d →
  (∀ k id' d', d_key d = Some k → deliveries db !! id' = Some d' → d_key d' ≠ Some k) →
  db_wf (set_deliveries (<[id := d]> (deliveries db)) db).
Proof.
  intros Hwf Hn Hm (Hs & Hc & Hl & Ht) Hkey.
  assert (∀ aid a, attempts db !! aid = Some a → a_delivery_id a ≠ id) as Hno.
  { intros aid a Ha Hid. destruct (wf_attempt _ Hwf _ _ Ha) as [? ?]. congruence. }
  constructor; simpl; try apply Hwf.
  - intros id' d' [[<- <-]|[Hne Hd']]%lookup_insert_Some.
    + constructor; simpl; rewrite ?Hs, ?Hc, ?Hl, ?Ht; simpl.
      * done.
      * unfold int4_max. lia.
      * done.
      * split; [done|by intros []].
      * split; [done|by intros []].
      * intros k. split; [lia|]. intros (aid & a & Ha & Hid & _). by destruct (Hno _ _ Ha).
      * intros aid a Ha Hid. by destruct (Hno _ _ Ha).
    + eapply delivery_wf_frame; [by apply (wf_delivery _ Hwf)|by apply (wf_delivery _ Hwf _ _ Hd')|done].
  - intros aid a Ha. apply lookup_insert_is_Some'. right. by eapply (wf_attempt _ Hwf).
  - intros i1 i2 d1 d2 k [[<- <-]|[N1 H1]]%lookup_insert_Some [[<- <-]|[N2 H2]]%lookup_insert_Some K1 K2;
      [done|exfalso; by eapply Hkey..|by eapply (wf_key _ Hwf)].
Qed.

Lemma receipt_insert_wf db key r :
  db_wf db → receipt_wf r → db_wf (set_receipts (<[key := r]> (receipts db)) db).
Proof.
  intros Hwf Hr. constructor; simpl; try apply Hwf.
  - intros id d Hd. eapply delivery_wf_frame; [by apply (wf_delivery _ Hwf)|by apply (wf_delivery _ Hwf _ _ Hd)|done].
  - intros k r' [[<- <-]|[_ H]]%lookup_insert_Some; [done|by eapply (wf_receipt _ Hwf)].
Qed.

Lemma processing_wf r n now lease :
  receipt_wf r → receipt_terminal (r_state r) = false → 0 < n ≤ int4_max →
  receipt_wf (processing n lease now r).
Proof.
  intros [Hc Hf Hl Hp] Ht Hn. constructor; simpl.
  - lia.
  - split; [done|lia].
  - split; [by eexists|done].
  - rewrite <-Hp, Ht. done.
Qed.

Lemma db_step_wf db db' : db_wf db → db_step db db' → db_wf db'.
Proof.
  intros Hwf (ev & _ & Hstep). destruct Hstep.
  - apply messages_wf; [done|]. intros. apply lookup_insert_is_Some'. right.
    by eapply (wf_delivery _ Hwf).
  - by apply publish_wf.
  - apply messages_wf; [done|]. intros. erewrite H0 by done. by eapply (wf_delivery _ Hwf).
  - by eapply claim_wf.
  - by eapply renew_wf.
  - by eapply complete_wf.
  - by apply purge_deliveries_wf.
  - apply receipt_insert_wf; [done|]. constructor; simpl.
    + unfold int4_max. lia.
    + done.
    + split; [done|by intros []].
    + split; [done|by intros []].
  - apply receipt_insert_wf; [done|]. pose proof (wf_receipt _ Hwf _ _ H) as Hr.
    apply processing_wf; [done| |pose proof (rw_count _ Hr); lia].
    unfold receipt_due in H0. by destruct (r_state r).
  - apply receipt_insert_wf; [done|]. pose proof (wf_receipt _ Hwf _ _ H) as Hr.
    apply processing_wf; [done|by rewrite H0|]. pose proof (rw_count _ Hr).
    assert (r_attempt_count r ≠ 0); [|lia]. rewrite <-(rw_fresh _ Hr), H0. done.
  - apply receipt_insert_wf; [done|]. pose proof (wf_receipt _ Hwf _ _ H) as [Hc Hf Hl Hp].
    constructor; simpl; [done|..|done].
    + rewrite <-Hf, H0. destruct H1 as [->|Ht]; [done|]. split; [intros ->|]; done.
    + split; [intros ->|by intros []]. by destruct H1.
  - constructor; simpl; try apply Hwf.
    + intros id d Hd. eapply delivery_wf_frame; [by apply (wf_delivery _ Hwf)|by apply (wf_delivery _ Hwf _ _ Hd)|done].
    + intros k r [Hr _]%map_lookup_filter_Some. by eapply (wf_receipt _ Hwf).
Qed.
