(* ===== verification/PgRefine.v ===== *)
(** The operations of src/postgres implement the abstract machine of PgSpec.v:
    whatever fails, whatever other sessions commit meanwhile, an operation moves
    the committed tables by steps of the machine and by those commits only. *)

From S2P Require Import Prelude GoString Codec GoTime Errors Headers Message Retry Outcome.
From S2P Require Import PgText PgSchema PgModel PgOutbound PgInbound PgCleanup PgSpec.

(** * What the statements do *)

Lemma delivery_with_key_None k db :
  delivery_with_key k db = None →
  ∀ id d, deliveries db !! id = Some d → d_key d ≠ Some k.
Proof.
  unfold delivery_with_key. intros Hh id d Hd Hk.
  assert ((id, d) ∈ filter (λ p : string * Delivery, d_key p.2 = Some k) (map_to_list (deliveries db)))
    as Hin by (apply list_elem_of_filter; split; [done|by apply elem_of_map_to_list]).
  destruct (filter _ _); [set_solver|done].
Qed.

Lemma delivery_with_key_Some k db id d :
  delivery_with_key k db = Some (id, d) → deliveries db !! id = Some d ∧ d_key d = Some k.
Proof.
  unfold delivery_with_key. intros Hh.
  assert ((id, d) ∈ filter (λ p : string * Delivery, d_key p.2 = Some k) (map_to_list (deliveries db)))
    as Hin by (destruct (filter _ _); simplify_eq/=; set_solver).
  apply list_elem_of_filter in Hin as [Hk Hin]. by apply elem_of_map_to_list in Hin.
Qed.

Section first_by.
Context {A : Type} (before : A → A → bool).

Lemma first_by_elem l x : first_by before l = Some x → x ∈ l.
Proof.
  revert x. induction l as [|y l IH]; simpl; intros x; [done|].
  destruct (first_by before l) as [z|]; [|intros [= ->]; left].
  case_match; intros [= ->]; [right; auto|left].
Qed.

Lemma first_by_None l : first_by before l = None ↔ l = [].
Proof. destruct l; simpl; [done|]. split; [|done]. repeat case_match; done. Qed.

(** Nothing comes before the row chosen, for a total order. *)
Lemma first_by_min l x :
  (∀ x y z, before x y = false → before y z = false → before x z = false) →
  (∀ x y, before x y = true → before y x = false) → (∀ x, before x x = false) →
  first_by before l = Some x → ∀ y, y ∈ l → before y x = false.
Proof.
  intros Htr Hasym Hirr. revert x. induction l as [|a l IH]; intros x H y Hy; [done|]. simpl in H.
  destruct (first_by before l) as [z|] eqn:E.
  - destruct (before z a) eqn:B; injection H as <-; apply elem_of_cons in Hy as [->|Hy]; auto.
    eapply Htr; [by eapply IH|done].
  - apply first_by_None in E as ->. injection H as <-.
    apply elem_of_cons in Hy as [->|Hy]; [done|set_solver].
Qed.
End first_by.

Lemma select_due_delivery_Some now e n db id d m :
  select_due_delivery now e n db = Ok (Some (id, d, m)) →
  deliveries db !! id = Some d ∧ delivery_due now d = true ∧ messages db !! d_message_id d = Some m ∧
  en_delivery_locked e n id = false ∧ d_attempt_count d + 1 ≤ int4_max.
Proof.
  unfold select_due_delivery. destruct (first_by _ _) as [[id' d']|] eqn:E; [|done]. intros H. go_inv.
  apply first_by_elem, list_elem_of_filter in E as [(Hdue & Hl & Hm) Hin].
  apply elem_of_map_to_list in Hin. simpl in *.
  destruct (messages db !! d_message_id d') eqn:Em; simplify_eq/=. split_and!; auto.
  match goal with H : int4_ok _ = true |- _ => unfold int4_ok in H; apply andb_true_iff in H as [_ H];
    by apply Z.leb_le in H end.
Qed.

Lemma select_due_receipt_Some now e n db key r :
  select_due_receipt now e n db = Ok (Some (key, r)) →
  receipts db !! key = Some r ∧ receipt_due now r = true ∧ en_receipt_locked e n key = false ∧
  r_attempt_count r + 1 ≤ int4_max.
Proof.
  unfold select_due_receipt. destruct (first_by _ _) as [[k' r']|] eqn:E; [|done]. intros H. go_inv.
  apply first_by_elem, list_elem_of_filter in E as [(Hdue & Hl) Hin].
  apply elem_of_map_to_list in Hin. split_and!; auto.
  match goal with H : int4_ok _ = true |- _ => unfold int4_ok in H; apply andb_true_iff in H as [_ H];
    by apply Z.leb_le in H end.
Qed.

(** * Statements as steps *)

(** A statement moves the tables by at most one step, for an event of [P]. *)
Definition stepwise {A} (P : event → Prop) (stmt : env → nat → DB → go (A * DB)) : Prop :=
  ∀ e n db a db', stmt e n db = Ok (a, db') → db' = db ∨ allowed_step P db db'.

Lemma allowed ev (P : event → Prop) db db' : P ev → table_step ev db db' → allowed_step P db db'.
Proof. intros HP Hs. by exists ev. Qed.

Section statements.
Context (P : event → Prop).

Lemma insert_message_stepwise id ty body ct t : P EvPublish → stepwise P (insert_message id ty body ct t).
Proof.
  intros HP e n db a db'. unfold insert_message. intros H. go_inv.
  destruct (messages db !! id) eqn:Em; simplify_eq; [by left|right]. by apply (allowed EvPublish), step_message.
Qed.

Lemma insert_delivery_stepwise id mid url h key t :
  P EvPublish → stepwise P (insert_delivery id mid url h key t).
Proof.
  intros HP e n db a db'. unfold insert_delivery. intros H. go_inv.
  destruct (key ≫= _) eqn:Ek; [go_inv; by left|]. go_inv. right.
  repeat match goal with H : bool_decide _ = false |- _ => apply bool_decide_eq_false in H end.
  apply (allowed EvPublish), step_publish; [done|..].
  - by apply eq_None_not_Some.
  - by apply not_eq_None_Some.
  - by repeat split.
  - simpl. intros k id' d' -> Hd'. simpl in Ek. by eapply delivery_with_key_None.
Qed.

Lemma delete_unreferenced_stepwise id : P EvForget → stepwise P (delete_unreferenced id).
Proof.
  intros HP e n db a db'. unfold delete_unreferenced. case_bool_decide as Hu; intros [= _ <-];
    [right|by left].
  apply (allowed EvForget), step_drop_messages; [done|apply delete_subseteq|].
  intros id' d Hd. apply lookup_delete_ne. intros ->. by eapply (Hu id' d).
Qed.

Lemma renew_delivery_stepwise c now lease db a db' :
  P (EvRenew (cd_AttemptID c)) →
  renew_delivery c now lease db = Ok (a, db') → db' = db ∨ allowed_step P db db'.
Proof.
  intros HP. unfold renew_delivery. destruct (deliveries db !! cd_DeliveryID c) as [d|] eqn:Ed;
    [|intros [= _ <-]; by left].
  case_match eqn:E; intros [= _ <-]; [right|by left].
  apply andb_true_iff in E as [Ho Hl].
  unfold owns_delivery in Ho. rewrite Ed in Ho.
  destruct (attempts db !! _) as [x|] eqn:Ex; [|done].
  rewrite !andb_true_iff, bool_decide_eq_true, Z.eqb_eq in Ho. destruct Ho as [[Hs _] Hop].
  destruct (d_lease_expires_at d) as [l|] eqn:El; [|done].
  apply Z.ltb_lt in Hl. eapply allowed; [exact HP|]. by eapply step_renew.
Qed.

Lemma insert_receipt_stepwise m h t : P EvReceive → stepwise P (insert_receipt m h t).
Proof.
  intros HP e n db a db'. unfold insert_receipt. intros H. go_inv.
  destruct (receipts db !! _) eqn:Er; simplify_eq; [by left|right]. by apply (allowed EvReceive), step_receive.
Qed.

Lemma owns_receipt_Some c db r :
  receipts db !! cr_key c = Some r →
  owns_receipt c db = true ↔ r_state r = ReceiptProcessing ∧ r_attempt_count r = cr_Attempt c.
Proof.
  intros Hr. unfold owns_receipt. rewrite Hr, andb_true_iff, bool_decide_eq_true, Z.eqb_eq. done.
Qed.

Lemma renew_receipt_stepwise c now lease db a db' :
  P (EvRenewReceipt (cr_key c) (cr_Attempt c)) →
  renew_receipt c now lease db = Ok (a, db') → db' = db ∨ allowed_step P db db'.
Proof.
  intros HP. unfold renew_receipt. destruct (receipts db !! cr_key c) as [r|] eqn:Er;
    [|intros [= _ <-]; by left].
  case_match eqn:E; intros [= _ <-]; [right|by left].
  apply andb_true_iff in E as [Ho Hl]. apply (owns_receipt_Some _ _ _ Er) in Ho as [Ho Hn].
  destruct (r_lease_expires_at r) as [l|] eqn:El; [|done].
  apply Z.ltb_lt in Hl. eapply allowed; [exact HP|]. rewrite <-Hn. by eapply step_renew_receipt.
Qed.

Lemma insert_by_elem {A} before (x y : A) l : x ∈ insert_by before y l ↔ x = y ∨ x ∈ l.
Proof.
  induction l as [|a l IH]; simpl; [rewrite elem_of_cons; done|].
  case_match; rewrite ?elem_of_cons, ?IH, ?elem_of_cons; tauto.
Qed.

Lemma sort_by_elem {A} before (x : A) l : x ∈ sort_by before l ↔ x ∈ l.
Proof.
  induction l as [|a l IH]; simpl; [done|]. rewrite insert_by_elem, elem_of_cons.
  unfold sort_by in IH. by rewrite IH.
Qed.

Lemma candidates_elem {K V} (column : K → V → time * Z) due locked limit (rows : list (K * V)) k :
  k ∈ candidates column due locked limit rows →
  ∃ v, (k, v) ∈ rows ∧ due v = true ∧ locked k = false.
Proof.
  unfold candidates. intros ([k' v] & -> & (i & Hi & _)%elem_of_take)%list_elem_of_fmap.
  apply list_elem_of_lookup_2, sort_by_elem, list_elem_of_filter in Hi as [[? ?] ?]. eauto.
Qed.

Lemma delivered_due_terminal cutoff d : delivered_due cutoff d = true → delivery_terminal (d_state d) = true.
Proof. unfold delivered_due. intros [H _]%andb_true_iff. apply bool_decide_eq_true in H. by rewrite H. Qed.

Lemma failed_due_terminal cutoff d : failed_due cutoff d = true → delivery_terminal (d_state d) = true.
Proof.
  unfold failed_due. intros [H _]%andb_true_iff. rewrite !orb_true_iff, !bool_decide_eq_true in H.
  by destruct H as [[-> | ->]| ->].
Qed.

Lemma purge_deliveries_stepwise due limit :
  P EvPurge → (∀ d, due d = true → delivery_terminal (d_state d) = true) →
  stepwise P (purge_deliveries due limit).
Proof.
  intros HP Hdue e n db a db' [= _ <-]. right. apply (allowed EvPurge), step_purge_deliveries; [done|].
  intros id d (d' & Hin & Hd & _)%candidates_elem Hl.
  apply elem_of_map_to_list in Hin. simplify_eq. auto.
Qed.

Lemma purge_receipts_stepwise cutoff limit :
  P EvPurge → stepwise P (purge_receipts (receipt_purge_due cutoff) limit).
Proof.
  intros HP e n db a db' [= _ <-]. right. apply (allowed EvPurge), step_purge_receipts; [done|].
  intros key r (r' & Hin & Hd & _)%candidates_elem Hl.
  apply elem_of_map_to_list in Hin. simplify_eq. by apply andb_true_iff in Hd as [? _].
Qed.

Lemma unreferenced_true db id :
  unreferenced db id = true → ∀ id' d, deliveries db !! id' = Some d → d_message_id d ≠ id.
Proof. unfold unreferenced. rewrite bool_decide_eq_true. intros H id' d Hd. by apply (H id' d). Qed.

Lemma purge_messages_stepwise cutoff limit : P EvForget → stepwise P (purge_messages cutoff limit).
Proof.
  intros HP e n db a db' [= _ <-]. right.
  apply (allowed EvForget), step_drop_messages; [done|apply map_filter_subseteq|].
  intros id' d Hd. rewrite map_lookup_filter.
  destruct (messages db !! d_message_id d) eqn:Em; [|done]. simpl. rewrite option_guard_True; [done|].
  intros (m0 & _ & _ & Hl)%candidates_elem. apply orb_false_iff in Hl as [_ Hu].
  apply negb_false_iff in Hu. by eapply unreferenced_true.
Qed.

End statements.

(** * Operations *)

(** The tables [db] become [db'] by steps of the machine for events of [P] and by
    commits of others. *)
Definition steps (P : event → Prop) (e : env) : DB → DB → Prop :=
  rtc (λ db db', allowed_step P db db' ∨ ∃ n, db' = en_others e n db).

Section ops.
Context (P : event → Prop) (e : env).

Lemma steps_trans db1 db2 db3 : steps P e db1 db2 → steps P e db2 db3 → steps P e db1 db3.
Proof. apply transitivity. Qed.

Lemma steps_step db db1 db2 : steps P e db db1 → db2 = db1 ∨ allowed_step P db1 db2 → steps P e db db2.
Proof. intros H [->|Hs]; [done|]. eapply rtc_r; eauto. Qed.

Lemma steps_others n db db1 : steps P e db db1 → steps P e db (en_others e n db1).
Proof. intros H. eapply rtc_r; eauto. Qed.

(** From [db0]: what a finished operation leaves, what it leaves on an error, and
    the state of an open transaction. *)
Definition done_from (db0 db : DB) (tx : option DB) : Prop := tx = None ∧ steps P e db0 db.
Definition base_from (db0 : DB) (db : DB) (_ : option DB) : Prop := steps P e db0 db.
Definition open_from (db0 : DB) (db : DB) (tx : option DB) : Prop :=
  steps P e db0 db ∧ ∃ v, tx = Some v ∧ steps P e db0 v.

Lemma open_base db0 db tx : open_from db0 db tx → base_from db0 db tx.
Proof. by intros [? _]. Qed.

(** [m], run in the open transaction, keeps it so. *)
Definition tx_ok {A} (db0 : DB) (m : M A) : Prop :=
  ∀ db tx, open_from db0 db tx → wp e m (λ _, open_from db0) (λ _, base_from db0) db tx.

(** [m], run outside a transaction, moves the tables by steps. *)
Definition op_ok {A} (m : M A) : Prop :=
  ∀ db0 db, steps P e db0 db → wp e m (λ _, done_from db0) (λ _, done_from db0) db None.

Lemma tx_bind {A B} db0 (m : M A) (f : A → M B) :
  tx_ok db0 m → (∀ a, tx_ok db0 (f a)) → tx_ok db0 (m ≫= f).
Proof.
  intros Hm Hf db tx Ho. apply wp_bind. eapply wp_mono; [by apply Hm| |done].
  intros a db' tx' Ho'. by apply Hf.
Qed.

Lemma tx_mret {A} db0 (a : A) : tx_ok db0 (mret a).
Proof. intros db tx Ho. by apply wp_mret. Qed.

Lemma tx_lift {A} db0 (m : go A) : tx_ok db0 (lift m).
Proof. intros db tx Ho. apply wp_lift. destruct m; [done|]. by eapply open_base. Qed.

Lemma tx_ask {A} db0 (f : env → nat → go A) : tx_ok db0 (ask f).
Proof. intros db tx Ho. apply wp_ask. intros n. destruct (f e n); [done|]. by eapply open_base. Qed.

Lemma tx_others db0 : tx_ok db0 others.
Proof.
  intros db tx (Hb & v & -> & Hv). apply wp_others. intros n. split; [by apply steps_others|].
  simpl. eexists. split; [done|]. by apply steps_others.
Qed.

Lemma tx_exec {A} db0 message (stmt : env → nat → DB → go (A * DB)) :
  stepwise P stmt → tx_ok db0 (exec message stmt).
Proof.
  intros Hs db tx (Hb & v & -> & Hv). apply wp_exec; [done|]. intros n a db' H. simpl in *.
  split; [|done]. split; [done|]. eexists. split; [done|]. eapply steps_step; [done|].
  by eapply Hs.
Qed.

Lemma query_stepwise {A} (q : env → nat → DB → go A) : stepwise P (λ e n db, a ← q e n db; Ok (a, db)).
Proof. intros e' n db a db' H. go_inv. simplify_eq. by left. Qed.

Lemma tx_query {A} db0 message (q : env → nat → DB → go A) : tx_ok db0 (query message q).
Proof. apply tx_exec, query_stepwise. Qed.

Lemma op_bind {A B} (m : M A) (f : A → M B) : op_ok m → (∀ a, op_ok (f a)) → op_ok (m ≫= f).
Proof.
  intros Hm Hf db0 db Hb. apply wp_bind. eapply wp_mono; [by apply Hm| |done].
  intros a db' tx' [-> ?]. by apply Hf.
Qed.

Lemma op_mret {A} (a : A) : op_ok (mret a).
Proof. intros db0 db Hb. by apply wp_mret. Qed.

Lemma op_lift {A} (m : go A) : op_ok (lift m).
Proof. intros db0 db Hb. apply wp_lift. by destruct m. Qed.

Lemma op_ask {A} (f : env → nat → go A) : op_ok (ask f).
Proof. intros db0 db Hb. apply wp_ask. intros n. by destruct (f e n). Qed.

Lemma op_others : op_ok others.
Proof. intros db0 db Hb. apply wp_others. intros n. split; [done|]. by apply steps_others. Qed.

Lemma op_exec {A} message (stmt : env → nat → DB → go (A * DB)) :
  stepwise P stmt → op_ok (exec message stmt).
Proof.
  intros Hs db0 db Hb. apply wp_exec; [done|]. intros n a db' H. simpl in *.
  assert (steps P e db0 db') by (eapply steps_step; [done|]; by eapply Hs). done.
Qed.

Lemma op_query {A} message (q : env → nat → DB → go A) : op_ok (query message q).
Proof. apply op_exec, query_stepwise. Qed.

(** An argument that must be given. *)
Lemma op_given {A B} er (c : option A) (f : A → M B) :
  (∀ a, c = Some a → op_ok (f a)) → op_ok (a ← lift (of_option er c); f a).
Proof.
  intros Hf db0 db Hb. apply wp_bind, wp_lift. destruct c as [a|]; [by apply Hf|done].
Qed.

(** A transaction: its body starts from the committed tables and commits them or not. *)
Lemma op_with_tx {A} message (body : M A) :
  (∀ db0 db, steps P e db0 db →
     wp e body (λ _ db' _, steps P e db0 db') (λ _ db' _, steps P e db0 db') db (Some db)) →
  op_ok (with_tx message body).
Proof.
  intros Hbody db0 db Hb. apply wp_with_tx; [done|]. eapply wp_mono; [by apply Hbody|..]; done.
Qed.

(** A transaction goes on after a part that keeps it open. *)
Lemma wp_tx_bind {A B} db0 (m : M A) (f : A → M B) Q db tx :
  tx_ok db0 m → open_from db0 db tx →
  (∀ a db' v, steps P e db0 db' → steps P e db0 v → wp e (f a) Q (λ _, base_from db0) db' (Some v)) →
  wp e (m ≫= f) Q (λ _, base_from db0) db tx.
Proof.
  intros Hm Ho Hf. apply wp_bind. eapply wp_mono; [by apply Hm| |done].
  intros a db' tx' (? & v & -> & ?). auto.
Qed.

Lemma open_start db0 db : steps P e db0 db → open_from db0 db (Some db).
Proof. intros H. split; [done|by exists db]. Qed.

(** The commit of a view reached by steps, and a result. *)
Lemma wp_commit_mret {A} db0 message (a : A) db v :
  steps P e db0 db → steps P e db0 v →
  wp e (_ ← CommitTx message; mret a) (λ _, base_from db0) (λ _, base_from db0) db (Some v).
Proof. intros Hb Hv. apply wp_bind, wp_commit; [done|by apply wp_mret|done]. Qed.

(** A clock of the session reads one of the times of its environment. *)
Lemma wp_tx_clock {B} db0 s (f : time → M B) Q db tx :
  open_from db0 db tx → (∀ n, wp e (f (en_clock e n)) Q (λ _, base_from db0) db tx) →
  wp e (authoritativeNow s ≫= f) Q (λ _, base_from db0) db tx.
Proof.
  intros Ho Hf. apply wp_bind. unfold authoritativeNow, Store_now.
  destruct (st_clock s); [by apply wp_ask|]. apply wp_query; [intros; by eapply open_base|].
  by intros n now [= <-].
Qed.

Lemma tx_clock s db0 : tx_ok db0 (authoritativeNow s).
Proof. unfold authoritativeNow. destruct (st_clock s); [apply tx_ask|apply tx_query]. Qed.
Lemma op_clock s : op_ok (authoritativeNow s).
Proof. unfold authoritativeNow. destruct (st_clock s); [apply op_ask|apply op_query]. Qed.
End ops.

Create HintDb tx.
#[export] Hint Resolve tx_bind tx_mret tx_lift tx_ask tx_others tx_exec tx_query tx_clock : tx.
#[export] Hint Resolve op_bind op_mret op_lift op_ask op_others op_exec op_query op_clock : tx.
#[export] Hint Resolve insert_message_stepwise insert_delivery_stepwise delete_unreferenced_stepwise
  insert_receipt_stepwise purge_messages_stepwise purge_receipts_stepwise : tx.

(** Follow a program: bind, branch, or a primitive. *)
Ltac walk :=
  repeat first
    [ progress intros
    | apply tx_bind | apply op_bind
    | apply tx_mret | apply op_mret | apply tx_lift | apply op_lift | apply tx_ask | apply op_ask
    | apply tx_others | apply op_others | apply tx_clock | apply op_clock
    | apply tx_query | apply op_query
    | apply tx_exec; solve [eauto with tx] | apply op_exec; solve [eauto with tx]
    | match goal with
      | |- tx_ok _ _ _ (match ?x with _ => _ end) => destruct x
      | |- op_ok _ _ (match ?x with _ => _ end) => destruct x
      end ].

(** * The outbox *)

Section outbox.
Context `{HeaderOrder} (P : event → Prop) (e : env).

Lemma find_ok db0 k request ct explicit :
  tx_ok P e db0 (findIdempotentPublication k request ct explicit).
Proof. unfold findIdempotentPublication, throw. walk. Qed.

Section enqueue.
Hypothesis Hpublish : P EvPublish.
Hypothesis Hforget : P EvForget.

Lemma store_publication_ok db0 request ct k explicit t :
  tx_ok P e db0 (store_publication request ct k explicit t).
Proof.
  unfold store_publication, RowsAffected, opaqueID, throw. walk. all: try apply find_ok; walk.
Qed.

Lemma EnqueueTx_ok s request key db0 db :
  steps P e db0 db → wp e (EnqueueTxWithOptions s request key)
    (λ _, open_from P e db0) (λ _, base_from P e db0) db (Some db).
Proof.
  intros Hb. unfold EnqueueTxWithOptions. apply wp_bind, wp_require_tx.
  match goal with |- wp _ ?m _ _ _ _ => assert (tx_ok P e db0 m) as Hok end.
  { unfold newMessageID. walk; try apply find_ok; walk; apply store_publication_ok. }
  by apply Hok, open_start.
Qed.

Lemma EnqueueWithOptions_ok s request key : op_ok P e (EnqueueWithOptions s request key).
Proof.
  apply op_with_tx. intros db0 db Hb. apply wp_bind.
  eapply wp_mono; [by apply EnqueueTx_ok| |done].
  intros p db' tx' (Hb' & v & -> & Hv). by apply wp_commit_mret.
Qed.
End enqueue.

Lemma lease_claimed_ok db0 now due lease id d m db v :
  steps P e db0 db → steps P e db0 v →
  deliveries v !! id = Some d → delivery_due due d = true → d_attempt_count d + 1 ≤ int4_max →
  P (EvClaim due) →
  wp e (lease_claimed now lease id d m) (λ _, base_from P e db0) (λ _, base_from P e db0) db (Some v).
Proof.
  intros Hb Hv Hd Hdue Hmax HP. unfold lease_claimed.
  set (at1 := if decide (d_state d = DeliveryInFlight ∧ 0 < d_attempt_count d)
              then expire_open (en_timestamptz e now) id (d_attempt_count d) <$> attempts v
              else attempts v).
  apply wp_bind.
  assert (wp e (if decide (d_state d = DeliveryInFlight)
                then if 0 <? d_attempt_count d
                     then exec "expire abandoned webhook attempt" (expire_attempt now id (d_attempt_count d))
                     else mret tt
                else mret tt)
            (λ _ db' tx', db' = db ∧ tx' = Some (set_attempts at1 v)) (λ _, base_from P e db0) db (Some v))
    as Hexp.
  { assert (v = set_attempts (attempts v) v) as Hv1 by by destruct v.
    subst at1. destruct (decide (d_state d = DeliveryInFlight)) as [Hs|Hs].
    - destruct (Z.ltb_spec 0 (d_attempt_count d)).
      + rewrite decide_True by done. apply wp_exec; [done|]. by intros n [] db' [= <-].
      + rewrite decide_False by lia. apply wp_mret. by rewrite <-Hv1.
    - rewrite decide_False by tauto. apply wp_mret. by rewrite <-Hv1. }
  eapply wp_mono; [exact Hexp| |done]. intros _ db' tx' [-> ->].
  apply wp_bind, wp_ask. intros n. destruct (randomOpaqueID _ _) as [aid|]; [|done].
  apply wp_bind, wp_exec; [done|]. intros n1 [] v1 [= <-]. simpl. split; [|done].
  apply wp_bind, wp_exec; [done|]. intros n2 [] v2 Hins. simpl in Hins.
  unfold insert_attempt in Hins. go_inv. simpl. split; [|done].
  apply wp_commit_mret; [done|]. eapply steps_step; [exact Hv|]. right.
  apply (allowed (EvClaim due)); [done|].
  repeat match goal with H : bool_decide _ = false |- _ => apply bool_decide_eq_false in H end.
  simpl in *. erewrite alter_alt_Some by exact Hd.
  eapply (step_claim v id d aid due (en_timestamptz e now) (en_timestamptz e (Add now lease))); auto.
  match goal with H : ¬ is_Some (at1 !! aid) |- _ => apply eq_None_not_Some in H; rename H into Hn end.
  subst at1. case_decide; [|done]. rewrite lookup_fmap in Hn. by apply fmap_None in Hn.
Qed.

Lemma ClaimDelivery_ok s lease :
  (∀ n, P (EvClaim (en_timestamptz e (en_clock e n)))) → op_ok P e (ClaimDelivery s lease).
Proof.
  intros HP. apply op_with_tx. intros db0 db Hb.
  apply (wp_tx_clock P e db0); [by apply open_start|]. intros n0.
  apply (wp_tx_bind P e db0); [apply tx_others|by apply open_start|]. intros _ db2 v2 Hb2 Hv2.
  apply wp_bind, wp_query; [done|]. intros n row Hrow. simpl in Hrow.
  destruct row as [[[id d] m]|]; [|by apply wp_mret].
  apply select_due_delivery_Some in Hrow as (Hd & Hdue & _ & _ & Hmax).
  apply wp_bind. eapply wp_mono; [by eapply lease_claimed_ok| |done].
  intros c db3 tx3 Hb3. by apply wp_mret.
Qed.

Lemma RenewDeliveryLease_ok s c lease :
  (∀ c', c = Some c' → P (EvRenew (cd_AttemptID c'))) → op_ok P e (RenewDeliveryLease s c lease).
Proof.
  intros HP. apply op_given. intros c' Hc. specialize (HP c' Hc). walk; unfold RowsAffected; walk;
    apply op_exec; intros e' n db a' db' Hs; by eapply renew_delivery_stepwise.
Qed.

Lemma deliveryTransition_result random now attempt r err retry state next :
  deliveryTransition random now attempt r err retry = (state, next) → attempt_result state.
Proof.
  unfold deliveryTransition, attempt_result. intros H0. repeat case_match; simplify_eq; auto.
Qed.

(** The two updates of a completion, from the view that others left. *)
Lemma complete_updates c now x state next status code completed db v v1 v2 n1 n2 :
  P (EvComplete (cd_AttemptID c)) →
  attempt_result state → (delivery_terminal state = true ↔ is_Some completed) →
  finish_attempt c now x e n1 v = Ok (1, v1) →
  settle_delivery c state next status code now completed e n2 v1 = Ok (1, v2) →
  db = v → allowed_step P db v2.
Proof.
  intros HP Hres Hcomp H1 H2 ->. unfold finish_attempt in H1. go_inv.
  destruct (attempts v !! cd_AttemptID c) as [a|] eqn:Ea; [|done].
  destruct (open_attempt _ _ a) eqn:Eo; [|done]. injection H1 as <-.
  unfold settle_delivery in H2. simpl in H2.
  destruct (deliveries v !! cd_DeliveryID c) as [d|] eqn:Ed; [|done].
  case_match eqn:E; [|done]. injection H2 as <-.
  apply andb_true_iff in E as [Hs%bool_decide_eq_true Hn%Z.eqb_eq].
  eapply allowed; [exact HP|]. eapply (step_complete v _ d (cd_AttemptID c) a (en_timestamptz e) x state
    (en_timestamptz e <$> next) status code now (en_timestamptz e <$> completed)); auto.
  - by rewrite Hn.
  - by rewrite fmap_is_Some.
Qed.

Lemma reject_neq_1 rows (er : error) u : reject (negb (rows =? 1)) er = Ok u → rows = 1.
Proof. by intros ?%reject_Ok%negb_false_iff%Z.eqb_eq. Qed.

Lemma CompleteDelivery_ok s c r err retry :
  (∀ c', c = Some c' → P (EvComplete (cd_AttemptID c'))) → op_ok P e (CompleteDelivery s c r err retry).
Proof.
  intros HP. apply op_given. intros c' Hc. specialize (HP c' Hc). cbv zeta.
  apply op_with_tx. intros db0 db Hb.
  apply (wp_tx_bind P e db0); [apply tx_clock|by apply open_start|]. intros now db1 v1 Hb1 Hv1.
  apply (wp_tx_bind P e db0); [apply tx_ask|split; eauto|]. intros random db2 v2 Hb2 Hv2.
  destruct (deliveryTransition _ _ _ _ _ _) as [state next] eqn:Et.
  apply deliveryTransition_result in Et.
  apply (wp_tx_bind P e db0); [apply tx_others|split; eauto|]. intros _ db3 v3 Hb3 Hv3.
  apply wp_bind, wp_exec; [done|]. intros n1 rows v4 H4. split; [|done].
  apply wp_bind, wp_RowsAffected; [done|].
  apply wp_bind, wp_lift. destruct (reject _ _) eqn:E1; [|done]. apply reject_neq_1 in E1 as ->.
  apply wp_bind, wp_exec; [done|]. intros n2 rows v5 H5. split; [|done].
  apply wp_bind, wp_RowsAffected; [done|].
  apply wp_bind, wp_lift. destruct (reject _ _) eqn:E2; [|done]. apply reject_neq_1 in E2 as ->.
  simpl in H4, H5.
  assert (allowed_step P v3 v5) as Hs.
  { eapply complete_updates; eauto. by destruct (delivery_terminal state). }
  assert (steps P e db0 v5) by (eapply steps_step; [exact Hv3|by right]).
  by apply wp_commit.
Qed.
End outbox.

(** * The inbox *)

Section inbox.
Context (P : event → Prop) (e : env).

Lemma Handle_ok s m : P EvReceive → op_ok P e (Handle s m).
Proof. intros HP. unfold Handle, RowsAffected. walk. Qed.

Lemma ClaimReceipt_ok s lease :
  (∀ n, P (EvClaimReceipt (en_timestamptz e (en_clock e n)))) → op_ok P e (ClaimReceipt s lease).
Proof.
  intros HP. apply op_with_tx. intros db0 db Hb.
  apply (wp_tx_clock P e db0); [by apply open_start|]. intros n0.
  apply (wp_tx_bind P e db0); [apply tx_others|by apply open_start|]. intros _ db2 v2 Hb2 Hv2.
  apply wp_bind, wp_query; [done|]. intros n row Hrow. simpl in Hrow.
  destruct row as [[key r]|]; [|by apply wp_mret].
  apply select_due_receipt_Some in Hrow as (Hr & Hdue & _ & Hmax).
  apply wp_bind, wp_exec; [done|]. intros n1 [] v3 [= <-]. split; [|done].
  apply wp_commit_mret; [done|]. eapply steps_step; [exact Hv2|right].
  erewrite alter_alt_Some by exact Hr. eapply allowed; [apply HP|]. by eapply step_claim_receipt.
Qed.

Lemma RenewReceiptLease_ok s c lease :
  (∀ c', c = Some c' → P (EvRenewReceipt (cr_key c') (cr_Attempt c'))) →
  op_ok P e (RenewReceiptLease s c lease).
Proof.
  intros HP. apply op_given. intros c' Hc. specialize (HP c' Hc). walk; unfold RowsAffected; walk;
    apply op_exec; intros e' n db a' db' Hs; by eapply renew_receipt_stepwise.
Qed.

Lemma receiptTransition_result random now attempt err retry state next :
  receiptTransition random now attempt err retry = (state, next) → receipt_result state.
Proof.
  unfold receiptTransition, receipt_result. intros H0. repeat case_match; simplify_eq; auto.
Qed.

Lemma settle_receipt_stepwise c state next code detail processed now :
  P (EvCompleteReceipt (cr_key c) (cr_Attempt c)) →
  receipt_result state → (receipt_terminal state = true ↔ is_Some processed) →
  stepwise P (settle_receipt c state next code detail processed now).
Proof.
  intros HP Hres Hp e' n db a db' H. unfold settle_receipt in H. go_inv.
  destruct (receipts db !! cr_key c) as [r|] eqn:Er; [|simplify_eq; by left].
  destruct (owns_receipt c db) eqn:Eo; simplify_eq; [right|by left].
  apply (owns_receipt_Some _ _ _ Er) in Eo as [Hs Hn].
  eapply allowed; [exact HP|]. rewrite <-Hn. apply step_complete_receipt; auto. by rewrite fmap_is_Some.
Qed.

Lemma CompleteReceipt_ok s c err retry :
  (∀ c', c = Some c' → P (EvCompleteReceipt (cr_key c') (cr_Attempt c'))) →
  op_ok P e (CompleteReceipt s c err retry).
Proof.
  intros HP. apply op_given. intros c' Hc. specialize (HP c' Hc).
  apply op_bind; [apply op_clock|]. intros now. apply op_bind; [apply op_ask|]. intros random.
  destruct (receiptTransition _ _ _ _ _) as [state next] eqn:Et.
  apply receiptTransition_result in Et. cbv zeta. unfold RowsAffected. walk.
  apply op_exec, settle_receipt_stepwise; [done..|].
  by destruct (receipt_terminal state).
Qed.

(** * Cleanup *)

Lemma category_ok db0 retention message now purge :
  (∀ ts cutoff, stepwise P (purge ts cutoff)) → tx_ok P e db0 (category retention message now purge).
Proof.
  intros Hp. unfold category. destruct (0 <? retention); [|apply tx_mret].
  apply tx_bind; [|intros rows; apply tx_query]. apply tx_exec. intros e' n db a db' Hs. by eapply Hp.
Qed.

Lemma Cleanup_ok s policy : P EvPurge → P EvForget → op_ok P e (Cleanup s policy).
Proof.
  intros Hpurge Hforget. unfold Cleanup. do 2 (apply op_bind; [apply op_lift|intros ?]).
  case_match; [apply op_mret|]. apply op_with_tx. intros db0 db Hb.
  apply (wp_tx_bind P e db0); [apply tx_clock|by apply open_start|]. intros now db1 v1 Hb1 Hv1.
  cbv zeta. apply (wp_tx_bind P e db0); [apply tx_others|split; eauto|]. intros _ db2 v2 Hb2 Hv2.
  do 4 (apply (wp_tx_bind P e db0); [apply category_ok; intros ts cutoff|split; eauto|intros ? ? ? ? ?];
    [eauto using purge_deliveries_stepwise, delivered_due_terminal, failed_due_terminal,
       purge_receipts_stepwise, purge_messages_stepwise|]).
  by apply wp_commit_mret.
Qed.
End inbox.
