(* ===== verification/PgProps.v ===== *)
(** What the operations of src/postgres guarantee together: refinement of the
    abstract machine, its invariant, the life of a delivery, and ownership. *)

From S2P Require Import Prelude GoString Codec GoTime Errors Headers Message Retry Outcome.
From S2P Require Import PgText PgSchema PgModel PgOutbound PgInbound PgCleanup PgSpec PgRefine.

(** * Operations of a session *)

(** One call of a method of [Store] that touches the database. *)
Inductive operation : Type :=
| OpEnqueue (request : SendRequest) (key : string)
| OpClaimDelivery (lease : duration)
| OpRenewDelivery (claimed : option ClaimedDelivery) (lease : duration)
| OpCompleteDelivery (claimed : option ClaimedDelivery) (result : AttemptResult)
    (sendErr : option error) (retry : RetryPolicy)
| OpReceive (message : VerifiedMessage)
| OpClaimReceipt (lease : duration)
| OpRenewReceipt (claimed : option ClaimedReceipt) (lease : duration)
| OpCompleteReceipt (claimed : option ClaimedReceipt) (handlerErr : option error)
    (retry : RetryPolicy)
| OpCleanup (policy : RetentionPolicy).

Definition run `{HeaderOrder} (s : Store) (op : operation) : M unit :=
  match op with
  | OpEnqueue request key => _ ← EnqueueWithOptions s request key; mret tt
  | OpClaimDelivery lease => _ ← ClaimDelivery s lease; mret tt
  | OpRenewDelivery c lease => RenewDeliveryLease s c lease
  | OpCompleteDelivery c r err retry => CompleteDelivery s c r err retry
  | OpReceive m => Handle s m
  | OpClaimReceipt lease => _ ← ClaimReceipt s lease; mret tt
  | OpRenewReceipt c lease => RenewReceiptLease s c lease
  | OpCompleteReceipt c err retry => CompleteReceipt s c err retry
  | OpCleanup policy => _ ← Cleanup (Some s) policy; mret tt
  end.

(** The events an operation's steps are for: claims are judged at a time its clock
    shows, renewals and completions are made for the claim it is given. *)
Definition events (e : env) (op : operation) (ev : event) : Prop :=
  match op with
  | OpEnqueue _ _ => ev = EvPublish ∨ ev = EvForget
  | OpClaimDelivery _ => ∃ n, ev = EvClaim (en_timestamptz e (en_clock e n))
  | OpRenewDelivery c _ => ∃ c', c = Some c' ∧ ev = EvRenew (cd_AttemptID c')
  | OpCompleteDelivery c _ _ _ => ∃ c', c = Some c' ∧ ev = EvComplete (cd_AttemptID c')
  | OpReceive _ => ev = EvReceive
  | OpClaimReceipt _ => ∃ n, ev = EvClaimReceipt (en_timestamptz e (en_clock e n))
  | OpRenewReceipt c _ => ∃ c', c = Some c' ∧ ev = EvRenewReceipt (cr_key c') (cr_Attempt c')
  | OpCompleteReceipt c _ _ => ∃ c', c = Some c' ∧ ev = EvCompleteReceipt (cr_key c') (cr_Attempt c')
  | OpCleanup _ => ev = EvPurge ∨ ev = EvForget
  end.

(** The committed tables and the transaction after an operation, from [db]. *)
Definition after {A} (e : env) (m : M A) (n : nat) (db : DB) : DB * option DB :=
  let w := (m e {| w_db := db; w_tx := None; w_tick := n |}).2 in (w_db w, w_tx w).

(** Other sessions run the same program. *)
Definition others_run_the_store (e : env) : Prop := ∀ n db, rtc db_step db (en_others e n db).

(** Delivery [id] has a row before and after, or neither. *)
Definition same_presence (id : string) (db db' : DB) : Prop :=
  is_Some (deliveries db !! id) ↔ is_Some (deliveries db' !! id).

(** One operation of a session, under any faults.  What other sessions commit between its
    statements is made by such operations in turn, and none of them all adds or removes
    the row of delivery [id]. *)
Inductive session_on `{HeaderOrder} (id : string) : DB → DB → Prop :=
| session_op e s op n db :
    (∀ k x, rtc (session_on id) x (en_others e k x)) →
    same_presence id db (after e (run s op) n db).1 →
    session_on id db (after e (run s op) n db).1.

(** A delivery's steps as long as its row exists. *)
Definition lifetime (id : string) : DB → DB → Prop :=
  rtc (λ db db', db_step db db' ∧ is_Some (deliveries db' !! id)).

(** * Lemmas *)

Lemma run_ok `{HeaderOrder} e s op : op_ok (events e op) e (run s op).
Proof.
  destruct op; simpl; try (apply op_bind; [|intros; apply op_mret]);
    first [apply EnqueueWithOptions_ok | apply ClaimDelivery_ok | apply RenewDeliveryLease_ok
          | apply CompleteDelivery_ok | apply Handle_ok | apply ClaimReceipt_ok
          | apply RenewReceiptLease_ok | apply CompleteReceipt_ok | apply Cleanup_ok]; simpl; eauto.
Qed.

Lemma after_ok {A} P e (m : M A) n db :
  op_ok P e m → (after e m n db).2 = None ∧ steps P e db (after e m n db).1.
Proof.
  intros Hm. specialize (Hm db db (rtc_refl _ _) n). unfold after.
  destruct (m e _) as [[a|er] w]; exact Hm.
Qed.

Lemma op_keeps_wf {A} P e (m : M A) n db :
  op_ok P e m → (∀ k db', db_wf db' → db_wf (en_others e k db')) → db_wf db → db_wf (after e m n db).1.
Proof.
  intros Hm Ho Hwf. destruct (after_ok P e m n db Hm) as [_ Hs].
  induction Hs as [|x y z [H1|[k ->]] _ IH]; eauto using db_step_wf, allowed_db_step.
Qed.

Lemma steps_rtc P e db db' : others_run_the_store e → steps P e db db' → rtc db_step db db'.
Proof.
  intros Ho. induction 1 as [|x y z [H|[n ->]] _ IH]; [done|by eapply rtc_l; [eapply allowed_db_step|]|].
  transitivity (en_others e n x); [apply Ho|done].
Qed.

Lemma steps_wf db db' : rtc db_step db db' → db_wf db → db_wf db'.
Proof. induction 1; eauto using db_step_wf. Qed.

(** What one step does to a delivery that has a row before and after. *)
Definition delivery_evolves (d d' : Delivery) : Prop :=
  d_message_id d' = d_message_id d ∧ d_destination_url d' = d_destination_url d ∧
  d_headers d' = d_headers d ∧ d_key d' = d_key d ∧ d_created_at d' = d_created_at d ∧
  d_attempt_count d ≤ d_attempt_count d' ∧
  (delivery_terminal (d_state d) = true → d' = d).

#[export] Instance delivery_evolves_refl : Reflexive delivery_evolves.
Proof. intros d. repeat split; lia. Qed.
#[export] Instance delivery_evolves_trans : Transitive delivery_evolves.
Proof.
  intros d1 d2 d3 (A1 & A2 & A3 & A4 & A5 & A6 & A7) (B1 & B2 & B3 & B4 & B5 & B6 & B7).
  split_and!; try congruence; [lia|]. intros Ht. specialize (A7 Ht) as ->. by apply B7.
Qed.

Lemma update_evolves (m : gmap string Delivery) id0 d0 d1 id d d' :
  m !! id0 = Some d0 → delivery_evolves d0 d1 →
  m !! id = Some d → <[id0 := d1]> m !! id = Some d' → delivery_evolves d d'.
Proof.
  intros H0 Hev Hd [[<- <-]|[Hne Hd']]%lookup_insert_Some; [by simplify_eq|].
  simplify_eq. reflexivity.
Qed.

Lemma leased_evolves n lease now d :
  delivery_terminal (d_state d) = false → d_attempt_count d ≤ n →
  delivery_evolves d (leased n lease now d).
Proof. intros Ht Hn. split_and!; try done. by rewrite Ht. Qed.

Lemma step_evolves db db' id d d' :
  db_step db db' → deliveries db !! id = Some d → deliveries db' !! id = Some d' →
  delivery_evolves d d'.
Proof.
  intros (ev & _ & Hs) Hd Hd'. destruct Hs; simpl in *; simplify_eq; try reflexivity.
  - apply lookup_insert_Some in Hd' as [[<- <-]|[_ Hd']]; simplify_eq. reflexivity.
  - eapply update_evolves; [exact H| |exact Hd|exact Hd']. apply leased_evolves; [|lia].
    unfold delivery_due in H0. by destruct (d_state _).
  - eapply update_evolves; [exact H| |exact Hd|exact Hd']. apply leased_evolves; [by rewrite H0|lia].
  - eapply update_evolves; [exact H| |exact Hd|exact Hd']. split_and!; try done. by rewrite H0.
  - apply map_lookup_filter_Some in Hd' as [Hd' _]. simplify_eq. reflexivity.
Qed.

(** The message of a delivery that has a row before and after a step. *)
Lemma step_message_kept db db' id d d' m :
  db_wf db → db_step db db' → deliveries db !! id = Some d → deliveries db' !! id = Some d' →
  messages db !! d_message_id d = Some m → messages db' !! d_message_id d = Some m.
Proof.
  intros Hwf (ev & _ & Hs) Hd Hd' Hm. destruct Hs; simpl in *; try done.
  - rewrite lookup_insert_ne; [done|]. intros ->. congruence.
  - by rewrite (H0 id d Hd).
Qed.

Lemma lifetime_evolves db db' id d d' m :
  db_wf db → deliveries db !! id = Some d → lifetime id db db' →
  deliveries db' !! id = Some d' → messages db !! d_message_id d = Some m →
  delivery_evolves d d' ∧ messages db' !! d_message_id d' = Some m.
Proof.
  intros Hwf Hd Hl. revert d Hwf Hd. induction Hl as [db|db1 db2 db3 [H12 [d2 Hd2]] _ IH];
    intros d Hwf Hd Hd' Hm; [simplify_eq; split; [reflexivity|done]|].
  pose proof (step_evolves _ _ _ _ _ H12 Hd Hd2) as Hev.
  pose proof (step_message_kept _ _ _ _ _ _ Hwf H12 Hd Hd2 Hm) as Hm2.
  destruct Hev as (E & Hev'). rewrite <-E in Hm2.
  destruct (IH d2) as [Hev2 Hm3]; eauto using db_step_wf.
  split; [|done]. etransitivity; [|done]. by split.
Qed.

Lemma lifetime_steps id db db' : lifetime id db db' → rtc db_step db db'.
Proof. induction 1 as [|x y z [H _] _ IH]; [done|by eapply rtc_l]. Qed.

Lemma lifetime_present id db db' :
  lifetime id db db' → is_Some (deliveries db !! id) → is_Some (deliveries db' !! id).
Proof. induction 1 as [|x y z [_ H] _ IH]; auto. Qed.

(** ** From operations to steps *)

Lemma step_keeps_row ev db db' id :
  table_step ev db db' → ev ≠ EvPurge → is_Some (deliveries db !! id) → is_Some (deliveries db' !! id).
Proof.
  intros Hs Hev Hd. destruct Hs; simpl; try done; try (apply lookup_insert_is_Some'; by right).
Qed.

Lemma step_adds_no_row ev db db' id :
  table_step ev db db' → ev ≠ EvPublish → is_Some (deliveries db' !! id) → is_Some (deliveries db !! id).
Proof.
  intros Hs Hev Hd. destruct Hs; simpl in Hd; try done;
    try (apply lookup_insert_is_Some' in Hd as [<-|Hd]; [by eexists|done]).
  destruct Hd as [d [Hd _]%map_lookup_filter_Some]. by exists d.
Qed.

(** An operation removes rows or adds them, not both. *)
Lemma events_one_way e op :
  (∀ ev, events e op ev → ev ≠ EvPurge) ∨ (∀ ev, events e op ev → ev ≠ EvPublish).
Proof. destruct op; simpl; [left|right..]; naive_solver. Qed.

Lemma operation_lifetime e op id db db' :
  (∀ k x, same_presence id x (en_others e k x) ∧
     (is_Some (deliveries x !! id) → lifetime id x (en_others e k x))) →
  steps (events e op) e db db' → is_Some (deliveries db !! id) → is_Some (deliveries db' !! id) →
  lifetime id db db'.
Proof.
  intros Ho Hs Hd Hd'. induction Hs as [|x y z Hxy Hyz IH]; [apply rtc_refl|].
  assert (is_Some (deliveries y !! id)) as Hy.
  { destruct (events_one_way e op) as [Hev|Hev].
    - destruct Hxy as [(ev & Hop & Hs)|[k ->]]; [by eapply step_keeps_row; eauto|by apply (Ho k x)].
    - clear -Ho Hyz Hd' Hev. induction Hyz as [|y y' z Hs _ IH]; [done|]. specialize (IH Hd').
      destruct Hs as [(ev & Hop & Hs)|[k ->]]; [by eapply step_adds_no_row; eauto|by apply (Ho k y)]. }
  transitivity y; [|by apply IH]. destruct Hxy as [Hs|[k ->]]; [|by apply Ho].
  apply rtc_once. split; [by eapply allowed_db_step|done].
Qed.

Lemma session_on_lifetime `{HeaderOrder} id :
  ∀ db db', session_on id db db' →
    same_presence id db db' ∧ (is_Some (deliveries db !! id) → lifetime id db db').
Proof.
  fix IH 3. intros db db' [e s op n db0 Ho Hp]. split; [exact Hp|]. intros Hd.
  assert (∀ k x, same_presence id x (en_others e k x) ∧
    (is_Some (deliveries x !! id) → lifetime id x (en_others e k x))) as Hothers.
  { intros k x. specialize (Ho k x). clear -IH Ho. induction Ho as [x|x y z Hxy _ IHo].
    - split; [done|]. intros _. apply rtc_refl.
    - destruct (IH _ _ Hxy) as [Hp1 Hl1]. destruct IHo as [Hp2 Hl2]. unfold same_presence in *. split; [tauto|].
      intros Hx. transitivity y; [by apply Hl1|]. apply Hl2. by apply Hp1. }
  destruct (after_ok (events e op) e (run s op) n db0 (run_ok e s op)) as [_ Hs].
  eapply operation_lifetime; [exact Hothers|exact Hs|exact Hd|by apply Hp].
Qed.

Lemma sessions_on_lifetime `{HeaderOrder} id db db' :
  rtc (session_on id) db db' → is_Some (deliveries db !! id) → lifetime id db db'.
Proof.
  induction 1 as [x|x y z Hxy _ IH]; intros Hd; [apply rtc_refl|].
  destruct (session_on_lifetime id _ _ Hxy) as [Hp Hl].
  transitivity y; [by apply Hl|]. apply IH. by apply Hp.
Qed.

(** * Properties *)

(** C12 Refinement: every operation of the store, whichever of its calls to the
    database fail before or after taking effect and whatever other sessions commit
    between its statements, leaves no transaction open and changes the committed
    tables only by steps of the abstract machine and by those commits; and the steps
    are those of the operation: publications when it publishes, claims judged at a time
    its clock shows when it claims, renewals and completions for the attempt whose claim
    it is given, removals when it cleans up. *)
Theorem operations_refine_machine `{HeaderOrder} e s op n db :
  (after e (run s op) n db).2 = None ∧ steps (events e op) e db (after e (run s op) n db).1.
Proof. apply after_ok, run_ok. Qed.

(** C18 The tables stay well-formed: when they are, and other sessions keep them
    so, they are after any operation of the store under any faults.  A delivery is
    leased exactly when it is in flight, has a completion time exactly when its
    state is final, has the attempts 1 to [attempt_count] and no other, of which
    only the last may be open and only in flight; keys and attempt numbers are
    unique and no reference dangles. *)
Theorem operations_keep_tables_wf `{HeaderOrder} e s op n db :
  (∀ k db', db_wf db' → db_wf (en_others e k db')) →
  db_wf db → db_wf (after e (run s op) n db).1.
Proof.
  eapply op_keeps_wf, run_ok.
Qed.

(** C32 A publication is immutable and its end is final: take a delivery of well-formed
    tables and any sequence of operations of any sessions - publications, claims,
    renewals, completions, receipts, cleanups, each failing wherever it may and
    interrupted between its statements by other such operations - none of which removes
    the delivery's row.  Then its message identifier, destination, headers, key and
    creation time stay what was published, the message's row stays as it was, the attempt
    count never decreases, and once the delivery is delivered, permanently failed,
    disabled or exhausted nothing of its row changes any more. *)
Theorem publication_is_immutable `{HeaderOrder} id db db' d m :
  db_wf db → deliveries db !! id = Some d → messages db !! d_message_id d = Some m →
  rtc (session_on id) db db' →
  ∃ d', deliveries db' !! id = Some d' ∧ messages db' !! d_message_id d' = Some m ∧
    d_message_id d' = d_message_id d ∧ d_destination_url d' = d_destination_url d ∧
    d_headers d' = d_headers d ∧ d_key d' = d_key d ∧ d_created_at d' = d_created_at d ∧
    d_attempt_count d ≤ d_attempt_count d' ∧
    (d_state d ∈ [DeliveryDelivered; DeliveryPermanentFailure; DeliveryDisabled; DeliveryExhausted] → d' = d).
Proof.
  intros Hwf Hd Hm Hs. assert (is_Some (deliveries db !! id)) as Hp by by eexists.
  pose proof (sessions_on_lifetime id db db' Hs Hp) as Hl.
  destruct (lifetime_present _ _ _ Hl Hp) as [d' Hd']. exists d'.
  destruct (lifetime_evolves _ _ _ _ _ _ Hwf Hd Hl Hd' Hm) as [(E1 & E2 & E3 & E4 & E5 & E6 & E7) Hm'].
  split_and!; try done. intros Hin. apply E7. rewrite !elem_of_cons, elem_of_nil in Hin.
  by destruct Hin as [E|[E|[E|[E|[]]]]]; rewrite E.
Qed.

(** At most one worker owns a delivery: two claims that both satisfy the
    ownership test of renewal and completion on the same tables, for the same
    delivery, are claims of the same attempt. *)
Lemma delivery_has_one_owner db c1 c2 :
  db_wf db → owns_delivery c1 db = true → owns_delivery c2 db = true →
  cd_DeliveryID c1 = cd_DeliveryID c2 →
  cd_AttemptID c1 = cd_AttemptID c2 ∧ cd_Attempt c1 = cd_Attempt c2.
Proof.
  unfold owns_delivery. intros Hwf H1 H2 Hid. rewrite <-Hid in H2.
  destruct (deliveries db !! cd_DeliveryID c1) as [d|]; [|done].
  destruct (attempts db !! cd_AttemptID c1) as [a1|] eqn:E1; [|done].
  destruct (attempts db !! cd_AttemptID c2) as [a2|] eqn:E2; [|done].
  rewrite !andb_true_iff, !Z.eqb_eq in H1, H2.
  destruct H1 as [[_ N1] (D1 & K1 & _)%open_attempt_true], H2 as [[_ N2] (D2 & K2 & _)%open_attempt_true].
  split; [|congruence]. eapply (wf_number _ Hwf); eauto; congruence.
Qed.
