(* ===== verification/PgOutbox.v ===== *)
(** The outbox in detail, while other sessions are quiet and under any faults:
    what a claim, a renewal, a completion and a publication return and leave. *)

From S2P Require Import Prelude GoString Codec GoTime Errors Headers Message Retry Outcome.
From S2P Require Import PgText PgSchema PgModel PgOutbound PgSpec PgRefine.

(** No other session commits; no call fails. *)
Definition quiet (e : env) : Prop := ∀ n db, en_others e n db = db.
Definition calm (e : env) : Prop := quiet e ∧ ∀ n, en_fault e n = NoFault.

Lemma wp_others_quiet e Q X db tx : quiet e → Q tt db tx → wp e others Q X db tx.
Proof.
  intros Hq HQ. apply wp_others. intros n. rewrite Hq. destruct tx; simpl; [by rewrite Hq|done].
Qed.

Lemma wp_clock_reading e s Q X db tx :
  (∀ er, X er db tx) → (∀ n, Q (en_clock e n) db tx) → wp e (authoritativeNow s) Q X db tx.
Proof.
  intros HX HQ. unfold authoritativeNow, Store_now.
  destruct (st_clock s); [by apply wp_ask|]. apply wp_query; [done|]. by intros n now [= <-].
Qed.

Lemma wp_clock e s Q X db tx :
  (∀ er, X er db tx) → (∀ now, Q now db tx) → wp e (authoritativeNow s) Q X db tx.
Proof. intros HX HQ. by apply wp_clock_reading. Qed.

(** * Claims *)

(** Delivery [id] can be claimed at [now]. *)
Definition claimable (e : env) (n : nat) (now : time) (db : DB) (id : string) (d : Delivery) : Prop :=
  deliveries db !! id = Some d ∧ delivery_due now d = true ∧ en_delivery_locked e n id = false.

(** What [ClaimDelivery] did when it claimed: it took a row that was due by the clock
    and came first, and the tables are those of the machine's claim step. *)
Definition claimed_from (e : env) (lease : duration) (db db' : DB) (c : ClaimedDelivery) : Prop :=
  ∃ n k d m,
    let now := en_clock e k in
    claimable e n (en_timestamptz e now) db (cd_DeliveryID c) d ∧
    messages db !! d_message_id d = Some m ∧
    (∀ id' d', claimable e n (en_timestamptz e now) db id' d' →
       delivery_before (en_delivery_rank e n) (id', d') (cd_DeliveryID c, d) = false) ∧
    db' = claim_tables (en_timestamptz e now) (en_timestamptz e (Add now lease))
            (cd_DeliveryID c) d (cd_AttemptID c) db ∧
    c = claim_of now (cd_DeliveryID c) d m (cd_AttemptID c).

Lemma delivery_before_trans rank x y z :
  delivery_before rank x y = false → delivery_before rank y z = false →
  delivery_before rank x z = false.
Proof. destruct x, y, z. unfold delivery_before. zcase; try done; lia. Qed.

Lemma delivery_before_asym rank x y :
  delivery_before rank x y = true → delivery_before rank y x = false.
Proof. destruct x, y. unfold delivery_before. zcase; try done; lia. Qed.

Lemma delivery_before_irrefl rank x : delivery_before rank x x = false.
Proof. destruct x. unfold delivery_before. zcase; done. Qed.

Lemma select_due_delivery_first now e n db id d m id' d' :
  db_wf db → select_due_delivery now e n db = Ok (Some (id, d, m)) → claimable e n now db id' d' →
  delivery_before (en_delivery_rank e n) (id', d') (id, d) = false.
Proof.
  intros Hwf H (Hd' & Hdue & Hl). unfold select_due_delivery in H.
  destruct (first_by _ _) as [[i x]|] eqn:E; [|done]. go_inv.
  destruct (messages db !! d_message_id x); simplify_eq/=.
  eapply (first_by_min _ _ _ (delivery_before_trans _) (delivery_before_asym _)
    (delivery_before_irrefl _) E).
  apply list_elem_of_filter. split; [|by apply elem_of_map_to_list].
  split_and!; auto. simpl. by eapply (wf_delivery _ Hwf).
Qed.

Lemma select_due_delivery_None now e n db id d :
  db_wf db → select_due_delivery now e n db = Ok None → ¬ claimable e n now db id d.
Proof.
  intros Hwf H (Hd & Hdue & Hl). unfold select_due_delivery in H.
  assert (is_Some (messages db !! d_message_id d)) as Hm by (by eapply (wf_delivery _ Hwf)).
  destruct (first_by _ _) as [[i x]|] eqn:E.
  - go_inv. apply first_by_elem, list_elem_of_filter in E as [(_ & _ & [m0 Hm0]) _].
    simpl in Hm0. by simplify_option_eq.
  - apply first_by_None in E.
    assert ((id, d) ∈ filter (λ p, delivery_due now p.2 = true ∧ en_delivery_locked e n p.1 = false ∧
      is_Some (messages db !! d_message_id p.2)) (map_to_list (deliveries db))) as Hin.
    { apply list_elem_of_filter. split; [done|by apply elem_of_map_to_list]. }
    rewrite E in Hin. by apply elem_of_nil in Hin.
Qed.

Section claims.
Context (e : env).

Lemma lease_claimed_spec now lease id d m db :
  deliveries db !! id = Some d →
  let left c db' := db' = claim_tables (en_timestamptz e now) (en_timestamptz e (Add now lease)) id d
                            (cd_AttemptID c) db ∧
    c = claim_of now id d m (cd_AttemptID c) ∧
    attempts db !! cd_AttemptID c = None in
  wp e (lease_claimed now lease id d m) (λ c db' _, left c db')
    (λ _ db' _, db' = db ∨ ∃ c, left c db') db (Some db).
Proof.
  intros Hd left. unfold lease_claimed.
  set (at1 := if decide (d_state d = DeliveryInFlight ∧ 0 < d_attempt_count d)
              then expire_open (en_timestamptz e now) id (d_attempt_count d) <$> attempts db
              else attempts db).
  apply wp_bind. apply (wp_mono e _ (λ _ db' tx', db' = db ∧ tx' = Some (set_attempts at1 db)) _
    (λ _ db' _, db' = db)).
  { assert (db = set_attempts (attempts db) db) as Hv1 by by destruct db.
    subst at1. destruct (decide (d_state d = DeliveryInFlight)) as [Hs|Hs].
    - destruct (Z.ltb_spec 0 (d_attempt_count d)).
      + rewrite decide_True by done. apply wp_exec; [done|]. by intros n [] db' [= <-].
      + rewrite decide_False by lia. apply wp_mret. by rewrite <-Hv1.
    - rewrite decide_False by tauto. apply wp_mret. by rewrite <-Hv1. }
  2: { intros er db' tx' ->. by left. }
  intros _ db' tx' [-> ->].
  apply wp_bind, wp_ask. intros n. destruct (randomOpaqueID _ _) as [aid|]; [|by left].
  apply wp_bind, wp_exec; [by left|]. intros n1 [] v1 [= <-]. simpl. split; [|by left].
  apply wp_bind, wp_exec; [by left|]. intros n2 [] v2 Hins. simpl in Hins.
  unfold insert_attempt in Hins. go_inv. simpl. split; [|by left].
  repeat match goal with H : bool_decide _ = false |- _ => apply bool_decide_eq_false in H end.
  simpl in *. rewrite (alter_alt_Some _ _ _ _ Hd).
  match goal with H : ¬ is_Some (at1 !! aid) |- _ => apply eq_None_not_Some in H; rename H into Hn end.
  assert (attempts db !! aid = None) as Haid.
  { subst at1. case_decide; [|done]. rewrite lookup_fmap in Hn. by apply fmap_None in Hn. }
  assert (left (claim_of now id d m aid)
    (set_attempts (<[aid:=started_attempt id (d_attempt_count d + 1) (en_timestamptz e now)]> at1)
      (set_deliveries (<[id:=leased (d_attempt_count d + 1) (en_timestamptz e (Add now lease))
         (en_timestamptz e now) d]> (deliveries db)) (set_attempts at1 db)))) as Hleft by done.
  apply wp_bind, wp_commit; [by left|by apply wp_mret|]. intros er. right. by eexists.
Qed.

Lemma ClaimDelivery_spec s lease db :
  quiet e → db_wf db →
  let lease := if lease <=? 0 then Minute else lease in
  wp e (ClaimDelivery s lease)
    (λ r db' _, match r with
                | Some c => claimed_from e lease db db' c ∧ attempts db !! cd_AttemptID c = None
                | None => db' = db ∧ ∃ n k, ∀ id d, ¬ claimable e n (en_timestamptz e (en_clock e k)) db id d
                end)
    (λ _ db' _, db' = db ∨ ∃ c, claimed_from e lease db db' c) db None.
Proof.
  intros Hq Hwf lease'. unfold ClaimDelivery.
  assert ((if lease' <=? 0 then Minute else lease') = lease') as ->.
  { subst lease'. destruct (Z.leb_spec lease 0); [done|]. by destruct (Z.leb_spec lease 0); [lia|]. }
  apply wp_with_tx; [by left|].
  apply wp_bind, wp_clock_reading; [by left|]. intros k.
  apply wp_bind, wp_others_quiet; [done|].
  apply wp_bind, wp_query; [by left|]. intros n row Hrow. simpl in Hrow.
  destruct row as [[[id d] m]|].
  2: { apply wp_mret. split; [done|]. exists n, k. intros id d. by eapply select_due_delivery_None. }
  pose proof (select_due_delivery_Some _ _ _ _ _ _ _ Hrow) as (Hd & Hdue & Hm & Hl & _).
  apply wp_bind. eapply wp_mono; [by apply lease_claimed_spec|..]; simpl.
  - intros c db' tx' (-> & Hc & Hn). apply wp_mret. split; [|done].
    assert (cd_DeliveryID c = id) as Hid by (by rewrite Hc).
    exists n, k, d, m. cbv zeta. rewrite Hid. split_and!; [by split_and!|done| |done|done].
    intros id' d' Hcl. by eapply select_due_delivery_first.
  - intros er db' tx' [->|(c & -> & Hc & Hn)]; [by left|right]. exists c.
    assert (cd_DeliveryID c = id) as Hid by (by rewrite Hc).
    exists n, k, d, m. cbv zeta. rewrite Hid. split_and!; [by split_and!|done| |done|done].
    intros id' d' Hcl. by eapply select_due_delivery_first.
Qed.
End claims.

(** * Ownership after a claim *)

Lemma claim_owns t now lease id d m aid db :
  owns_delivery (claim_of t id d m aid) (claim_tables now lease id d aid db) = true.
Proof.
  unfold owns_delivery. simpl. rewrite !lookup_insert_eq. simpl.
  rewrite Z.eqb_refl. unfold open_attempt. simpl. rewrite Z.eqb_refl.
  unfold str_eqb. rewrite bool_decide_true by done. done.
Qed.

(** * Renewal *)

(** What a successful renewal did. *)
Definition renewed (e : env) (lease : duration) (c : ClaimedDelivery) (db db' : DB) : Prop :=
  owns_delivery c db = true ∧
  ∃ d l now leaseEnd,
    deliveries db !! cd_DeliveryID c = Some d ∧ d_lease_expires_at d = Some l ∧ now < l ∧
    (leaseEnd = now + durationMicrosecondsCeil lease * Microsecond ∨
     ∃ t, now = en_timestamptz e t ∧ leaseEnd = en_timestamptz e (Add t lease)) ∧
    db' = set_deliveries
            (<[cd_DeliveryID c := leased (d_attempt_count d) leaseEnd now d]> (deliveries db)) db.

Lemma renew_delivery_spec c now leaseEnd db rows db' :
  renew_delivery c now leaseEnd db = Ok (rows, db') →
  (rows = 0 ∧ db' = db) ∨
  (rows = 1 ∧ owns_delivery c db = true ∧ ∃ d l, deliveries db !! cd_DeliveryID c = Some d ∧
     d_lease_expires_at d = Some l ∧ now < l ∧
     db' = set_deliveries
             (<[cd_DeliveryID c := leased (d_attempt_count d) leaseEnd now d]> (deliveries db)) db).
Proof.
  unfold renew_delivery. destruct (deliveries db !! _) as [d|]; [|intros [= <- <-]; by left].
  case_match eqn:E; intros [= <- <-]; [right|by left].
  apply andb_true_iff in E as [Ho Hl]. destruct (d_lease_expires_at d) as [l|] eqn:El; [|done].
  apply Z.ltb_lt in Hl. split_and!; eauto.
  by exists d, l.
Qed.

Lemma RenewDeliveryLease_spec e s c lease db :
  quiet e →
  wp e (RenewDeliveryLease s (Some c) lease)
    (λ _ db' _, 0 < lease ∧ renewed e lease c db db')
    (λ _ db' _, db' = db ∨ 0 < lease ∧ renewed e lease c db db') db None.
Proof.
  intros Hq. unfold RenewDeliveryLease. apply wp_bind, wp_lift. simpl.
  apply wp_bind, wp_lift. destruct (Z.leb_spec lease 0) as [|Hlease]; simpl; [by left|].
  apply wp_bind, wp_others_quiet; [done|].
  apply wp_bind.
  apply (wp_mono e _ (λ rows db' tx', tx' = None ∧ ((rows = 0 ∧ db' = db) ∨ (rows = 1 ∧ renewed e lease c db db')))
    _ (λ _ db' _, db' = db ∨ renewed e lease c db db')).
  - destruct (st_clock s) eqn:Ec.
    + apply wp_bind, wp_ask. intros n0. apply wp_exec; [by left|].
      set (t := en_clock e n0).
      intros n rows db' Hr. simpl in *.
      apply renew_delivery_spec in Hr as [[-> ->]|(-> & Ho & d & l & Hd & Hl & Hlt & ->)]; [tauto|].
      assert (renewed e lease c db (set_deliveries (<[cd_DeliveryID c:=leased (d_attempt_count d)
        (en_timestamptz e (Add t lease)) (en_timestamptz e t) d]> (deliveries db)) db)); [|tauto].
      split; [done|]. repeat eexists; eauto.
    + apply wp_exec; [by left|]. intros n rows db' Hr. simpl in *.
      apply renew_delivery_spec in Hr as [[-> ->]|(-> & Ho & d & l & Hd & Hl & Hlt & ->)]; [tauto|].
      match goal with |- _ ∧ (∀ _, _ ∨ ?r) => assert r; [|tauto] end.
      split; [done|]. repeat eexists; eauto.
  - intros rows db' tx' [-> Hrows]. apply wp_bind, wp_RowsAffected.
    + intros er. destruct Hrows as [[_ ->]|[_ Hr]]; [by left|by right].
    + apply wp_lift. destruct Hrows as [[-> ->]|[-> Hr]]; simpl; [by left|done].
  - intros er db' tx' [?|?]; [by left|by right].
Qed.

(** * Completion *)

(** What a completed delivery looks like. *)
Definition completed (e : env) (s : Store) (c : ClaimedDelivery) (result : AttemptResult)
    (sendErr : option error) (retry : RetryPolicy) (db db' : DB) : Prop :=
  owns_delivery c db = true ∧
  ∃ d a x now random state next,
    deliveries db !! cd_DeliveryID c = Some d ∧ attempts db !! cd_AttemptID c = Some a ∧
    deliveryTransition random now (cd_Attempt c)
      (with_outcome result (normalizedOutcome (ar_Outcome result) sendErr)) sendErr retry = (state, next) ∧
    ae_outcome x = Outcome_String (normalizedOutcome (ar_Outcome result) sendErr) ∧
    ae_headers x = redactedHeaders (ar_ResponseHeader result) (st_sensitiveHeaderNames s) ∧
    ae_body x = boundedBytes (ar_ResponseBody result) (st_maxResponseBodyBytes s) ∧
    ae_detail x = errorDetail s sendErr ∧
    db' = set_deliveries
            (<[cd_DeliveryID c :=
                 settled state (en_timestamptz e <$> nullTime next) (ar_StatusCode result)
                   (attempt_code result sendErr) (en_timestamptz e now)
                   (en_timestamptz e <$> (if delivery_terminal state then Some now else None)) d]>
               (deliveries db))
            (set_attempts
               (<[cd_AttemptID c := finished_attempt (en_timestamptz e) now x a]> (attempts db)) db).

Lemma finish_attempt_spec c now x e n db rows db' :
  finish_attempt c now x e n db = Ok (rows, db') →
  (rows = 0 ∧ db' = db ∧ ∀ a, attempts db !! cd_AttemptID c = Some a →
     open_attempt (cd_DeliveryID c) (cd_Attempt c) a = false) ∨
  (rows = 1 ∧ ∃ a, attempts db !! cd_AttemptID c = Some a ∧
     open_attempt (cd_DeliveryID c) (cd_Attempt c) a = true ∧
     db' = set_attempts
             (<[cd_AttemptID c := finished_attempt (en_timestamptz e) now x a]> (attempts db)) db).
Proof.
  unfold finish_attempt. intros H. go_inv.
  destruct (attempts db !! cd_AttemptID c) as [a|] eqn:Ea; [|injection H as <- <-; left; naive_solver].
  destruct (open_attempt _ _ a) eqn:Eo; injection H as <- <-; [right; eauto|left; naive_solver].
Qed.

Lemma settle_delivery_spec c state next status code now completed e n db rows db' :
  settle_delivery c state next status code now completed e n db = Ok (rows, db') →
  (rows = 0 ∧ db' = db) ∨
  (rows = 1 ∧ ∃ d, deliveries db !! cd_DeliveryID c = Some d ∧ d_state d = DeliveryInFlight ∧
     d_attempt_count d = cd_Attempt c ∧
     db' = set_deliveries
             (<[cd_DeliveryID c := settled state (en_timestamptz e <$> next) status code
                  (en_timestamptz e now) (en_timestamptz e <$> completed) d]> (deliveries db)) db).
Proof.
  unfold settle_delivery. destruct (deliveries db !! _) as [d|] eqn:Ed; [|intros [= <- <-]; by left].
  case_match eqn:E; intros [= <- <-]; [right|by left].
  apply andb_true_iff in E as [?%bool_decide_eq_true ?%Z.eqb_eq]. eauto 8.
Qed.

Lemma CompleteDelivery_spec e s c result sendErr retry db :
  quiet e →
  wp e (CompleteDelivery s (Some c) result sendErr retry)
    (λ _ db' _, completed e s c result sendErr retry db db')
    (λ _ db' _, db' = db ∨ completed e s c result sendErr retry db db') db None.
Proof.
  intros Hq. unfold CompleteDelivery. apply wp_bind, wp_lift. simpl.
  apply wp_with_tx; [by left|].
  apply wp_bind, wp_clock; [by left|]. intros now.
  apply wp_bind, wp_ask. intros n.
  destruct (deliveryTransition _ _ _ _ _ _) as [state next] eqn:Et.
  apply wp_bind, wp_others_quiet; [done|].
  apply wp_bind, wp_exec; [by left|]. intros n1 rows v1 H1. simpl in *. split; [|by left].
  apply wp_bind, wp_RowsAffected; [by left|]. apply wp_bind, wp_lift.
  destruct (reject _ _) eqn:E1; [|by left]. apply reject_neq_1 in E1 as ->.
  apply finish_attempt_spec in H1 as [[? _]|(_ & a0 & Ha & Ho & ->)]; [done|].
  apply wp_bind, wp_exec; [by left|]. intros n2 rows v2 H2. simpl in *. split; [|by left].
  apply wp_bind, wp_RowsAffected; [by left|]. apply wp_bind, wp_lift.
  destruct (reject _ _) eqn:E2; [|by left]. apply reject_neq_1 in E2 as ->.
  apply settle_delivery_spec in H2 as [[? _]|(_ & d & Hd & Hs & Hn & ->)]; [done|]. simpl in *.
  match goal with |- wp _ _ (λ _ db' _, ?r db db') _ _ (Some ?v) => assert (r db v) as Hdone end.
  { split.
    - unfold owns_delivery. rewrite Hd, Ha, Hs, Hn, Z.eqb_refl, Ho. done.
    - do 7 eexists. split_and!; [exact Hd|exact Ha|exact Et|..|reflexivity]; reflexivity. }
  apply wp_commit; [by left|exact Hdone|by right].
Qed.

(** * Publication *)

Section publication.
Context `{HeaderOrder} (e : env) (s : Store).

(** The stored form of a request: what the statements of [EnqueueTxWithOptions] get. *)
Definition stored_request (request : SendRequest) : SendRequest :=
  with_headers request (canonicalHeaders (sr_Headers request)).
Definition explicit_id (request : SendRequest) : bool := negb (str_eqb (sr_ID request) ε).

(** Publication [p] is the one the tables already hold for key hash [k], with the
    content of the request. *)
Definition known_publication (request : SendRequest) (k : string) (db : DB) (p : Publication) : Prop :=
  ∃ d m, delivery_with_key k db = Some (pub_DeliveryID p, d) ∧
    messages db !! d_message_id d = Some m ∧ pub_MessageID p = d_message_id d ∧
    same_publication (stored_request request) (content_type request) (explicit_id request) d m = true.

(** The message and its delivery are added together. *)
Definition added_publication (request : SendRequest) (keyHash : option string) (db db' : DB)
    (p : Publication) : Prop :=
  (∀ k, keyHash = Some k → delivery_with_key k db = None) ∧
  deliveries db !! pub_DeliveryID p = None ∧
  (explicit_id request = true → pub_MessageID p = sr_ID request) ∧
  ∃ m now,
    mr_event_type m = sr_EventType request ∧ mr_body m = sr_Body request ∧
    mr_content_type m = content_type request ∧
    (messages db !! pub_MessageID p = None ∨ messages db !! pub_MessageID p = Some m) ∧
    db' = set_deliveries
            (<[pub_DeliveryID p := new_delivery (pub_MessageID p) (sr_URL request)
                                     (canonicalHeaders (sr_Headers request)) keyHash now]> (deliveries db))
            (set_messages (<[pub_MessageID p := m]> (messages db)) db).

Definition published (request : SendRequest) (key : string) (db db' : DB) (p : Publication) : Prop :=
  ∃ keyHash, check_enqueue s request key = Ok keyHash ∧
    ((db' = db ∧ ∃ k, keyHash = Some k ∧ known_publication request k db p) ∨
     added_publication request keyHash db db' p).

Lemma with_key_messages k m' db : delivery_with_key k (set_messages m' db) = delivery_with_key k db.
Proof. reflexivity. Qed.

Lemma wp_find k request ct explicit Q X db tx :
  (∀ er, X er db tx) →
  match select_publication k e 0%nat (default db tx) with
  | Ok (Some ((id, d), m)) =>
      same_publication request ct explicit d m = true →
      Q (Some {| pub_MessageID := d_message_id d; pub_DeliveryID := id |}) db tx
  | Ok None => Q None db tx
  | Err _ => True
  end →
  wp e (findIdempotentPublication k request ct explicit) Q X db tx.
Proof.
  intros HX HQ. unfold findIdempotentPublication. apply wp_bind, wp_query; [done|].
  intros n row Hrow. unfold select_publication in *. injection Hrow as <-. cbv beta in HQ.
  destruct (_ ≫= _) as [[[id d] m]|]; [|by apply wp_mret].
  destruct (same_publication request ct explicit d m); [by apply wp_mret; apply HQ|by apply wp_lift].
Qed.

(** The message a delivery is about to refer to, in the transaction's view [v]. *)
Definition message_ready (request : SendRequest) (ct : string) (db v : DB) : Prop :=
  ∃ m, mr_event_type m = sr_EventType request ∧ mr_body m = sr_Body request ∧
    mr_content_type m = ct ∧
    (messages db !! sr_ID request = None ∨ messages db !! sr_ID request = Some m) ∧
    v = set_messages (<[sr_ID request := m]> (messages db)) db.

Lemma insert_message_ready request ct t n db rows v :
  insert_message (sr_ID request) (sr_EventType request) (sr_Body request) ct t e n db = Ok (rows, v) →
  (rows = 1 ∧ message_ready request ct db v) ∨
  (rows = 0 ∧ v = db ∧ is_Some (messages db !! sr_ID request)).
Proof.
  unfold insert_message. intros Hi. go_inv.
  destruct (messages db !! sr_ID request) eqn:Em; injection Hi as <- <-; [right; eauto|left].
  split; [done|]. eexists. split_and!; [..|by left|]; by try reflexivity.
Qed.

Lemma same_content_ready request ct db m :
  messages db !! sr_ID request = Some m →
  negb (str_eqb (mr_event_type m) (sr_EventType request))
  || negb (str_eqb (mr_content_type m) ct) || negb (str_eqb (mr_body m) (sr_Body request)) = false →
  message_ready request ct db db.
Proof.
  rewrite !orb_false_iff, !negb_false_iff. unfold str_eqb. rewrite !bool_decide_eq_true.
  intros Hm [[? ?] ?]. exists m. split_and!; auto.
  rewrite insert_id by done. by destruct db.
Qed.

Lemma insert_delivery_added id mid url h key t n v rows db' :
  (∀ k, key = Some k → delivery_with_key k v = None) →
  insert_delivery id mid url h key t e n v = Ok (rows, db') →
  rows = 1 ∧ deliveries v !! id = None ∧
  db' = set_deliveries (<[id := new_delivery mid url h key (en_timestamptz e t)]> (deliveries v)) v.
Proof.
  unfold insert_delivery. intros Hk Hi. go_inv.
  assert ((key ≫= λ k, delivery_with_key k v) = None) as Hn by (destruct key; simpl; auto).
  rewrite Hn in Hi. go_inv. split_and!; try done.
  match goal with H : bool_decide _ = false |- _ =>
    apply bool_decide_eq_false in H; by apply eq_None_not_Some end.
Qed.

Lemma store_publication_spec request ct keyHash explicit t db :
  quiet e → (∀ k, keyHash = Some k → delivery_with_key k db = None) →
  let added p db' :=
    pub_MessageID p = sr_ID request ∧ deliveries db !! pub_DeliveryID p = None ∧
    ∃ v now, message_ready request ct db v ∧
      db' = set_deliveries (<[pub_DeliveryID p := new_delivery (sr_ID request) (sr_URL request)
              (sr_Headers request) keyHash now]> (deliveries v)) v in
  wp e (store_publication request ct keyHash explicit t)
    (λ p db' tx', db' = db ∧ ∃ v, tx' = Some v ∧ added p v)
    (λ _ db' _, db' = db) db (Some db).
Proof.
  intros Hq Hkey added. unfold store_publication.
  apply wp_bind, wp_exec; [done|]. intros n1 rows v1 H1. simpl in *. split; [|done].
  apply wp_bind, wp_RowsAffected; [done|]. apply insert_message_ready in H1.
  apply wp_bind. apply (wp_mono e _ (λ _ db' tx', db' = db ∧ tx' = Some v1 ∧ message_ready request ct db v1)
    _ (λ _ db' _, db' = db)); [| |done].
  { destruct H1 as [[-> Hr]|(-> & -> & [m Hm])]; simpl; [by apply wp_mret|].
    apply wp_bind, wp_query; [done|]. intros n2 m' Hm'. simpl in Hm'.
    unfold select_message in Hm'. rewrite Hm in Hm'. injection Hm' as <-.
    apply wp_lift. destruct (reject _ _) as [[]|] eqn:Er; [|done]. apply reject_Ok in Er.
    split_and!; try done. by eapply same_content_ready. }
  intros _ db' tx' (-> & -> & Hready).
  apply wp_bind, wp_ask. intros n3. destruct (randomOpaqueID _ _) as [id|]; [|done].
  apply wp_bind, wp_others_quiet; [done|].
  assert (deliveries v1 = deliveries db) as Hd1 by (by destruct Hready as (m & _ & _ & _ & _ & ->)).
  apply wp_bind, wp_exec; [done|]. intros n4 rows4 v4 H4. simpl in H4. split; [|done].
  apply insert_delivery_added in H4 as (-> & Hn & ->).
  2: { intros k Hk. unfold delivery_with_key. rewrite Hd1. by apply Hkey. }
  apply wp_bind, wp_RowsAffected; [done|]. simpl. apply wp_mret. split; [done|].
  eexists. split; [done|]. split_and!; [done|by rewrite <-Hd1|]. by exists v1; eexists.
Qed.

Lemma EnqueueTx_spec request key db :
  quiet e → db_wf db →
  wp e (EnqueueTxWithOptions s request key)
    (λ p db' tx', db' = db ∧ ∃ v, tx' = Some v ∧ published request key db v p)
    (λ _ db' _, db' = db) db (Some db).
Proof.
  intros Hq Hwf. unfold EnqueueTxWithOptions. apply wp_bind, wp_require_tx.
  apply wp_bind, wp_lift. destruct (check_enqueue s request key) as [keyHash|] eqn:Ec; [|done].
  cbv zeta. fold (explicit_id request). fold (stored_request request).
  apply wp_bind, wp_others_quiet; [done|]. apply wp_bind.
  apply (wp_mono e _ (λ found db' tx', db' = db ∧ tx' = Some db ∧
     match found with
     | Some p => ∃ k, keyHash = Some k ∧ known_publication request k db p
     | None => ∀ k, keyHash = Some k → delivery_with_key k db = None
     end) _ (λ _ db' _, db' = db)); [| |done].
  { destruct keyHash as [k|]; [|by apply wp_mret].
    apply wp_find; [done|]. unfold select_publication. simpl.
    destruct (delivery_with_key k db) as [[id d]|] eqn:Ek; simpl.
    - pose proof (delivery_with_key_Some _ _ _ _ Ek) as [Hd _].
      destruct (dw_message _ _ _ (wf_delivery _ Hwf _ _ Hd)) as [m Hm]. rewrite Hm. simpl.
      intros Hsame. split_and!; try done. exists k. split; [done|]. by exists d, m.
    - split_and!; try done. by intros k' [= <-]. }
  intros [p|] db' tx' (-> & -> & Hfound).
  - apply wp_mret. split; [done|]. eexists. split; [done|]. exists keyHash. split; [done|]. left. done.
  - apply wp_bind.
    apply (wp_mono e _ (λ id db' tx', db' = db ∧ tx' = Some db ∧ (explicit_id request = true → id = sr_ID request))
      _ (λ _ db' _, db' = db)); [| |done].
    { destruct (explicit_id request) eqn:Ex; [by apply wp_mret|]. unfold newMessageID.
      destruct (st_ids s); apply wp_ask; intros n; [destruct (en_ids e n)|destruct (NewMessageID _)]; done. }
    intros id db' tx' (-> & -> & Hid).
    apply wp_bind, wp_clock; [done|]. intros t. apply wp_bind, wp_others_quiet; [done|].
    eapply wp_mono; [by apply store_publication_spec| |done].
    intros p db' tx' (-> & v & -> & Hm & Hd & v1 & now & (m & M1 & M2 & M3 & M4 & ->) & ->).
    simpl in *. split; [done|]. eexists. split; [done|]. exists keyHash. split; [done|]. right.
    rewrite <-Hm in *. split_and!; auto. exists m, now. split_and!; auto.
Qed.

Lemma EnqueueWithOptions_spec request key db :
  quiet e → db_wf db →
  wp e (EnqueueWithOptions s request key)
    (λ p db' _, published request key db db' p)
    (λ _ db' _, db' = db ∨ ∃ p, published request key db db' p) db None.
Proof.
  intros Hq Hwf. unfold EnqueueWithOptions. apply wp_with_tx; [by left|].
  apply wp_bind. eapply wp_mono; [by apply EnqueueTx_spec| |by left].
  intros p db' tx' (-> & v & -> & Hp). apply wp_bind, wp_commit; [by left| |intros er; right; by exists p].
  by apply wp_mret.
Qed.
End publication.
