(* ===== verification/PgInbox.v ===== *)
(** What the operations of the inbox do when other sessions are quiet, whatever calls
    to the database fail. *)

From S2P Require Import Prelude GoString Codec GoTime Errors Headers Message Retry Outcome Handler.
From S2P Require Import PgText PgTextFacts PgSchema PgModel PgOutbound PgInbound PgSpec PgRefine PgOutbox.

(** * Receiving *)

(** The row holds the content of the message. *)
Definition receipt_holds (m : VerifiedMessage) (r : Receipt) : Prop :=
  r_event_type r = vm_Type m ∧ r_content_type r = vm_ContentType m ∧ r_body r = vm_Body m.

(** [db'] is [db] with a new pending receipt of [m], its headers redacted. *)
Definition received (e : env) (s : Store) (m : VerifiedMessage) (db db' : DB) : Prop :=
  receipts db !! receipt_key m = None ∧ ∃ now,
    db' = set_receipts
      (<[receipt_key m :=
           new_receipt m (redactedHeaders (vm_Headers m) (st_sensitiveHeaderNames s)) (vm_Metadata m)
             (en_timestamptz e) now]> (receipts db)) db.

Lemma received_holds e s m db db' :
  received e s m db db' → ∃ r, receipts db' !! receipt_key m = Some r ∧ receipt_holds m r.
Proof. intros [_ [now ->]]. eexists. simpl. rewrite lookup_insert_eq. by split. Qed.

Lemma Handle_spec e s m db :
  quiet e →
  wp e (Handle s m)
    (λ _ db' tx', tx' = None ∧ VerifiedMessage_Validate m = Ok tt ∧
       (received e s m db db' ∨
        db' = db ∧ ∃ r, receipts db !! receipt_key m = Some r ∧ receipt_holds m r))
    (λ _ db' tx', tx' = None ∧ (db' = db ∨ received e s m db db')) db None.
Proof.
  intros Hq. unfold Handle. apply wp_bind, wp_lift.
  destruct (VerifiedMessage_Validate m) as [[]|er] eqn:Ev; [|split; [done|by left]].
  apply wp_bind, wp_clock; [split; [done|by left]|]. intros now.
  apply wp_bind, wp_others_quiet; [done|].
  apply wp_bind, wp_exec; [split; [done|by left]|]. intros n rows db' Hi. simpl in *.
  unfold insert_receipt in Hi. apply bind_Ok in Hi as ([] & _ & Hi).
  destruct (receipts db !! receipt_key m) as [r|] eqn:Er; injection Hi as <- <-.
  - split; [|split; [done|by left]]. apply wp_bind, wp_RowsAffected; [split; [done|by left]|]. simpl.
    apply wp_bind, wp_others_quiet; [done|].
    apply wp_bind, wp_query; [split; [done|by left]|]. intros n' r' Hr. simpl in Hr.
    unfold select_receipt in Hr. rewrite Er in Hr. injection Hr as <-.
    apply wp_lift. destruct (reject _ _) as [[]|er] eqn:Ej; [|split; [done|by left]].
    apply reject_Ok in Ej. rewrite !orb_false_iff, !negb_false_iff, !str_eqb_true in Ej.
    destruct Ej as [[E1 E2] E3]. split; [done|]. split; [done|]. right. split; [done|]. exists r. done.
  - assert (received e s m db (set_receipts
      (<[receipt_key m := new_receipt m (redactedHeaders (vm_Headers m) (st_sensitiveHeaderNames s))
           (vm_Metadata m) (en_timestamptz e) now]> (receipts db)) db)) as Hrec by (split; [done|by exists now]).
    split; [|split; [done|by right]].
    apply wp_bind, wp_RowsAffected; [split; [done|by right]|]. simpl. apply wp_mret.
    split; [done|]. split; [done|]. by left.
Qed.

(** * Claims *)

(** Claim [c] of a due receipt that no other unlocked session holds. *)
Definition receipt_claimed (e : env) (lease : duration) (db db' : DB) (c : ClaimedReceipt) : Prop :=
  ∃ n now r, receipts db !! cr_key c = Some r ∧ receipt_due (en_timestamptz e now) r = true ∧
    en_receipt_locked e n (cr_key c) = false ∧
    c = {| cr_Message := claimed_message (cr_key c) r; cr_Attempt := r_attempt_count r + 1;
           cr_StartedAt := now |} ∧
    db' = set_receipts (<[cr_key c := processing (r_attempt_count r + 1) (en_timestamptz e (Add now lease))
                                        (en_timestamptz e now) r]> (receipts db)) db.

Lemma claimed_message_key key r : receipt_key (claimed_message key r) = key.
Proof. by destruct key. Qed.

Lemma ClaimReceipt_spec e s lease db :
  quiet e → 0 < lease →
  wp e (ClaimReceipt s lease)
    (λ r db' tx', tx' = None ∧ match r with
                  | Some c => receipt_claimed e lease db db' c
                  | None => db' = db end)
    (λ _ db' tx', tx' = None ∧ (db' = db ∨ ∃ c, receipt_claimed e lease db db' c)) db None.
Proof.
  intros Hq Hl. unfold ClaimReceipt. rewrite (proj2 (Z.leb_gt lease 0)) by lia.
  apply wp_with_tx; [split; [done|by left]|].
  apply wp_bind, wp_clock; [split; [done|by left]|]. intros now.
  apply wp_bind, wp_others_quiet; [done|].
  apply wp_bind, wp_query; [split; [done|by left]|]. intros n row Hrow. simpl in Hrow.
  destruct row as [[key r]|]; [|by apply wp_mret].
  apply select_due_receipt_Some in Hrow as (Hr & Hdue & Hlock & _).
  apply wp_bind, wp_exec; [split; [done|by left]|]. intros n' [] v [= <-]. simpl. split; [|split; [done|by left]].
  set (c := {| cr_Message := claimed_message key r; cr_Attempt := r_attempt_count r + 1; cr_StartedAt := now |}).
  assert (cr_key c = key) as Hkey by apply claimed_message_key.
  match goal with |- wp _ _ _ _ _ (Some ?v) => assert (receipt_claimed e lease db v c) as Hc end.
  { exists n, now, r. rewrite Hkey. split_and!; try done. by erewrite alter_alt_Some. }
  apply wp_bind, wp_commit; [split; [done|by left]| |].
  - by apply wp_mret.
  - intros er. split; [done|]. right. by exists c.
Qed.

(** * Leases and completion *)

(** One renewal of claim [c], which was current and had not run out. *)
Definition receipt_renewed (c : ClaimedReceipt) (db db' : DB) : Prop :=
  owns_receipt c db = true ∧ ∃ r l now leaseEnd,
    receipts db !! cr_key c = Some r ∧ r_lease_expires_at r = Some l ∧ now < l ∧
    db' = set_receipts (<[cr_key c := processing (r_attempt_count r) leaseEnd now r]> (receipts db)) db.

Lemma renew_receipt_spec c now leaseEnd db rows db' :
  renew_receipt c now leaseEnd db = Ok (rows, db') →
  (rows = 0 ∧ db' = db) ∨ (rows = 1 ∧ receipt_renewed c db db').
Proof.
  unfold renew_receipt. destruct (receipts db !! cr_key c) as [r|] eqn:Er; [|intros [= <- <-]; by left].
  case_match eqn:E; intros [= <- <-]; [right|by left].
  apply andb_true_iff in E as [Ho Hl]. destruct (r_lease_expires_at r) as [l|] eqn:El; [|done].
  apply Z.ltb_lt in Hl. split; [done|]. split; [done|]. by exists r, l, now, leaseEnd.
Qed.

Lemma RenewReceiptLease_spec e s c lease db :
  quiet e →
  wp e (RenewReceiptLease s (Some c) lease)
    (λ _ db' tx', tx' = None ∧ receipt_renewed c db db')
    (λ _ db' tx', tx' = None ∧ (db' = db ∨ receipt_renewed c db db')) db None.
Proof.
  intros Hq. unfold RenewReceiptLease. apply wp_bind, wp_lift. simpl.
  apply wp_bind, wp_lift. destruct (lease <=? 0); simpl; [split; [done|by left]|].
  apply wp_bind, wp_others_quiet; [done|]. apply wp_bind.
  apply (wp_mono e _ (λ rows db' tx', tx' = None ∧ ((rows = 0 ∧ db' = db) ∨ (rows = 1 ∧ receipt_renewed c db db')))
    _ (λ _ db' tx', tx' = None ∧ (db' = db ∨ receipt_renewed c db db'))); [|..|done].
  - destruct (st_clock s); [apply wp_bind, wp_ask; intros n0|];
      (apply wp_exec; [split; [done|by left]|]; intros n rows db' Hr; simpl in *;
       apply renew_receipt_spec in Hr as [[-> ->]|[-> Hr]]; tauto).
  - intros rows db' tx' [-> Hrows]. apply wp_bind, wp_RowsAffected.
    + intros er. split; [done|]. destruct Hrows as [[_ ->]|[_ Hr]]; [by left|by right].
    + apply wp_lift. destruct Hrows as [[-> ->]|[-> Hr]]; simpl; [split; [done|by left]|done].
Qed.

(** Claim [c] ends with the handler's result. *)
Definition receipt_completed (e : env) (s : Store) (c : ClaimedReceipt) (handlerErr : option error)
    (retry : RetryPolicy) (db db' : DB) : Prop :=
  owns_receipt c db = true ∧ ∃ r now random state next,
    receipts db !! cr_key c = Some r ∧
    receiptTransition random now (cr_Attempt c) handlerErr retry = (state, next) ∧
    db' = set_receipts
      (<[cr_key c := finished_receipt state (en_timestamptz e <$> nullTime next) (ErrorCode handlerErr)
                       (errorDetail s handlerErr)
                       (en_timestamptz e <$> (if receipt_terminal state then Some now else None))
                       (en_timestamptz e now) r]> (receipts db)) db.

Lemma CompleteReceipt_spec e s c handlerErr retry db :
  quiet e →
  wp e (CompleteReceipt s (Some c) handlerErr retry)
    (λ _ db' tx', tx' = None ∧ receipt_completed e s c handlerErr retry db db')
    (λ _ db' tx', tx' = None ∧ (db' = db ∨ receipt_completed e s c handlerErr retry db db')) db None.
Proof.
  intros Hq. unfold CompleteReceipt. apply wp_bind, wp_lift. simpl.
  apply wp_bind, wp_clock; [split; [done|by left]|]. intros now. apply wp_bind, wp_ask. intros k.
  destruct (receiptTransition _ _ _ _ _) as [state next] eqn:Et.
  apply wp_bind, wp_others_quiet; [done|].
  apply wp_bind, wp_exec; [split; [done|by left]|]. intros n rows db' Hs. simpl in *.
  unfold settle_receipt in Hs. apply bind_Ok in Hs as ([] & _ & Hs).
  assert ((rows = 0 ∧ db' = db) ∨ (rows = 1 ∧ receipt_completed e s c handlerErr retry db db')) as Hrows.
  { destruct (receipts db !! cr_key c) as [r|] eqn:Er; [|injection Hs as <- <-; by left].
    destruct (owns_receipt c db) eqn:Eo; injection Hs as <- <-; [right|by left].
    split; [done|]. split; [done|]. eexists r, now, _, state, next. split_and!; [done|exact Et|done]. }
  split; [|intros er; split; [done|]; destruct Hrows as [[_ ->]|[_ ?]]; [by left|by right]].
  apply wp_bind, wp_RowsAffected; [split; [done|]; destruct Hrows as [[_ ->]|[_ ?]]; [by left|by right]|].
  apply wp_lift. destruct Hrows as [[-> ->]|[-> Hd]]; simpl; [split; [done|by left]|done].
Qed.

(** A claim that is no longer current changes nothing. *)
Lemma stale_receipt_changes_nothing e s c lease handlerErr retry db n :
  quiet e → owns_receipt c db = false →
  let w := {| w_db := db; w_tx := None; w_tick := n |} in
  w_db (RenewReceiptLease s (Some c) lease e w).2 = db ∧
  w_db (CompleteReceipt s (Some c) handlerErr retry e w).2 = db.
Proof.
  intros Hq Ho w. split.
  - pose proof (RenewReceiptLease_spec e s c lease db Hq n) as H. fold w in H.
    destruct (RenewReceiptLease _ _ _ _ _) as [[a|er] w'].
    + destruct H as (_ & H & _). congruence.
    + destruct H as (_ & [H|(H & _)]); [done|congruence].
  - pose proof (CompleteReceipt_spec e s c handlerErr retry db Hq n) as H. fold w in H.
    destruct (CompleteReceipt _ _ _ _ _ _) as [[a|er] w'].
    + destruct H as (_ & H & _). congruence.
    + destruct H as (_ & [H|(H & _)]); [done|congruence].
Qed.
