(* ===== verification/PgOutboxProps.v ===== *)
(** The contract of the outbox: claims, stale workers, completion, atomic and
    idempotent publication, with concrete runs. *)

From S2P Require Import Prelude GoString Codec GoTime Errors Headers Message Retry Outcome.
From S2P Require Import PgText PgTextFacts PgSchema PgModel PgOutbound PgSpec PgRefine PgProps PgOutbox.

(** * Calls that do not fail *)

Section calm.
Context (e : env) (Hcalm : calm e).

Lemma wp_exec_calm {A} message (stmt : env → nat → DB → go (A * DB)) Q X db tx :
  (∀ n, match stmt e n (default db tx) with
        | Ok (a, db') => Q a (match tx with Some _ => db | None => db' end)
                           (match tx with Some _ => Some db' | None => None end)
        | Err er => X (persistence message er) db tx
        end) →
  wp e (exec message stmt) Q X db tx.
Proof.
  intros H n. specialize (H n). unfold exec. simpl. rewrite (proj2 Hcalm). unfold visible. simpl.
  destruct (stmt e n (default db tx)) as [[a db']|er]; simpl; [|done]. by destruct tx.
Qed.

Lemma wp_query_calm {A} message (q : env → nat → DB → go A) Q X db tx :
  (∀ n, match q e n (default db tx) with
        | Ok a => Q a db tx | Err er => X (persistence message er) db tx end) →
  wp e (query message q) Q X db tx.
Proof.
  intros H. apply wp_exec_calm. intros n. specialize (H n).
  destruct (q e n (default db tx)); simpl; [|done]. by destruct tx.
Qed.

Lemma wp_rows_calm message rows Q X db tx : Q rows db tx → wp e (RowsAffected message rows) Q X db tx.
Proof. intros H. by apply wp_query_calm. Qed.

Lemma wp_clock_calm s Q X db tx : (∀ now, Q now db tx) → wp e (authoritativeNow s) Q X db tx.
Proof.
  intros H. unfold authoritativeNow. destruct (st_clock s); [by apply wp_ask|by apply wp_query_calm].
Qed.

Lemma wp_others_calm Q X db tx : Q tt db tx → wp e others Q X db tx.
Proof. apply wp_others_quiet, Hcalm. Qed.

Lemma wp_commit_calm message Q X db v : Q tt v None → wp e (CommitTx message) Q X db (Some v).
Proof. intros H n. unfold CommitTx. simpl. by rewrite (proj2 Hcalm). Qed.

Lemma wp_with_tx_calm {A} message (body : M A) Q X db :
  wp e body (λ a db' _, Q a db' None) (λ er db' _, X er db' None) db (Some db) →
  wp e (with_tx message body) Q X db None.
Proof.
  intros H. apply wp_bind. intros n. unfold Begin. simpl. rewrite (proj2 Hcalm). simpl.
  by apply wp_finally.
Qed.

Lemma wp_find_calm k request ct explicit Q X db tx id d m :
  delivery_with_key k (default db tx) = Some (id, d) →
  messages (default db tx) !! d_message_id d = Some m →
  (if same_publication request ct explicit d m
   then Q (Some {| pub_MessageID := d_message_id d; pub_DeliveryID := id |}) db tx
   else ∀ er, ErrorCode (Some er) = CodeConflict → X er db tx) →
  wp e (findIdempotentPublication k request ct explicit) Q X db tx.
Proof.
  intros Hk Hm H. unfold findIdempotentPublication. apply wp_bind, wp_query_calm. intros n.
  unfold select_publication. rewrite Hk. simpl. rewrite Hm. simpl.
  destruct (same_publication request ct explicit d m); [by apply wp_mret|apply wp_lift, H; reflexivity].
Qed.
End calm.

(** * Ownership, spelled out *)

Lemma owns_delivery_true c db :
  owns_delivery c db = true ↔
  ∃ d a, deliveries db !! cd_DeliveryID c = Some d ∧ attempts db !! cd_AttemptID c = Some a ∧
    d_state d = DeliveryInFlight ∧ d_attempt_count d = cd_Attempt c ∧
    open_attempt (cd_DeliveryID c) (cd_Attempt c) a = true.
Proof.
  unfold owns_delivery. split.
  - destruct (deliveries db !! _) as [d|]; [|done]. destruct (attempts db !! _) as [a|]; [|done].
    rewrite !andb_true_iff, bool_decide_eq_true, Z.eqb_eq. intros [[Hs Hn] Ho].
    exists d, a. rewrite <-Hn at 2. done.
  - intros (d & a & -> & -> & Hs & Hn & Ho). by rewrite Hs, Hn, Z.eqb_refl, Ho.
Qed.

(** What the columns of an attempt can hold. *)
Definition representable (s : Store) (result : AttemptResult) (sendErr : option error) : bool :=
  pg_text (attempt_code result sendErr) && pg_text (errorDetail s sendErr) &&
  pg_json_header (redactedHeaders (ar_ResponseHeader result) (st_sensitiveHeaderNames s)) &&
  int4_ok (ar_StatusCode result).

(** A claim owns its delivery under any lease. *)
Lemma leased_owns c d leaseEnd now db :
  owns_delivery c db = true → deliveries db !! cd_DeliveryID c = Some d →
  owns_delivery c (set_deliveries
    (<[cd_DeliveryID c := leased (d_attempt_count d) leaseEnd now d]> (deliveries db)) db) = true.
Proof.
  intros (d' & a & Hd' & Ha & Hs & Hn & Hop)%owns_delivery_true Hd. simplify_eq.
  apply owns_delivery_true. simpl. rewrite lookup_insert_eq. by do 2 eexists.
Qed.

(** Completion does not fail when no call does. *)
Lemma CompleteDelivery_calm e s c result sendErr retry db :
  calm e → owns_delivery c db = true → representable s result sendErr = true →
  wp e (CompleteDelivery s (Some c) result sendErr retry)
    (λ _ db' _, completed e s c result sendErr retry db db') (λ _ _ _, False) db None.
Proof.
  intros Hc Ho Hrep.
  assert (wp e (CompleteDelivery s (Some c) result sendErr retry)
    (λ _ _ _, True) (λ _ _ _, False) db None) as Hok.
  { apply owns_delivery_true in Ho as (d & a0 & Hd & Ha & Hs & Hn & Hop).
    unfold representable in Hrep. unfold CompleteDelivery.
    apply wp_bind, wp_lift. simpl. apply wp_with_tx_calm; [done|].
    apply wp_bind, wp_clock_calm; [done|]. intros now. apply wp_bind, wp_ask. intros k.
    destruct (deliveryTransition _ _ _ _ _ _) as [state next].
    apply wp_bind, wp_others_calm; [done|].
    apply wp_bind, wp_exec_calm; [done|]. intros n1. unfold finish_attempt.
    match goal with |- context [reject (negb ?b) _] => assert (b = true) as -> by exact Hrep end. simpl.
    rewrite Ha, Hop. apply wp_bind, wp_rows_calm; [done|]. apply wp_bind, wp_lift. simpl.
    apply wp_bind, wp_exec_calm; [done|]. intros n2. unfold settle_delivery. simpl.
    rewrite Hd, Hs, Hn, Z.eqb_refl. simpl. apply wp_bind, wp_rows_calm; [done|].
    apply wp_bind, wp_lift. simpl. by apply wp_commit_calm. }
  intros n. pose proof (CompleteDelivery_spec e s c result sendErr retry db (proj1 Hc) n) as H.
  specialize (Hok n). by destruct (CompleteDelivery _ _ _ _ _ _ _) as [[[]|er] w].
Qed.

(** * Properties *)

(** C23 Claiming is exact: on well-formed tables, with other sessions quiet and whatever
    calls fail, a claim that returns a delivery took a row due by its clock and
    unlocked, that no other such row precedes, leased it under the next attempt number
    with a fresh open attempt, closed the abandoned attempt if the lease had run out,
    changed nothing else, and the caller owns the delivery; when nothing is returned
    nothing changed and nothing was claimable; a failed claim either changed nothing or
    was made entirely, its reply lost. *)
Theorem claim_takes_first_due_delivery e s lease db n :
  quiet e → db_wf db →
  let lease := if lease <=? 0 then Minute else lease in
  match ClaimDelivery s lease e {| w_db := db; w_tx := None; w_tick := n |} with
  | (Ok (Some c), w) => claimed_from e lease db (w_db w) c ∧ owns_delivery c (w_db w) = true
  | (Ok None, w) => w_db w = db ∧
      ∃ k j, ∀ id d, ¬ claimable e k (en_timestamptz e (en_clock e j)) db id d
  | (Err _, w) => w_db w = db ∨ ∃ c, claimed_from e lease db (w_db w) c
  end.
Proof.
  intros Hq Hwf lease'. pose proof (ClaimDelivery_spec e s lease' db Hq Hwf n) as H.
  assert ((if lease' <=? 0 then Minute else lease') = lease') as Hl.
  { subst lease'. destruct (Z.leb_spec lease 0); [done|]. by destruct (Z.leb_spec lease 0); [lia|]. }
  cbv zeta in H. rewrite Hl in H.
  destruct (ClaimDelivery s lease' e _) as [[[c|]|er] w]; simpl in *; [|done|done].
  destruct H as [H _]. split; [done|]. destruct H as (k & now & d & m & _ & _ & _ & -> & ->).
  apply claim_owns.
Qed.

(** C21 A stale worker changes nothing: when the claim it holds is not the delivery's
    current one as the call begins (another worker claimed it after the lease ran out, or
    it was completed) and no other session commits during the call, neither renewing the
    lease nor completing the delivery succeeds, and the tables are left exactly as they
    were, whatever calls fail. *)
Theorem stale_worker_changes_nothing e s c lease result sendErr retry db n :
  quiet e → owns_delivery c db = false →
  let w := {| w_db := db; w_tx := None; w_tick := n |} in
  (let '(r, w') := RenewDeliveryLease s (Some c) lease e w in
   (∃ er, r = Err er) ∧ w_db w' = db) ∧
  (let '(r, w') := CompleteDelivery s (Some c) result sendErr retry e w in
   (∃ er, r = Err er) ∧ w_db w' = db).
Proof.
  intros Hq Ho w. split.
  - pose proof (RenewDeliveryLease_spec e s c lease db Hq n) as H. fold w in H.
    destruct (RenewDeliveryLease s (Some c) lease e w) as [[a|er] w'].
    + destruct H as [_ [H _]]. congruence.
    + destruct H as [H|[_ [H _]]]; [eauto|congruence].
  - pose proof (CompleteDelivery_spec e s c result sendErr retry db Hq n) as H. fold w in H.
    destruct (CompleteDelivery s (Some c) result sendErr retry e w) as [[a|er] w'].
    + destruct H as [H _]. congruence.
    + destruct H as [H|[H _]]; [eauto|congruence].
Qed.

(** The outcome behind the state of a delivery whose attempt ended. *)
Definition state_for (outcome : Z) (state : DeliveryState) : Prop :=
  match state with
  | DeliveryDelivered => outcome = OutcomeDelivered
  | DeliveryDisabled => outcome = OutcomeDisableDestination
  | DeliveryPermanentFailure => outcome = OutcomePermanentFailure ∨ outcome = 0
  | DeliveryRetry | DeliveryExhausted =>
      outcome ∉ [OutcomeDelivered; OutcomeDisableDestination; OutcomePermanentFailure]
  | DeliveryPending | DeliveryInFlight => False
  end.

(** What the tables say of a claim [c] that was completed with [result]: the attempt is
    closed, without the response headers the store calls sensitive and with no more of
    the body than it keeps; the delivery has given up its lease and is final, or waits
    for a retry, as the outcome of the attempt demands. *)
Definition on_record (s : Store) (c : ClaimedDelivery) (result : AttemptResult) (db : DB) : Prop :=
  ∃ d a headers,
    deliveries db !! cd_DeliveryID c = Some d ∧ attempts db !! cd_AttemptID c = Some a ∧
    is_Some (a_finished_at a) ∧ a_response_headers a = Some (json_header headers) ∧
    (∀ name, name ∈ st_sensitiveHeaderNames s → h_values headers name = []) ∧
    (∀ body, a_response_body a = Some body → slen body ≤ st_maxResponseBodyBytes s) ∧
    d_attempt_count d = cd_Attempt c ∧ d_lease_expires_at d = None ∧
    state_for (ar_Outcome result) (d_state d).

Lemma boundedBytes_bounded value maximum body :
  boundedBytes value maximum = Some body → slen body ≤ maximum.
Proof.
  unfold boundedBytes. destruct (Z.leb_spec maximum 0); [done|]. simpl.
  destruct (slen value =? 0); [done|]. intros [= <-]. destruct (Z.ltb_spec maximum (slen value)); [|lia].
  pose proof (length_str_take (Z.to_nat maximum) value). unfold slen. lia.
Qed.

Lemma transition_state_for random now attempt result sendErr retry state next :
  deliveryTransition random now attempt
    (with_outcome result (normalizedOutcome (ar_Outcome result) sendErr)) sendErr retry = (state, next) →
  state_for (ar_Outcome result) state.
Proof.
  unfold deliveryTransition, normalizedOutcome. intros Ht. simpl in Ht.
  unfold OutcomeDelivered, OutcomeDisableDestination, OutcomePermanentFailure, OutcomeRetry in Ht.
  repeat case_match; simplify_eq; simpl; rewrite ?not_elem_of_cons;
    unfold OutcomeDelivered, OutcomeDisableDestination, OutcomePermanentFailure;
    rewrite ?negb_true_iff, ?negb_false_iff, ?Z.eqb_eq, ?Z.eqb_neq in *; auto;
    split_and!; try apply not_elem_of_nil; lia.
Qed.

Lemma completed_on_record e s c result sendErr retry db db' :
  completed e s c result sendErr retry db db' → on_record s c result db'.
Proof.
  intros (Ho & d & a & x & now & random & state & next & Hd & Ha & Ht & _ & Hh & Hb & _ & ->).
  apply owns_delivery_true in Ho as (d0 & a0 & Hd0 & _ & _ & Hn & _). simplify_eq.
  eexists _, _, (ae_headers x). simpl. rewrite !lookup_insert_eq.
  split; [done|]. split; [done|]. split; [by eexists|]. split; [done|].
  split; [intros name Hin; rewrite Hh; by apply redacted_values|].
  split; [intros body Hbody; simpl in Hbody; rewrite Hb in Hbody;
    by eapply boundedBytes_bounded|].
  split; [done|]. split; [done|]. simpl.
  by eapply transition_state_for.
Qed.

(** C31 The owner's completion takes effect: when no call fails, no other session commits
    during it, and the attempt's columns can hold its result, the owner of a delivery
    completes it; the attempt is closed with the outcome, the redacted headers and the
    bounded body, the lease is given up, the delivery is delivered, disabled, failed, or
    set for a retry (or exhausted) as the outcome demands, and nothing else changes. *)
Theorem owner_completes_delivery e s c result sendErr retry db n :
  calm e → owns_delivery c db = true → representable s result sendErr = true →
  let '(r, w) := CompleteDelivery s (Some c) result sendErr retry e
                   {| w_db := db; w_tx := None; w_tick := n |} in
  r = Ok tt ∧ completed e s c result sendErr retry db (w_db w) ∧ on_record s c result (w_db w).
Proof.
  intros Hc Ho Hrep. pose proof (CompleteDelivery_calm e s c result sendErr retry db Hc Ho Hrep n) as H.
  destruct (CompleteDelivery _ _ _ _ _ _ _) as [[[]|er] w]; [|done].
  split; [done|]. split; [exact H|by eapply completed_on_record].
Qed.

(** C13 Publication is atomic: on well-formed tables, with other sessions quiet and
    whatever calls fail, an accepted publication has its message and its pending
    delivery stored together, or is one stored before under the same key with the same
    content; a failed one left the tables as they were, or stored both and lost the
    reply to its commit. *)
Theorem publication_is_atomic `{HeaderOrder} e s request key db n :
  quiet e → db_wf db →
  match EnqueueWithOptions s request key e {| w_db := db; w_tx := None; w_tick := n |} with
  | (Ok p, w) => published s request key db (w_db w) p
  | (Err _, w) => w_db w = db ∨ ∃ p, published s request key db (w_db w) p
  end.
Proof.
  intros Hq Hwf. pose proof (EnqueueWithOptions_spec e s request key db Hq Hwf n) as Hs.
  destruct (EnqueueWithOptions s request key e _) as [[p|er] w]; exact Hs.
Qed.

(** The delivery that carries a key, when the tables are well-formed. *)
Lemma delivery_with_key_unique k db id d :
  db_wf db → deliveries db !! id = Some d → d_key d = Some k →
  delivery_with_key k db = Some (id, d).
Proof.
  intros Hwf Hd Hk. destruct (delivery_with_key k db) as [[id' d']|] eqn:E.
  - apply delivery_with_key_Some in E as [Hd' Hk'].
    assert (id' = id) as -> by by eapply (wf_key _ Hwf). congruence.
  - by destruct (delivery_with_key_None _ _ E _ _ Hd).
Qed.

(** A delivery that evolved from one that matches a request still matches it. *)
Lemma same_publication_evolves request ct explicit d d' m :
  delivery_evolves d d' → same_publication request ct explicit d m = same_publication request ct explicit d' m.
Proof. intros (E1 & E2 & E3 & _). unfold same_publication. by rewrite E1, E2, E3. Qed.

Lemma check_enqueue_Ok `{HeaderOrder} s request key k :
  check_enqueue s request key = Ok k →
  validateHeaders (sr_Headers request) = Ok tt ∧ publicationKeyHash key = Ok k ∧ sr_Auth request = None ∧
  containsSensitiveHeaders (sr_Headers request) (st_sensitiveHeaderNames s) = false.
Proof.
  unfold check_enqueue, SendRequest_Validate. intros Hc. go_inv. split_and!; try done.
  by destruct (sr_Auth request).
Qed.

(** What a publication left in the tables. *)
Lemma published_row `{HeaderOrder} s request key k db db' p :
  check_enqueue s request key = Ok (Some k) →
  (∀ n v, sr_Headers request !! n = Some v → Forall (λ x, valid_utf8 x = true) v) →
  published s request key db db' p →
  ∃ d m, deliveries db' !! pub_DeliveryID p = Some d ∧ d_key d = Some k ∧
    messages db' !! d_message_id d = Some m ∧ pub_MessageID p = d_message_id d ∧
    same_publication (stored_request request) (content_type request) (explicit_id request) d m = true.
Proof.
  intros Hc Hu (k' & Hc' & Hp). rewrite Hc in Hc'. injection Hc' as <-.
  destruct Hp as [(-> & k' & [= <-] & d & m & Hk & Hm & Hp & Hsame)|(_ & _ & Hid & m & now & M1 & M2 & M3 & _ & ->)].
  - apply delivery_with_key_Some in Hk as [? ?]. by exists d, m.
  - eexists _, m. simpl. split_and!; [by rewrite lookup_insert_eq|done|by rewrite lookup_insert_eq|done|].
    apply check_enqueue_Ok in Hc as (Hv & _).
    unfold same_publication, stored_request, new_delivery, str_eqb. simpl.
    rewrite stored_headers_fixed by done.
    rewrite M1, M2, M3, !bool_decide_true by done. simpl.
    destruct (explicit_id request); [|done]. rewrite Hid by done. by apply bool_decide_true.
Qed.

(** C22 Publishing again is safe: after a publication under a valid idempotency key,
    acknowledged or with its reply lost, and whatever the store's steps have done to the
    delivery since while its row stayed, on well-formed tables, publishing the same
    request under the same key in a call that does not fail and during which no other
    session commits returns the same message and delivery and changes nothing, provided
    the header values are valid UTF-8. *)
Theorem republication_returns_original `{HeaderOrder} e s request key k db db1 db2 p n :
  calm e → db_wf db1 →
  check_enqueue s request key = Ok (Some k) →
  (∀ name v, sr_Headers request !! name = Some v → Forall (λ x, valid_utf8 x = true) v) →
  published s request key db db1 p → lifetime (pub_DeliveryID p) db1 db2 →
  let '(r, w) := EnqueueWithOptions s request key e {| w_db := db2; w_tx := None; w_tick := n |} in
  r = Ok p ∧ w_db w = db2.
Proof.
  intros Hcalm Hwf Hc Hu Hp Hl.
  destruct (published_row _ _ _ _ _ _ _ Hc Hu Hp) as (d & m & Hd & Hk & Hm & Hpm & Hsame).
  destruct (lifetime_present _ _ _ Hl) as [d2 Hd2]; [by eexists|].
  destruct (lifetime_evolves _ _ _ _ _ _ Hwf Hd Hl Hd2 Hm) as [Hev Hm2].
  assert (db_wf db2) as Hwf2 by (eapply steps_wf; [by eapply lifetime_steps|done]).
  assert (wp e (EnqueueWithOptions s request key)
    (λ p' db' _, p' = p ∧ db' = db2) (λ _ _ _, False) db2 None) as Hwp.
  { unfold EnqueueWithOptions. apply wp_with_tx_calm; [done|]. apply wp_bind.
    unfold EnqueueTxWithOptions. apply wp_bind, wp_require_tx.
    apply wp_bind, wp_lift. rewrite Hc. cbv zeta.
    fold (explicit_id request). fold (stored_request request).
    apply wp_bind, wp_others_calm; [done|]. apply wp_bind.
    eapply wp_find_calm; [done| |exact Hm2|].
    - simpl. apply delivery_with_key_unique; [done|exact Hd2|].
      destruct Hev as (_ & _ & _ & -> & _). exact Hk.
    - rewrite <-(same_publication_evolves _ _ _ d d2) by done.
      change (content_type (stored_request request)) with (content_type request). rewrite Hsame.
      apply wp_mret. apply wp_bind, wp_commit_calm; [done|]. apply wp_mret. split; [|done].
      destruct Hev as (-> & _). rewrite <-Hpm. by destruct p. }
  specialize (Hwp n). by destruct (EnqueueWithOptions s request key e _) as [[p'|er] w]; [destruct Hwp as [-> ->]|].
Qed.


(** ** Publication among concurrent sessions *)

(** The tables hold publication [p] with the key and the content of the request. *)
Definition stored_as (request : SendRequest) (keyHash : option string) (db : DB) (p : Publication) : Prop :=
  ∃ d m, deliveries db !! pub_DeliveryID p = Some d ∧ d_key d = keyHash ∧
    messages db !! d_message_id d = Some m ∧ pub_MessageID p = d_message_id d ∧
    same_publication (stored_request request) (content_type request) (explicit_id request) d m = true.

(** Other sessions remove no message row while a publication is under way. *)
Definition others_keep_messages (e : env) : Prop :=
  ∀ n db id m, messages db !! id = Some m → messages (en_others e n db) !! id = Some m.

Section concurrent.
Context `{HeaderOrder} (e : env) (s : Store) (request : SendRequest) (keyHash : option string).
Context (Hkeep : others_keep_messages e).
Context (Hv : validateHeaders (sr_Headers request) = Ok tt).
Context (Hutf8 : ∀ n v, sr_Headers request !! n = Some v → Forall (λ x, valid_utf8 x = true) v).

Let anything (_ : error) (_ : DB) (_ : option DB) : Prop := True.
Let stored_in (p : Publication) (_ : DB) (tx : option DB) : Prop :=
  ∃ v, tx = Some v ∧ stored_as request keyHash v p.

Lemma same_publication_id id d m :
  (explicit_id request = true → id = sr_ID request) →
  same_publication (with_id (stored_request request) id) (content_type request) (explicit_id request) d m =
  same_publication (stored_request request) (content_type request) (explicit_id request) d m.
Proof.
  intros Hid. unfold same_publication. simpl. by destruct (explicit_id request); [rewrite Hid|].
Qed.

Lemma wp_find_stored k id db v :
  keyHash = Some k → (explicit_id request = true → id = sr_ID request) →
  wp e (findIdempotentPublication k (with_id (stored_request request) id) (content_type request)
          (explicit_id request))
    (λ found db' tx', db' = db ∧ tx' = Some v ∧ ∀ p, found = Some p → stored_as request keyHash v p)
    anything db (Some v).
Proof.
  intros Hk Hid. unfold findIdempotentPublication. apply wp_bind, wp_query; [done|].
  intros n row Hrow. unfold select_publication in Hrow. injection Hrow as <-. simpl.
  destruct (delivery_with_key k v) as [[did d]|] eqn:Ek; simpl; [|by apply wp_mret].
  destruct (messages v !! d_message_id d) as [m|] eqn:Em; simpl; [|by apply wp_mret].
  rewrite same_publication_id by done.
  destruct (same_publication _ _ _ d m) eqn:Es; [|by apply wp_lift].
  apply wp_mret. split_and!; try done. intros p [= <-].
  apply delivery_with_key_Some in Ek as [Hd Hdk]. exists d, m. split_and!; try done. congruence.
Qed.

(** Adding the delivery of a message whose content is the request's. *)
Lemma insert_delivery_stored id mid t n v db' m :
  messages v !! mid = Some m → (explicit_id request = true → mid = sr_ID request) →
  mr_event_type m = sr_EventType request → mr_body m = sr_Body request →
  mr_content_type m = content_type request →
  insert_delivery id mid (sr_URL request) (canonicalHeaders (sr_Headers request)) keyHash t e n v = Ok (1, db') →
  stored_as request keyHash db' {| pub_MessageID := mid; pub_DeliveryID := id |}.
Proof.
  intros Hm Hid M1 M2 M3 Hi. unfold insert_delivery in Hi. go_inv.
  destruct (keyHash ≫= _); [done|]. go_inv.
  eexists _, m. simpl. split_and!; [by rewrite lookup_insert_eq|done|done|done|].
  unfold same_publication, stored_request, new_delivery, str_eqb. simpl.
  rewrite stored_headers_fixed by done.
  rewrite M1, M2, M3, !bool_decide_true by done. simpl.
  destruct (explicit_id request); [|done]. rewrite Hid by done. by apply bool_decide_true.
Qed.

Lemma delete_unreferenced_stored id v p n v' :
  delete_unreferenced id e n v = Ok (tt, v') → stored_as request keyHash v p → stored_as request keyHash v' p.
Proof.
  unfold delete_unreferenced. case_bool_decide as Hu; intros [= <-]; [|done].
  intros (d & m & Hd & Hk & Hm & Hrest). exists d, m. split_and!; try done; [|apply Hrest..].
  simpl. rewrite lookup_delete_ne; [done|]. intros ->. by apply (Hu _ _ Hd).
Qed.

Lemma store_publication_stored id t db v :
  (explicit_id request = true → id = sr_ID request) →
  wp e (store_publication (with_id (stored_request request) id) (content_type request) keyHash
          (explicit_id request) t) stored_in anything db (Some v).
Proof.
  intros Hid. unfold store_publication.
  apply wp_bind, wp_exec; [done|]. intros n1 rows v1 H1. simpl in *. split; [|done].
  apply wp_bind, wp_RowsAffected; [done|].
  apply wp_bind. apply (wp_mono e _ (λ _ db' tx', ∃ v', tx' = Some v' ∧ ∃ m, messages v' !! id = Some m ∧
    mr_event_type m = sr_EventType request ∧ mr_body m = sr_Body request ∧
    mr_content_type m = content_type request) _ anything); [| |done].
  { unfold insert_message in H1. go_inv. destruct (messages v !! id) as [m|] eqn:Em.
    - injection H1 as <- <-. simpl. apply wp_bind, wp_query; [done|]. intros n2 m' Hm'. simpl in Hm'.
      unfold select_message in Hm'. rewrite Em in Hm'. injection Hm' as <-.
      apply wp_lift. destruct (reject _ _) as [[]|] eqn:Er; [|done]. apply reject_Ok in Er.
      rewrite !orb_false_iff, !negb_false_iff in Er. unfold str_eqb in Er.
      rewrite !bool_decide_eq_true in Er. destruct Er as [[? ?] ?]. eexists. split; [done|]. by exists m.
    - injection H1 as <- <-. simpl. apply wp_mret. eexists. split; [done|].
      eexists. simpl. split; [by rewrite lookup_insert_eq|done]. }
  intros _ db' tx' (v2 & -> & m & Hm & M1 & M2 & M3).
  apply wp_bind, wp_ask. intros n3. destruct (randomOpaqueID _ _) as [did|]; [|done].
  apply wp_bind, wp_others. intros n4. simpl. pose proof (Hkeep n4 v2 _ _ Hm) as Hm4.
  apply wp_bind, wp_exec; [done|]. intros n5 rows5 v5 H5. simpl in H5. split; [|done].
  apply wp_bind, wp_RowsAffected; [done|]. destruct (Z.eqb_spec rows5 1) as [->|Hne].
  { apply wp_mret. eexists. split; [done|]. by eapply insert_delivery_stored. }
  destruct keyHash as [k|] eqn:Ek; [|by apply wp_lift]. simpl.
  apply wp_bind. eapply wp_mono; [by apply wp_find_stored| |done].
  intros [p|] db6 tx6 (-> & -> & Hp); [|by apply wp_lift].
  specialize (Hp p eq_refl). rewrite Ek in Hp. apply wp_bind.
  destruct (rows =? 1); [|apply wp_mret; apply wp_mret; by exists v5].
  apply wp_exec; [done|]. intros n7 [] v7 H7. simpl in *. split; [|done].
  apply wp_mret. eexists. split; [done|]. rewrite <-Ek in *. by eapply delete_unreferenced_stored.
Qed.

Lemma EnqueueWithOptions_stored key db :
  check_enqueue s request key = Ok keyHash →
  wp e (EnqueueWithOptions s request key) (λ p db' _, stored_as request keyHash db' p) anything db None.
Proof.
  intros Hc. unfold EnqueueWithOptions. apply wp_with_tx; [done|]. apply wp_bind.
  apply (wp_mono e _ stored_in _ anything); [| |done].
  - unfold EnqueueTxWithOptions. apply wp_bind, wp_require_tx. apply wp_bind, wp_lift. rewrite Hc.
    cbv zeta. fold (explicit_id request). fold (stored_request request).
    apply wp_bind, wp_others. intros n1. simpl. apply wp_bind.
    apply (wp_mono e _ (λ found db' tx', ∃ v, tx' = Some v ∧
      ∀ p, found = Some p → stored_as request keyHash v p) _ anything); [| |done].
    { destruct keyHash as [k|] eqn:Ek; [|apply wp_mret; by eexists].
      assert (stored_request request = with_id (stored_request request) (sr_ID request)) as ->
        by by destruct request.
      rewrite <-Ek. eapply wp_mono; [by apply wp_find_stored|simpl|done].
      intros found db' tx' (_ & -> & Hf). eexists. split; [done|]. exact Hf. }
    intros [p|] db' tx' (v & -> & Hf); [apply wp_mret; exists v; auto|].
    apply wp_bind.
    apply (wp_mono e _ (λ id db' tx', (∃ v, tx' = Some v) ∧ (explicit_id request = true → id = sr_ID request))
      _ anything); [| |done].
    { destruct (explicit_id request) eqn:Ex; [apply wp_mret; split; [by eexists|done]|]. unfold newMessageID.
      destruct (st_ids s); apply wp_ask; intros n; [destruct (en_ids e n)|destruct (NewMessageID _)];
        try done; split; [by eexists|done|by eexists|done]. }
    intros id db1 tx1 [[v1 ->] Hid]. apply wp_bind, wp_clock; [done|]. intros t.
    apply wp_bind, wp_others. intros n2. by apply store_publication_stored.
  - intros p db' tx' (v & -> & Hp). apply wp_bind, wp_commit; [done|by apply wp_mret|done].
Qed.
End concurrent.

(** Concurrent publishers agree: whatever other sessions commit between the
    statements (so long as they remove no message), and whatever calls fail, a
    publication that is returned is stored at commit under the request's key with
    the request's content, be it this session's own or the one that won the race. *)
Lemma returned_publication_is_stored `{HeaderOrder} e s request key keyHash db n :
  others_keep_messages e → check_enqueue s request key = Ok keyHash →
  (∀ name v, sr_Headers request !! name = Some v → Forall (λ x, valid_utf8 x = true) v) →
  match EnqueueWithOptions s request key e {| w_db := db; w_tx := None; w_tick := n |} with
  | (Ok p, w) => stored_as request keyHash (w_db w) p
  | (Err _, _) => True
  end.
Proof.
  intros Hkeep Hc Hu. destruct (check_enqueue_Ok _ _ _ _ Hc) as (Hv & _).
  pose proof (EnqueueWithOptions_stored e s request keyHash Hkeep Hv Hu key db Hc n) as Hwp.
  by destruct (EnqueueWithOptions s request key e _) as [[p|er] w].
Qed.
