(* ===== verification/PgLease.v ===== *)
(** Leases: while the lease of a claim has not ended on any other session's clock, the
    claim stays the one that owns its delivery or its receipt, whatever other sessions
    do meanwhile, and nobody else owns it. *)

From S2P Require Import Prelude GoString Codec GoTime Errors Headers Message Retry Outcome.
From S2P Require Import PgText PgSchema PgModel PgOutbound PgInbound PgCleanup PgSpec.
From S2P Require Import PgRefine PgProps PgOutbox PgOutboxProps PgInbox.

(** * What operations of other sessions keep *)

(** One operation of a session whose steps, and the steps of the sessions that run
    between its statements, are for events of [P]. *)
Inductive session_operation `{HeaderOrder} (P : event → Prop) : DB → DB → Prop :=
| session_runs e s op n db :
    (∀ ev, events e op ev → P ev) → (∀ k db', rtc (allowed_step P) db' (en_others e k db')) →
    session_operation P db (after e (run s op) n db).1.

Section kept.
Context `{HeaderOrder} (P : event → Prop) (I : DB → Prop).
Hypothesis Hkept : ∀ ev db db', db_wf db → P ev → table_step ev db db' → I db → I db'.

Lemma steps_keep db db' : rtc (allowed_step P) db db' → db_wf db → I db → db_wf db' ∧ I db'.
Proof.
  induction 1 as [|x y z Hs _ IH]; [done|]. intros Hwf Hi. apply IH.
  - by eapply db_step_wf, allowed_db_step.
  - destruct Hs as (ev & Hev & Hs). by eapply Hkept.
Qed.

Lemma session_keeps db db' : session_operation P db db' → db_wf db → I db → db_wf db' ∧ I db'.
Proof.
  intros [e s op n db0 Hev Ho] Hwf Hi.
  destruct (after_ok _ e _ n db0 (run_ok e s op)) as [_ Hs].
  induction Hs as [|x y z [H1|[k ->]] _ IH]; [done| |].
  - destruct (steps_keep x y) as [??]; [|done..|by apply IH].
    apply rtc_once. by eapply allowed_step_mono.
  - destruct (steps_keep x (en_others e k x)) as [??]; [apply Ho|done..|by apply IH].
Qed.

Lemma sessions_keep db db' : rtc (session_operation P) db db' → db_wf db → I db → db_wf db' ∧ I db'.
Proof.
  induction 1 as [|x y z Hs _ IH]; [done|]. intros Hwf Hi.
  destruct (session_keeps _ _ Hs Hwf Hi) as [??]. by apply IH.
Qed.
End kept.

(** * Deliveries *)

Section delivery.
Context (c : ClaimedDelivery) (lease : time).

(** The claim owns its delivery, until [lease]. *)
Definition holds_delivery (db : DB) : Prop :=
  owns_delivery c db = true ∧
  ∃ d, deliveries db !! cd_DeliveryID c = Some d ∧ d_lease_expires_at d = Some lease.

(** What a session does that was not given the claim, before the lease ends. *)
Definition foreign (ev : event) : Prop :=
  match ev with
  | EvClaim due => due < lease
  | EvRenew attempt | EvComplete attempt => attempt ≠ cd_AttemptID c
  | _ => True
  end.

(** The rows a holder needs. *)
Lemma holds_delivery_rows db :
  holds_delivery db ↔ ∃ d a,
    deliveries db !! cd_DeliveryID c = Some d ∧ attempts db !! cd_AttemptID c = Some a ∧
    d_state d = DeliveryInFlight ∧ d_attempt_count d = cd_Attempt c ∧
    open_attempt (cd_DeliveryID c) (cd_Attempt c) a = true ∧ d_lease_expires_at d = Some lease.
Proof.
  unfold holds_delivery. rewrite owns_delivery_true. split.
  - intros [(d & a & Hd & ?) (d' & Hd' & Hl)]. simplify_eq. exists d, a. tauto.
  - intros (d & a & Hd & Ha & Hs & Hn & Ho & Hl). split; [exists d, a|exists d]; tauto.
Qed.

(** The open attempt of the delivery is the claim's. *)
Lemma open_is_claimed db d aid a :
  db_wf db → holds_delivery db → deliveries db !! cd_DeliveryID c = Some d →
  attempts db !! aid = Some a → open_attempt (cd_DeliveryID c) (d_attempt_count d) a = true →
  aid = cd_AttemptID c.
Proof.
  intros Hwf (d' & a' & Hd' & Ha' & _ & Hn & (Hi' & Hk' & _)%open_attempt_true & _)%holds_delivery_rows
    Hd Ha (Hi & Hk & _)%open_attempt_true. simplify_eq.
  eapply (wf_number _ Hwf); [exact Ha|exact Ha'|congruence..].
Qed.

(** A step that leaves the claim's two rows. *)
Lemma holds_delivery_frame db db' :
  deliveries db' !! cd_DeliveryID c = deliveries db !! cd_DeliveryID c →
  attempts db' !! cd_AttemptID c = attempts db !! cd_AttemptID c →
  holds_delivery db → holds_delivery db'.
Proof. intros Hd Ha. unfold holds_delivery, owns_delivery. by rewrite Hd, Ha. Qed.

Lemma claim_keeps_lease db id d aid due now leaseEnd :
  holds_delivery db → due < lease → deliveries db !! id = Some d → delivery_due due d = true →
  attempts db !! aid = None → holds_delivery (claim_tables now leaseEnd id d aid db).
Proof.
  intros Hh Hlt Hd Hdue Haid. pose proof Hh as (d0 & a0 & Hd0 & Ha0 & Hs0 & _ & Ho0 & Hl0)%holds_delivery_rows.
  assert (id ≠ cd_DeliveryID c) as Hne.
  { intros ->. simplify_eq. unfold delivery_due in Hdue. rewrite Hs0, Hl0 in Hdue.
    apply Z.leb_le in Hdue. lia. }
  revert Hh. apply holds_delivery_frame; simpl; [by rewrite lookup_insert_ne|].
  rewrite lookup_insert_ne by congruence. case_decide; [|done]. rewrite lookup_fmap, Ha0. simpl. f_equal.
  unfold expire_open. destruct (open_attempt id _ a0) eqn:E; [|done].
  apply open_attempt_true in E as [? _], Ho0 as [? _]. congruence.
Qed.

Lemma step_keeps_lease ev db db' :
  db_wf db → foreign ev → table_step ev db db' → holds_delivery db → holds_delivery db'.
Proof.
  intros Hwf Hev Hstep Hh. pose proof Hh as (d0 & a0 & Hd0 & Ha0 & Hs0 & _ & Ho0 & _)%holds_delivery_rows.
  destruct Hstep; simpl in Hev; try exact Hh.
  - revert Hh. apply holds_delivery_frame; simpl; [|done]. apply lookup_insert_ne. congruence.
  - by eapply claim_keeps_lease.
  - destruct (decide (id = cd_DeliveryID c)) as [->|Hne]; [destruct Hev; by eauto using open_is_claimed|].
    revert Hh. apply holds_delivery_frame; simpl; [|done]. by apply lookup_insert_ne.
  - destruct (decide (id = cd_DeliveryID c)) as [->|Hne]; [destruct Hev; by eauto using open_is_claimed|].
    revert Hh. apply holds_delivery_frame; simpl; by apply lookup_insert_ne.
  - assert (cd_DeliveryID c ∉ ids) as Hni by (intros Hi;
      match goal with Ht : ∀ id d, id ∈ _ → _ |- _ => specialize (Ht _ _ Hi Hd0); by rewrite Hs0 in Ht end).
    apply open_attempt_true in Ho0 as [Hi0 _].
    revert Hh. apply holds_delivery_frame; simpl; rewrite ?Hd0, ?Ha0;
      apply map_lookup_filter_Some; split; [done|done|done|simpl; by rewrite Hi0].
Qed.
End delivery.

(** The claim of a delivery holds it until the end of the lease it wrote; a renewal
    moves that end. *)

Lemma claimed_holds e d c db db' :
  claimed_from e d db db' c → ∃ k, holds_delivery c (en_timestamptz e (Add (en_clock e k) d)) db'.
Proof.
  intros (n & k & row & m & _ & _ & _ & -> & Hc). exists k. split.
  - rewrite Hc. apply claim_owns.
  - simpl. rewrite lookup_insert_eq. eauto.
Qed.

Lemma renewed_holds e d c db db' : renewed e d c db db' → ∃ lease, holds_delivery c lease db'.
Proof.
  intros (Ho & row & l & now & leaseEnd & Hd & _ & _ & _ & ->). exists leaseEnd. split.
  - by apply leased_owns.
  - simpl. rewrite lookup_insert_eq. eauto.
Qed.

(** * Receipts *)

Section receipt.
Context (c : ClaimedReceipt) (lease : time).

Definition holds_receipt (db : DB) : Prop :=
  owns_receipt c db = true ∧
  ∃ r, receipts db !! cr_key c = Some r ∧ r_lease_expires_at r = Some lease.

Definition foreign_receipt (ev : event) : Prop :=
  match ev with
  | EvClaimReceipt due => due < lease
  | EvRenewReceipt key attempt | EvCompleteReceipt key attempt => (key, attempt) ≠ (cr_key c, cr_Attempt c)
  | _ => True
  end.

Lemma holds_receipt_row db :
  holds_receipt db ↔ ∃ r, receipts db !! cr_key c = Some r ∧ r_state r = ReceiptProcessing ∧
    r_attempt_count r = cr_Attempt c ∧ r_lease_expires_at r = Some lease.
Proof.
  unfold holds_receipt. split.
  - intros [Ho (r & Hr & Hl)]. pose proof (proj1 (owns_receipt_Some c db r Hr) Ho) as [Hs Hn]. eauto.
  - intros (r & Hr & Hs & Hn & Hl). split; [by apply (owns_receipt_Some c db r Hr)|eauto].
Qed.

Lemma holds_receipt_frame db db' :
  receipts db' !! cr_key c = receipts db !! cr_key c → holds_receipt db → holds_receipt db'.
Proof. intros Hr. unfold holds_receipt, owns_receipt. by rewrite Hr. Qed.

Lemma step_keeps_receipt ev db db' :
  db_wf db → foreign_receipt ev → table_step ev db db' → holds_receipt db → holds_receipt db'.
Proof.
  intros _ Hev Hstep Hh. pose proof Hh as (r0 & Hr0 & Hs0 & Hn0 & Hl0)%holds_receipt_row.
  destruct Hstep; simpl in Hev; try exact Hh;
    try (destruct (decide (key = cr_key c)) as [Hk|Hne];
         [subst key|revert Hh; apply holds_receipt_frame; by apply lookup_insert_ne]); simplify_eq.
  - congruence.
  - match goal with Hd : receipt_due _ _ = true |- _ =>
      unfold receipt_due in Hd; rewrite Hs0, Hl0 in Hd; apply Z.leb_le in Hd end. lia.
  - congruence.
  - congruence.
  - revert Hh. apply holds_receipt_frame. simpl. rewrite Hr0. apply map_lookup_filter_Some. split; [done|].
    simpl. intros Hi.
    match goal with Ht : ∀ key r, _ |- _ => specialize (Ht _ _ Hi Hr0); by rewrite Hs0 in Ht end.
Qed.
End receipt.

(** * Properties *)

(** C19 A lease is exclusive: from the moment a claim holds a delivery, and as long as
    the clocks of other sessions are before the end of its lease, any number of
    publications, claims, renewals, completions and cleanups of other sessions, each
    interleaved with others between its statements and failing wherever it may, leave
    the claim the owner of the delivery until the same time; and whatever other claim
    owns that delivery is a claim of the same attempt. *)
Theorem lease_is_exclusive `{HeaderOrder} c lease db db' :
  db_wf db → holds_delivery c lease db → rtc (session_operation (foreign c lease)) db db' →
  holds_delivery c lease db' ∧
  ∀ c', owns_delivery c' db' = true → cd_DeliveryID c' = cd_DeliveryID c →
        cd_AttemptID c' = cd_AttemptID c ∧ cd_Attempt c' = cd_Attempt c.
Proof.
  intros Hwf Hh Hs.
  destruct (sessions_keep _ _ (step_keeps_lease c lease) _ _ Hs Hwf Hh) as [Hwf' Hh'].
  split; [done|]. intros c' Ho. by apply (delivery_has_one_owner db'), Hh'.
Qed.

(** The same for the inbox. *)
Lemma receipt_lease_is_exclusive `{HeaderOrder} c lease db db' :
  db_wf db → holds_receipt c lease db → rtc (session_operation (foreign_receipt c lease)) db db' →
  holds_receipt c lease db'.
Proof. intros Hwf Hh Hs. by destruct (sessions_keep _ _ (step_keeps_receipt c lease) _ _ Hs Hwf Hh). Qed.
