(* ===== verification/PgCleanupProps.v ===== *)
(** What one retention pass of src/postgres/cleanup.go removes. *)

From S2P Require Import Prelude GoString GoTime Errors Headers PgText PgSchema PgModel PgOutbound PgCleanup.
From S2P Require Import PgSpec PgRefine PgOutbox.

(** * One statement *)

Section purge.
Context {K V : Type} `{Countable K}.

(** Table [m'] is [m] without [n] rows, at most [limit], all of them due and not
    locked; fewer than [limit] only if the due rows left are locked. *)
Record purged (due : K → V → bool) (locked : K → bool) (limit : Z) (m m' : gmap K V) (n : Z) : Prop := {
  pu_kept k v : m' !! k = Some v → m !! k = Some v;
  pu_due k v : m !! k = Some v → m' !! k = None → due k v = true ∧ locked k = false;
  pu_count : Z.of_nat (size m') + n = Z.of_nat (size m);
  pu_bound : 0 ≤ n ≤ limit;
  pu_all k v : n < limit → m' !! k = Some v → due k v = true → locked k = true
}.

Lemma purged_none due locked limit m :
  0 ≤ limit → (∀ k v, due k v = false) → purged due locked limit m m 0.
Proof.
  intros Hl Hd. constructor; [done| |lia|lia|].
  - intros k v ->. done.
  - intros k v _ _. by rewrite Hd.
Qed.

Lemma insert_by_perm {B} (before : B → B → bool) x l : insert_by before x l ≡ₚ x :: l.
Proof.
  induction l as [|y l IH]; simpl; [done|]. destruct (before y x); [|done].
  rewrite IH. apply Permutation_swap.
Qed.

Lemma sort_by_perm {B} (before : B → B → bool) l : sort_by before l ≡ₚ l.
Proof. induction l as [|x l IH]; simpl; [done|]. by rewrite insert_by_perm, IH. Qed.

(** Removing listed rows of a table, each listed once. *)
Lemma size_filter_not_in (ks : list K) (m : gmap K V) :
  NoDup ks → (∀ k, k ∈ ks → is_Some (m !! k)) →
  (size (filter (λ p, p.1 ∉ ks) m) + length ks = size m)%nat.
Proof.
  intros Hnd Hin.
  assert (dom (filter (λ p : K * V, p.1 ∉ ks) m) = dom m ∖ list_to_set ks) as Hdom.
  { apply set_eq. intros k. rewrite elem_of_dom, elem_of_difference, elem_of_dom, elem_of_list_to_set.
    unfold is_Some. setoid_rewrite map_lookup_filter_Some. simpl. naive_solver. }
  rewrite <-!size_dom, Hdom, size_difference.
  - rewrite size_list_to_set by done.
    assert (length ks ≤ size (dom m))%nat; [|lia].
    rewrite <-(size_list_to_set (C := gset K) ks) by done. apply subseteq_size.
    intros k Hk%elem_of_list_to_set. apply elem_of_dom, Hin, Hk.
  - intros k Hk%elem_of_list_to_set. apply elem_of_dom, Hin, Hk.
Qed.

Lemma candidates_purged column (due : V → bool) locked limit (m : gmap K V) :
  0 ≤ limit →
  let ks := candidates column due locked limit (map_to_list m) in
  purged (λ _, due) locked limit m (filter (λ p, p.1 ∉ ks) m) (Z.of_nat (length ks)).
Proof.
  intros Hl ks.
  set (rows := sort_by (λ p q : K * V, time_rank_before (column p.1 p.2) (column q.1 q.2))
                 (filter (λ p, due p.2 = true ∧ locked p.1 = false) (map_to_list m))).
  assert (∀ p, p ∈ rows ↔ (due p.2 = true ∧ locked p.1 = false) ∧ m !! p.1 = Some p.2) as Hrows.
  { intros [k v]. unfold rows. rewrite sort_by_perm, list_elem_of_filter, elem_of_map_to_list. done. }
  assert (NoDup (map fst rows)) as Hnd.
  { apply (NoDup_fmap_fst rows).
    - intros k v1 v2 [_ H1]%Hrows [_ H2]%Hrows. simpl in *. congruence.
    - unfold rows. rewrite sort_by_perm. apply NoDup_filter, NoDup_map_to_list. }
  assert (ks = take (Z.to_nat limit) (map fst rows)) as Hks by (unfold ks, candidates; by rewrite firstn_map).
  assert (∀ k, k ∈ ks → ∃ v, m !! k = Some v ∧ due v = true ∧ locked k = false) as Hin.
  { intros k Hk. rewrite Hks in Hk. apply elem_of_take in Hk as (i & Hi & _).
    apply list_elem_of_lookup_2, list_elem_of_fmap in Hi as ([k' v] & -> & Hr).
    apply Hrows in Hr as [[? ?] ?]. by exists v. }
  assert (NoDup ks) as Hnd'.
  { rewrite Hks. rewrite <-(take_drop (Z.to_nat limit) (map fst rows)) in Hnd.
    by apply NoDup_app in Hnd as [? _]. }
  constructor.
  - by intros k v [? _]%map_lookup_filter_Some.
  - intros k v Hm [Hn|Hn]%map_lookup_filter_None; [congruence|].
    assert (k ∈ ks) as Hk by (apply dec_stable; intros Hc; by apply (Hn v Hm)).
    destruct (Hin k Hk) as (v' & Hv' & ? & ?). by simplify_eq.
  - rewrite <-(size_filter_not_in ks m); [lia|done|]. intros k (v & ? & _)%Hin. by eexists.
  - split; [lia|]. rewrite Hks, length_take. lia.
  - intros k v Hlt [Hm Hnk]%map_lookup_filter_Some Hd. simpl in Hnk.
    destruct (locked k) eqn:El; [done|]. exfalso. apply Hnk.
    rewrite Hks in *. rewrite length_take in Hlt. rewrite take_ge by lia.
    apply list_elem_of_fmap. exists (k, v). split; [done|]. by apply Hrows.
Qed.
End purge.

(** * The pass *)

(** The rows of a category; none when its retention is zero. *)
Definition when_retained {B} (retention : duration) (due : B → bool) (b : B) : bool :=
  (0 <? retention) && due b.

(** The state is one of [states] and was reached before [cutoff]. *)
Definition ended_before {T} `{EqDecision T} (states : list T) (cutoff : time) (state : T) (at_ : option time) : bool :=
  bool_decide (state ∈ states) && match at_ with Some t => t <? cutoff | None => false end.
Definition delivery_ended states cutoff d := ended_before states cutoff (d_state d) (d_completed_at d).
Definition receipt_ended states cutoff r := ended_before states cutoff (r_state r) (r_processed_at r).

(** The attempts left are those of the deliveries left. *)
Definition attempts_follow (db db' : DB) : Prop :=
  ∀ aid a, attempts db' !! aid = Some a ↔
    attempts db !! aid = Some a ∧ is_Some (deliveries db' !! a_delivery_id a).

(** What a pass under the normalised policy [p] does. *)
Definition cleaned (e : env) (p : RetentionPolicy) (db db' : DB) (res : CleanupResult) : Prop :=
  ∃ now n1 n2 n3 n4 D,
    let cutoff retention := en_timestamptz e (Add now (- retention)) in
    purged (λ _, when_retained (rp_DeliveredRetention p)
            (delivery_ended [DeliveryDelivered] (cutoff (rp_DeliveredRetention p))))
      (en_delivery_locked e n1) (rp_BatchSize p) (deliveries db) D (cl_DeliveredDeliveries res) ∧
    purged (λ _, when_retained (rp_FailedDeliveryRetention p)
            (delivery_ended [DeliveryPermanentFailure; DeliveryDisabled; DeliveryExhausted]
               (cutoff (rp_FailedDeliveryRetention p))))
      (en_delivery_locked e n2) (rp_BatchSize p) D (deliveries db') (cl_FailedDeliveries res) ∧
    purged (λ _, when_retained (rp_ReceiptRetention p)
            (receipt_ended [ReceiptProcessed; ReceiptFailed; ReceiptExhausted] (cutoff (rp_ReceiptRetention p))))
      (en_receipt_locked e n3) (rp_BatchSize p) (receipts db) (receipts db') (cl_Receipts res) ∧
    purged (λ _, when_retained (rp_OrphanMessageRetention p)
                   (λ m, mr_created_at m <? cutoff (rp_OrphanMessageRetention p)))
      (λ id, en_message_locked e n4 id || negb (unreferenced db' id)) (rp_BatchSize p)
      (messages db) (messages db') (cl_OrphanMessages res) ∧
    attempts_follow db db'.

Section pass.
Context (e : env).

Lemma purged_mono {K V} `{Countable K} (due due' : K → V → bool) locked limit m m' n :
  (∀ k v, due k v = due' k v) → purged due locked limit m m' n → purged due' locked limit m m' n.
Proof.
  intros Hd [P1 P2 P3 P4 P5]. constructor; [done| |done|done|]; intros k v.
  - rewrite <-Hd. apply P2.
  - rewrite <-Hd. apply P5.
Qed.

Lemma purged_retained {K V} `{Countable K} retention (due : V → bool) locked limit (m m' : gmap K V) n :
  0 < retention → purged (λ _, due) locked limit m m' n →
  purged (λ _, when_retained retention due) locked limit m m' n.
Proof.
  intros Hr. apply purged_mono. intros _ v. unfold when_retained. by rewrite (proj2 (Z.ltb_lt _ _) Hr).
Qed.

Lemma purged_skipped {K V} `{Countable K} retention (due : V → bool) locked limit (m : gmap K V) :
  retention ≤ 0 → 0 ≤ limit → purged (λ _, when_retained retention due) locked limit m m 0.
Proof.
  intros Hr Hl. apply purged_none; [done|]. intros _ v. unfold when_retained.
  by rewrite (proj2 (Z.ltb_ge _ _) Hr).
Qed.

(** The tests of the statements, as states and times. *)
Lemma delivered_due_ended cutoff d : delivered_due cutoff d = delivery_ended [DeliveryDelivered] cutoff d.
Proof. unfold delivered_due, delivery_ended, ended_before. by destruct (d_state d). Qed.

Lemma failed_due_ended cutoff d :
  failed_due cutoff d =
    delivery_ended [DeliveryPermanentFailure; DeliveryDisabled; DeliveryExhausted] cutoff d.
Proof. unfold failed_due, delivery_ended, ended_before. by destruct (d_state d). Qed.

Lemma receipt_purge_due_ended cutoff r :
  receipt_purge_due cutoff r = receipt_ended [ReceiptProcessed; ReceiptFailed; ReceiptExhausted] cutoff r.
Proof. unfold receipt_purge_due, receipt_ended, ended_before. by destruct (r_state r). Qed.

Lemma purged_as {K V} `{Countable K} retention (due due' : V → bool) locked limit (m m' : gmap K V) n :
  (∀ v, due v = due' v) → purged (λ _, when_retained retention due) locked limit m m' n →
  purged (λ _, when_retained retention due') locked limit m m' n.
Proof. intros Hd. apply purged_mono. intros _ v. unfold when_retained. by rewrite Hd. Qed.

Lemma attempts_follow_refl db : db_wf db → attempts_follow db db.
Proof. intros Hwf aid a. split; [|by intros []]. intros Ha. split; [done|]. by eapply wf_attempt. Qed.

Lemma attempts_follow_trans db db' ids :
  attempts_follow db db' → attempts_follow db (remove_deliveries ids db').
Proof.
  intros Hf aid a. simpl. rewrite map_lookup_filter_Some, (Hf aid a). simpl. unfold is_Some.
  setoid_rewrite map_lookup_filter_Some. simpl. naive_solver.
Qed.

(** One category: skipped, or its statement. *)
Lemma wp_category retention message now purge (Q : Z → DB → option DB → Prop) X db v :
  (∀ er tx, X er db tx) → (retention ≤ 0 → Q 0 db (Some v)) →
  (0 < retention → ∀ n a v', purge (en_timestamptz e) (Add now (- retention)) e n v = Ok (a, v') →
     Q a db (Some v')) →
  wp e (category retention message now purge) Q X db (Some v).
Proof.
  intros HX H0 H1. unfold category. destruct (Z.ltb_spec 0 retention); [|by apply wp_mret, H0].
  apply wp_bind, wp_exec; [done|]. intros n a v' Hp. simpl in *. split; [|done].
  apply wp_RowsAffected; [done|]. by eapply H1.
Qed.

Lemma normalized_batch policy p : normalizeRetentionPolicy policy = Ok p → 0 ≤ rp_BatchSize p.
Proof.
  unfold normalizeRetentionPolicy, defaultCleanupBatchSize. intros H. go_inv. simpl.
  rewrite !Z.ltb_ge in *. destruct (Z.eqb_spec (rp_BatchSize policy) 0); lia.
Qed.

(** The three kinds of statements of a pass, from the transaction's view [v]. *)
Definition same_db {B} (db : DB) (Q : B → DB → Prop) : B → DB → option DB → Prop :=
  λ b db' tx, db' = db ∧ ∃ v', tx = Some v' ∧ Q b v'.

Lemma deliveries_stage retention message now (due : time → Delivery → bool) size db v :
  0 ≤ size →
  wp e (category retention message now (λ ts cutoff, purge_deliveries (due (ts cutoff)) size))
    (same_db db (λ n v', ∃ k,
       purged (λ _, when_retained retention (due (en_timestamptz e (Add now (- retention)))))
         (en_delivery_locked e k) size (deliveries v) (deliveries v') n ∧
       (v' = v ∨ ∃ ids, v' = remove_deliveries ids v)))
    (λ _ db' _, db' = db) db (Some v).
Proof.
  intros Hs. apply wp_category; [done|..].
  - intros Hr. split; [done|]. exists v. split; [done|]. exists O. split; [by apply purged_skipped|by left].
  - intros Hr k n v' [= <- <-]. split; [done|]. eexists. split; [done|]. exists k.
    split; [|right; by eexists]. apply purged_retained; [done|]. simpl. by apply candidates_purged.
Qed.

Lemma receipts_stage retention message now size db v :
  0 ≤ size →
  wp e (category retention message now (λ ts cutoff, purge_receipts (receipt_purge_due (ts cutoff)) size))
    (same_db db (λ n v', ∃ k,
       purged (λ _, when_retained retention (receipt_purge_due (en_timestamptz e (Add now (- retention)))))
         (en_receipt_locked e k) size (receipts v) (receipts v') n ∧
       v' = set_receipts (receipts v') v))
    (λ _ db' _, db' = db) db (Some v).
Proof.
  intros Hs. apply wp_category; [done|..].
  - intros Hr. split; [done|]. exists v. split; [done|]. exists O. split; [by apply purged_skipped|].
    by destruct v.
  - intros Hr k n v' [= <- <-]. split; [done|]. eexists. split; [done|]. exists k.
    split; [|done]. apply purged_retained; [done|]. simpl. by apply candidates_purged.
Qed.

Lemma messages_stage retention message now size db v :
  0 ≤ size →
  wp e (category retention message now (λ ts cutoff, purge_messages (ts cutoff) size))
    (same_db db (λ n v', ∃ k,
       purged (λ _, when_retained retention (λ m, mr_created_at m <? en_timestamptz e (Add now (- retention))))
         (λ id, en_message_locked e k id || negb (unreferenced v' id)) size (messages v) (messages v') n ∧
       v' = set_messages (messages v') v))
    (λ _ db' _, db' = db) db (Some v).
Proof.
  intros Hs. apply wp_category; [done|..].
  - intros Hr. split; [done|]. exists v. split; [done|]. exists O. split; [by apply purged_skipped|].
    by destruct v.
  - intros Hr k n v' [= <- <-]. split; [done|]. eexists. split; [done|]. exists k.
    split; [|done]. apply purged_retained; [done|]. by apply (candidates_purged _ _ _ _ (messages v)).
Qed.

(** A stage and what follows it. *)
Lemma wp_stage {B C} (m : M B) (f : B → M C) (R : B → DB → Prop) Q X db v :
  wp e m (same_db db R) (λ _ db' _, db' = db) db (Some v) → (∀ er tx, X er db tx) →
  (∀ b v', R b v' → wp e (f b) Q X db (Some v')) → wp e (m ≫= f) Q X db (Some v).
Proof.
  intros Hm HX Hf. apply wp_bind. eapply wp_mono; [exact Hm|..].
  - intros b db' tx [-> (v' & -> & Hr)]. by apply Hf.
  - intros er db' tx ->. apply HX.
Qed.

Lemma attempts_after db v ids_or :
  attempts_follow db v → (ids_or = v ∨ ∃ ids, ids_or = remove_deliveries ids v) → attempts_follow db ids_or.
Proof. intros Hf [->|[ids ->]]; [done|by apply attempts_follow_trans]. Qed.

(** The four statements of a pass and its commit. *)
Lemma Cleanup_spec s policy db :
  quiet e → db_wf db →
  let done res db' := ∃ p, normalizeRetentionPolicy policy = Ok p ∧ cleaned e p db db' res in
  wp e (Cleanup (Some s) policy) (λ res db' _, done res db')
    (λ _ db' _, db' = db ∨ ∃ res, done res db') db None.
Proof.
  intros Hq Hwf cleaned_to. unfold Cleanup. apply wp_bind, wp_lift.
  destruct (normalizeRetentionPolicy policy) as [p|er] eqn:Ep; [|by left].
  pose proof (normalized_batch _ _ Ep) as Hb. apply wp_bind, wp_lift. simpl.
  pose proof (attempts_follow_refl db Hwf) as Ha.
  destruct ((_ && _) && _) eqn:E0.
  { apply wp_mret. exists p. split; [done|]. rewrite !andb_true_iff, !Z.eqb_eq in E0.
    destruct E0 as [[[Z1 Z2] Z3] Z4]. exists 0, O, O, O, O, (deliveries db). cbn.
    rewrite Z1, Z2, Z3, Z4. split_and!; try done; by apply purged_skipped. }
  apply wp_with_tx; [by left|]. apply wp_bind, wp_clock; [by left|]. intros now.
  apply wp_bind, wp_others_quiet; [done|].
  eapply wp_stage; [by apply deliveries_stage|by left|]. intros n1 v1 (k1 & P1 & E1).
  eapply wp_stage; [by apply deliveries_stage|by left|]. intros n2 v2 (k2 & P2 & E2).
  eapply wp_stage; [by apply receipts_stage|by left|]. intros n3 v3 (k3 & P3 & E3).
  eapply wp_stage; [by apply messages_stage|by left|]. intros n4 v4 (k4 & P4 & E4).
  assert (cleaned_to {| cl_DeliveredDeliveries := n1; cl_FailedDeliveries := n2; cl_Receipts := n3;
                        cl_OrphanMessages := n4 |} v4) as Hdone.
  { exists p. split; [done|]. exists now, k1, k2, k3, k4, (deliveries v1). cbn.
    pose proof (attempts_after _ _ _ (attempts_after _ _ _ Ha E1) E2) as Ha2.
    assert (receipts v2 = receipts db ∧ messages v2 = messages db) as [R2 M2]
      by (destruct E1 as [->|[? ->]], E2 as [->|[? ->]]; done).
    apply (purged_as _ _ _ _ _ _ _ _ (delivered_due_ended _)) in P1.
    apply (purged_as _ _ _ _ _ _ _ _ (failed_due_ended _)) in P2.
    apply (purged_as _ _ _ _ _ _ _ _ (receipt_purge_due_ended _)) in P3.
    rewrite R2 in P3. rewrite E3 in P4. cbn in P4. rewrite M2 in P4. rewrite E4, E3. cbn.
    split_and!; try done. rewrite E4, E3 in P4. exact P4. }
  apply wp_bind, wp_commit; [by left| |].
  - by apply wp_mret.
  - intros er. right. by eexists.
Qed.
End pass.

(** * Properties *)

(** C35 A retention pass removes only what has expired, and counts it: under any
    failures, with other sessions quiet, a pass under a valid policy removes from the
    deliveries only final ones completed before their category's cutoff, from the
    receipts only final ones processed before theirs, and from the messages only old
    ones that no delivery is left for; of each at most the batch size and exactly as
    many as it reports, no due row being left when fewer unless another session holds
    it locked; the attempts left are those of the deliveries left; and a pass that
    fails has removed nothing, or all of this with the reply to its commit lost. *)
Theorem cleanup_removes_only_expired e s policy db n :
  quiet e → db_wf db →
  let done res db' := ∃ p, normalizeRetentionPolicy policy = Ok p ∧ cleaned e p db db' res in
  match Cleanup (Some s) policy e {| w_db := db; w_tx := None; w_tick := n |} with
  | (Ok res, w) => done res (w_db w)
  | (Err _, w) => w_db w = db ∨ ∃ res, done res (w_db w)
  end.
Proof.
  intros Hq Hwf done. pose proof (Cleanup_spec e s policy db Hq Hwf n) as H.
  destruct (Cleanup _ _ _ _) as [[res|er] w]; exact H.
Qed.
