(* ===== verification/PgMigrate.v ===== *)
(** src/postgres/migrate.go: the migration runner over the ledger of applied
    migrations.

    What a statement of a migration file does to the objects of a schema is
    PostgreSQL's: a parameter.  The runner's own statements, on the schema, the
    ledger and the session's search path, are functions on the catalog.  The
    advisory lock makes the migrators of a schema follow each other: what the others
    committed before is in the catalog when the lock is granted. *)

From S2P Require Import Prelude GoString Codec Errors Handler PgText PgSchema PgModel.

(** * The embedded files *)

(** [fs.DirEntry] with the file's contents. *)
Record Entry := { en_Name : string; en_IsDir : bool; en_Contents : string }.

(** [sort.Strings]: the order of the bytes. *)
Definition name_le (x y : string) : Prop := str_leb x y = true.
#[export] Instance name_le_dec x y : Decision (name_le x y).
Proof. unfold name_le. apply _. Defined.

(** The names of the migration files in the order they are applied. *)
Definition migration_names (entries : list Entry) : list string :=
  merge_sort name_le
    (map en_Name (filter (λ f, negb (en_IsDir f) && has_suffix ".sql" (en_Name f) = true) entries)).

(** The file of a name, [fs.ReadFile]. *)
Definition file_of (entries : list Entry) (name : string) : option string :=
  en_Contents ∘ snd <$> list_find (λ f, en_Name f = name) entries.

Section migrate.
(** The objects of the schemas, and a statement of a migration file run with a
    search path. *)
Context {O : Type} (ddl : string → string → O → result error O).
(** [strconv.Quote], the verb %q. *)
Context (strconv_Quote : string → string).

(** * The catalog *)

(** The schemas, the ledger of each schema by file name, and the objects. *)
Record Catalog := {
  c_schemas : gset string;
  c_ledgers : gmap string (gmap string string);
  c_objects : O
}.

(** The transaction: its view of the catalog, its search path, and the calls made. *)
Record Session := { se_catalog : Catalog; se_path : string; se_tick : nat }.

(** What the runner does not control. *)
Record menv := {
  me_fault : nat → fault;
  me_error : nat → error;
  me_others : Catalog → Catalog
}.

Definition set_catalog (c : Catalog) (s : Session) : Session :=
  {| se_catalog := c; se_path := se_path s; se_tick := se_tick s |}.

Definition Tx (A : Type) : Type := menv → Session → go A * Session.

#[export] Instance Tx_ret : MRet Tx := λ A a _ s, (Ok a, s).
#[export] Instance Tx_bind : MBind Tx := λ A B f m e s,
  match m e s with
  | (Ok a, s') => f a e s'
  | (Err er, s') => (Err er, s')
  end.

(** [fmt.Errorf("hookbound postgres: ...: %w", err)] *)
Definition wrapf (text : string) (err : error) : error :=
  WrapError ("hookbound postgres: " +:+ text +:+ ": " +:+ error_text err) err.

(** A statement of the transaction; when it fails the transaction is lost. *)
Definition execTx {A} (text : string) (stmt : menv → Session → go (A * Session)) : Tx A := λ e s,
  let n := se_tick s in
  let s := {| se_catalog := se_catalog s; se_path := se_path s; se_tick := S n |} in
  match me_fault e n with
  | NoFault =>
      match stmt e s with
      | Ok (a, s') => (Ok a, s')
      | Err er => (Err (wrapf text er), s)
      end
  | _ => (Err (wrapf text (me_error e n)), s)
  end.

Definition failTx {A} (er : error) : Tx A := λ _ s, (Err er, s).

(** * The runner's statements *)

Definition create_schema (schema : string) (c : Catalog) : Catalog :=
  {| c_schemas := {[ schema ]} ∪ c_schemas c; c_ledgers := c_ledgers c; c_objects := c_objects c |}.

Definition ledger (schema : string) (c : Catalog) : gmap string string :=
  default ∅ (c_ledgers c !! schema).

Definition set_ledger (schema : string) (l : gmap string string) (c : Catalog) : Catalog :=
  {| c_schemas := c_schemas c; c_ledgers := <[schema := l]> (c_ledgers c); c_objects := c_objects c |}.

Definition set_objects (o : O) (c : Catalog) : Catalog :=
  {| c_schemas := c_schemas c; c_ledgers := c_ledgers c; c_objects := o |}.

(** [SELECT checksum FROM ... WHERE name = $1]; [None] is [sql.ErrNoRows]. *)
Definition select_checksum (schema name : string) (s : Session) : go (option string * Session) :=
  Ok (ledger schema (se_catalog s) !! name, s).

(** [INSERT INTO ... (name, checksum)]: the name is the ledger's key. *)
Definition insert_checksum (schema name checksum : string) (s : Session) : go (unit * Session) :=
  let l := ledger schema (se_catalog s) in
  _ ← reject (bool_decide (is_Some (l !! name))) (PlainError "duplicate key value");
  Ok (tt, set_catalog (set_ledger schema (<[name := checksum]> l) (se_catalog s)) s).

(** A statement of a migration file. *)
Definition run_statement (statement : string) (s : Session) : go (unit * Session) :=
  o ← ddl (se_path s) statement (c_objects (se_catalog s));
  Ok (tt, set_catalog (set_objects o (se_catalog s)) s).

(** * The runner *)

Fixpoint apply_statements (name : string) (index : Z) (statements : list string) : Tx unit :=
  match statements with
  | [] => mret tt
  | statement :: statements' =>
      _ ← execTx ("apply " +:+ name +:+ " statement " +:+ FormatInt (index + 1))
            (λ _, run_statement statement);
      apply_statements name (index + 1) statements'
  end.

(** One turn of the loop over the names. *)
Definition apply_migration (entries : list Entry) (schema name : string) : Tx unit :=
  match file_of entries name with
  | None => failTx (wrapf ("read migration " +:+ name) (PlainError "file does not exist"))
  | Some contents =>
      let checksum := migrationChecksum contents in
      existing ← execTx ("inspect migration " +:+ name) (λ _, select_checksum schema name);
      match existing with
      | Some existing =>
          if str_eqb existing checksum then mret tt
          else failTx (PlainError ("hookbound postgres: migration " +:+ name +:+
                                   " checksum mismatch: applied migration changed"))
      | None =>
          _ ← apply_statements name 0 (splitStatements contents);
          execTx ("record migration " +:+ name) (λ _, insert_checksum schema name checksum)
      end
  end.

Fixpoint apply_migrations (entries : list Entry) (schema : string) (names : list string) : Tx unit :=
  match names with
  | [] => mret tt
  | name :: names' => _ ← apply_migration entries schema name; apply_migrations entries schema names'
  end.

(** The transaction from the advisory lock to its commit. *)
Definition migration_tx (entries : list Entry) (schema : string) : Tx unit :=
  _ ← execTx "lock migrations" (λ e s, Ok (tt, set_catalog (me_others e (se_catalog s)) s));
  _ ← execTx ("create schema " +:+ strconv_Quote schema)
        (λ _ s, Ok (tt, set_catalog (create_schema schema (se_catalog s)) s));
  _ ← execTx "set migration search path"
        (λ _ s, Ok (tt, {| se_catalog := se_catalog s; se_path := schemaSearchPath schema;
                           se_tick := se_tick s |}));
  _ ← execTx "create migration ledger"
        (λ _ s, Ok (tt, set_catalog (set_ledger schema (ledger schema (se_catalog s)) (se_catalog s)) s));
  apply_migrations entries schema (migration_names entries).

(** [MigrateWithConfig] on the committed catalog; [has_db] is [db != nil]. *)
Definition MigrateWithConfig (entries : list Entry) (has_db : bool) (config : string) (e : menv)
    (c : Catalog) : go unit * Catalog :=
  if negb has_db then (Err (PlainError "hookbound postgres: database is required"), c) else
  match normalizeSchema config with
  | Err er => (Err (wrapf "schema" er), c)
  | Ok schema =>
      match me_fault e 0 with
      | NoFault =>
          match migration_tx entries schema e {| se_catalog := c; se_path := ε; se_tick := 1 |} with
          | (Err er, _) => (Err er, me_others e c)
          | (Ok _, s) =>
              match me_fault e (se_tick s) with
              | NoFault => (Ok tt, se_catalog s)
              | FailBefore =>
                  (Err (wrapf "commit migrations" (me_error e (se_tick s))), me_others e c)
              | FailAfter => (Err (wrapf "commit migrations" (me_error e (se_tick s))), se_catalog s)
              end
          end
      | _ => (Err (wrapf "begin migrations" (me_error e 0)), me_others e c)
      end
  end.

(** [Migrate] *)
Definition Migrate (entries : list Entry) (has_db : bool) : menv → Catalog → go unit * Catalog :=
  MigrateWithConfig entries has_db ε.

(** * What a migration amounts to *)

(** The statements of the files that are not in the ledger, in order. *)
Definition checksum_of (entries : list Entry) (name : string) : option string :=
  migrationChecksum <$> file_of entries name.
Definition pending (entries : list Entry) (l : gmap string string) (names : list string) : list string :=
  concat (map (λ n, splitStatements (default ε (file_of entries n)))
            (filter (λ n, l !! n = None) names)).
Fixpoint run_all (path : string) (statements : list string) (o : O) : result error O :=
  match statements with
  | [] => Ok o
  | statement :: statements' => o' ← ddl path statement o; run_all path statements' o'
  end.

(** Every file is in the ledger [l'] with its own checksum, which had no other, and
    nothing else changed in it. *)
Definition recorded (entries : list Entry) (names : list string) (l l' : gmap string string) : Prop :=
  (∀ n, n ∈ names → l' !! n = checksum_of entries n ∧ is_Some (l' !! n) ∧
     (l !! n = None ∨ l !! n = l' !! n)) ∧
  ∀ n, n ∉ names → l' !! n = l !! n.

Definition migrated (entries : list Entry) (schema : string) (c c' : Catalog) : Prop :=
  ∃ o l', run_all (schemaSearchPath schema)
            (pending entries (ledger schema c) (migration_names entries)) (c_objects c) = Ok o ∧
    recorded entries (migration_names entries) (ledger schema c) l' ∧
    c' = {| c_schemas := {[ schema ]} ∪ c_schemas c;
            c_ledgers := <[schema := l']> (c_ledgers c); c_objects := o |}.

(** * Lemmas *)

Lemma execTx_Ok {A} text (stmt : menv → Session → go (A * Session)) e s a s' :
  execTx text stmt e s = (Ok a, s') →
  ∃ n, stmt e {| se_catalog := se_catalog s; se_path := se_path s; se_tick := n |} = Ok (a, s').
Proof.
  unfold execTx. destruct (me_fault e _); try done.
  destruct (stmt e _) as [[a' s'']|er] eqn:E; [|done]. intros [= <- <-]. by exists (S (se_tick s)).
Qed.

Lemma bind_Tx_Ok {A B} (m : Tx A) (f : A → Tx B) e s b s' :
  (m ≫= f) e s = (Ok b, s') → ∃ a s1, m e s = (Ok a, s1) ∧ f a e s1 = (Ok b, s').
Proof. unfold mbind, Tx_bind. destruct (m e s) as [[a|er] s1]; [eauto|done]. Qed.

(** The statements of a file run to the end. *)
Lemma apply_statements_Ok name index statements e s u s' :
  apply_statements name index statements e s = (Ok u, s') →
  ∃ o, run_all (se_path s) statements (c_objects (se_catalog s)) = Ok o ∧
    se_catalog s' = set_objects o (se_catalog s) ∧ se_path s' = se_path s.
Proof.
  revert index s. induction statements as [|stmt statements IH]; intros index s; simpl.
  - intros [= _ <-]. eexists. split_and!; [done| |done]. by destruct (se_catalog s).
  - intros ([] & s1 & (n & H1)%execTx_Ok & H2)%bind_Tx_Ok. unfold run_statement in H1. simpl in H1.
    apply bind_Ok in H1 as (o & Ho & [= <-]). apply IH in H2 as (o' & Ho' & Hc & Hp).
    simpl in *. exists o'. rewrite Ho. by split_and!.
Qed.

(** One file: it is in the ledger with its checksum, or it is run and put there. *)
Lemma apply_migration_Ok entries schema name e s u s' :
  apply_migration entries schema name e s = (Ok u, s') →
  se_path s' = se_path s ∧ ∃ contents, file_of entries name = Some contents ∧
    let l := ledger schema (se_catalog s) in
    ((l !! name = Some (migrationChecksum contents) ∧ se_catalog s' = se_catalog s) ∨
     (l !! name = None ∧ ∃ o,
        run_all (se_path s) (splitStatements contents) (c_objects (se_catalog s)) = Ok o ∧
        se_catalog s' = set_ledger schema (<[name := migrationChecksum contents]> l)
                          (set_objects o (se_catalog s)))).
Proof.
  unfold apply_migration. destruct (file_of entries name) as [contents|]; [|done].
  intros (existing & s1 & (n & H1)%execTx_Ok & H2)%bind_Tx_Ok.
  unfold select_checksum in H1. simpl in H1. injection H1 as <- <-.
  destruct (ledger schema (se_catalog s) !! name) as [ck|] eqn:El.
  - destruct (str_eqb ck _) eqn:Ec; [|done]. injection H2 as _ <-. apply str_eqb_true in Ec as ->.
    split; [done|]. exists contents. split; [done|]. left. by split.
  - apply bind_Tx_Ok in H2 as ([] & s2 & (o & Ho & Hc & Hp)%apply_statements_Ok & (n' & H3)%execTx_Ok).
    unfold insert_checksum in H3. simpl in H3. apply bind_Ok in H3 as ([] & _ & H3).
    injection H3 as _ <-. simpl in *. split; [done|]. exists contents. split; [done|]. right.
    split; [done|]. exists o. split; [done|]. rewrite Hc. done.
Qed.

Lemma run_all_app path l1 l2 o o' :
  run_all path l1 o = Ok o' → run_all path (l1 ++ l2) o = run_all path l2 o'.
Proof.
  revert o. induction l1 as [|x l1 IH]; intros o; simpl; [by intros [= ->]|].
  intros (o1 & Ho1 & H)%bind_Ok. rewrite Ho1. by apply IH.
Qed.

Lemma pending_insert entries l name checksum names :
  name ∉ names → pending entries (<[name := checksum]> l) names = pending entries l names.
Proof.
  intros Hn. unfold pending. do 2 f_equal. induction names as [|n names IH]; [done|].
  apply not_elem_of_cons in Hn as [Hne Hn]. rewrite !filter_cons, lookup_insert_ne by done.
  rewrite (IH Hn). done.
Qed.

Lemma recorded_cons_known entries name names l l' contents :
  name ∉ names → file_of entries name = Some contents → l !! name = Some (migrationChecksum contents) →
  recorded entries names l l' → recorded entries (name :: names) l l'.
Proof.
  intros Hn Hf Hl [H1 H2]. split.
  - intros n [->|Hin]%elem_of_cons; [|by apply H1]. rewrite (H2 name Hn), Hl. unfold checksum_of.
    rewrite Hf. simpl. split_and!; [done|done|by right].
  - intros n Hnin. apply H2. set_solver.
Qed.

Lemma recorded_cons_new entries name names l l' contents :
  name ∉ names → file_of entries name = Some contents → l !! name = None →
  recorded entries names (<[name := migrationChecksum contents]> l) l' → recorded entries (name :: names) l l'.
Proof.
  intros Hn Hf Hl [H1 H2]. split.
  - intros n [->|Hin]%elem_of_cons.
    + rewrite (H2 name Hn), lookup_insert_eq. unfold checksum_of. rewrite Hf. simpl.
      split_and!; [done|done|by left].
    + specialize (H1 n Hin). rewrite lookup_insert_ne in H1 by (intros ->; done). done.
  - intros n [Hne Hnin]%not_elem_of_cons. rewrite (H2 n Hnin). by apply lookup_insert_ne.
Qed.

(** The files one after the other. *)
Lemma apply_migrations_Ok entries schema names e s u s' l :
  NoDup names → c_ledgers (se_catalog s) !! schema = Some l →
  apply_migrations entries schema names e s = (Ok u, s') →
  ∃ o l', run_all (se_path s) (pending entries l names) (c_objects (se_catalog s)) = Ok o ∧
    recorded entries names l l' ∧
    se_catalog s' = {| c_schemas := c_schemas (se_catalog s);
                       c_ledgers := <[schema := l']> (c_ledgers (se_catalog s)); c_objects := o |}.
Proof.
  revert s l. induction names as [|name names IH]; intros s l Hnd Hl; simpl.
  { intros [= _ <-]. exists (c_objects (se_catalog s)), l. split; [done|]. split.
    - split; [by intros n ?%elem_of_nil|done].
    - rewrite insert_id by done. by destruct (se_catalog s). }
  apply NoDup_cons in Hnd as [Hn Hnd].
  intros ([] & s1 & (Hp & contents & Hf & Hm)%apply_migration_Ok & H2)%bind_Tx_Ok.
  assert (ledger schema (se_catalog s) = l) as El by (unfold ledger; by rewrite Hl).
  cbv zeta in Hm. rewrite El in Hm. destruct Hm as [[Hl1 Hc]|(Hl1 & o1 & Ho1 & Hc)].
  - apply IH with (l := l) in H2 as (o & l' & Ho & Hr & Hc'); [|done|by rewrite Hc].
    rewrite Hc, Hp in *. exists o, l'. unfold pending in *. rewrite filter_cons_False by (by rewrite Hl1).
    split; [done|]. split; [|done]. by eapply recorded_cons_known.
  - apply IH with (l := <[name := migrationChecksum contents]> l) in H2 as (o & l' & Ho & Hr & Hc');
      [|done|rewrite Hc; simpl; by rewrite lookup_insert_eq].
    rewrite Hc, Hp in *. simpl in *. rewrite pending_insert in Ho by done.
    exists o, l'. split.
    + unfold pending in *. rewrite filter_cons_True by done. simpl. rewrite Hf. simpl.
      by rewrite (run_all_app _ _ _ _ _ Ho1).
    + split; [by eapply recorded_cons_new|]. rewrite Hc'. by rewrite insert_insert_eq.
Qed.

Lemma migration_names_NoDup entries : NoDup (map en_Name entries) → NoDup (migration_names entries).
Proof.
  intros Hnd. unfold migration_names. rewrite merge_sort_Permutation.
  induction entries as [|f entries IH]; [constructor|]. simpl in Hnd. apply NoDup_cons in Hnd as [Hf Hnd].
  rewrite filter_cons. case_decide; [|by apply IH]. simpl. apply NoDup_cons. split; [|by apply IH].
  intros (g & Hg & Hin)%list_elem_of_fmap. apply list_elem_of_filter in Hin as [_ Hin].
  apply Hf. rewrite Hg. by apply list_elem_of_fmap_2.
Qed.

(** A transaction that reaches its commit. *)
Lemma migration_tx_Ok entries schema e c u s n :
  NoDup (map en_Name entries) →
  migration_tx entries schema e {| se_catalog := c; se_path := ε; se_tick := n |} = (Ok u, s) →
  migrated entries schema (me_others e c) (se_catalog s).
Proof.
  intros Hnd. unfold migration_tx.
  intros ([] & s1 & (n1 & H1)%execTx_Ok & H)%bind_Tx_Ok. injection H1 as <-.
  apply bind_Tx_Ok in H as ([] & s2 & (n2 & H2)%execTx_Ok & H). injection H2 as <-.
  apply bind_Tx_Ok in H as ([] & s3 & (n3 & H3)%execTx_Ok & H). injection H3 as <-.
  apply bind_Tx_Ok in H as ([] & s4 & (n4 & H4)%execTx_Ok & H). injection H4 as <-. simpl in H.
  eapply apply_migrations_Ok in H as (o & l' & Ho & Hr & Hc);
    [|by apply migration_names_NoDup|simpl; by rewrite lookup_insert_eq].
  simpl in *. exists o, l'. split_and!; [done|done|]. rewrite Hc. by rewrite insert_insert_eq.
Qed.

(** Calls that do not fail. *)
Lemma execTx_calm {A} text (stmt : menv → Session → go (A * Session)) e s :
  (∀ n, me_fault e n = NoFault) →
  execTx text stmt e s =
    match stmt e {| se_catalog := se_catalog s; se_path := se_path s; se_tick := S (se_tick s) |} with
    | Ok (a, s') => (Ok a, s')
    | Err er => (Err (wrapf text er),
                 {| se_catalog := se_catalog s; se_path := se_path s; se_tick := S (se_tick s) |})
    end.
Proof. intros Hf. unfold execTx. by rewrite Hf. Qed.

(** Files that are recorded are skipped. *)
Lemma apply_migrations_known entries schema names e s :
  (∀ n, me_fault e n = NoFault) →
  (∀ n, n ∈ names → ledger schema (se_catalog s) !! n = checksum_of entries n ∧
     is_Some (checksum_of entries n)) →
  ∃ n, apply_migrations entries schema names e s =
    (Ok tt, {| se_catalog := se_catalog s; se_path := se_path s; se_tick := n |}).
Proof.
  intros Hf. revert s. induction names as [|name names IH]; intros s Hk.
  { exists (se_tick s). by destruct s. }
  destruct (Hk name ltac:(left)) as [H1 H2]. simpl. unfold mbind at 1, Tx_bind, apply_migration.
  unfold checksum_of in H1, H2. destruct (file_of entries name) as [contents|]; [|by destruct H2].
  simpl in H1. unfold mbind at 1, Tx_bind. rewrite execTx_calm by done. unfold select_checksum. simpl.
  rewrite H1, (proj2 (str_eqb_true _ _) eq_refl). simpl.
  destruct (IH {| se_catalog := se_catalog s; se_path := se_path s; se_tick := S (se_tick s) |}) as [n Hn];
    [|by exists n]. intros k Hk'. apply Hk. by right.
Qed.

(** * The specification *)

(** The order of the bytes of two names. *)
Inductive before : string → string → Prop :=
| before_end c s : before ε (String c s)
| before_byte c d s t : ord c < ord d → before (String c s) (String d t)
| before_rest c s t : before s t → before (String c s) (String c t).

(** A migration file: a regular file whose name ends in .sql. *)
Definition migration_file (entries : list Entry) (file : string * string) : Prop :=
  ∃ f, f ∈ entries ∧ en_IsDir f = false ∧ (∃ stem, en_Name f = stem +:+ ".sql") ∧
    file = (en_Name f, en_Contents f).

(** The statements of a file: the texts between its markers, without the spaces around
    them and without the empty ones. *)
Definition file_statements (contents : string) (statements : list string) : Prop :=
  ∃ parts, cut_at "-- hookbound:statement" contents parts ∧
    statements = filter (λ t, t ≠ ε) (map TrimSpace parts).

(** [c'] is [c] with the schema, and with its ledger and the objects as the migration
    files leave them: [files] is the files in the order of their names, those that are
    not in the ledger are run, statement by statement, under a search path that
    PostgreSQL reads as the schema and its own catalog, and each is in the ledger with
    the hexadecimal SHA-256 of its contents. *)
Definition applied_once (entries : list Entry) (schema : string) (c c' : Catalog) : Prop :=
  ∃ files blocks path o l',
    (∀ file, file ∈ files ↔ migration_file entries file) ∧
    StronglySorted (λ x y, before x.1 y.1) files ∧
    Forall2 (λ file block, file_statements file.2 block)
      (filter (λ file, ledger schema c !! file.1 = None) files) blocks ∧
    read_identifier path = Some (schema, ", pg_catalog") ∧
    run_all path (concat blocks) (c_objects c) = Ok o ∧
    (∀ name contents, (name, contents) ∈ files →
       l' !! name = Some (hex_encode (sha256 contents)) ∧
       (ledger schema c !! name = None ∨ ledger schema c !! name = l' !! name)) ∧
    (∀ name, (∀ contents, (name, contents) ∉ files) → l' !! name = ledger schema c !! name) ∧
    c' = {| c_schemas := {[ schema ]} ∪ c_schemas c;
            c_ledgers := <[schema := l']> (c_ledgers c); c_objects := o |}.

(** ** The definitions meet it *)

Lemma str_leb_before x y : str_leb x y = true ↔ x = y ∨ before x y.
Proof.
  split.
  - revert y. induction x as [|c x IH]; intros [|d y]; simpl; [by left|right; constructor|done|].
    destruct (Z.ltb_spec (ord c) (ord d)); [by right; constructor|].
    destruct (Z.ltb_spec (ord d) (ord c)); [done|]. intros [->|Hb]%IH.
    + left. f_equal. apply ord_inj. lia.
    + right. assert (c = d) as -> by (apply ord_inj; lia). by constructor.
  - intros [->|Hb].
    + induction y as [|c y IH]; [done|]. simpl. by rewrite Z.ltb_irrefl.
    + induction Hb as [|c d s t Hlt|c s t _ IH]; simpl; [done|by rewrite (proj2 (Z.ltb_lt _ _) Hlt)|].
      by rewrite Z.ltb_irrefl.
Qed.

Lemma before_trans x y z : before x y → before y z → before x z.
Proof.
  intros H. revert z. induction H as [c s|c d s t Hlt|c s t _ IH]; intros z Hz; inversion Hz; subst;
    constructor; auto; lia.
Qed.

#[export] Instance name_le_trans : Transitive name_le.
Proof.
  intros x y z. unfold name_le. rewrite !str_leb_before.
  intros [->|H1] [->|H2]; eauto using before_trans.
Qed.

#[export] Instance name_le_total : Total name_le.
Proof.
  intros x y. unfold name_le. revert y.
  induction x as [|c x IH]; intros [|d y]; simpl; [by left..|by right|].
  destruct (Z.ltb_spec (ord c) (ord d)); [by left|].
  destruct (Z.ltb_spec (ord d) (ord c)); [by right|]. apply IH.
Qed.

Lemma has_suffix_stem suffix s : has_suffix suffix s = true ↔ ∃ stem, s = stem +:+ suffix.
Proof.
  unfold has_suffix. split.
  - intros H%has_prefix_true. set (t := str_drop _ _) in H. exists (str_rev t).
    rewrite <-(str_rev_involutive s), H, str_rev_append. by rewrite str_rev_involutive.
  - intros [stem ->]. by rewrite str_rev_append, has_prefix_app.
Qed.

Lemma elem_of_migration_names entries name :
  name ∈ migration_names entries ↔
  ∃ f, f ∈ entries ∧ en_IsDir f = false ∧ (∃ stem, en_Name f = stem +:+ ".sql") ∧ en_Name f = name.
Proof.
  unfold migration_names. rewrite merge_sort_Permutation.
  change (map en_Name) with (fmap (M := list) en_Name). rewrite list_elem_of_fmap. split.
  - intros (f & -> & [Hf Hin]%list_elem_of_filter). apply andb_true_iff in Hf as [Hd Hs].
    exists f. split_and!; [done|by apply negb_true_iff|by apply has_suffix_stem|done].
  - intros (f & Hin & Hd & Hs & <-). exists f. split; [done|]. apply list_elem_of_filter. split; [|done].
    rewrite Hd. simpl. by apply has_suffix_stem.
Qed.

Lemma file_of_unique entries f :
  NoDup (map en_Name entries) → f ∈ entries → file_of entries (en_Name f) = Some (en_Contents f).
Proof.
  intros Hnd Hin. unfold file_of. induction entries as [|g entries IH]; [by apply elem_of_nil in Hin|].
  simpl in Hnd. apply NoDup_cons in Hnd as [Hg Hnd]. cbn [list_find].
  destruct (decide (en_Name g = en_Name f)) as [E|E].
  - apply elem_of_cons in Hin as [->|Hin]; [done|]. exfalso. apply Hg. rewrite E.
    by apply (list_elem_of_fmap_2 en_Name).
  - apply elem_of_cons in Hin as [->|Hin]; [done|]. specialize (IH Hnd Hin). cbn [list_find].
    destruct (list_find (λ f0, en_Name f0 = en_Name f) entries) as [[i g']|] eqn:El; [|done].
    exact IH.
Qed.

(** The files of the names the runner goes through. *)
Definition named_files (entries : list Entry) : list (string * string) :=
  map (λ n, (n, default ε (file_of entries n))) (migration_names entries).

Lemma elem_of_named_files entries file :
  NoDup (map en_Name entries) → file ∈ named_files entries ↔ migration_file entries file.
Proof.
  intros Hnd. unfold named_files, migration_file.
  change (map (λ n, (n, default ε (file_of entries n)))) with
    (fmap (M := list) (λ n, (n, default ε (file_of entries n)))).
  rewrite list_elem_of_fmap. split.
  - intros (name & -> & (f & Hin & Hd & Hs & <-)%elem_of_migration_names). exists f.
    by rewrite (file_of_unique _ _ Hnd Hin).
  - intros (f & Hin & Hd & Hs & ->). exists (en_Name f). rewrite (file_of_unique _ _ Hnd Hin). split; [done|].
    apply elem_of_migration_names. by exists f.
Qed.

Lemma sorted_names_before names :
  NoDup names → StronglySorted name_le names →
  ∀ g : string → string, StronglySorted (λ x y, before x.1 y.1) (map (λ n, (n, g n)) names).
Proof.
  intros Hnd Hs g. induction Hs as [|n names Hs IH Hall]; simpl; [constructor|].
  apply NoDup_cons in Hnd as [Hn Hnd]. constructor; [by apply IH|].
  apply Forall_forall. intros file (m & -> & Hm)%(list_elem_of_fmap (λ n, (n, g n))). simpl.
  pose proof (proj1 (Forall_forall _ _) Hall m Hm) as Hle.
  by apply str_leb_before in Hle as [->|?].
Qed.

Lemma migrated_applied_once entries schema c c' :
  NoDup (map en_Name entries) → migrated entries schema c c' → applied_once entries schema c c'.
Proof.
  intros Hnd (o & l' & Hrun & [Hr1 Hr2] & ->).
  pose proof (elem_of_named_files entries) as Hfiles. specialize (λ file, Hfiles file Hnd).
  set (missing := filter (λ n, ledger schema c !! n = None) (migration_names entries)) in *.
  exists (named_files entries), (map (λ n, splitStatements (default ε (file_of entries n))) missing),
    (schemaSearchPath schema), o, l'. split_and!; try done.
  - apply sorted_names_before; [by apply migration_names_NoDup|].
    apply StronglySorted_merge_sort; apply _.
  - unfold named_files, missing. clear. induction (migration_names entries) as [|n names IH]; [constructor|].
    simpl. rewrite !filter_cons. simpl. case_decide; [|done]. constructor; [|done].
    destruct (splitStatements_spec (default ε (file_of entries n))) as (parts & Hc & ->). by exists parts.
  - unfold schemaSearchPath. by rewrite read_quoteIdentifier.
  - intros name contents Hin. pose proof Hin as Hfile. unfold named_files in Hin.
    apply (list_elem_of_fmap (λ n, (n, default ε (file_of entries n)))) in Hin as (n & [= -> Hcont] & Hn).
    destruct (Hr1 n Hn) as (Hck & Hsome & Hold). split; [|done].
    rewrite Hck in Hsome |- *. unfold checksum_of in *. destruct (file_of entries n) as [t|]; [|by destruct Hsome].
    by subst contents.
  - intros name Hnone. apply Hr2. intros Hn. eapply Hnone.
    apply (list_elem_of_fmap_2 (λ n, (n, default ε (file_of entries n)))) in Hn. exact Hn.
Qed.

(** * Properties *)

(** C34 Migrations are applied once, in order and whole: a successful run on a directory
    of distinct names leaves the configured schema, the ledger with every regular file
    whose name ends in .sql under the hexadecimal SHA-256 of its contents, and the
    objects after exactly the statements of those files that were not in the ledger -
    the non-blank texts between their statement markers, in their order, file after file
    in the byte order of the names - run under the search path of the schema; a failed
    run leaves the catalog as it or the others left it, or has done all of this and lost
    the reply to its commit.  A file whose recorded checksum differs is therefore never
    run again nor accepted. *)
Theorem migrations_are_applied_once entries has_db config e c :
  NoDup (map en_Name entries) →
  let done c' := ∃ schema, normalizeSchema config = Ok schema ∧
                   applied_once entries schema (me_others e c) c' in
  match MigrateWithConfig entries has_db config e c with
  | (Ok _, c') => done c'
  | (Err _, c') => c' = c ∨ c' = me_others e c ∨ done c'
  end.
Proof.
  intros Hnd done. unfold MigrateWithConfig. destruct has_db; simpl; [|by left].
  destruct (normalizeSchema config) as [schema|er] eqn:Es; [|by left].
  destruct (me_fault e 0); [|right; by left..].
  destruct (migration_tx _ _ _ _) as [[u|er] s] eqn:Et; [|right; by left].
  apply migration_tx_Ok, migrated_applied_once in Et; [|exact Hnd..].
  destruct (me_fault e (se_tick s)); [|right; by left|right; right]; by exists schema.
Qed.

(** Migrating again changes nothing: on a catalog that a migration left, with
    calls that do not fail, the same files under the same configuration are accepted
    and leave the catalog, its objects included, as it is. *)
Lemma migrating_again_changes_nothing entries config schema e c0 c :
  normalizeSchema config = Ok schema → migrated entries schema c0 c →
  (∀ n, me_fault e n = NoFault) → me_others e c = c →
  MigrateWithConfig entries true config e c = (Ok tt, c).
Proof.
  intros Hs (o & l' & _ & [Hr _] & ->) Hf Ho. set (c := {| c_schemas := _ |}) in *.
  unfold MigrateWithConfig. simpl. rewrite Hs, Hf. unfold migration_tx.
  assert (create_schema schema c = c) as Hcs.
  { unfold create_schema, c. simpl. f_equal. set_solver. }
  assert (ledger schema c = l') as Hl by (unfold ledger, c; simpl; by rewrite lookup_insert_eq).
  assert (set_ledger schema l' c = c) as Hsl.
  { unfold set_ledger, c. simpl. f_equal. by rewrite insert_insert_eq. }
  do 4 (unfold mbind at 1, Tx_bind at 1; rewrite execTx_calm by done; cbn [se_catalog set_catalog]).
  rewrite Ho, Hcs, Hl, Hsl.
  match goal with |- context [apply_migrations _ _ _ _ ?s] =>
    destruct (apply_migrations_known entries schema (migration_names entries) e s) as [n Hn] end; [done| |].
  - intros k Hk. cbn. rewrite Hl. destruct (Hr k Hk) as (H1 & H2 & _). rewrite <-H1. by split.
  - rewrite Hn, Hf. done.
Qed.
End migrate.

(** * Witnesses *)

(** The objects are the statements run so far. *)
Definition ex_ddl (path statement : string) (o : list string) : result error (list string) :=
  Ok (o ++ [statement]).
Definition ex_entries : list Entry :=
  [{| en_Name := "002_index.sql"; en_IsDir := false; en_Contents := "CREATE INDEX i" |};
   {| en_Name := "001_init.sql"; en_IsDir := false;
      en_Contents := "CREATE TABLE a -- hookbound:statement CREATE TABLE b" |};
   {| en_Name := "notes.md"; en_IsDir := false; en_Contents := "DROP TABLE a" |}].
Definition ex_catalog : @Catalog (list string) :=
  {| c_schemas := ∅; c_ledgers := ∅; c_objects := [] |}.
Definition ex_menv : @menv (list string) :=
  {| me_fault := λ _, NoFault; me_error := λ _, PlainError ε; me_others := λ c, c |}.
Definition ex_migrated : go unit * @Catalog (list string) :=
  MigrateWithConfig ex_ddl quoteIdentifier ex_entries true "hooks" ex_menv ex_catalog.

(** The files are run in the order of their names. *)
Example ex_migrated_objects :
  ex_migrated.1 = Ok tt ∧
  c_objects ex_migrated.2 = ["CREATE TABLE a"; "CREATE TABLE b"; "CREATE INDEX i"].
Proof. vm_compute. split; reflexivity. Qed.

(** An applied file that was changed is refused. *)
Example ex_changed_refused :
  is_ok (MigrateWithConfig ex_ddl quoteIdentifier
    [{| en_Name := "001_init.sql"; en_IsDir := false; en_Contents := "CREATE TABLE c" |}]
    true "hooks" ex_menv ex_migrated.2).1 = false.
Proof. vm_compute. reflexivity. Qed.

Lemma migrations_are_applied_once_witness :
  ∃ schema, normalizeSchema "hooks" = Ok schema ∧ applied_once ex_ddl ex_entries schema ex_catalog ex_migrated.2.
Proof.
  assert (NoDup (map en_Name ex_entries)) as Hnd.
  { apply (bool_decide_unpack _). vm_compute. exact I. }
  pose proof (migrations_are_applied_once ex_ddl quoteIdentifier ex_entries true "hooks" ex_menv ex_catalog Hnd) as H.
  unfold ex_migrated. assert (is_ok ex_migrated.1 = true) as Hok by (vm_compute; reflexivity).
  unfold ex_migrated in Hok. destruct (MigrateWithConfig _ _ _ _ _ _ _) as [[u|er] c']; [exact H|discriminate Hok].
Defined.

Lemma ex_was_migrated : migrated ex_ddl ex_entries "hooks" ex_catalog ex_migrated.2.
Proof.
  destruct (ex_migrated.1) as [u|er] eqn:E; [|vm_compute in E; discriminate E].
  assert (∃ s, migration_tx ex_ddl quoteIdentifier ex_entries "hooks" ex_menv
    {| se_catalog := ex_catalog; se_path := ε; se_tick := 1 |} = (Ok tt, s) ∧ ex_migrated.2 = se_catalog s)
    as (s & Hs & ->) by (eexists; split; vm_compute; reflexivity).
  eapply migration_tx_Ok in Hs; [exact Hs|]. apply (bool_decide_unpack _). vm_compute. exact I.
Qed.

Lemma migrating_again_changes_nothing_witness :
  MigrateWithConfig ex_ddl quoteIdentifier ex_entries true "hooks" ex_menv ex_migrated.2 = (Ok tt, ex_migrated.2).
Proof.
  assert (normalizeSchema "hooks" = Ok "hooks") as Hs by (vm_compute; reflexivity).
  pose proof (migrating_again_changes_nothing ex_ddl quoteIdentifier ex_entries "hooks" "hooks" ex_menv
    ex_catalog ex_migrated.2 Hs ex_was_migrated (λ _, eq_refl) eq_refl) as H.
  exact H.
Defined.
