(* ===== verification/PgRuntime.v ===== *)
(** src/postgres/runtime.go: the configuration of the worker runtime and one round
    of an outbound and of an inbound worker.

    The heartbeat goroutine is PgHeartbeat.v; here it appears as the lease renewals
    it makes while the worker sends or handles, which touch the tables, and the
    error it ends with.  The contexts are the environment's: a call cancelled by one
    is a call that fails. *)

From S2P Require Import Prelude GoString Codec GoTime Errors Transport Headers Message Retry Outcome Handler.
From S2P Require Import Auth Receiver Standard Sender.
From S2P Require Import PgText PgModel PgOutbound PgInbound.

(** * Panics *)

(** [panicCause]: the panic's value and the stack as text. *)
Definition panicCause (recovered : string) : error := PlainError ("panic: " +:+ recovered).

(** What [Send] does: it returns, or a signer, authenticator, client or classifier
    it calls panics. *)
Inductive send_outcome : Type :=
| SendReturned (result : AttemptResult) (err : option error)
| SendPanicked (value : string).

Definition panicked_result : AttemptResult :=
  {| ar_MessageID := ε; ar_AttemptedAt := zero_time; ar_Outcome := 0; ar_StatusCode := 0;
     ar_Duration := 0; ar_RetryAt := zero_time; ar_ResponseHeader := ∅; ar_ResponseBody := ε;
     ar_ErrorCode := CodeInternal |}.

Definition sendSafely (o : send_outcome) : AttemptResult * option error :=
  match o with
  | SendReturned result err => (result, err)
  | SendPanicked v =>
      (panicked_result,
       Some (NewError CodeInternal "outbound delivery panicked" (Some (panicCause v))))
  end.

Definition handleSafely (o : outcome_of_call) : option error :=
  match o with
  | Returned err => err
  | Panicked v => Some (NewError CodeHandler "inbound handler panicked" (Some (panicCause v)))
  end.

Definition renewLeaseSafely (o : outcome_of_call) : option error :=
  match o with
  | Returned err => err
  | Panicked v => Some (NewError CodeInternal "lease renewal panicked" (Some (panicCause v)))
  end.

(** What a round of a worker does: it returns [worked] and an error, or panics. *)
Inductive work_outcome : Type :=
| WorkReturned (worked : bool) (err : option error)
| WorkPanicked (value : string).

Definition runWorkSafely (o : work_outcome) : bool * option error :=
  match o with
  | WorkReturned worked err => (worked, err)
  | WorkPanicked v =>
      (false, Some (NewError CodeInternal "durable worker panicked" (Some (panicCause v))))
  end.

Definition minDuration (left right : duration) : duration := if left <? right then left else right.

Section runtime.
(** The types a sender is made of, and the state of the inbound handler. *)
Context {RoundTripper RedirectFn Proxy DialerRest TLSRest : Type} {A : Type}.
Abbreviation sender_of := (@Sender RoundTripper RedirectFn Proxy DialerRest TLSRest).

(** * Configuration *)

(** [RuntimeConfig], without the logger; [None] is nil. *)
Record RuntimeConfig := {
  rc_Store : option Store;
  rc_Sender : option sender_of;
  rc_InboundHandler : option (Handler A);
  rc_RetryPolicy : RetryPolicy;
  rc_LeaseDuration : duration;
  rc_LeaseRenewalInterval : duration;
  rc_LeaseRenewalTimeout : duration;
  rc_PollInterval : duration;
  rc_CompletionTimeout : duration;
  rc_OutboundWorkers : Z;
  rc_InboundWorkers : Z
}.

Record Runtime := {
  rt_store : Store;
  rt_sender : option sender_of;
  rt_inbound : option (Handler A);
  rt_retry : RetryPolicy;
  rt_lease : duration;
  rt_renewal : duration;
  rt_renewalTimeout : duration;
  rt_poll : duration;
  rt_completion : duration;
  rt_outboundCount : Z;
  rt_inboundCount : Z
}.

Definition misconfigured (message : string) : error := NewError CodeInvalidConfiguration message None.

(** The lease durations: the lease, the renewal interval and its timeout. *)
Definition lease_durations (config : RuntimeConfig) : go (duration * duration * duration) :=
  let lease := if rc_LeaseDuration config <=? 0 then Minute else rc_LeaseDuration config in
  _ ← reject ((rc_LeaseRenewalInterval config <? 0) || (rc_LeaseRenewalTimeout config <? 0))
        (misconfigured "lease renewal durations cannot be negative");
  let interval := if rc_LeaseRenewalInterval config =? 0 then Z.quot lease 3
                  else rc_LeaseRenewalInterval config in
  _ ← reject ((interval <=? 0) || (lease <=? interval))
        (misconfigured "lease renewal interval must be positive and shorter than the lease");
  let timeout := if rc_LeaseRenewalTimeout config =? 0 then minDuration (5 * Second) interval
                 else rc_LeaseRenewalTimeout config in
  _ ← reject (lease - interval <=? timeout)
        (misconfigured "lease renewal interval plus timeout must be shorter than the lease");
  Ok (lease, interval, timeout).

(** [NewRuntime]; [random] is what the standard policy's jitter reads. *)
Definition NewRuntime (random : option Z) (config : RuntimeConfig) : go Runtime :=
  store ← of_option (misconfigured "durable store is required") (rc_Store config);
  _ ← reject (bool_decide (rc_Sender config = None) && negb (rc_OutboundWorkers config =? 0))
        (misconfigured "sender is required for outbound workers");
  _ ← reject (bool_decide (rc_InboundHandler config = None) && negb (rc_InboundWorkers config =? 0))
        (misconfigured "inbound handler is required for inbound workers");
  let policy := rc_RetryPolicy config in
  let policy := if (rp_MaxAttempts policy =? 0) && (length (rp_Schedule policy) =? 0)%nat
                then StandardRetryPolicy random else policy in
  '(lease, interval, timeout) ← lease_durations config;
  _ ← reject ((rc_OutboundWorkers config <? 0) || (rc_InboundWorkers config <? 0))
        (misconfigured "worker counts cannot be negative");
  let workers (count : Z) (present : bool) := if (count =? 0) && present then 4 else count in
  Ok {| rt_store := store; rt_sender := rc_Sender config; rt_inbound := rc_InboundHandler config;
        rt_retry := policy; rt_lease := lease; rt_renewal := interval; rt_renewalTimeout := timeout;
        rt_poll := if rc_PollInterval config <=? 0 then 250 * Millisecond else rc_PollInterval config;
        rt_completion := if rc_CompletionTimeout config <=? 0 then 10 * Second
                         else rc_CompletionTimeout config;
        rt_outboundCount := workers (rc_OutboundWorkers config) (bool_decide (is_Some (rc_Sender config)));
        rt_inboundCount :=
          workers (rc_InboundWorkers config) (bool_decide (is_Some (rc_InboundHandler config))) |}.

(** * Rounds *)

(** The result of an operation as a value. *)
Definition outcome_of {B} (m : M B) : M (go B) := λ e w, let '(r, w') := m e w in (Ok r, w').

(** A call that returned. *)
Definition returned (r : go unit) : outcome_of_call :=
  Returned (match r with Ok _ => None | Err err => Some err end).

Definition renewal_failed (err : error) : error :=
  NewError CodePersistence "renew durable worker lease" (Some err).

(** The renewals of a heartbeat whose timer fires [ticks] times before it is
    stopped: they end with the first one that fails, and leave an error unless the
    worker's context had ended by then. *)
Fixpoint renewals (renew : M unit) (cancelled : bool) (ticks : nat) : M (option error) :=
  match ticks with
  | O => mret None
  | S ticks' =>
      r ← outcome_of renew;
      match renewLeaseSafely (returned r) with
      | None => renewals renew cancelled ticks'
      | Some err => mret (if cancelled then None else Some (renewal_failed err))
      end
  end.

(** What a round does not control: how often the heartbeat's timer fires and whether
    the worker's context has ended when a renewal fails. *)
Record heartbeat_env := { hb_ticks : nat; hb_cancelled : bool }.

(** The request of a claimed delivery. *)
Definition claimed_request (c : ClaimedDelivery) : SendRequest :=
  {| sr_ID := cd_MessageID c; sr_URL := cd_Destination c; sr_EventType := cd_EventType c;
     sr_Body := cd_Body c; sr_ContentType := cd_ContentType c; sr_Headers := cd_Headers c;
     sr_Auth := None |}.

Section outbound.
(** [s.Send(request)]: the requests given to the HTTP client, and the outcome. *)
Context (send : sender_of → SendRequest → list HTTPRequest * send_outcome).

(** After the claim: the requests made, [worked] and the error. *)
Definition work_claimed (r : Runtime) (s : sender_of) (h : heartbeat_env) (c : ClaimedDelivery)
    : M (list HTTPRequest * (bool * option error)) :=
  renewErr ← renewals (RenewDeliveryLease (rt_store r) (Some c) (rt_lease r)) (hb_cancelled h) (hb_ticks h);
  let '(calls, o) := send s (claimed_request c) in
  let '(result, sendErr) := sendSafely o in
  match renewErr with
  | Some err => mret (calls, (true, Some err))
  | None =>
      done ← outcome_of (CompleteDelivery (rt_store r) (Some c) result sendErr (rt_retry r));
      mret (calls, (true, match done with Ok _ => None | Err err => Some err end))
  end.

(** [(r *Runtime) WorkOutboundOnce]; [None] is a nil runtime. *)
Definition WorkOutboundOnce (r : option Runtime) (h : heartbeat_env)
    : M (list HTTPRequest * (bool * option error)) :=
  match r ≫= (λ r, s ← rt_sender r; Some (r, s)) with
  | None => mret ([], (false, Some (misconfigured "outbound sender is not configured")))
  | Some (r, s) =>
      claimed ← outcome_of (ClaimDelivery (rt_store r) (rt_lease r));
      match claimed with
      | Err err => mret ([], (false, Some err))
      | Ok None => mret ([], (false, None))
      | Ok (Some c) => work_claimed r s h c
      end
  end.
End outbound.

(** [(r *Runtime) WorkInboundOnce] from the handler's state [a], on a runtime that is
    not nil (there is no test for it, and it would panic): the messages given to the
    handler, its state, [worked] and the error. *)
Definition WorkInboundOnce (r : Runtime) (h : heartbeat_env) (a : A)
    : M (list VerifiedMessage * A * (bool * option error)) :=
  match rt_inbound r with
  | None => mret ([], a, (false, None))
  | Some handler =>
      claimed ← outcome_of (ClaimReceipt (rt_store r) (rt_lease r));
      match claimed with
      | Err err => mret ([], a, (false, Some err))
      | Ok None => mret ([], a, (false, None))
      | Ok (Some c) =>
          renewErr ← renewals (RenewReceiptLease (rt_store r) (Some c) (rt_lease r)) (hb_cancelled h)
                       (hb_ticks h);
          let '(o, a') := handler (cr_Message c) a in
          match renewErr with
          | Some err => mret ([cr_Message c], a', (true, Some err))
          | None =>
              done ← outcome_of (CompleteReceipt (rt_store r) (Some c) (handleSafely o) (rt_retry r));
              mret ([cr_Message c], a', (true, match done with Ok _ => None | Err err => Some err end))
          end
      end
  end.

(** The delay of [runLoop] after a round. *)
Definition loop_delay (r : Runtime) (o : work_outcome) : duration :=
  let '(worked, err) := runWorkSafely o in
  if negb worked || bool_decide (is_Some err) then rt_poll r else 0.

(** [(r *Runtime) runLoop] whose context ends after [rounds] rounds of [work] from the
    state [s]: the delays the timer is set to, and the state.  A failed round is
    only logged. *)
Fixpoint runLoop {W : Type} (r : Runtime) (work : W → work_outcome * W) (rounds : nat) (s : W)
    : list duration * W :=
  match rounds with
  | O => ([], s)
  | S rounds' =>
      let '(o, s') := work s in
      let '(delays, s'') := runLoop r work rounds' s' in
      (loop_delay r o :: delays, s'')
  end.

(** The loops [Run] starts: the kind and the index of each. *)
Definition workers (r : Runtime) : list (string * Z) :=
  map (λ i, ("outbound", i)) (seqZ 0 (rt_outboundCount r)) ++
  map (λ i, ("inbound", i)) (seqZ 0 (rt_inboundCount r)).

(** [(r *Runtime) Run] up to the end of its context: the loops it started and waits
    for. *)
Definition Run (r : option Runtime) : go (list (string * Z)) :=
  r ← of_option (misconfigured "runtime is nil") r; Ok (workers r).

(** The store as the handler of a receiver: the handler of [hookbound.ReceiverConfig]
    is the interface that [(s *Store) Handle] implements. *)
Definition store_handler (s : Store) (e : env) : Handler world := λ m w,
  let '(r, w') := Handle s m e w in (returned r, w').

(** [(r *Runtime) Receiver]; [clock] is the system clock. *)
Definition runtime_receiver (r : Runtime) (e : env) (clock : world → time * world) (verifier : option (Verifier world))
    : go (Receiver world) :=
  NewReceiver clock {| rc_Verifier := verifier; rc_Handler := Some (store_handler (rt_store r) e);
                 rc_ReplayGuard := None; rc_Clock := None; rc_MaxBodyBytes := 0; rc_ReplayTTL := 0;
                 rc_SuccessStatus := 0; rc_ErrorResponder := None |}.
End runtime.

(** * The sender of a runtime *)

(** [sender.Send] in a round: its environment, and the value of a panic of the code
    it calls, before or after the request was given to the client. *)
Record send_env {RoundTripper RedirectFn : Type} := {
  se_environment : @environment RoundTripper RedirectFn;
  se_panic : option (bool * string)
}.
Arguments send_env : clear implicits.

Definition sender_send {RoundTripper RedirectFn Proxy DialerRest TLSRest : Type}
    (DefaultResolver : Resolver) `{HeaderOrder} (url_Parse : string → go URL)
    (e : send_env RoundTripper RedirectFn)
    (s : @Sender RoundTripper RedirectFn Proxy DialerRest TLSRest) (request : SendRequest)
    : list HTTPRequest * send_outcome :=
  let '(calls, (result, err)) := Send DefaultResolver url_Parse (Some s) (se_environment e) request in
  match se_panic e with
  | None => (calls, SendReturned result err)
  | Some (after, v) => (if after : bool then calls else [], SendPanicked v)
  end.
