(* ===== verification/PgRuntimeProps.v ===== *)
(** What the worker runtime guarantees: its configuration, one outbound round from
    claim to completion, and that what is sent is what was published. *)

From S2P Require Import Prelude GoString Codec GoTime Errors Transport Headers Message Retry Outcome Handler.
From S2P Require Import Auth Receiver Standard Sender.
From S2P Require Import PgText PgModel PgOutbound PgInbound PgSpec PgRefine PgProps PgOutbox PgOutboxProps PgRuntime.

(** * Operations as values *)

Lemma op_outcome_of {B} P e (m : M B) : op_ok P e m → op_ok P e (outcome_of m).
Proof.
  intros Hm db0 db Hs n. specialize (Hm db0 db Hs n). unfold outcome_of.
  by destruct (m e _) as [[b|er] w].
Qed.

Lemma wp_outcome_of {B} e (m : M B) (Q : go B → DB → option DB → Prop) X db tx :
  wp e m (λ b, Q (Ok b)) (λ er, Q (Err er)) db tx → wp e (outcome_of m) Q X db tx.
Proof.
  intros H n. specialize (H n). unfold outcome_of. by destruct (m e _) as [[b|er] w].
Qed.

(** An operation leaves no transaction open. *)
Lemma wp_closed {B} e (m : M B) (Q : B → DB → Prop) (X : error → DB → Prop) db :
  op_ok (λ _, True) e m → wp e m (λ b db' _, Q b db') (λ er db' _, X er db') db None →
  wp e m (λ b db' tx', tx' = None ∧ Q b db') (λ er db' tx', tx' = None ∧ X er db') db None.
Proof.
  intros Hm H n. specialize (H n). specialize (Hm db db (rtc_refl _ _) n).
  destruct (m e _) as [[b|er] w]; destruct Hm; by split.
Qed.

Section rounds.
Context {RoundTripper RedirectFn Proxy DialerRest TLSRest : Type} {A : Type}.
Abbreviation sender_of := (@Sender RoundTripper RedirectFn Proxy DialerRest TLSRest).
Abbreviation runtime_of := (@Runtime RoundTripper RedirectFn Proxy DialerRest TLSRest A).
Context (e : env) (send : sender_of → SendRequest → list HTTPRequest * send_outcome).

(** What a round's steps are for. *)
Definition outbound_events (ev : event) : Prop :=
  match ev with
  | EvClaim due => ∃ n, due = en_timestamptz e (en_clock e n)
  | EvRenew _ | EvComplete _ => True
  | _ => False
  end.
Definition inbound_events (ev : event) : Prop :=
  match ev with
  | EvClaimReceipt due => ∃ n, due = en_timestamptz e (en_clock e n)
  | EvRenewReceipt _ _ | EvCompleteReceipt _ _ => True
  | _ => False
  end.

Lemma renewals_ok P renew cancelled ticks : op_ok P e renew → op_ok P e (renewals renew cancelled ticks).
Proof.
  intros Hr. induction ticks as [|n IH]; simpl; [apply op_mret|].
  apply op_bind; [by apply op_outcome_of|]. intros [u|er]; [done|apply op_mret].
Qed.

Lemma WorkOutboundOnce_ok (r : option runtime_of) h : op_ok outbound_events e (WorkOutboundOnce send r h).
Proof.
  unfold WorkOutboundOnce. destruct (_ ≫= _) as [[rt s]|]; [|apply op_mret].
  apply op_bind; [apply op_outcome_of, ClaimDelivery_ok; simpl; eauto|].
  intros [[c|]|er]; [|apply op_mret..]. unfold work_claimed.
  apply op_bind; [by apply renewals_ok, RenewDeliveryLease_ok|]. intros renewErr.
  destruct (send s _) as [calls o]. destruct (sendSafely o) as [result sendErr].
  destruct renewErr; [apply op_mret|].
  apply op_bind; [by apply op_outcome_of, CompleteDelivery_ok|]. intros done. apply op_mret.
Qed.

Lemma WorkInboundOnce_ok (r : runtime_of) h (a : A) : op_ok inbound_events e (WorkInboundOnce r h a).
Proof.
  unfold WorkInboundOnce. destruct (rt_inbound r) as [handler|]; [|apply op_mret].
  apply op_bind; [apply op_outcome_of, ClaimReceipt_ok; simpl; eauto|].
  intros [[c|]|er]; [|apply op_mret..].
  apply op_bind; [by apply renewals_ok, RenewReceiptLease_ok|]. intros renewErr.
  destruct (handler _ a) as [o a']. destruct renewErr; [apply op_mret|].
  apply op_bind; [by apply op_outcome_of, CompleteReceipt_ok|]. intros done. apply op_mret.
Qed.

(** Whatever fails and whatever other sessions commit, a round leaves no transaction
    open and moves the tables by claims, renewals and completions and by those commits. *)
Lemma rounds_refine_machine (r : runtime_of) h (a : A) n db :
  let out := after e (WorkOutboundOnce send (Some r) h) n db in
  let inn := after e (WorkInboundOnce r h a) n db in
  (out.2 = None ∧ steps outbound_events e db out.1) ∧ (inn.2 = None ∧ steps inbound_events e db inn.1).
Proof. split; apply after_ok; [apply WorkOutboundOnce_ok|apply WorkInboundOnce_ok]. Qed.

(** ** An outbound round while other sessions are quiet *)

Context (Hq : quiet e).

(** The renewals of claim [c], one after the other. *)
Definition renewed_often (lease : duration) (c : ClaimedDelivery) : DB → DB → Prop :=
  rtc (renewed e lease c).

Lemma renewals_spec s c lease cancelled ticks X db :
  wp e (renewals (RenewDeliveryLease s (Some c) lease) cancelled ticks)
    (λ _ db' tx', tx' = None ∧ renewed_often lease c db db') X db None.
Proof.
  revert db. induction ticks as [|n IH]; intros db; simpl; [apply wp_mret; split; [done|apply rtc_refl]|].
  assert (wp e (RenewDeliveryLease s (Some c) lease)
    (λ _ db' tx', tx' = None ∧ renewed_often lease c db db')
    (λ _ db' tx', tx' = None ∧ renewed_often lease c db db') db None) as Hr.
  { apply wp_closed; [by apply RenewDeliveryLease_ok|].
    eapply wp_mono; [by apply RenewDeliveryLease_spec|..]; simpl.
    - intros _ db' _ [_ H]. by apply rtc_once.
    - intros _ db' _ [->|[_ H]]; [apply rtc_refl|by apply rtc_once]. }
  apply wp_bind, wp_outcome_of. eapply wp_mono; [exact Hr|..].
  - intros u db' tx' [-> H1]. simpl. eapply wp_mono; [apply IH| |done].
    intros o db'' tx'' [-> H2]. split; [done|]. by etransitivity.
  - intros er db' tx' [-> H1]. by apply wp_mret.
Qed.

(** The result and the error that a round records of the call of [Send] that ended in
    [o]: those it returned, or an internal error and no outcome when it panicked. *)
Definition reported (o : send_outcome) (result : AttemptResult) (sendErr : option error) : Prop :=
  match o with
  | SendReturned r e => result = r ∧ sendErr = e
  | SendPanicked _ => ar_Outcome result = 0 ∧ ErrorCode sendErr = CodeInternal
  end.

(** A round that claimed [c]: the renewals lead to [db2], the sender is called once
    with the claim's request, and the tables are [db2] or those of the completion of
    [c] with the sender's result on [db2], the latter when no error is returned. *)
Definition round_of (r : runtime_of) (s : sender_of) (db : DB) (c : ClaimedDelivery)
    (calls : list HTTPRequest) (err : option error) (db' : DB) : Prop :=
  ∃ db1 db2 o,
    claimed_from e (rt_lease r) db db1 c ∧ renewed_often (rt_lease r) c db1 db2 ∧
    send s (claimed_request c) = (calls, o) ∧
    let '(result, sendErr) := sendSafely o in
    let done := completed e (rt_store r) c result sendErr (rt_retry r) db2 db' in
    reported o result sendErr ∧ (err = None → done ∧ on_record (rt_store r) c result db') ∧
    (db' = db2 ∨ done).

Lemma sendSafely_reported o result sendErr :
  sendSafely o = (result, sendErr) → reported o result sendErr.
Proof. destruct o; intros [= <- <-]; by split. Qed.

Lemma WorkOutboundOnce_spec (r : runtime_of) h db X :
  db_wf db → 0 < rt_lease r →
  wp e (WorkOutboundOnce send (Some r) h)
    (λ res db' _,
       let '(calls, (worked, err)) := res in
       if worked : bool
       then ∃ s c, rt_sender r = Some s ∧ round_of r s db c calls err db'
       else calls = [] ∧ (err = None → db' = db) ∧
            (db' = db ∨ ∃ c, claimed_from e (rt_lease r) db db' c))
    X db None.
Proof.
  intros Hwf Hl. unfold WorkOutboundOnce. destruct (rt_sender r) as [s|] eqn:Es; cbn [mbind option_bind].
  2: { rewrite Es. cbn. apply wp_mret. split; [done|]. split; [done|by left]. }
  rewrite Es. cbn [mbind option_bind]. apply wp_bind, wp_outcome_of.
  pose proof (ClaimDelivery_spec e (rt_store r) (rt_lease r) db Hq Hwf) as Hc. cbv zeta in Hc.
  rewrite (proj2 (Z.leb_gt (rt_lease r) 0)) in Hc by lia.
  eapply wp_mono; [exact (wp_closed _ _ _ _ _ (ClaimDelivery_ok (λ _, True) _ _ _ (λ _, I)) Hc)|..].
  2: { intros er db' tx' [-> Hdb]. apply wp_mret. split; [done|]. by split. }
  intros [c|] db1 tx' [-> Hclaim].
  2: { destruct Hclaim as [-> _]. apply wp_mret. split; [done|]. split; [done|by left]. }
  destruct Hclaim as [Hclaim _]. unfold work_claimed. apply wp_bind.
  eapply wp_mono; [apply (renewals_spec _ _ _ _ _ (λ _ _ _, False))|..|done].
  intros renewErr db2 tx' [-> Hren]. destruct (send s (claimed_request c)) as [calls o] eqn:Esend.
  destruct (sendSafely o) as [result sendErr] eqn:Eo.
  assert (∀ err db', (err = None → completed e (rt_store r) c result sendErr (rt_retry r) db2 db') →
    db' = db2 ∨ completed e (rt_store r) c result sendErr (rt_retry r) db2 db' →
    ∃ s0 c0, Some s = Some s0 ∧ round_of r s0 db c0 calls err db') as Hround.
  { intros err db' H1 H2. exists s, c. split; [done|]. exists db1, db2, o. rewrite Eo.
    split; [done|]. split; [done|]. split; [done|]. split; [by apply sendSafely_reported|].
    split; [|done]. intros He. split; [by apply H1|by eapply completed_on_record, H1]. }
  destruct renewErr as [err|]; [apply wp_mret, Hround; [done|by left]|].
  apply wp_bind, wp_outcome_of. eapply wp_mono; [by apply CompleteDelivery_spec|..].
  - intros u db' tx' Hd. apply wp_mret, Hround; [done|by right].
  - intros er db' tx' Hd. apply wp_mret, Hround; [done|exact Hd].
Qed.
End rounds.

(** * The loop of a worker *)

(** A panic ends a round, never the loop: the timer is set again after every round,
    to the poll interval after one that failed, panicked or found nothing to do. *)
Lemma runLoop_goes_on {RoundTripper RedirectFn Proxy DialerRest TLSRest A W : Type}
    (r : @Runtime RoundTripper RedirectFn Proxy DialerRest TLSRest A) (work : W → work_outcome * W) rounds s :
  length (runLoop r work rounds s).1 = rounds ∧
  Forall (λ d, d = rt_poll r ∨ d = 0) (runLoop r work rounds s).1.
Proof.
  revert s. induction rounds as [|n IH]; intros s; simpl; [by split|].
  destruct (work s) as [o s'] eqn:Ew. specialize (IH s'). destruct (runLoop r work n s') as [delays s''].
  destruct IH as [IH1 IH2]. simpl in *. split; [by rewrite IH1|]. constructor; [|done].
  unfold loop_delay. destruct (runWorkSafely o) as [worked err]. destruct (_ || _); auto.
Qed.

Lemma loop_delay_panic {RoundTripper RedirectFn Proxy DialerRest TLSRest A : Type}
    (r : @Runtime RoundTripper RedirectFn Proxy DialerRest TLSRest A) v :
  loop_delay r (WorkPanicked v) = rt_poll r.
Proof. reflexivity. Qed.

(** * What a round sends *)

Section sending.
Context {RoundTripper RedirectFn Proxy DialerRest TLSRest A : Type}.
Abbreviation sender_of := (@Sender RoundTripper RedirectFn Proxy DialerRest TLSRest).
Abbreviation runtime_of := (@Runtime RoundTripper RedirectFn Proxy DialerRest TLSRest A).
Context (DefaultResolver : Resolver) `{HeaderOrder} (url_Parse : string → go URL).
Context (se : send_env RoundTripper RedirectFn).

(** The sender of the round, whose calls are those of [Send] or none. *)
Lemma sender_send_calls (s : sender_of) request :
  let '(calls, _) := sender_send DefaultResolver url_Parse se s request in
  calls = [] ∨ calls = (Send DefaultResolver url_Parse (Some s) (se_environment se) request).1.
Proof.
  unfold sender_send. destruct (Send _ _ _ _ _) as [calls [r err]].
  destruct (se_panic se) as [[[] v]|]; auto.
Qed.

(** The request that carries claim [c], as the authenticator of [s] leaves it. *)
Definition carries (s : sender_of) (c : ClaimedDelivery) (req : HTTPRequest) : Prop :=
  (∃ built, hr_Method built = "POST" ∧ hr_URL built = cd_Destination c ∧ hr_Body built = cd_Body c ∧
     applied (s_authenticator s) built req) ∧
  (repository_auth (s_authenticator s) →
     hr_Method req = "POST" ∧ hr_URL req = cd_Destination c ∧ hr_Body req = cd_Body c).

(** A request of the round is the one [Send] gives the client. *)
Lemma round_request (s : sender_of) c calls o req :
  sender_send DefaultResolver url_Parse se s (claimed_request c) = (calls, o) → req ∈ calls →
  (Send DefaultResolver url_Parse (Some s) (se_environment se) (claimed_request c)).1 = [req] ∧ carries s c req.
Proof.
  intros Hs Hin. pose proof (sender_send_calls s (claimed_request c)) as Hc. rewrite Hs in Hc.
  destruct Hc as [->| ->]; [by apply elem_of_nil in Hin|].
  pose proof (Send_calls DefaultResolver url_Parse (Some s) (se_environment se) (claimed_request c)) as Hcalls.
  destruct (Send _ _ _ _ _) as [calls' r]. simpl in *.
  destruct Hcalls as [->|(s0 & h & req' & [= <-] & -> & Ha)]; [by apply elem_of_nil in Hin|].
  apply list_elem_of_singleton in Hin as ->. split; [done|]. unfold effective_auth in Ha. simpl in Ha. split.
  - by eexists; split_and!; [..|exact Ha].
  - intros Hrepo. exact (applied_repository _ _ _ Hrepo Ha).
Qed.

Lemma round_calls e (r : runtime_of) s db c calls err db' :
  round_of e (sender_send DefaultResolver url_Parse se) r s db c calls err db' →
  calls = [] ∨ ∃ req, calls = [req] ∧ carries s c req.
Proof.
  intros (db1 & db2 & o & _ & _ & Hs & _). destruct calls as [|req calls]; [by left|right].
  destruct (round_request s c _ o req Hs ltac:(left)) as (Hcall & Hrest). exists req.
  pose proof (sender_send_calls s (claimed_request c)) as Hc. rewrite Hs in Hc.
  destruct Hc as [Hc|Hc]; [discriminate Hc|]. rewrite Hcall in Hc. by split.
Qed.

(** The content of a claimed delivery that was published as [request]. *)
Lemma claimed_publication e lease request keyHash p db1 db2 db3 c :
  db_wf db1 → stored_as request keyHash db1 p → lifetime (pub_DeliveryID p) db1 db2 →
  claimed_from e lease db2 db3 c → cd_DeliveryID c = pub_DeliveryID p →
  cd_Destination c = sr_URL request ∧ cd_Body c = sr_Body request ∧
  cd_EventType c = sr_EventType request ∧ cd_ContentType c = content_type request ∧
  cd_MessageID c = pub_MessageID p ∧
  canonicalHeaders (cd_Headers c) = canonicalHeaders (canonicalHeaders (sr_Headers request)).
Proof.
  intros Hwf (d & m & Hd & _ & Hm & Hp & Hsame) Hl (n & now & d' & m' & (Hd' & _) & Hm' & _ & _ & ->) Hid.
  simpl in Hid. rewrite Hid in Hd'.
  destruct (lifetime_evolves _ _ _ _ _ _ Hwf Hd Hl Hd' Hm) as [(E1 & E2 & E3 & _) Hm2].
  rewrite Hm' in Hm2. injection Hm2 as ->. simpl. rewrite E1, E2, E3.
  unfold same_publication, stored_request, str_eqb in Hsame. simpl in Hsame. rewrite !andb_true_iff, !bool_decide_eq_true in Hsame.
  destruct Hsame as (((((S1 & S2) & S3) & S4) & S5) & _). split_and!; congruence.
Qed.

Lemma lease_durations_Ok (config : @RuntimeConfig RoundTripper RedirectFn Proxy DialerRest TLSRest A)
    lease interval timeout :
  lease_durations config = Ok (lease, interval, timeout) →
  0 < interval ∧ 0 < timeout ∧ interval + timeout < lease.
Proof.
  unfold lease_durations. set (l := if rc_LeaseDuration config <=? 0 then _ else _).
  set (i := if rc_LeaseRenewalInterval config =? 0 then _ else _). clearbody l i.
  intros Hd. go_inv. rewrite !Z.leb_gt, !Z.ltb_ge in *. unfold minDuration, Second in *.
  destruct (Z.eqb_spec (rc_LeaseRenewalTimeout config) 0); [|lia].
  destruct (Z.ltb_spec (5 * 1000000000) interval); lia.
Qed.

Lemma lease_durations_Err (config : @RuntimeConfig RoundTripper RedirectFn Proxy DialerRest TLSRest A) err :
  lease_durations config = Err err → ErrorCode (Some err) = CodeInvalidConfiguration.
Proof. unfold lease_durations. intros H0. go_err; reflexivity. Qed.

Lemma worker_count {B} (x : option B) n :
  bool_decide (x = None) && negb (n =? 0) = false → (n <? 0) = false →
  let k := if (n =? 0) && bool_decide (is_Some x) then 4 else n in 0 ≤ k ∧ (0 < k ↔ is_Some x).
Proof.
  rewrite Z.ltb_ge. destruct x; simpl; destruct (Z.eqb_spec n 0); simpl; try done; intros _ Hn;
    (split; [lia|]); (split; intros Hx; [|lia || by destruct Hx]); (done || lia).
Qed.

(** * Properties *)

(** C36 A runtime's configuration is sound: what [NewRuntime] accepts has a lease
    that outlives a renewal that starts on time and takes its whole timeout, waits
    and timeouts that are positive, no more workers than it has something to work
    with, and a retry policy; what it refuses, it refuses as a configuration error. *)
Theorem runtime_configuration random (config : @RuntimeConfig RoundTripper RedirectFn Proxy DialerRest TLSRest A) :
  match NewRuntime random config with
  | Ok r =>
      rc_Store config = Some (rt_store r) ∧
      0 < rt_renewal r ∧ 0 < rt_renewalTimeout r ∧ rt_renewal r + rt_renewalTimeout r < rt_lease r ∧
      0 < rt_poll r ∧ 0 < rt_completion r ∧ 0 ≤ rt_outboundCount r ∧ 0 ≤ rt_inboundCount r ∧
      (0 < rt_outboundCount r ↔ is_Some (rt_sender r)) ∧
      (0 < rt_inboundCount r ↔ is_Some (rt_inbound r)) ∧
      (rp_MaxAttempts (rt_retry r) ≠ 0 ∨ rp_Schedule (rt_retry r) ≠ [])
  | Err err => ErrorCode (Some err) = CodeInvalidConfiguration
  end.
Proof.
  destruct (NewRuntime random config) as [r|err] eqn:E; unfold NewRuntime in E.
  - apply bind_Ok in E as (store & Hs & E). apply of_option_Ok in Hs.
    apply bind_Ok in E as ([] & Hout & E). apply reject_Ok in Hout.
    apply bind_Ok in E as ([] & Hin & E). apply reject_Ok in Hin.
    apply bind_Ok in E as ([[lease interval] timeout] & Hl%lease_durations_Ok & E). go_inv. simpl.
    destruct (worker_count _ _ Hout) as [? ?]; [done|]. destruct (worker_count _ _ Hin) as [? ?]; [done|].
    unfold Millisecond, Second. split_and!; try done; try lia; [zcase..|].
    destruct (Z.eqb_spec (rp_MaxAttempts (rc_RetryPolicy config)) 0); [|by left].
    destruct (rp_Schedule (rc_RetryPolicy config)) eqn:Es; simpl; [by left|right; by rewrite Es].
  - go_err; try reflexivity; [by apply lease_durations_Err in E|]. destruct x0 as [[? ?] ?]. by go_err.
Qed.

(** C15 One round, one attempt, on record: whatever calls to the database fail, as long
    as no other session commits during the round, an outbound round of a runtime with a
    positive lease on well-formed tables gives the client no request unless it claimed a
    delivery, and then at most one: what the sender's authenticator made of a POST of the
    delivery's body to its destination - that very request when the sender has no
    authenticator or one of the repository's; the tables end with the claim, its
    renewals and, when no error is returned, the completion of the same claim with the
    result of that very request (an internal error when the sender panicked), which
    closes the attempt, gives up the lease and leaves the delivery in a state that the
    outcome demands; and a round that finds nothing or fails to claim sends nothing. *)
Theorem outbound_round_attempts_once e (r : runtime_of) h db n :
  quiet e → db_wf db → 0 < rt_lease r →
  match WorkOutboundOnce (sender_send DefaultResolver url_Parse se) (Some r) h e
          {| w_db := db; w_tx := None; w_tick := n |} with
  | (Ok (calls, (true, err)), w) => ∃ s c,
      rt_sender r = Some s ∧ round_of e (sender_send DefaultResolver url_Parse se) r s db c calls err (w_db w) ∧
      (calls = [] ∨ ∃ req, calls = [req] ∧
         (∃ built, hr_Method built = "POST" ∧ hr_URL built = cd_Destination c ∧ hr_Body built = cd_Body c ∧
            applied (s_authenticator s) built req) ∧
         (repository_auth (s_authenticator s) →
            hr_Method req = "POST" ∧ hr_URL req = cd_Destination c ∧ hr_Body req = cd_Body c))
  | (Ok (calls, (false, err)), w) => calls = [] ∧ (err = None → w_db w = db) ∧
      (w_db w = db ∨ ∃ c, claimed_from e (rt_lease r) db (w_db w) c)
  | (Err _, _) => False
  end.
Proof.
  intros Hq Hwf Hl.
  pose proof (WorkOutboundOnce_spec e (sender_send DefaultResolver url_Parse se) Hq r h db
    (λ _ _ _, False) Hwf Hl n) as Hr.
  destruct (WorkOutboundOnce _ _ _ _ _) as [[[calls [[] err]]|er] w]; [|exact Hr|exact Hr].
  destruct Hr as (s & c & Hs & Hr). exists s, c. split; [done|]. split; [done|].
  by eapply round_calls.
Qed.

(** C14 From publication to verified receipt: take a delivery that was published before
    and has since been through any steps of the store's machine that kept its row (which
    is all that operations of any sessions make), and a round that no other session's
    commits interrupt.  When the round's claim is of that delivery and a
    request is given to the client, the request carries the published body, and the
    published destination when the sender has no authenticator or one of the
    repository's; and a verifier without public keys that shares a signing key accepts
    it, received as it was sent, at a nonzero time within its tolerance (not negative and
    below the largest duration) of the second it was signed in, as the message
    published, with the event type its extractor reads.  The tables are well-formed, the
    lease is positive, the publication's message identifier is not empty, and the
    sender's authenticator leaves the body and the three webhook headers as they are. *)
Theorem published_message_reaches_receiver e (r : runtime_of) (s : sender_of) h request keyHash p db1 db2 n
    keys ed (v : VerifierConfig) wall keys' k receivedAt :
  quiet e → db_wf db1 → 0 < rt_lease r →
  stored_as request keyHash db1 p → lifetime (pub_DeliveryID p) db1 db2 → pub_MessageID p ≠ ε →
  rt_sender r = Some s → s_signer s = HMACSigner_Sign (Some (Ok keys)) →
  auth_keeps [HeaderID; HeaderTimestamp; HeaderSignature] (s_authenticator s) →
  vc_HMACKeys v = Some (Ok keys') → validateHMACKeys keys' = Ok tt → vc_PublicKeys v = None →
  k ∈ keys → k ∈ keys' → 0 ≤ vc_Tolerance v < int64_max → receivedAt ≠ 0 →
  Z.abs (receivedAt - Unix (UnixSeconds (s_clock s (se_environment se)))) ≤ vc_Tolerance v →
  match WorkOutboundOnce (sender_send DefaultResolver url_Parse se) (Some r) h e
          {| w_db := db2; w_tx := None; w_tick := n |} with
  | (Ok (calls, (_, err)), w) =>
      (calls ≠ [] → ∃ c, round_of e (sender_send DefaultResolver url_Parse se) r s db2 c calls err (w_db w)) ∧
      ∀ c req, round_of e (sender_send DefaultResolver url_Parse se) r s db2 c calls err (w_db w) →
        cd_DeliveryID c = pub_DeliveryID p → req ∈ calls →
        hr_Body req = sr_Body request ∧
        (repository_auth (s_authenticator s) → hr_Method req = "POST" ∧ hr_URL req = sr_URL request) ∧
        ∀ ty, match vc_ExtractType v with
              | Some extract => extract (hr_Body req) (hr_Header req)
              | None => Ok "unknown"
              end = Ok ty →
          Verify ed v wall {| vi_Headers := hr_Header req; vi_Body := hr_Body req; vi_ReceivedAt := receivedAt |} =
            Ok {| v_ID := pub_MessageID p; v_Type := ty; v_Source := vc_Source v;
                  v_Timestamp := Unix (UnixSeconds (s_clock s (se_environment se))); v_Metadata := ∅ |}
  | (Err _, _) => False
  end.
Proof.
  intros Hq Hwf Hl Hp Hlife Hid Hs Hsigner Hauth HK HKv HP Hk Hk' Htol Hrec Hfresh.
  assert (db_wf db2) as Hwf2 by (eapply steps_wf; [by eapply lifetime_steps|done]).
  pose proof (WorkOutboundOnce_spec e (sender_send DefaultResolver url_Parse se) Hq r h db2
    (λ _ _ _, False) Hwf2 Hl n) as Hr.
  destruct (WorkOutboundOnce _ _ _ _ _) as [[[calls [worked err]]|er] w]; [|exact Hr]. split.
  { intros Hne. destruct worked; [|by destruct Hr as [-> _]].
    destruct Hr as (s' & c & Hs' & Hround). rewrite Hs in Hs'. injection Hs' as <-. by exists c. }
  clear Hr. intros c req (db3 & db4 & o & Hclaim & _ & Hsend & _) Hc Hreq.
  destruct (claimed_publication _ _ _ _ _ _ _ _ _ Hwf Hp Hlife Hclaim Hc) as (C1 & C2 & _ & _ & C5 & _).
  destruct (round_request _ _ _ _ _ Hsend Hreq) as (Hcall & (built & _ & _ & Hbuilt & Ha) & Hrepo).
  destruct (Hauth _ _ Ha) as [Hbody _].
  split; [by rewrite Hbody, Hbuilt|]. split; [intros (? & Hu & _)%Hrepo; by rewrite Hu|]. intros ty Hty.
  pose proof (Send_verifies DefaultResolver url_Parse s (se_environment se) (claimed_request c) keys ed v wall
    keys' k receivedAt ty Hsigner HK HKv HP Hk Hk' Htol Hrec Hfresh Hauth) as Hv.
  destruct (Send _ _ _ _ _) as [calls' [result err']] eqn:Esend. simpl in Hcall. subst calls'.
  pose proof (Send_id _ _ _ _ _ _ _ _ _ Esend) as Hri. simpl in Hri. rewrite C5 in Hri.
  rewrite <-(Hri Hid). by apply Hv.
Qed.
End sending.
