(* ===== verification/PgSettle.v ===== *)
(** Every delivery settles: rounds of workers that report no error attempt a delivery
    no more often than the retry policy allows, a worker whose database answers does
    make its round when the delivery comes first, and so the delivery reaches a final
    state. *)

From S2P Require Import Prelude GoString Codec GoTime Errors Headers Message Retry Outcome.
From S2P Require Import Sender.
From S2P Require Import PgText PgModel PgOutbound PgInbound PgSpec PgRefine PgProps PgOutbox PgOutboxProps.
From S2P Require Import PgRuntime PgRuntimeProps.

(** * What a transition leaves *)

Lemma deliveryTransition_settles random now attempt r err retry state next :
  deliveryTransition random now attempt r err retry = (state, next) →
  delivery_terminal state = true ∨ state = DeliveryRetry ∧ attempt < rp_maximum retry.
Proof.
  unfold deliveryTransition. intros Ht. repeat case_match; simplify_eq; auto; right; (split; [done|]);
    match goal with Hn : Next _ _ _ _ = Some _ |- _ => apply Next_Some in Hn as [[_ ?] _] end; done.
Qed.

Lemma due_delivery_open now d : delivery_due now d = true → delivery_terminal (d_state d) = false.
Proof. unfold delivery_due. by destruct (d_state d). Qed.

(** A delivery that a round attempted, from its row before to its row after: it was not
    settled, one attempt is counted, and it is settled or may be attempted again. *)
Definition attempted (retry : RetryPolicy) (d d' : Delivery) : Prop :=
  delivery_terminal (d_state d) = false ∧ d_attempt_count d' = d_attempt_count d + 1 ∧
  (delivery_terminal (d_state d') = true ∨ d_attempt_count d' < rp_maximum retry).

(** The row of a claimed delivery keeps its count while the claim is renewed. *)
Lemma renewed_count e lease c db db' d :
  renewed_often e lease c db db' → deliveries db !! cd_DeliveryID c = Some d →
  ∃ d', deliveries db' !! cd_DeliveryID c = Some d' ∧ d_attempt_count d' = d_attempt_count d.
Proof.
  intros Hr. revert d. induction Hr as [db|db db1 db2 H1 _ IH]; intros d Hd; [eauto|].
  destruct H1 as (_ & d0 & l & now & leaseEnd & Hd0 & _ & _ & _ & ->). rewrite Hd in Hd0. injection Hd0 as <-.
  destruct (IH (leased (d_attempt_count d) leaseEnd now d)) as (d' & Hd' & Hn); [|eauto].
  apply lookup_insert_eq.
Qed.

(** What a round of a worker does to the delivery of the claim it makes. *)
Lemma round_attempts {RoundTripper RedirectFn Proxy DialerRest TLSRest A : Type} e
    (send : @Sender RoundTripper RedirectFn Proxy DialerRest TLSRest → SendRequest → list HTTPRequest * send_outcome)
    (r : @Runtime RoundTripper RedirectFn Proxy DialerRest TLSRest A) s db c calls db' :
  round_of e send r s db c calls None db' →
  ∃ d d', deliveries db !! cd_DeliveryID c = Some d ∧ deliveries db' !! cd_DeliveryID c = Some d' ∧
    attempted (rt_retry r) d d'.
Proof.
  intros (db1 & db2 & o & (n & k & d & m & (Hd & Hdue & _) & _ & _ & -> & Hc) & Hren & _ & Hdone).
  destruct (renewed_count _ _ _ _ _ (leased (d_attempt_count d + 1) (en_timestamptz e (Add (en_clock e k) (rt_lease r)))
    (en_timestamptz e (en_clock e k)) d) Hren) as (d2 & Hd2 & Hn2); [apply lookup_insert_eq|].
  destruct (sendSafely o) as [result sendErr].
  destruct (proj1 (proj1 (proj2 Hdone) eq_refl)) as (Ho & d2' & a & x & now' & random & state & next & Hd2' & _ & Ht & _ & _ & _ & _ & ->).
  simplify_eq. exists d. eexists. split; [done|]. split; [apply lookup_insert_eq|].
  assert (cd_Attempt c = d_attempt_count d + 1) as Hn by (by rewrite Hc).
  split_and!; [by eapply due_delivery_open|by simpl in *; rewrite Hn2|]. simpl in *. rewrite Hn2.
  apply deliveryTransition_settles in Ht. rewrite Hn in Ht. tauto.
Qed.

(** * A worker whose database answers *)

Section calm_round.
Context (e : env) (Hcalm : calm e).

Lemma wp_clock_reading_calm s Q X db tx :
  (∀ n, Q (en_clock e n) db tx) → wp e (authoritativeNow s) Q X db tx.
Proof.
  intros H. unfold authoritativeNow, Store_now.
  destruct (st_clock s); [by apply wp_ask|by apply wp_query_calm].
Qed.

(** Delivery [id] is the one a claim takes: due at every reading of the clock, not
    locked, and before every other delivery that can be claimed. *)
Definition first_in_line (id : string) (d : Delivery) (db : DB) : Prop :=
  ∀ n k, let now := en_timestamptz e (en_clock e k) in
    claimable e n now db id d ∧
    ∀ id' d', claimable e n now db id' d' → id' ≠ id →
      delivery_before (en_delivery_rank e n) (id, d) (id', d') = true.

(** The identifiers drawn for attempts are new. *)
Definition fresh_attempts (db : DB) : Prop :=
  ∀ n, ∃ aid, randomOpaqueID "att_" (en_entropy e n) = Ok aid ∧ attempts db !! aid = None.

Lemma claimed_first id d lease db db' c :
  first_in_line id d db → claimed_from e lease db db' c → cd_DeliveryID c = id.
Proof.
  intros Hfirst (n & k & d' & m & Hcl & _ & Hmin & _). destruct (Hfirst n k) as [Hid Hothers].
  destruct (decide (cd_DeliveryID c = id)) as [|Hne]; [done|]. cbv zeta in *.
  specialize (Hmin _ _ Hid). by rewrite (Hothers _ _ Hcl Hne) in Hmin.
Qed.

Lemma select_due_delivery_calm now n db id d :
  db_wf db → d_attempt_count d < int4_max → claimable e n now db id d →
  (∀ id' d', claimable e n now db id' d' → id' ≠ id →
     delivery_before (en_delivery_rank e n) (id, d) (id', d') = true) →
  ∃ m, select_due_delivery now e n db = Ok (Some (id, d, m)).
Proof.
  intros Hwf Hmax (Hd & Hdue & Hlock) Hfirst. pose proof (wf_delivery _ Hwf _ _ Hd) as Hdw.
  destruct (dw_message _ _ _ Hdw) as [m0 Hm0]. unfold select_due_delivery.
  assert ((id, d) ∈ filter (λ p, delivery_due now p.2 = true ∧ en_delivery_locked e n p.1 = false ∧
      is_Some (messages db !! d_message_id p.2)) (map_to_list (deliveries db))) as Hin.
  { apply list_elem_of_filter. split; [by split_and!|by apply elem_of_map_to_list]. }
  destruct (first_by _ _) as [[i x]|] eqn:E.
  2: { apply first_by_None in E. rewrite E in Hin. by apply elem_of_nil in Hin. }
  pose proof (first_by_elem _ _ _ E) as [(Hdue' & Hlock' & _) Hx]%list_elem_of_filter.
  apply elem_of_map_to_list in Hx. simpl in *.
  assert (i = id) as ->.
  { destruct (decide (i = id)) as [|Hne]; [done|].
    pose proof (first_by_min _ _ _ (delivery_before_trans _) (delivery_before_asym _)
      (delivery_before_irrefl _) E _ Hin) as Hb.
    by rewrite (Hfirst i x) in Hb. }
  simplify_eq. assert (int4_ok (d_attempt_count d + 1) = true) as ->.
  { pose proof (dw_count _ _ _ Hdw). unfold int4_ok. apply andb_true_iff.
    split; apply Z.leb_le; unfold int4_max in *; lia. }
  rewrite Hm0. by exists m0.
Qed.

(** The attempt after the last one can be inserted. *)
Lemma insert_attempt_calm id k aid now n db :
  attempts db !! aid = None → is_Some (deliveries db !! id) →
  (∀ aid' a, attempts db !! aid' = Some a → ¬ (a_delivery_id a = id ∧ a_number a = k)) →
  ∃ db', insert_attempt aid id k now e n db = Ok (tt, db').
Proof.
  intros Haid Hid Hnew. unfold insert_attempt.
  rewrite (bool_decide_false (is_Some _)) by (by rewrite Haid, <-not_eq_None_Some; auto).
  rewrite (bool_decide_false (¬ _)) by (intros Hn; by apply Hn).
  rewrite (bool_decide_false (_ = None)) by (by apply not_eq_None_Some). by eexists.
Qed.

Lemma lease_claimed_calm now lease id d m db :
  db_wf db → fresh_attempts db → deliveries db !! id = Some d →
  wp e (lease_claimed now lease id d m) (λ _ _ _, True) (λ _ _ _, False) db (Some db).
Proof.
  intros Hwf Hfresh Hd. unfold lease_claimed. apply wp_bind.
  apply (wp_mono e _ (λ _ db' tx', ∃ at1, tx' = Some (set_attempts at1 db) ∧
    ∀ aid, (λ a, (a_delivery_id a, a_number a)) <$> at1 !! aid =
           (λ a, (a_delivery_id a, a_number a)) <$> attempts db !! aid) _ (λ _ _ _, False)); [| |done].
  { assert (db = set_attempts (attempts db) db) as Hsame by (by destruct db).
    destruct (decide (d_state d = DeliveryInFlight)); [destruct (0 <? d_attempt_count d)|];
      [|apply wp_mret; by exists (attempts db); rewrite <-Hsame..].
    apply wp_exec_calm; [done|]. intros n. simpl. eexists. split; [reflexivity|]. intros aid.
    rewrite lookup_fmap. destruct (attempts db !! aid) as [a|]; [|done]. simpl.
    by destruct (expire_open_fields (en_timestamptz e now) id (d_attempt_count d) a) as [-> ->]. }
  intros _ db' _ (at1 & -> & Hat). apply wp_bind, wp_ask. intros n.
  destruct (Hfresh n) as (aid & -> & Haid). apply wp_bind, wp_exec_calm; [done|]. intros n1. simpl.
  apply wp_bind, wp_exec_calm; [done|]. intros n2. simpl.
  match goal with |- context [insert_attempt aid id ?k now e n2 ?v] =>
    destruct (insert_attempt_calm id k aid now n2 v) as [v' ->] end.
  - simpl. specialize (Hat aid). rewrite Haid in Hat. by apply fmap_None in Hat.
  - simpl. by rewrite (alter_alt_Some _ _ _ _ Hd), lookup_insert_eq.
  - simpl. intros aid' a Ha [Hi Hn]. specialize (Hat aid'). rewrite Ha in Hat. simpl in Hat.
    destruct (attempts db !! aid') as [a0|] eqn:Ea; [|done]. simplify_eq/=.
    assert (1 ≤ d_attempt_count d + 1 ≤ d_attempt_count d); [|lia].
    apply (dw_attempts _ _ _ (wf_delivery _ Hwf _ _ Hd)). exists aid', a0. split_and!; congruence.
  - apply wp_bind, wp_commit_calm; [done|]. by apply wp_mret.
Qed.

Lemma ClaimDelivery_calm s lease id d db :
  db_wf db → fresh_attempts db → first_in_line id d db → d_attempt_count d < int4_max → 0 < lease →
  wp e (ClaimDelivery s lease)
    (λ r db' _, ∃ c, r = Some c ∧ claimed_from e lease db db' c) (λ _ _ _, False) db None.
Proof.
  intros Hwf Hfresh Hfirst Hmax Hl.
  assert (wp e (ClaimDelivery s lease) (λ r _ _, is_Some r) (λ _ _ _, False) db None) as Hok.
  { unfold ClaimDelivery. apply wp_with_tx_calm; [done|].
    apply wp_bind, wp_clock_reading_calm. intros k. apply wp_bind, wp_others_calm; [done|].
    apply wp_bind, wp_query_calm; [done|]. intros n. simpl. destruct (Hfirst n k) as [Hcl Hothers].
    destruct (select_due_delivery_calm _ _ _ _ _ Hwf Hmax Hcl Hothers) as [m ->].
    apply wp_bind. eapply wp_mono; [apply lease_claimed_calm; [done|done|apply Hcl]| |done].
    intros c db' tx' _. apply wp_mret. by eexists. }
  intros n. pose proof (ClaimDelivery_spec e s lease db (proj1 Hcalm) Hwf n) as H. cbv zeta in H.
  rewrite (proj2 (Z.leb_gt lease 0)) in H by lia. specialize (Hok n).
  destruct (ClaimDelivery _ _ _ _) as [[[c|]|er] w]; [|by destruct Hok|done]. exists c. by destruct H.
Qed.

(** ** Renewals *)

(** The clock stays before the end of any lease that it starts. *)
Definition within_lease (lease : duration) : Prop :=
  ∀ n k, let now := en_timestamptz e (en_clock e k) in
    en_timestamptz e (en_clock e n) < en_timestamptz e (Add (en_clock e k) lease) ∧
    en_timestamptz e (en_clock e n) < now + durationMicrosecondsCeil lease * Microsecond.

(** The claim owns its delivery, under a lease that the clock does not reach. *)
Definition held (c : ClaimedDelivery) (db : DB) : Prop :=
  owns_delivery c db = true ∧
  ∃ d l, deliveries db !! cd_DeliveryID c = Some d ∧ d_lease_expires_at d = Some l ∧
    ∀ n, en_timestamptz e (en_clock e n) < l.

Lemma renew_delivery_calm c n leaseEnd db :
  held c db → (∀ n, en_timestamptz e (en_clock e n) < leaseEnd) →
  ∃ db', renew_delivery c (en_timestamptz e (en_clock e n)) leaseEnd db = Ok (1, db') ∧ held c db'.
Proof.
  intros (Ho & d & l & Hd & Hl & Hlt) Hend. unfold renew_delivery. rewrite Hd, Ho, Hl.
  rewrite (proj2 (Z.ltb_lt _ _) (Hlt n)). eexists. split; [done|]. split; [by apply leased_owns|].
  simpl. rewrite lookup_insert_eq. by do 2 eexists.
Qed.

Lemma RenewDeliveryLease_calm s c lease db :
  0 < lease → within_lease lease → held c db →
  wp e (RenewDeliveryLease s (Some c) lease) (λ _ db' tx', tx' = None ∧ held c db') (λ _ _ _, False) db None.
Proof.
  intros Hl Hw Hh. unfold RenewDeliveryLease. apply wp_bind, wp_lift. simpl.
  apply wp_bind, wp_lift. rewrite (proj2 (Z.leb_gt lease 0)) by lia. simpl.
  apply wp_bind, wp_others_calm; [done|]. apply wp_bind.
  apply (wp_mono e _ (λ rows db' tx', rows = 1 ∧ tx' = None ∧ held c db') _ (λ _ _ _, False)); [| |done].
  - destruct (st_clock s).
    + apply wp_bind, wp_ask. intros k. apply wp_exec_calm; [done|]. intros n. simpl.
      by destruct (renew_delivery_calm c k (en_timestamptz e (Add (en_clock e k) lease)) db Hh)
        as (db' & -> & Hh'); [intros j; apply Hw|].
    + apply wp_exec_calm; [done|]. intros n. simpl.
      by destruct (renew_delivery_calm c n (en_timestamptz e (en_clock e n) +
        durationMicrosecondsCeil lease * Microsecond) db Hh) as (db' & -> & Hh'); [intros j; apply Hw|].
  - intros rows db' tx' (-> & -> & Hh'). apply wp_bind, wp_rows_calm; [done|]. apply wp_lift. done.
Qed.

Lemma renewals_calm s c lease cancelled ticks db :
  0 < lease → within_lease lease → held c db →
  wp e (renewals (RenewDeliveryLease s (Some c) lease) cancelled ticks)
    (λ r db' tx', r = None ∧ tx' = None ∧ held c db') (λ _ _ _, False) db None.
Proof.
  intros Hl Hw. revert db. induction ticks as [|n IH]; intros db Hh; simpl; [by apply wp_mret|].
  apply wp_bind, wp_outcome_of. eapply wp_mono; [by apply RenewDeliveryLease_calm| |done].
  intros u db' tx' [-> Hh']. simpl. by apply IH.
Qed.

Lemma claimed_held lease c db db' :
  within_lease lease → claimed_from e lease db db' c → held c db'.
Proof.
  intros Hw (n & k & d & m & _ & _ & _ & -> & Hc). split; [rewrite Hc; apply claim_owns|].
  simpl. rewrite lookup_insert_eq. do 2 eexists. split_and!; [done..|]. intros j. apply Hw.
Qed.

(** ** The round *)

Section round.
Context {RoundTripper RedirectFn Proxy DialerRest TLSRest A : Type}.
Abbreviation sender_of := (@Sender RoundTripper RedirectFn Proxy DialerRest TLSRest).
Abbreviation runtime_of := (@Runtime RoundTripper RedirectFn Proxy DialerRest TLSRest A).
Context (send : sender_of → SendRequest → list HTTPRequest * send_outcome).

(** What the columns of an attempt can hold, whatever claim of [id] is sent. *)
Definition storable (r : runtime_of) (s : sender_of) (id : string) : Prop :=
  ∀ c, cd_DeliveryID c = id →
    let '(result, sendErr) := sendSafely (send s (claimed_request c)).2 in
    representable (rt_store r) result sendErr = true.

Record good_turn (r : runtime_of) (s : sender_of) (id : string) (db : DB) : Prop := {
  gt_lease : within_lease (rt_lease r);
  gt_fresh : fresh_attempts db;
  gt_first : ∃ d, first_in_line id d db ∧ d_attempt_count d < int4_max;
  gt_storable : storable r s id
}.

Lemma WorkOutboundOnce_calm (r : runtime_of) s h id db :
  db_wf db → 0 < rt_lease r → rt_sender r = Some s → good_turn r s id db →
  wp e (WorkOutboundOnce send (Some r) h)
    (λ res db' _, ∃ c calls, res = (calls, (true, None)) ∧ cd_DeliveryID c = id ∧
       round_of e send r s db c calls None db') (λ _ _ _, False) db None.
Proof.
  intros Hwf Hl Hs [Hw Hfresh (d & Hfirst & Hmax) Hst]. unfold WorkOutboundOnce.
  cbn [mbind option_bind]. rewrite Hs. cbn [mbind option_bind]. apply wp_bind, wp_outcome_of.
  pose proof (ClaimDelivery_calm (rt_store r) (rt_lease r) id d db Hwf Hfresh Hfirst Hmax Hl) as Hc.
  eapply wp_mono; [exact (wp_closed _ _ _ _ _ (ClaimDelivery_ok (λ _, True) _ _ _ (λ _, I)) Hc)| |by intros ??? []].
  intros o db1 tx' (-> & c & -> & Hclaim). unfold work_claimed.
  pose proof (claimed_first _ _ _ _ _ _ Hfirst Hclaim) as Hid.
  pose proof (λ X, renewals_spec e (proj1 Hcalm) (rt_store r) c (rt_lease r) (hb_cancelled h) (hb_ticks h) X db1) as Hren.
  pose proof (renewals_calm (rt_store r) c (rt_lease r) (hb_cancelled h) (hb_ticks h) db1 Hl Hw
    (claimed_held _ _ _ _ Hw Hclaim)) as Hren'.
  apply wp_bind. eapply wp_mono; [exact (wp_and _ _ _ _ _ _ _ _ (Hren (λ _ _ _, True)) Hren')| |by intros ??? [_ []]].
  intros renewErr db2 tx' [[-> Hr2] (-> & _ & [Ho _])]. specialize (Hst c Hid).
  destruct (send s (claimed_request c)) as [calls o] eqn:Esend. simpl in Hst.
  destruct (sendSafely o) as [result sendErr] eqn:Eo.
  apply wp_bind, wp_outcome_of. eapply wp_mono; [by apply CompleteDelivery_calm| |done].
  intros u db' tx' Hd. apply wp_mret. exists c, calls. split_and!; [done..|].
  exists db1, db2, o. rewrite Eo.
  do 3 (split; [done|]). split; [by apply sendSafely_reported|].
  split; [intros _; split; [exact Hd|exact (completed_on_record _ _ _ _ _ _ _ _ Hd)]|by right].
Qed.
End round.
End calm_round.

(** * Until the delivery is settled *)

Section settles.
Context {RoundTripper RedirectFn Proxy DialerRest TLSRest A : Type}.
Abbreviation sender_of := (@Sender RoundTripper RedirectFn Proxy DialerRest TLSRest).
Abbreviation runtime_of := (@Runtime RoundTripper RedirectFn Proxy DialerRest TLSRest A).
Context (send : sender_of → SendRequest → list HTTPRequest * send_outcome).
Context (r : runtime_of) (s : sender_of) (id : string).

(** [n] turns of workers of one runtime, with anything other sessions do to the tables
    in between as long as the delivery's row stays: the database answers at every turn,
    and a turn at which the delivery is not settled is a good one for it. *)
Inductive working : nat → DB → DB → Prop :=
| working_start db : working 0 db db
| working_others n db db1 db2 : working n db db1 → lifetime id db1 db2 → working n db db2
| working_turn n db db1 e h k :
    working n db db1 → calm e →
    (∀ d, deliveries db1 !! id = Some d → delivery_terminal (d_state d) = false →
          good_turn e send r s id db1) →
    working (S n) db (after e (WorkOutboundOnce send (Some r) h) k db1).1.

(** A round removes no delivery. *)
Lemma round_step_present e db db' :
  allowed_step (outbound_events e) db db' → is_Some (deliveries db !! id) → is_Some (deliveries db' !! id).
Proof.
  intros (ev & Hev & Hs) Hp. destruct Hs; simpl in *; try done; apply lookup_insert_is_Some'; by right.
Qed.

Lemma round_lifetime e h k db :
  calm e → is_Some (deliveries db !! id) →
  lifetime id db (after e (WorkOutboundOnce send (Some r) h) k db).1.
Proof.
  intros [Hq _] Hp. destruct (after_ok _ e _ k db (WorkOutboundOnce_ok e send (Some r) h)) as [_ Hs].
  induction Hs as [|x y z [H1|[j ->]] _ IH]; [done| |rewrite Hq in *; by apply IH].
  pose proof (round_step_present e x y H1 Hp) as Hp'.
  eapply rtc_l; [split; [by eapply allowed_db_step|done]|by apply IH].
Qed.

Lemma good_round e h k db :
  calm e → db_wf db → 0 < rt_lease r → rt_sender r = Some s → good_turn e send r s id db →
  ∃ d d', deliveries db !! id = Some d ∧
    deliveries (after e (WorkOutboundOnce send (Some r) h) k db).1 !! id = Some d' ∧
    attempted (rt_retry r) d d'.
Proof.
  intros Hc Hwf Hl Hs Hg. pose proof (WorkOutboundOnce_calm e Hc send r s h id db Hwf Hl Hs Hg k) as Hr.
  unfold after. destruct (WorkOutboundOnce send (Some r) h e _) as [[res|er] w]; [|done].
  destruct Hr as (c & calls & _ & <- & Hr). by eapply round_attempts.
Qed.

(** After [n] turns from a row with [count] attempts. *)
Definition progressed (count : Z) (n : nat) (d : Delivery) : Prop :=
  delivery_terminal (d_state d) = true ∨
  count + Z.of_nat n ≤ d_attempt_count d ∧ (n = 0%nat ∨ count + Z.of_nat n < rp_maximum (rt_retry r)).

Lemma progressed_evolves count n d d' :
  delivery_evolves d d' → progressed count n d → progressed count n d'.
Proof.
  intros (_ & _ & _ & _ & _ & Hn & Ht) [Hterm|Hp]; [rewrite (Ht Hterm); by left|right]. split; [lia|tauto].
Qed.

Lemma progressed_attempted count n d d' :
  attempted (rt_retry r) d d' → progressed count n d → progressed count (S n) d'.
Proof.
  intros (Hopen & Hn & Hres) [Hterm|[Hle _]]; [congruence|].
  destruct Hres as [|Hlt]; [by left|right]. rewrite Nat2Z.inj_succ. split; [lia|right; lia].
Qed.

Lemma lifetime_row db1 db2 d1 :
  db_wf db1 → lifetime id db1 db2 → deliveries db1 !! id = Some d1 →
  db_wf db2 ∧ ∃ d2, deliveries db2 !! id = Some d2 ∧ delivery_evolves d1 d2.
Proof.
  intros Hwf Hlife Hd1. split; [by eapply steps_wf; [apply (lifetime_steps id)|]|].
  destruct (lifetime_present _ _ _ Hlife) as [d2 Hd2]; [by eexists|]. exists d2. split; [done|].
  destruct (dw_message _ _ _ (wf_delivery _ Hwf _ _ Hd1)) as [m Hm].
  by destruct (lifetime_evolves _ _ _ _ _ _ Hwf Hd1 Hlife Hd2 Hm).
Qed.

Lemma working_progress n db db' d :
  0 < rt_lease r → rt_sender r = Some s → working n db db' → db_wf db → deliveries db !! id = Some d →
  db_wf db' ∧ ∃ d', deliveries db' !! id = Some d' ∧ progressed (d_attempt_count d) n d'.
Proof.
  intros Hl Hs Hw Hwf Hd.
  induction Hw as [db|n db db1 db2 _ IH Hlife|n db db1 e h k _ IH Hc Hgood].
  - split; [done|]. exists d. split; [done|]. right. split; [lia|by left].
  - destruct (IH Hwf Hd) as (Hwf1 & d1 & Hd1 & Hp).
    destruct (lifetime_row _ _ _ Hwf1 Hlife Hd1) as (Hwf2 & d2 & Hd2 & Hev).
    split; [done|]. exists d2. split; [done|]. by eapply progressed_evolves.
  - destruct (IH Hwf Hd) as (Hwf1 & d1 & Hd1 & Hp).
    destruct (lifetime_row _ _ _ Hwf1 (round_lifetime e h k db1 Hc (ex_intro _ _ Hd1)) Hd1)
      as (Hwf2 & d2 & Hd2 & Hev).
    split; [done|]. exists d2. split; [done|].
    destruct (delivery_terminal (d_state d1)) eqn:Et; [left; by rewrite (proj2 (proj2 (proj2 (proj2 (proj2 (proj2 Hev))))) Et)|].
    destruct (good_round e h k db1 Hc Hwf1 Hl Hs (Hgood _ Hd1 Et)) as (x & y & Hx & Hy & Hatt).
    rewrite Hd1 in Hx. rewrite Hd2 in Hy. simplify_eq. by eapply progressed_attempted.
Qed.

(** * Properties *)

(** C20 Every delivery settles: once the workers of a runtime have had as many turns that
    count as the retry policy has attempts left for a delivery of well-formed tables, and
    at least one, the delivery is in a final state - delivered, disabled, permanently
    failed or exhausted - whatever steps of the store's machine other sessions make
    between the turns without removing its row.  A turn counts when during it no call to
    the database fails and no other session commits, and the delivery is settled already
    or the turn can attempt it: it is due and before every other delivery that can be
    claimed, its count is below the largest int4, the attempt identifiers drawn are new,
    no reading of the clock during the turn is past the lease, and the result of sending
    it can be held by the columns of an attempt.  The lease is positive and the runtime
    has a sender. *)
Theorem delivery_settles n db db' d :
  0 < rt_lease r → rt_sender r = Some s → db_wf db → deliveries db !! id = Some d →
  working n db db' → Z.max 1 (rp_maximum (rt_retry r) - d_attempt_count d) ≤ Z.of_nat n →
  ∃ d', deliveries db' !! id = Some d' ∧ delivery_terminal (d_state d') = true.
Proof.
  intros Hl Hs Hwf Hd Hw Hn. destruct (working_progress n db db' d Hl Hs Hw Hwf Hd) as (_ & d' & Hd' & Hp).
  exists d'. split; [done|]. destruct Hp as [|[_ [Hn0|Hlt]]]; [done|lia|lia].
Qed.
End settles.
