(* ===== verification/PgInboxProps.v ===== *)
(** The contract of the inbox: what an acknowledgement means, and one inbound round
    from claim to completion. *)

From S2P Require Import Prelude GoString Codec GoTime Errors Transport Headers Message Retry Outcome Handler.
From S2P Require Import Auth Receiver Standard Sender.
From S2P Require Import PgText PgTextFacts PgSchema PgModel PgOutbound PgInbound PgSpec PgRefine PgProps PgOutbox.
From S2P Require Import PgInbox PgOutboxProps PgRuntime PgRuntimeProps.

(** * A receipt's row as long as it exists *)

Definition receipt_lifetime (key : string * string) : DB → DB → Prop :=
  rtc (λ db db', db_step db db' ∧ is_Some (receipts db' !! key)).

(** What never changes of a receipt. *)
Definition same_receipt (r r' : Receipt) : Prop :=
  r_event_type r' = r_event_type r ∧ r_event_timestamp r' = r_event_timestamp r ∧ r_body r' = r_body r ∧
  r_content_type r' = r_content_type r ∧ r_headers r' = r_headers r ∧ r_metadata r' = r_metadata r ∧
  r_received_at r' = r_received_at r ∧ r_attempt_count r ≤ r_attempt_count r'.

#[export] Instance same_receipt_refl : Reflexive same_receipt.
Proof. intros r. repeat split; lia. Qed.
#[export] Instance same_receipt_trans : Transitive same_receipt.
Proof.
  intros r1 r2 r3 (A1 & A2 & A3 & A4 & A5 & A6 & A7 & A8) (B1 & B2 & B3 & B4 & B5 & B6 & B7 & B8).
  split_and!; try congruence. lia.
Qed.

Lemma insert_same_receipt (m : gmap (string * string) Receipt) key0 r0 r1 key r r' :
  m !! key0 = Some r0 → same_receipt r0 r1 → m !! key = Some r → <[key0 := r1]> m !! key = Some r' →
  same_receipt r r'.
Proof.
  intros H0 Hs Hr [[<- <-]|[_ Hr']]%lookup_insert_Some; [by simplify_eq|]. simplify_eq. reflexivity.
Qed.

Lemma step_same_receipt db db' key r r' :
  db_step db db' → receipts db !! key = Some r → receipts db' !! key = Some r' → same_receipt r r'.
Proof.
  intros (ev & _ & Hs) Hr Hr'. destruct Hs; simpl in *; simplify_eq; try reflexivity.
  - apply lookup_insert_Some in Hr' as [[<- <-]|[_ Hr']]; simplify_eq. reflexivity.
  - eapply insert_same_receipt; [exact H| |exact Hr|exact Hr']. split_and!; try done. simpl. lia.
  - eapply insert_same_receipt; [exact H| |exact Hr|exact Hr']. split_and!; done.
  - eapply insert_same_receipt; [exact H| |exact Hr|exact Hr']. split_and!; done.
  - apply map_lookup_filter_Some in Hr' as [Hr' _]. simplify_eq. reflexivity.
Qed.

Lemma lifetime_same_receipt db db' key r r' :
  receipts db !! key = Some r → receipt_lifetime key db db' → receipts db' !! key = Some r' → same_receipt r r'.
Proof.
  intros Hr Hl. revert r Hr. induction Hl as [db|db1 db2 db3 [H12 [r2 Hr2]] _ IH]; intros r Hr Hr'.
  - simplify_eq. reflexivity.
  - etransitivity; [by eapply step_same_receipt|by apply IH].
Qed.

(** * An inbound round *)

Section inbound.
Context {RoundTripper RedirectFn Proxy DialerRest TLSRest A : Type}.
Abbreviation runtime_of := (@Runtime RoundTripper RedirectFn Proxy DialerRest TLSRest A).
Context (e : env) (Hq : quiet e).

Lemma receipt_renewals_spec s c lease cancelled ticks X db :
  wp e (renewals (RenewReceiptLease s (Some c) lease) cancelled ticks)
    (λ _ db' tx', tx' = None ∧ rtc (receipt_renewed c) db db') X db None.
Proof.
  revert db. induction ticks as [|n IH]; intros db; simpl; [apply wp_mret; split; [done|apply rtc_refl]|].
  assert (wp e (RenewReceiptLease s (Some c) lease)
    (λ _ db' tx', tx' = None ∧ rtc (receipt_renewed c) db db')
    (λ _ db' tx', tx' = None ∧ rtc (receipt_renewed c) db db') db None) as Hr.
  { eapply wp_mono; [by apply RenewReceiptLease_spec|..]; simpl.
    - intros _ db' tx' [-> H]. split; [done|by apply rtc_once].
    - intros _ db' tx' [-> [->|H]]; (split; [done|]); [apply rtc_refl|by apply rtc_once]. }
  apply wp_bind, wp_outcome_of. eapply wp_mono; [exact Hr|..].
  - intros u db' tx' [-> H1]. simpl. eapply wp_mono; [apply IH| |done].
    intros o db'' tx'' [-> H2]. split; [done|]. by etransitivity.
  - intros er db' tx' [-> H1]. by apply wp_mret.
Qed.

(** What the tables say of a claim [c] whose handler's call ended in [o]: the receipt has
    given up its lease; it is processed exactly when the handler returned no error, and
    a panic is an error like any other. *)
Definition receipt_on_record (c : ClaimedReceipt) (o : outcome_of_call) (db : DB) : Prop :=
  ∃ r, receipts db !! cr_key c = Some r ∧ r_lease_expires_at r = None ∧
    r_attempt_count r = cr_Attempt c ∧
    match r_state r with
    | ReceiptProcessed => o = Returned None
    | ReceiptRetry | ReceiptExhausted | ReceiptFailed => o ≠ Returned None
    | _ => False
    end.

Lemma receipt_completed_on_record s c o retry db db' :
  receipt_completed e s c (handleSafely o) retry db db' → receipt_on_record c o db'.
Proof.
  intros (Ho & r & now & random & state & next & Hr & Ht & ->). unfold owns_receipt in Ho.
  rewrite Hr, andb_true_iff, Z.eqb_eq in Ho. destruct Ho as [_ Hn].
  eexists. simpl. rewrite lookup_insert_eq. split; [done|]. split; [done|]. split; [done|]. simpl.
  unfold receiptTransition in Ht. destruct o as [[err|]|v]; simpl in Ht; repeat case_match; by simplify_eq.
Qed.

(** A round that claimed [c] from the state [a] of the handler: it is called once with
    the claim's message, and the tables are those after the renewals or those of the
    completion of [c] with the handler's result, the latter when no error is
    returned. *)
Definition inbound_round (r : runtime_of) (handler : Handler A) (a : A) (db : DB) (c : ClaimedReceipt)
    (messages : list VerifiedMessage) (a' : A) (err : option error) (db' : DB) : Prop :=
  ∃ db1 db2 o,
    receipt_claimed e (rt_lease r) db db1 c ∧ rtc (receipt_renewed c) db1 db2 ∧
    handler (cr_Message c) a = (o, a') ∧ messages = [cr_Message c] ∧
    let done := receipt_completed e (rt_store r) c (handleSafely o) (rt_retry r) db2 db' in
    (err = None → done ∧ receipt_on_record c o db') ∧ (db' = db2 ∨ done).

Lemma WorkInboundOnce_spec (r : runtime_of) h (a : A) db X :
  0 < rt_lease r →
  wp e (WorkInboundOnce r h a)
    (λ res db' _,
       let '(messages, a', (worked, err)) := res in
       if worked : bool
       then ∃ handler c, rt_inbound r = Some handler ∧ inbound_round r handler a db c messages a' err db'
       else messages = [] ∧ a' = a ∧ (err = None → db' = db) ∧
            (db' = db ∨ ∃ c, receipt_claimed e (rt_lease r) db db' c))
    X db None.
Proof.
  intros Hl. unfold WorkInboundOnce. destruct (rt_inbound r) as [handler|] eqn:Eh.
  2: { apply wp_mret. split_and!; try done. by left. }
  apply wp_bind, wp_outcome_of.
  eapply wp_mono; [by apply ClaimReceipt_spec|..].
  2: { intros er db' tx' [-> Hdb]. apply wp_mret. by split_and!. }
  intros [c|] db1 tx' [-> Hclaim].
  2: { subst db1. apply wp_mret. split_and!; try done. by left. }
  apply wp_bind. eapply wp_mono; [apply (receipt_renewals_spec _ _ _ _ _ (λ _ _ _, False))|..|done].
  intros renewErr db2 tx' [-> Hren]. destruct (handler (cr_Message c) a) as [o a'] eqn:Eo.
  assert (∀ err db', (err = None → receipt_completed e (rt_store r) c (handleSafely o) (rt_retry r) db2 db') →
    db' = db2 ∨ receipt_completed e (rt_store r) c (handleSafely o) (rt_retry r) db2 db' →
    ∃ handler0 c0, Some handler = Some handler0 ∧
      inbound_round r handler0 a db c0 [cr_Message c] a' err db') as Hround.
  { intros err db' H1 H2. exists handler, c. split; [done|]. exists db1, db2, o.
    do 4 (split; [done|]). split; [|done]. intros He. split; [by apply H1|by eapply receipt_completed_on_record, H1]. }
  destruct renewErr as [err|]; [apply wp_mret, Hround; [done|by left]|].
  apply wp_bind, wp_outcome_of. eapply wp_mono; [by apply CompleteReceipt_spec|..].
  - intros u db' tx' [_ Hd]. apply wp_mret, Hround; [done|by right].
  - intros er db' tx' [_ Hd]. apply wp_mret, Hround; [done|exact Hd].
Qed.

(** What the handler is given is what was received. *)
Lemma claimed_content lease c m row0 db0 db db1 :
  receipts db0 !! cr_key c = Some row0 → receipt_holds m row0 → receipt_lifetime (cr_key c) db0 db →
  receipt_claimed e lease db db1 c →
  vm_Type (cr_Message c) = vm_Type m ∧ vm_Body (cr_Message c) = vm_Body m ∧
  vm_ContentType (cr_Message c) = vm_ContentType m.
Proof.
  intros Hr0 (H1 & H2 & H3) Hl (n & now & r & Hr & _ & _ & Hc & _).
  destruct (lifetime_same_receipt _ _ _ _ _ Hr0 Hl Hr) as (E1 & _ & E3 & E4 & _).
  rewrite Hc. simpl. split_and!; congruence.
Qed.

(** * Properties *)

(** A step of the receiver that is not the store's: time may pass, the tables and the
    session's transaction stay. *)
Definition spares_db (w w' : world) : Prop := w_db w' = w_db w ∧ w_tx w' = w_tx w.

(** C16 An acknowledgement means the message is in the inbox: when no other session
    commits meanwhile, the system clock and the verifier leave the tables alone, and the
    receiver of a runtime answers a request with success, then, whatever calls to the
    database failed, the request passed every check and carried a verified message, and
    the committed tables hold a receipt with that message's identifier, source, type,
    content type and body, new or received before; nothing else in the tables changed,
    and no transaction is left open. *)
Theorem acknowledged_message_is_stored (r : runtime_of) clock verify rec q db n resp w' :
  (∀ w, spares_db w (clock w).2) → (∀ input w, spares_db w (verify input w).2) →
  runtime_receiver r e clock (Some verify) = Ok rec →
  ServeHTTP rec q {| w_db := db; w_tx := None; w_tick := n |} = (Responded resp, w') → success resp →
  ∃ now w1 m w2 row, clock {| w_db := db; w_tx := None; w_tick := n |} = (now, w1) ∧
    delivers rec q now w1 m w2 ∧
    receipts (w_db w') !! receipt_key m = Some row ∧ receipt_holds m row ∧
    (w_db w' = db ∨ received e (rt_store r) m db (w_db w')) ∧ w_tx w' = None.
Proof.
  intros Hclock Hverify Hrec Hs Hok. unfold runtime_receiver, NewReceiver in Hrec. injection Hrec as <-.
  match type of Hs with ServeHTTP ?rec _ _ = _ => set (rc := rec) in * end.
  set (w := {| w_db := db; w_tx := None; w_tick := n |}) in *.
  destruct (ServeHTTP_success rc q w resp w' default_honest Hs Hok) as (now & w1 & m & w2 & Hc & Hd & _).
  rewrite (ServeHTTP_delivers rc q w now w1 m w2 Hc Hd) in Hs. simpl in Hs.
  pose proof (Hclock w) as [Hdb1 Htx1]. change (clock w = (now, w1)) in Hc. rewrite Hc in Hdb1, Htx1.
  assert (spares_db w1 w2) as [Hdb2 Htx2].
  { destruct Hd as (_ & body & _ & Ha). destruct (admit_message_Ok _ _ _ _ _ _ _ Ha) as (_ & v & Hv & _).
    simpl in Hv. set (input := {| vi_Headers := _; vi_Body := _; vi_ReceivedAt := _ |}) in Hv.
    pose proof (Hverify input w1) as Hsp. by rewrite Hv in Hsp. }
  unfold process, handle in Hs. simpl in Hs. unfold store_handler in Hs.
  destruct w2 as [db2 tx2 n2]. simpl in Hdb1, Htx1, Hdb2, Htx2. subst db2 tx2. rewrite Hdb1, Htx1 in Hs, Hd.
  pose proof (Handle_spec e (rt_store r) m db Hq n2) as Hh.
  destruct (Handle (rt_store r) m e _) as [[u|er] w3]; simpl in Hs.
  2: { injection Hs as <- _. by destruct (default_honest _ Hok). }
  injection Hs as <- <-. exists now, w1, m, {| w_db := db; w_tx := None; w_tick := n2 |}.
  destruct Hh as (Htx & _ & [Hnew|(Hdb & row & Hrow & Hh)]).
  - destruct (received_holds _ _ _ _ _ Hnew) as (row & Hrow & Hh). exists row. split_and!; try done. by right.
  - rewrite Hdb. exists row. split_and!; try done. by left.
Qed.

(** C17 A round handles one received message, once: whatever calls to the database fail,
    as long as no other session commits during the round, an inbound round of a runtime
    with a positive lease calls the handler only for the receipt it claimed, once, with
    the content stored when the message was received, however often it was claimed
    since; the tables end with the claim, its renewals and, when no error is returned,
    the completion of the same claim with the handler's result, which leaves the receipt
    without a lease, and processed exactly when the handler returned no error; a round
    that finds nothing or fails to claim leaves the handler alone. *)
Theorem inbound_round_handles_once (r : runtime_of) h (a : A) db n :
  0 < rt_lease r →
  match WorkInboundOnce r h a e {| w_db := db; w_tx := None; w_tick := n |} with
  | (Ok (messages, a', (true, err)), w) => ∃ handler c,
      rt_inbound r = Some handler ∧ messages = [cr_Message c] ∧
      inbound_round r handler a db c messages a' err (w_db w) ∧
      ∀ m row0 db0, receipts db0 !! cr_key c = Some row0 → receipt_holds m row0 →
        receipt_lifetime (cr_key c) db0 db →
        vm_Type (cr_Message c) = vm_Type m ∧ vm_Body (cr_Message c) = vm_Body m ∧
        vm_ContentType (cr_Message c) = vm_ContentType m
  | (Ok (messages, a', (false, err)), w) => messages = [] ∧ a' = a ∧ (err = None → w_db w = db) ∧
      (w_db w = db ∨ ∃ c, receipt_claimed e (rt_lease r) db (w_db w) c)
  | (Err _, _) => False
  end.
Proof.
  intros Hl. pose proof (WorkInboundOnce_spec r h a db (λ _ _ _, False) Hl n) as Hr.
  destruct (WorkInboundOnce _ _ _ _ _) as [[[[ms a'] [[] err]]|er] w]; [|exact Hr|exact Hr].
  destruct Hr as (handler & c & Hh & Hround). exists handler, c. split; [done|].
  pose proof Hround as (db1 & db2 & o & Hclaim & _ & _ & Hms & _).
  split; [done|]. split; [done|]. intros m row0 db0 H0 Hm Hlife. by eapply claimed_content.
Qed.
End inbound.
