(* ===== verification/PgHeartbeat.v ===== *)
(** src/postgres/runtime.go: the heartbeat goroutine that renews a worker's lease
    while the worker sends or handles, and the [Stop] the worker ends it with, as a
    step relation on their shared state.

    Between its steps the two are interleaved freely, the timer fires and the
    parent context is cancelled at any time, and a [select] with several channels
    ready takes any of them.  A renewal is one step: while the heartbeat runs it is
    the only one of the two that uses the database. *)

From S2P Require Import Prelude GoString Codec GoTime Errors Handler.
From S2P Require Import PgText PgModel PgRuntime.

(** * The state *)

(** Where the goroutine is: at the [select], in [renew], after a failed renewal at
    the test of the context, at [h.cancel()], at the deferred [close(h.done)], or
    at its end. *)
Inductive goroutine : Type :=
| Waiting
| Renewing
| Failed (err : error)
| Cancelling
| Closing
| Finished.

(** Where the worker is: at its work, in [Stop] at [close(h.stop)], at [h.cancel()]
    or at [<-h.done], or after [Stop] returned. *)
Inductive worker : Type :=
| Working
| StopClosing
| StopCancelling
| Joining
| Stopped (err : option error).

Inductive timer : Type := Armed | Fired | Drained.

(** [leaseHeartbeat] with what its channels, its context and its timer hold, and
    the world the renewals work on. *)
Record heartbeat := {
  h_goroutine : goroutine;
  h_worker : worker;
  h_stop : bool;
  h_done : bool;
  h_ctx_done : bool;
  h_timer : timer;
  h_err : option error;
  h_world : world
}.

(** [startLeaseHeartbeat]; the parent context may have ended. *)
Definition startLeaseHeartbeat (parent_done : bool) (w : world) : heartbeat :=
  {| h_goroutine := Waiting; h_worker := Working; h_stop := false; h_done := false;
     h_ctx_done := parent_done; h_timer := Armed; h_err := None; h_world := w |}.

Definition set_goroutine (g : goroutine) (h : heartbeat) : heartbeat :=
  {| h_goroutine := g; h_worker := h_worker h; h_stop := h_stop h; h_done := h_done h;
     h_ctx_done := h_ctx_done h; h_timer := h_timer h; h_err := h_err h; h_world := h_world h |}.
Definition set_worker (k : worker) (h : heartbeat) : heartbeat :=
  {| h_goroutine := h_goroutine h; h_worker := k; h_stop := h_stop h; h_done := h_done h;
     h_ctx_done := h_ctx_done h; h_timer := h_timer h; h_err := h_err h; h_world := h_world h |}.
Definition set_timer (t : timer) (h : heartbeat) : heartbeat :=
  {| h_goroutine := h_goroutine h; h_worker := h_worker h; h_stop := h_stop h; h_done := h_done h;
     h_ctx_done := h_ctx_done h; h_timer := t; h_err := h_err h; h_world := h_world h |}.
Definition set_err (err : option error) (h : heartbeat) : heartbeat :=
  {| h_goroutine := h_goroutine h; h_worker := h_worker h; h_stop := h_stop h; h_done := h_done h;
     h_ctx_done := h_ctx_done h; h_timer := h_timer h; h_err := err; h_world := h_world h |}.
Definition set_world (w : world) (h : heartbeat) : heartbeat :=
  {| h_goroutine := h_goroutine h; h_worker := h_worker h; h_stop := h_stop h; h_done := h_done h;
     h_ctx_done := h_ctx_done h; h_timer := h_timer h; h_err := h_err h; h_world := w |}.
(** [h.cancel()], [close(h.stop)] and [close(h.done)]. *)
Definition cancel_ctx (h : heartbeat) : heartbeat :=
  {| h_goroutine := h_goroutine h; h_worker := h_worker h; h_stop := h_stop h; h_done := h_done h;
     h_ctx_done := true; h_timer := h_timer h; h_err := h_err h; h_world := h_world h |}.
Definition close_stop (h : heartbeat) : heartbeat :=
  {| h_goroutine := h_goroutine h; h_worker := h_worker h; h_stop := true; h_done := h_done h;
     h_ctx_done := h_ctx_done h; h_timer := h_timer h; h_err := h_err h; h_world := h_world h |}.
Definition close_done (h : heartbeat) : heartbeat :=
  {| h_goroutine := h_goroutine h; h_worker := h_worker h; h_stop := h_stop h; h_done := true;
     h_ctx_done := h_ctx_done h; h_timer := h_timer h; h_err := h_err h; h_world := h_world h |}.

(** * Steps *)

Section heartbeat.
Context (e : env) (renew : M unit).

(** The goroutine, [(h *leaseHeartbeat) run]. *)
Inductive run_step (h : heartbeat) : heartbeat → Prop :=
| run_ctx_done :
    h_goroutine h = Waiting → h_ctx_done h = true → run_step h (set_goroutine Closing h)
| run_stop :
    h_goroutine h = Waiting → h_stop h = true → run_step h (set_goroutine Closing h)
| run_timer :
    h_goroutine h = Waiting → h_timer h = Fired →
    run_step h (set_goroutine Renewing (set_timer Drained h))
| run_renewed r w :
    h_goroutine h = Renewing → renew e (h_world h) = (r, w) →
    renewLeaseSafely (returned r) = None →
    run_step h (set_goroutine Waiting (set_timer Armed (set_world w h)))
| run_failed r w err :
    h_goroutine h = Renewing → renew e (h_world h) = (r, w) →
    renewLeaseSafely (returned r) = Some err →
    run_step h (set_goroutine (Failed err) (set_world w h))
| run_failed_done err :
    h_goroutine h = Failed err → h_ctx_done h = true → run_step h (set_goroutine Closing h)
| run_failed_live err :
    h_goroutine h = Failed err → h_ctx_done h = false →
    run_step h (set_goroutine Cancelling (set_err (Some (renewal_failed err)) h))
| run_cancel :
    h_goroutine h = Cancelling → run_step h (set_goroutine Closing (cancel_ctx h))
| run_close :
    h_goroutine h = Closing → run_step h (set_goroutine Finished (close_done h)).

(** [(h *leaseHeartbeat) Stop] once the worker called it. *)
Inductive stop_step (h : heartbeat) : heartbeat → Prop :=
| stop_close :
    h_worker h = StopClosing → stop_step h (set_worker StopCancelling (close_stop h))
| stop_cancel :
    h_worker h = StopCancelling → stop_step h (set_worker Joining (cancel_ctx h))
| stop_join :
    h_worker h = Joining → h_done h = true → stop_step h (set_worker (Stopped (h_err h)) h).

(** What neither decides: when the worker is ready to stop (again: [stopOnce] then
    skips the closing), when the timer fires, and when the parent is cancelled. *)
Inductive outer_step (h : heartbeat) : heartbeat → Prop :=
| outer_stop : h_worker h = Working → outer_step h (set_worker StopClosing h)
| outer_stop_again err : h_worker h = Stopped err → outer_step h (set_worker Joining h)
| outer_timer : h_timer h = Armed → outer_step h (set_timer Fired h)
| outer_parent : outer_step h (cancel_ctx h).

Inductive step (h h' : heartbeat) : Prop :=
| step_run : run_step h h' → step h h'
| step_stop : stop_step h h' → step h h'
| step_outer : outer_step h h' → step h h'.

(** * The invariant *)

Definition stop_called (k : worker) : bool :=
  match k with Working | StopClosing => false | _ => true end.
Definition stop_cancelled (k : worker) : bool :=
  match k with Joining | Stopped _ => true | _ => false end.

(** The renewals made from [w0] so far, as the sequential loop of the rounds. *)
Definition renewed_so_far (w0 : world) (h : heartbeat) : Prop :=
  match h_goroutine h with
  | Waiting | Renewing => h_err h = None ∧
      ∃ n, ∀ c k, renewals renew c (n + k) e w0 = renewals renew c k e (h_world h)
  | Failed err => h_err h = None ∧
      ∃ n, ∀ c, renewals renew c n e w0 =
        (Ok (if c then None else Some (renewal_failed err)), h_world h)
  | Cancelling | Closing | Finished =>
      ∃ c n, renewals renew c n e w0 = (Ok (h_err h), h_world h)
  end.

Record heartbeat_ok (w0 : world) (h : heartbeat) : Prop := {
  ho_done : h_done h = true ↔ h_goroutine h = Finished;
  ho_stop : h_stop h = stop_called (h_worker h);
  ho_cancelled : stop_cancelled (h_worker h) = true → h_ctx_done h = true;
  ho_stopped err : h_worker h = Stopped err → h_done h = true ∧ err = h_err h;
  ho_alone : h_goroutine h = Closing ∨ h_goroutine h = Finished → h_ctx_done h = true ∨ h_stop h = true;
  ho_renewed : renewed_so_far w0 h
}.

Lemma start_ok parent_done w0 : heartbeat_ok w0 (startLeaseHeartbeat parent_done w0).
Proof.
  constructor; simpl; try done; [by intros [?|?]|]. split; [done|]. by exists O.
Qed.

Lemma renewals_S c n w :
  renewals renew c (S n) e w =
    let '(r, w') := renew e w in
    match renewLeaseSafely (returned r) with
    | None => renewals renew c n e w'
    | Some err => (Ok (if c then None else Some (renewal_failed err)), w')
    end.
Proof.
  simpl. unfold mbind, M_bind, outcome_of. destruct (renew e w) as [[u|er] w']; done.
Qed.

Lemma run_keeps_renewed w0 h h' : run_step h h' → renewed_so_far w0 h → renewed_so_far w0 h'.
Proof.
  intros Hs. unfold renewed_so_far.
  destruct Hs as [Hg Hc|Hg Hc|Hg Ht|r w Hg Hr Hsafe|r w err Hg Hr Hsafe|err Hg Hc|err Hg Hc|Hg|Hg];
    rewrite Hg; simpl; try done.
  - intros [-> [n Hn]]. exists true, n. specialize (Hn true O). by rewrite Nat.add_0_r in Hn.
  - intros [-> [n Hn]]. exists true, n. specialize (Hn true O). by rewrite Nat.add_0_r in Hn.
  - intros [Herr [n Hn]]. split; [done|]. exists (S n). intros c k.
    replace (S n + k)%nat with (n + S k)%nat by lia. rewrite Hn, renewals_S, Hr. by rewrite Hsafe.
  - intros [Herr [n Hn]]. split; [done|]. exists (n + 1)%nat. intros c. rewrite Hn, renewals_S, Hr.
    by rewrite Hsafe.
  - intros [-> [n Hn]]. exists true, n. apply (Hn true).
  - intros [_ [n Hn]]. exists false, n. apply (Hn false).
Qed.

Lemma renewed_frame w0 h h' :
  h_goroutine h' = h_goroutine h → h_err h' = h_err h → h_world h' = h_world h →
  renewed_so_far w0 h → renewed_so_far w0 h'.
Proof. unfold renewed_so_far. by intros -> -> ->. Qed.

Lemma step_keeps_ok w0 h h' : step h h' → heartbeat_ok w0 h → heartbeat_ok w0 h'.
Proof.
  intros Hs [D S C J A R]. destruct Hs as [Hs|Hs|Hs].
  - pose proof (run_keeps_renewed _ _ _ Hs R) as R'.
    destruct Hs as [Hg Hc|Hg Hc|Hg Ht|r w Hg Hr Hsafe|r w err Hg Hr Hsafe|err Hg Hc|err Hg Hc|Hg|Hg];
      rewrite Hg in *; constructor; simpl in *; try done; try (by intros [?|?]); try naive_solver.
  - destruct Hs as [Hk|Hk|Hk Hd]; rewrite Hk in *; constructor; simpl in *;
      try done; try naive_solver; by eapply renewed_frame.
  - destruct Hs as [Hk|err Hk|Ht|]; try rewrite Hk in *; constructor; simpl in *;
      try done; try naive_solver; by eapply renewed_frame.
Qed.

Lemma steps_keep_ok w0 h h' : rtc step h h' → heartbeat_ok w0 h → heartbeat_ok w0 h'.
Proof. induction 1; eauto using step_keeps_ok. Qed.
End heartbeat.

(** * How long it can take *)

(** [n] steps of the goroutine and of [Stop], and [m] outer ones. *)
Inductive run_of (e : env) (renew : M unit) : nat → nat → heartbeat → heartbeat → Prop :=
| run_of_nil h : run_of e renew O O h h
| run_of_run n m h h' h'' :
    run_step e renew h h' → run_of e renew n m h' h'' → run_of e renew (S n) m h h''
| run_of_stop n m h h' h'' :
    stop_step h h' → run_of e renew n m h' h'' → run_of e renew (S n) m h h''
| run_of_outer n m h h' h'' :
    outer_step h h' → run_of e renew n m h' h'' → run_of e renew n (S m) h h''.

(** The steps left to each part if nothing happens outside. *)
Definition goroutine_left (g : goroutine) : nat :=
  match g with
  | Renewing => 4 | Failed _ => 3 | Waiting | Cancelling => 2 | Closing => 1 | Finished => 0
  end.
Definition stop_left (k : worker) : nat :=
  match k with StopClosing => 3 | StopCancelling => 2 | Joining => 1 | Working | Stopped _ => 0 end.
Definition timer_left (t : timer) : nat := match t with Fired => 3 | Armed | Drained => 0 end.
Definition steps_left (h : heartbeat) : nat :=
  goroutine_left (h_goroutine h) + stop_left (h_worker h) + timer_left (h_timer h).

Lemma run_of_bound e renew n m h h' :
  run_of e renew n m h h' → (n + steps_left h' ≤ steps_left h + 3 * m)%nat.
Proof.
  induction 1 as [h|n m h h' h'' Hs _ IH|n m h h' h'' Hs _ IH|n m h h' h'' Hs _ IH]; [lia|..];
    revert IH; unfold steps_left; destruct Hs; simpl;
    repeat match goal with
           | H : h_goroutine _ = _ |- _ => rewrite H
           | H : h_worker _ = _ |- _ => rewrite H
           | H : h_timer _ = _ |- _ => rewrite H
           end; simpl; destruct (h_timer h); simpl; lia.
Qed.

Lemma run_of_steps e renew n m h h' : run_of e renew n m h h' → rtc (step e renew) h h'.
Proof. induction 1; eauto using rtc_l, rtc_refl, step_run, step_stop, step_outer. Qed.

(** A worker that called [Stop] is never stuck before it returns. *)
Lemma stop_not_stuck e renew w0 h :
  heartbeat_ok e renew w0 h → stop_left (h_worker h) ≠ O →
  ∃ h', run_step e renew h h' ∨ stop_step h h'.
Proof.
  intros Hok Hk. destruct (h_worker h) as [| | | |err] eqn:Ew; try done.
  - eexists. right. by apply stop_close.
  - eexists. right. by apply stop_cancel.
  - pose proof (ho_cancelled _ _ _ _ Hok) as Hc. rewrite Ew in Hc. specialize (Hc eq_refl).
    destruct (h_goroutine h) as [| |err| | |] eqn:Eg.
    + eexists. left. by apply run_ctx_done.
    + destruct (renew e (h_world h)) as [r w] eqn:Er.
      destruct (renewLeaseSafely (returned r)) eqn:Es; eexists; left;
        [by eapply run_failed|by eapply run_renewed].
    + eexists. left. by eapply run_failed_done.
    + eexists. left. by apply run_cancel.
    + eexists. left. by apply run_close.
    + eexists. right. apply stop_join; [done|]. by apply (ho_done _ _ _ _ Hok).
Qed.

(** After [Stop] returned nothing the rounds use changes any more. *)
Lemma stopped_stable e renew w0 h h' :
  heartbeat_ok e renew w0 h → h_goroutine h = Finished → rtc (step e renew) h h' →
  h_world h' = h_world h ∧ h_err h' = h_err h.
Proof.
  intros Hok Hg Hr. induction Hr as [h|h1 h2 h3 H12 _ IH]; [done|].
  assert (h_goroutine h2 = Finished ∧ h_world h2 = h_world h1 ∧ h_err h2 = h_err h1) as (Hg2 & <- & <-).
  { destruct H12 as [H|H|H]; [|by destruct H; simpl..].
    exfalso. destruct H; congruence. }
  apply IH; [by eapply step_keeps_ok|done].
Qed.

(** * Properties *)

(** C24 The heartbeat is the loop of the rounds: however the goroutine, the worker,
    the timer and the contexts are interleaved, once [Stop] has returned, the
    renewals made and the error returned are those of the sequential loop
    [renewals] for some number of ticks, and no renewal is made and the error does
    not change ever after, so that none overlaps the completion. *)
Theorem heartbeat_refines_renewals e renew parent_done w0 h err :
  rtc (step e renew) (startLeaseHeartbeat parent_done w0) h → h_worker h = Stopped err →
  (∃ b : heartbeat_env, renewals renew (hb_cancelled b) (hb_ticks b) e w0 = (Ok err, h_world h)) ∧
  ∀ h', rtc (step e renew) h h' → h_world h' = h_world h ∧ h_err h' = err.
Proof.
  intros Hr Hk. pose proof (steps_keep_ok e renew w0 _ _ Hr (start_ok e renew parent_done w0)) as Hok.
  destruct (ho_stopped _ _ _ _ Hok err Hk) as [Hd ->]. apply (ho_done _ _ _ _ Hok) in Hd.
  split; [|intros h' Hh; by eapply stopped_stable].
  pose proof (ho_renewed _ _ _ _ Hok) as Hn. unfold renewed_so_far in Hn. rewrite Hd in Hn.
  destruct Hn as (c & n & Hn). by exists {| hb_ticks := n; hb_cancelled := c |}.
Qed.

(** C25 Stopping a heartbeat ends: in every interleaving the goroutine and [Stop]
    make at most two steps and three for each firing of the timer, cancellation and
    call of [Stop]; a called [Stop] that has not returned always has a next step of
    its own or of the goroutine's; and the goroutine only ever ends with the
    worker's context cancelled or [Stop] called. *)
Theorem heartbeat_stops e renew parent_done w0 n m h :
  run_of e renew n m (startLeaseHeartbeat parent_done w0) h →
  (n ≤ 2 + 3 * m)%nat ∧
  (h_worker h = Working ∨ (∃ err, h_worker h = Stopped err) ∨
   ∃ h', run_step e renew h h' ∨ stop_step h h') ∧
  (h_goroutine h = Finished → h_ctx_done h = true ∨ h_stop h = true).
Proof.
  intros Hrun. pose proof (run_of_bound _ _ _ _ _ _ Hrun) as Hb.
  pose proof (run_of_steps _ _ _ _ _ _ Hrun) as Hr.
  pose proof (steps_keep_ok e renew w0 _ _ Hr (start_ok e renew parent_done w0)) as Hok.
  split; [unfold steps_left in Hb at 2; simpl in Hb; lia|]. split.
  - destruct (decide (stop_left (h_worker h) = O)) as [H0|H0].
    + destruct (h_worker h); try done; [by left|right; left; eauto].
    + right. right. by eapply stop_not_stuck.
  - intros Hg. apply (ho_alone _ _ _ _ Hok). by right.
Qed.
