(* ===== verification/PgPool.v ===== *)
(** src/postgres/runtime.go: the goroutines of [Run] - one loop per worker, the wait
    group and the context that ends them - as a step relation on their shared state.

    The loops are interleaved freely; a loop's timer fires and the context ends at any
    time, and a [select] with both channels ready takes either.  A round is a relation:
    it may return one of several outcomes, or none, when it is blocked for good.  What
    it does to the world is put at its end: the rounds of PgRuntime say how its
    statements are interleaved with those of other sessions. *)

From S2P Require Import Prelude GoString Codec GoTime Errors Handler.
From S2P Require Import PgText PgModel PgRuntime.

(** * The state *)

(** Where the goroutine of a loop is. *)
Inductive loop_place : Type := AtSelect | InRound | LoopEnded.

(** A loop, [runLoop]: its worker, its place, whether its timer has fired, and the
    delay the timer was last set to. *)
Record loop := { l_worker : string * Z; l_place : loop_place; l_fired : bool; l_delay : duration }.

(** Where [Run] is: starting the loops that are left, at [<-ctx.Done()], at
    [wait.Wait()], or after its return. *)
Inductive run_place : Type :=
| Starting (rest : list (string * Z))
| AwaitingContext
| AwaitingLoops
| Returned_nil.

Record pool {W : Type} := {
  p_run : run_place;
  p_wait : Z;
  p_ctx : bool;
  p_loops : list loop;
  p_world : W
}.
Arguments pool : clear implicits.

Section pool.
Context {RoundTripper RedirectFn Proxy DialerRest TLSRest A W : Type}.
Abbreviation runtime_of := (@Runtime RoundTripper RedirectFn Proxy DialerRest TLSRest A).
Context (r : runtime_of).
(** [work k w o w']: a round of worker [k] in [w] may end with [o] and leave [w']. *)
Context (work : string * Z → W → work_outcome → W → Prop).

(** A loop as it starts: [time.NewTimer(0)]. *)
Definition new_loop (k : string * Z) : loop :=
  {| l_worker := k; l_place := AtSelect; l_fired := false; l_delay := 0 |}.
Definition at_place (l : loop) (x : loop_place) : loop :=
  {| l_worker := l_worker l; l_place := x; l_fired := false; l_delay := l_delay l |}.
Definition fired (l : loop) : loop :=
  {| l_worker := l_worker l; l_place := l_place l; l_fired := true; l_delay := l_delay l |}.
(** After a round: [timer.Reset(delay)]. *)
Definition after_round (l : loop) (o : work_outcome) : loop :=
  {| l_worker := l_worker l; l_place := AtSelect; l_fired := false; l_delay := loop_delay r o |}.

Definition set_run (x : run_place) (p : pool W) : pool W :=
  {| p_run := x; p_wait := p_wait p; p_ctx := p_ctx p; p_loops := p_loops p; p_world := p_world p |}.
Definition set_loop (i : nat) (l : loop) (p : pool W) : pool W :=
  {| p_run := p_run p; p_wait := p_wait p; p_ctx := p_ctx p; p_loops := <[i := l]> (p_loops p);
     p_world := p_world p |}.
(** [wait.Add(1)] and the [go] statement. *)
Definition start_loop (k : string * Z) (rest : list (string * Z)) (p : pool W) : pool W :=
  {| p_run := Starting rest; p_wait := p_wait p + 1; p_ctx := p_ctx p; p_loops := p_loops p ++ [new_loop k];
     p_world := p_world p |}.
(** [wait.Done()] *)
Definition loop_done (p : pool W) : pool W :=
  {| p_run := p_run p; p_wait := p_wait p - 1; p_ctx := p_ctx p; p_loops := p_loops p; p_world := p_world p |}.
Definition end_context (p : pool W) : pool W :=
  {| p_run := p_run p; p_wait := p_wait p; p_ctx := true; p_loops := p_loops p; p_world := p_world p |}.
Definition set_pool_world (w : W) (p : pool W) : pool W :=
  {| p_run := p_run p; p_wait := p_wait p; p_ctx := p_ctx p; p_loops := p_loops p; p_world := w |}.

(** [Run] on a runtime that is not nil; its context may have ended. *)
Definition start_pool (ctx_done : bool) (w : W) : pool W :=
  {| p_run := Starting (workers r); p_wait := 0; p_ctx := ctx_done; p_loops := []; p_world := w |}.

(** * Steps *)

(** What [Run] and its loops do. *)
Inductive pool_step (p : pool W) : pool W → Prop :=
| pool_start k rest : p_run p = Starting (k :: rest) → pool_step p (start_loop k rest p)
| pool_started : p_run p = Starting [] → pool_step p (set_run AwaitingContext p)
| pool_ctx : p_run p = AwaitingContext → p_ctx p = true → pool_step p (set_run AwaitingLoops p)
| pool_join : p_run p = AwaitingLoops → p_wait p = 0 → pool_step p (set_run Returned_nil p)
| pool_stop i l :
    p_loops p !! i = Some l → l_place l = AtSelect → p_ctx p = true →
    pool_step p (loop_done (set_loop i (at_place l LoopEnded) p))
| pool_timer i l :
    p_loops p !! i = Some l → l_place l = AtSelect → l_fired l = true →
    pool_step p (set_loop i (at_place l InRound) p)
| pool_round i l o w :
    p_loops p !! i = Some l → l_place l = InRound → work (l_worker l) (p_world p) o w →
    pool_step p (set_pool_world w (set_loop i (after_round l o) p)).

(** What they do not decide. *)
Inductive pool_outer (p : pool W) : pool W → Prop :=
| outer_fires i l :
    p_loops p !! i = Some l → l_place l = AtSelect → l_fired l = false → pool_outer p (set_loop i (fired l) p)
| outer_context : pool_outer p (end_context p).

(** [n] steps of the pool and [m] outer ones. *)
Inductive pool_run : nat → nat → pool W → pool W → Prop :=
| pool_run_nil p : pool_run 0 0 p p
| pool_run_step n m p p1 p2 : pool_run n m p p1 → pool_step p1 p2 → pool_run (S n) m p p2
| pool_run_outer n m p p1 p2 : pool_run n m p p1 → pool_outer p1 p2 → pool_run n (S m) p p2.

(** * The invariant *)

Definition live_loop (l : loop) : nat := match l_place l with LoopEnded => 0 | _ => 1 end.
Definition pending (p : pool W) : list (string * Z) := match p_run p with Starting rest => rest | _ => [] end.

Record pool_ok (p : pool W) : Prop := {
  po_wait : p_wait p = Z.of_nat (sum_list_with live_loop (p_loops p));
  po_workers : map l_worker (p_loops p) ++ pending p = workers r;
  po_ctx : p_run p = AwaitingLoops ∨ p_run p = Returned_nil → p_ctx p = true;
  po_returned : p_run p = Returned_nil → p_wait p = 0
}.

Lemma sum_insert (f : loop → nat) i l l' ls :
  ls !! i = Some l → (sum_list_with f (<[i := l']> ls) + f l = sum_list_with f ls + f l')%nat.
Proof.
  revert i. induction ls as [|x ls IH]; intros [|i] Hi; simplify_eq/=; [lia|]. specialize (IH i Hi). lia.
Qed.

Lemma workers_insert i l l' ls :
  ls !! i = Some l → l_worker l' = l_worker l → map l_worker (<[i := l']> ls) = map l_worker ls.
Proof.
  intros Hi Hw. change (map l_worker) with (fmap (M := list) l_worker).
  rewrite list_fmap_insert, Hw. apply list_insert_id. by rewrite list_lookup_fmap, Hi.
Qed.

(** A loop that goes on, and one that ends. *)
Lemma pool_ok_loop p i l l' :
  pool_ok p → p_loops p !! i = Some l → l_worker l' = l_worker l → live_loop l' = live_loop l →
  pool_ok (set_loop i l' p).
Proof.
  intros [Hw Hk Hc Hr] Hi Hwk Hl. pose proof (sum_insert live_loop i l l' _ Hi).
  constructor; simpl; [lia|by erewrite workers_insert|done..].
Qed.

Lemma pool_ok_step p p' : pool_ok p → pool_step p p' → pool_ok p'.
Proof.
  intros Hok Hs. pose proof Hok as [Hw Hk Hc Hr]. destruct Hs as
    [k rest Hp|Hp|Hp Hctx|Hp Hz|i l Hi Hl Hctx|i l Hi Hl Hf|i l o w Hi Hl Ho].
  - unfold pending in Hk. rewrite Hp in Hk. constructor; simpl; [|by rewrite map_app, <-app_assoc|by intros [|]|done].
    rewrite sum_list_with_app. simpl. lia.
  - unfold pending in Hk. rewrite Hp in Hk. constructor; simpl; [done|done|by intros [|]|done].
  - unfold pending in Hk. rewrite Hp in Hk. by constructor.
  - unfold pending in Hk. rewrite Hp in Hk. constructor; simpl; [done|done|auto|done].
  - pose proof (sum_insert live_loop i l (at_place l LoopEnded) _ Hi) as Hs.
    assert (live_loop l = 1%nat) as Hone by (unfold live_loop; by rewrite Hl).
    change (live_loop (at_place l LoopEnded)) with 0%nat in Hs.
    constructor; simpl; [lia|by erewrite workers_insert|done|]. intros Hret. specialize (Hr Hret). lia.
  - apply pool_ok_loop with l; auto. unfold live_loop. by rewrite Hl.
  - destruct (pool_ok_loop p i l (after_round l o) Hok Hi eq_refl) as [????]; [|by constructor].
    unfold live_loop. by rewrite Hl.
Qed.

Lemma pool_ok_outer p p' : pool_ok p → pool_outer p p' → pool_ok p'.
Proof.
  intros Hok [i l Hi Hl Hf|]; [by apply pool_ok_loop with l|].
  destruct Hok as [Hw Hk Hc Hr]. by constructor.
Qed.

Lemma start_pool_ok c w : pool_ok (start_pool c w).
Proof. constructor; simpl; [done|done|by intros [|]|done]. Qed.

Lemma pool_run_ok n m p p' : pool_ok p → pool_run n m p p' → pool_ok p'.
Proof. intros Hok. induction 1; eauto using pool_ok_step, pool_ok_outer. Qed.

(** * The steps left *)

(** Steps left to a loop if its timer does not fire again: the round it is in or may
    still take, and its end. *)
Definition loop_left (l : loop) : nat :=
  match l_place l with
  | AtSelect => if l_fired l then 3 else 1
  | InRound => 2
  | LoopEnded => 0
  end.
Definition run_left (x : run_place) : nat :=
  match x with
  | Starting rest => 2 * length rest + 3
  | AwaitingContext => 2
  | AwaitingLoops => 1
  | Returned_nil => 0
  end.
Definition left_over (p : pool W) : nat := (run_left (p_run p) + sum_list_with loop_left (p_loops p))%nat.

Lemma step_left p p' : pool_step p p' → (left_over p' < left_over p)%nat.
Proof.
  unfold left_over. intros Hs. destruct Hs as
    [k rest Hp|Hp|Hp Hctx|Hp Hz|i l Hi Hl Hctx|i l Hi Hl Hf|i l o w Hi Hl Ho]; simpl; rewrite ?Hp; simpl.
  - rewrite sum_list_with_app. simpl. lia.
  - lia.
  - lia.
  - lia.
  - pose proof (sum_insert loop_left i l (at_place l LoopEnded) _ Hi) as Hsum.
    change (loop_left (at_place l LoopEnded)) with 0%nat in Hsum.
    assert (1 ≤ loop_left l)%nat by (unfold loop_left; rewrite Hl; by destruct (l_fired l); lia). lia.
  - pose proof (sum_insert loop_left i l (at_place l InRound) _ Hi) as Hsum.
    change (loop_left (at_place l InRound)) with 2%nat in Hsum.
    assert (loop_left l = 3)%nat by (unfold loop_left; by rewrite Hl, Hf). lia.
  - pose proof (sum_insert loop_left i l (after_round l o) _ Hi) as Hsum.
    change (loop_left (after_round l o)) with 1%nat in Hsum.
    assert (loop_left l = 2)%nat by (unfold loop_left; by rewrite Hl). lia.
Qed.

Lemma outer_left p p' : pool_outer p p' → (left_over p' ≤ left_over p + 2)%nat.
Proof.
  unfold left_over. intros [i l Hi Hl Hf|]; simpl; [|lia].
  pose proof (sum_insert loop_left i l (fired l) _ Hi) as Hsum.
  assert (loop_left (fired l) = 3)%nat by (unfold loop_left; simpl; by rewrite Hl).
  assert (loop_left l = 1)%nat by (unfold loop_left; by rewrite Hl, Hf). lia.
Qed.

Lemma run_left_bound n m p p' : pool_run n m p p' → (n + left_over p' ≤ left_over p + 2 * m)%nat.
Proof.
  induction 1 as [p|n m p p1 p2 _ IH Hs|n m p p1 p2 _ IH Hs]; [lia| |].
  - apply step_left in Hs. lia.
  - apply outer_left in Hs. lia.
Qed.

Lemma all_ended ls :
  sum_list_with live_loop ls = 0%nat → Forall (λ l, l_place l = LoopEnded) ls.
Proof.
  induction ls as [|l ls IH]; simpl; intros Hs; constructor; [|apply IH; lia].
  unfold live_loop at 1 in Hs. destruct (l_place l); [lia|lia|done].
Qed.

Definition in_round (l : loop) : Prop := l_place l = InRound.
Definition ended (l : loop) : Prop := l_place l = LoopEnded.

Lemma loops_cases ls :
  sum_list_with live_loop ls = 0%nat ∨ (∃ i l, ls !! i = Some l ∧ l_place l = AtSelect) ∨
  (Forall (λ l, ended l ∨ in_round l) ls ∧ Exists in_round ls).
Proof.
  induction ls as [|l ls IH]; simpl; [by left|]. unfold ended, in_round in *.
  destruct (l_place l) eqn:E; [right; left; by exists 0%nat, l| |].
  - destruct IH as [IH|[(i & x & Hi & Hx)|[IH _]]]; [right; right|right; left; by exists (S i), x|right; right].
    + split; [|by left]. constructor; [by right|]. eapply Forall_impl; [by apply all_ended|]. auto.
    + split; [|by left]. constructor; [by right|done].
  - destruct IH as [IH|[(i & x & Hi & Hx)|[IH1 IH2]]];
      [left; by unfold live_loop at 1; rewrite E|right; left; by exists (S i), x|right; right].
    split; [|by right]. constructor; [by left|done].
Qed.

(** Once the context has ended, only a round that has not returned holds [Run] up. *)
Lemma pool_progress p :
  pool_ok p → p_ctx p = true →
  p_run p = Returned_nil ∨ (∃ p', pool_step p p') ∨
  (p_run p = AwaitingLoops ∧ Forall (λ l, ended l ∨ in_round l) (p_loops p) ∧ Exists in_round (p_loops p)).
Proof.
  intros [Hw _ _ _] Hctx. destruct (p_run p) as [[|k rest]| | |] eqn:Er; [right..|by left].
  - left. eexists. by apply pool_started.
  - left. eexists. by eapply pool_start.
  - left. eexists. by apply pool_ctx.
  - destruct (loops_cases (p_loops p)) as [Hz|[(i & l & Hi & Hl)|[H1 H2]]]; [left|left|by right].
    + eexists. apply pool_join; [done|lia].
    + eexists. by eapply pool_stop.
Qed.

(** The workers of a configuration. *)
Lemma elem_of_workers kind i :
  (kind, i) ∈ workers r ↔
    (kind = "outbound" ∧ 0 ≤ i < rt_outboundCount r) ∨ (kind = "inbound" ∧ 0 ≤ i < rt_inboundCount r).
Proof.
  unfold workers. rewrite elem_of_app.
  change (map (λ i, ("outbound", i))) with (fmap (M := list) (λ i : Z, ("outbound", i))).
  change (map (λ i, ("inbound", i))) with (fmap (M := list) (λ i : Z, ("inbound", i))).
  rewrite !list_elem_of_fmap. setoid_rewrite elem_of_seqZ. split.
  - intros [(x & [= -> ->] & Hx)|(x & [= -> ->] & Hx)]; [left|right]; split; (done || lia).
  - intros [[-> Hi]|[-> Hi]]; [left|right]; exists i; (split; [done|lia]).
Qed.

Lemma NoDup_workers : NoDup (workers r).
Proof.
  unfold workers.
  change (map (λ i, ("outbound", i))) with (fmap (M := list) (λ i : Z, ("outbound", i))).
  change (map (λ i, ("inbound", i))) with (fmap (M := list) (λ i : Z, ("inbound", i))).
  apply NoDup_app. split_and!.
  - apply NoDup_fmap_2; [by intros ?? [= ->]|apply NoDup_seqZ].
  - intros [k i] (x & [= -> ->] & _)%list_elem_of_fmap (y & [=] & _)%list_elem_of_fmap.
  - apply NoDup_fmap_2; [by intros ?? [= ->]|apply NoDup_seqZ].
Qed.

Lemma length_workers :
  length (workers r) = (Z.to_nat (rt_outboundCount r) + Z.to_nat (rt_inboundCount r))%nat.
Proof. unfold workers. by rewrite length_app, !length_map, !length_seqZ. Qed.

(** * Properties *)

(** C26 [Run] starts its workers and returns after them.  Whatever the rounds do, panic,
    fail or never return: [Run] and its loops take at most two steps per worker, three of
    [Run]'s own and two for each firing of a timer and the end of the context; no two
    loops are started for one worker, and none but those for the configured numbers of
    outbound and inbound workers.  Once the context has ended, [Run] has returned, or a
    step can be taken, or [Run] waits for loops of which some are in a round that has
    not returned and all others have ended.  When it has returned, the context has ended,
    a loop was started for every one of those workers, and every loop is at its end. *)
Theorem run_returns_after_its_loops ctx_done w n m p :
  pool_run n m (start_pool ctx_done w) p →
  (n ≤ 2 * (Z.to_nat (rt_outboundCount r) + Z.to_nat (rt_inboundCount r)) + 3 + 2 * m)%nat ∧
  NoDup (map l_worker (p_loops p)) ∧
  (∀ kind i, (kind, i) ∈ map l_worker (p_loops p) →
     (kind = "outbound" ∧ 0 ≤ i < rt_outboundCount r) ∨ (kind = "inbound" ∧ 0 ≤ i < rt_inboundCount r)) ∧
  (p_ctx p = true →
     p_run p = Returned_nil ∨ (∃ p', pool_step p p') ∨
     (p_run p = AwaitingLoops ∧
      Forall (λ l, l_place l = LoopEnded ∨ l_place l = InRound) (p_loops p) ∧
      Exists (λ l, l_place l = InRound) (p_loops p))) ∧
  (p_run p = Returned_nil →
     p_ctx p = true ∧
     (∀ kind i, (kind, i) ∈ map l_worker (p_loops p) ↔
        (kind = "outbound" ∧ 0 ≤ i < rt_outboundCount r) ∨ (kind = "inbound" ∧ 0 ≤ i < rt_inboundCount r)) ∧
     Forall (λ l, l_place l = LoopEnded) (p_loops p)).
Proof.
  intros Hrun. pose proof (pool_run_ok _ _ _ _ (start_pool_ok ctx_done w) Hrun) as Hok.
  pose proof (po_workers _ Hok) as Hk. split_and!.
  - apply run_left_bound in Hrun. unfold left_over in Hrun. simpl in Hrun. rewrite length_workers in Hrun. lia.
  - pose proof NoDup_workers as Hnd. rewrite <-Hk in Hnd. by apply NoDup_app in Hnd as [? _].
  - intros kind i Hin. apply elem_of_workers. rewrite <-Hk. apply elem_of_app. by left.
  - by apply pool_progress.
  - intros Hret. destruct Hok as [Hw _ Hc Hr]. unfold pending in Hk. rewrite Hret, app_nil_r in Hk.
    split_and!; [auto|intros kind i; rewrite Hk; apply elem_of_workers|]. apply all_ended. specialize (Hr Hret). lia.
Qed.
End pool.
