(* ===== verification/PgExamples.v ===== *)
(** Concrete runs of the outbox, the findings they show, and the witnesses of the
    properties of PgProps.v and PgOutboxProps.v. *)

From S2P Require Import Prelude GoString Codec GoTime Errors Headers Message Retry Outcome.
From S2P Require Import PgText PgTextFacts PgSchema PgModel PgOutbound PgInbound PgCleanup PgSpec.
From S2P Require Import PgRefine PgProps PgOutbox PgOutboxProps PgLease.

(** * A run where nothing fails *)

(** Microsecond timestamps; call [n] reads the clock at [ex_start] plus [n] seconds
    and entropy that ends in byte [n]. *)
Definition ex_start : time := Unix 1704067200.

Definition ex_env : env :=
  {| en_fault := λ _, NoFault; en_error := λ _, PlainError "connection reset";
     en_others := λ _ db, db;
     en_delivery_locked := λ _ _, false; en_delivery_rank := λ _ _, 0;
     en_message_locked := λ _ _, false; en_message_rank := λ _ _, 0;
     en_receipt_locked := λ _ _, false; en_receipt_rank := λ _ _, 0;
     en_clock := λ n, ex_start + Z.of_nat n * Second;
     en_entropy := λ n, Ok ("0123456789abcde" +:+ String (chr (Z.of_nat n)) ε);
     en_ids := λ _, Ok "msg_generated"; en_jitter := λ _, None;
     en_timestamptz := λ t, t / Microsecond * Microsecond |}.

Definition ex_store : Store :=
  match NewStoreWithConfig true
    {| sc_Schema := "hookbound"; sc_Clock := true; sc_IDGenerator := true;
       sc_MaxResponseBodyBytes := 0; sc_SensitiveHeaders := []; sc_PersistErrorDetails := false |} with
  | Ok s => s
  | Err _ => {| st_relations := relationsForSchema ε; st_clock := true; st_ids := true;
                st_maxResponseBodyBytes := 0; st_sensitiveHeaderNames := [];
                st_persistErrorDetails := false |}
  end.

Definition ex_request (headers : Header) : SendRequest :=
  {| sr_ID := ε; sr_URL := "https://example.com/hook"; sr_EventType := "order.paid";
     sr_Body := "{}"; sr_ContentType := ε; sr_Headers := headers; sr_Auth := None |}.

Definition plain_request : SendRequest := ex_request {["X-Tenant" := ["acme"]]}.

#[local] Existing Instance map_order.

(** The result and the committed tables of an operation from call [n] on. *)
Definition run_at {A} (m : M A) (n : nat) (db : DB) : go A * DB :=
  let '(r, w) := m ex_env {| w_db := db; w_tx := None; w_tick := n |} in (r, w_db w).

Definition result_or {A} (default : A) (r : go A) : A :=
  match r with Ok a => a | Err _ => default end.

(** The delivery published by [plain_request] under key "k1". *)
Definition ex_published : DB := (run_at (EnqueueWithOptions ex_store plain_request "k1") 0 empty_db).2.
Definition ex_publication : Publication :=
  result_or {| pub_MessageID := ε; pub_DeliveryID := ε |}
    (run_at (EnqueueWithOptions ex_store plain_request "k1") 0 empty_db).1.

(** It is claimed for thirty seconds. *)
Definition ex_claim_run : go (option ClaimedDelivery) * DB :=
  run_at (ClaimDelivery ex_store (30 * Second)) 50 ex_published.
Definition ex_claimed_db : DB := ex_claim_run.2.
Definition ex_claim : ClaimedDelivery :=
  match ex_claim_run.1 with
  | Ok (Some c) => c
  | _ => {| cd_DeliveryID := ε; cd_AttemptID := ε; cd_Attempt := 0; cd_MessageID := ε;
            cd_Destination := ε; cd_EventType := ε; cd_Body := ε; cd_ContentType := ε;
            cd_Headers := ∅; cd_StartedAt := 0 |}
  end.

(** The lease runs out and the delivery is claimed again. *)
Definition ex_reclaimed_db : DB := (run_at (ClaimDelivery ex_store (30 * Second)) 90 ex_claimed_db).2.

(** The result of an attempt the destination accepted. *)
Definition ex_accepted : AttemptResult :=
  {| ar_MessageID := "msg_generated"; ar_AttemptedAt := ex_start; ar_Outcome := OutcomeDelivered;
     ar_StatusCode := 204; ar_Duration := Second; ar_RetryAt := zero_time;
     ar_ResponseHeader := {["Set-Cookie" := ["s=1"]]}; ar_ResponseBody := ε; ar_ErrorCode := ε |}.

(** * Findings *)

(** The headers stored by publishing a request. *)
Definition stored_headers (request : SendRequest) : list Header :=
  map (λ p, d_headers (p.2))
    (map_to_list (deliveries (run_at (EnqueueWithOptions ex_store request ε) 0 empty_db).2)).

(** The credential check can be passed by: it looks the sensitive names up in
    their canonical spelling before the headers are made canonical, so that the
    same credential is refused under its canonical name and persisted, under that
    name, when the caller's map spells it in lower case. *)
Lemma credential_check_depends_on_spelling :
  check_enqueue ex_store (ex_request {["Authorization" := ["Bearer t0p"]]}) ε =
    Err (NewError CodeInvalidConfiguration
           "durable deliveries cannot persist authorization or cookie headers; configure a runtime authenticator"
           None) ∧
  stored_headers (ex_request {["authorization" := ["Bearer t0p"]]}) =
    [{["Authorization" := ["Bearer t0p"]]}].
Proof. split; vm_compute; reflexivity. Qed.

(** A header value that is not UTF-8. *)
Definition latin1_request : SendRequest := ex_request {["X-Name" := [String (chr 233) ε]]}.

(** Publishing the same request again can conflict with itself: a header value
    that is not valid UTF-8 is accepted, but the JSON column holds it with U+FFFD,
    so that an identical request under the same key is refused as different. *)
Lemma republication_conflicts_on_invalid_utf8 :
  ∃ p db, run_at (EnqueueWithOptions ex_store latin1_request "k1") 0 empty_db = (Ok p, db) ∧
    err_code (run_at (EnqueueWithOptions ex_store latin1_request "k1") 50 db).1 = CodeConflict.
Proof. do 2 eexists. split; [vm_compute; reflexivity|]. vm_compute. reflexivity. Qed.

(** * The example's tables *)

Lemma ex_quiet : quiet ex_env.
Proof. done. Qed.

Lemma ex_calm : calm ex_env.
Proof. done. Qed.

Lemma run_at_wf {A} (m : M A) n db : op_ok (λ _, True) ex_env m → db_wf db → db_wf (run_at m n db).2.
Proof.
  intros Hm Hwf. pose proof (op_keeps_wf _ ex_env m n db Hm (λ _ _ H, H) Hwf) as H.
  unfold run_at. unfold after in H. by destruct (m ex_env _).
Qed.

Lemma ex_published_wf : db_wf ex_published.
Proof. apply run_at_wf; [by apply EnqueueWithOptions_ok|apply empty_db_wf]. Qed.

Lemma ex_claimed_wf : db_wf ex_claimed_db.
Proof. apply (run_at_wf (ClaimDelivery _ _)); [by apply ClaimDelivery_ok|apply ex_published_wf]. Qed.

Lemma ex_was_published : published ex_store plain_request "k1" empty_db ex_published ex_publication.
Proof.
  pose proof (EnqueueWithOptions_spec ex_env ex_store plain_request "k1" empty_db ex_quiet empty_db_wf 0%nat) as H.
  unfold ex_published, ex_publication, run_at.
  destruct (EnqueueWithOptions ex_store plain_request "k1" ex_env _) as [[p|er] w] eqn:E; [exact H|].
  exfalso. vm_compute in E. discriminate E.
Qed.

Definition ex_delivery : Delivery :=
  default (new_delivery ε ε ∅ None 0) (deliveries ex_published !! pub_DeliveryID ex_publication).

(** The example's delivery, claimed by another worker. *)
Definition ex_claimed_elsewhere : DB :=
  claim_tables (ex_start + Minute) (ex_start + 2 * Minute) (pub_DeliveryID ex_publication) ex_delivery
    "att_other" ex_published.

Lemma ex_lifetime : lifetime (pub_DeliveryID ex_publication) ex_published ex_claimed_elsewhere.
Proof.
  apply rtc_once. split.
  - eapply allowed; [done|]. apply (step_claim ex_published _ ex_delivery "att_other" (ex_start + Minute)); by vm_compute.
  - unfold ex_claimed_elsewhere. simpl. rewrite lookup_insert_eq. by eexists.
Qed.

Definition ex_message : MessageRow :=
  {| mr_event_type := "order.paid"; mr_body := "{}"; mr_content_type := "application/json";
     mr_created_at := ex_start + 4 * Second |}.

(** * Witnesses *)

(** The instance is named first, so that the goal is compared with its statement as
    it is and not evaluated. *)
Ltac instance thm := let H := fresh "H" in pose proof thm as H; exact H.


Lemma operations_keep_tables_wf_witness :
  db_wf (after ex_env (run ex_store (OpEnqueue plain_request "k1")) 0 empty_db).1.
Proof. instance (operations_keep_tables_wf ex_env ex_store (OpEnqueue plain_request "k1") 0 empty_db (λ _ _ H, H) empty_db_wf). Defined.

(** The delivery is claimed, and its attempt is completed. *)
Definition ex_ended_db : DB :=
  (after ex_env (run ex_store (OpCompleteDelivery (Some ex_claim) ex_accepted None (StandardRetryPolicy None))) 60
     ex_claimed_db).1.

Lemma ex_session_on e s op n db :
  (∀ k x, en_others e k x = x) →
  bool_decide (is_Some (deliveries db !! pub_DeliveryID ex_publication)) =
    bool_decide (is_Some (deliveries (after e (run s op) n db).1 !! pub_DeliveryID ex_publication)) →
  session_on (pub_DeliveryID ex_publication) db (after e (run s op) n db).1.
Proof.
  intros Ho Hp. constructor; [intros k x; rewrite Ho; apply rtc_refl|].
  unfold same_presence. do 2 case_bool_decide; naive_solver.
Qed.

Lemma ex_sessions : rtc (session_on (pub_DeliveryID ex_publication)) ex_published ex_ended_db.
Proof.
  transitivity ex_claimed_db.
  - apply rtc_once. exact (ex_session_on ex_env ex_store (OpClaimDelivery (30 * Second)) 50 ex_published
      (λ _ _, eq_refl) ltac:(vm_compute; reflexivity)).
  - apply rtc_once. apply ex_session_on; [done|vm_compute; reflexivity].
Qed.

Lemma publication_is_immutable_witness :
  ∃ d', deliveries ex_ended_db !! pub_DeliveryID ex_publication = Some d' ∧
    messages ex_ended_db !! d_message_id d' = Some ex_message ∧
    d_message_id d' = d_message_id ex_delivery ∧ d_destination_url d' = d_destination_url ex_delivery ∧
    d_headers d' = d_headers ex_delivery ∧ d_key d' = d_key ex_delivery ∧
    d_created_at d' = d_created_at ex_delivery ∧ d_attempt_count ex_delivery ≤ d_attempt_count d' ∧
    (d_state ex_delivery ∈ [DeliveryDelivered; DeliveryPermanentFailure; DeliveryDisabled; DeliveryExhausted] →
     d' = ex_delivery).
Proof.
  apply (publication_is_immutable (pub_DeliveryID ex_publication) ex_published ex_ended_db);
    [exact ex_published_wf|by vm_compute|by vm_compute|exact ex_sessions].
Defined.

Lemma delivery_has_one_owner_witness :
  cd_AttemptID ex_claim = cd_AttemptID ex_claim ∧ cd_Attempt ex_claim = cd_Attempt ex_claim.
Proof.
  apply (delivery_has_one_owner ex_claimed_db ex_claim ex_claim);
    [exact ex_claimed_wf|by vm_compute|by vm_compute|reflexivity].
Defined.

Lemma claim_takes_first_due_delivery_witness :
  match ClaimDelivery ex_store (30 * Second) ex_env {| w_db := ex_published; w_tx := None; w_tick := 50 |} with
  | (Ok (Some c), w) => claimed_from ex_env (30 * Second) ex_published (w_db w) c ∧ owns_delivery c (w_db w) = true
  | (Ok None, w) => w_db w = ex_published ∧
      ∃ k j, ∀ id d, ¬ claimable ex_env k (en_timestamptz ex_env (en_clock ex_env j)) ex_published id d
  | (Err _, w) => w_db w = ex_published ∨ ∃ c, claimed_from ex_env (30 * Second) ex_published (w_db w) c
  end.
Proof. instance (claim_takes_first_due_delivery ex_env ex_store (30 * Second) ex_published 50 ex_quiet
    ex_published_wf). Defined.

Lemma stale_worker_changes_nothing_witness :
  let w := {| w_db := ex_reclaimed_db; w_tx := None; w_tick := 200 |} in
  (let '(r, w') := RenewDeliveryLease ex_store (Some ex_claim) Minute ex_env w in
   (∃ er, r = Err er) ∧ w_db w' = ex_reclaimed_db) ∧
  (let '(r, w') := CompleteDelivery ex_store (Some ex_claim) ex_accepted None (StandardRetryPolicy None) ex_env w in
   (∃ er, r = Err er) ∧ w_db w' = ex_reclaimed_db).
Proof.
  assert (owns_delivery ex_claim ex_reclaimed_db = false) as Ho by (vm_compute; reflexivity).
  instance (stale_worker_changes_nothing ex_env ex_store ex_claim Minute ex_accepted None
    (StandardRetryPolicy None) ex_reclaimed_db 200 ex_quiet Ho).
Defined.

Lemma owner_completes_delivery_witness :
  let '(r, w) := CompleteDelivery ex_store (Some ex_claim) ex_accepted None (StandardRetryPolicy None) ex_env
                   {| w_db := ex_claimed_db; w_tx := None; w_tick := 60 |} in
  r = Ok tt ∧
  completed ex_env ex_store ex_claim ex_accepted None (StandardRetryPolicy None) ex_claimed_db (w_db w) ∧
  on_record ex_store ex_claim ex_accepted (w_db w).
Proof.
  assert (owns_delivery ex_claim ex_claimed_db = true) as Ho by (vm_compute; reflexivity).
  assert (representable ex_store ex_accepted None = true) as Hr by (vm_compute; reflexivity).
  instance (owner_completes_delivery ex_env ex_store ex_claim ex_accepted None (StandardRetryPolicy None)
    ex_claimed_db 60 ex_calm Ho Hr).
Defined.

Lemma publication_is_atomic_witness :
  match EnqueueWithOptions ex_store plain_request "k1" ex_env {| w_db := empty_db; w_tx := None; w_tick := 0 |} with
  | (Ok p, w) => published ex_store plain_request "k1" empty_db (w_db w) p
  | (Err _, w) => w_db w = empty_db ∨ ∃ p, published ex_store plain_request "k1" empty_db (w_db w) p
  end.
Proof. instance (publication_is_atomic ex_env ex_store plain_request "k1" empty_db 0 ex_quiet empty_db_wf). Defined.

Definition ex_key_hash : string := sha256 (key_prefix +:+ "k1").

Lemma plain_request_checked : check_enqueue ex_store plain_request "k1" = Ok (Some ex_key_hash).
Proof. vm_compute. reflexivity. Qed.

Lemma plain_request_utf8 name v :
  sr_Headers plain_request !! name = Some v → Forall (λ x, valid_utf8 x = true) v.
Proof. unfold plain_request, ex_request; simpl sr_Headers. intros [<- <-]%lookup_singleton_Some. repeat constructor. Qed.

Lemma republication_returns_original_witness :
  let '(r, w) := EnqueueWithOptions ex_store plain_request "k1" ex_env
                   {| w_db := ex_claimed_elsewhere; w_tx := None; w_tick := 70 |} in
  r = Ok ex_publication ∧ w_db w = ex_claimed_elsewhere.
Proof. instance (republication_returns_original ex_env ex_store plain_request "k1" ex_key_hash empty_db
    ex_published ex_claimed_elsewhere ex_publication 70 ex_calm ex_published_wf
    plain_request_checked plain_request_utf8 ex_was_published ex_lifetime). Defined.

Definition other_request : SendRequest := ex_request {["X-Tenant" := ["other"]]}.


Lemma returned_publication_is_stored_witness :
  match EnqueueWithOptions ex_store plain_request "k1" ex_env {| w_db := empty_db; w_tx := None; w_tick := 0 |} with
  | (Ok p, w) => stored_as plain_request (Some ex_key_hash) (w_db w) p
  | (Err _, _) => True
  end.
Proof. instance (returned_publication_is_stored ex_env ex_store plain_request "k1" (Some ex_key_hash) empty_db 0
    (λ _ _ _ _ H, H) plain_request_checked plain_request_utf8). Defined.

(** ** Another worker publishes a request and looks for work before the lease ends *)

Definition ex_other_env : env :=
  {| en_fault := λ _, NoFault; en_error := λ _, PlainError "connection reset";
     en_others := λ _ db, db;
     en_delivery_locked := λ _ _, false; en_delivery_rank := λ _ _, 0;
     en_message_locked := λ _ _, false; en_message_rank := λ _ _, 0;
     en_receipt_locked := λ _ _, false; en_receipt_rank := λ _ _, 0;
     en_clock := λ _, ex_start + 60 * Second;
     en_entropy := λ n, Ok ("fedcba987654321" +:+ String (chr (Z.of_nat n)) ε);
     en_ids := λ _, Ok "msg_other"; en_jitter := λ _, None;
     en_timestamptz := λ t, t / Microsecond * Microsecond |}.

Definition ex_lease : time :=
  default 0 (deliveries ex_claimed_db !! cd_DeliveryID ex_claim ≫= d_lease_expires_at).

Definition ex_meanwhile (op : operation) (n : nat) (db : DB) : DB := (after ex_other_env (run ex_store op) n db).1.
Definition ex_after_others : DB :=
  ex_meanwhile (OpClaimDelivery Minute) 70
    (ex_meanwhile (OpEnqueue (ex_request ∅) "k2") 60 ex_claimed_db).

Lemma ex_others_keep_away op n db :
  match op with OpEnqueue _ _ | OpClaimDelivery _ => True | _ => False end →
  session_operation (foreign ex_claim ex_lease) db (ex_meanwhile op n db).
Proof.
  intros Hop. apply session_runs; [|done]. intros ev. destruct op; try done; simpl.
  - by intros [-> | ->].
  - intros [k ->]. by vm_compute.
Qed.

(** They published a second delivery, and claimed that one. *)
Example ex_others_worked :
  (size (deliveries ex_after_others), size (attempts ex_after_others)) = (2%nat, 2%nat).
Proof. vm_compute. reflexivity. Qed.

Lemma lease_is_exclusive_witness :
  holds_delivery ex_claim ex_lease ex_after_others ∧
  ∀ c', owns_delivery c' ex_after_others = true → cd_DeliveryID c' = cd_DeliveryID ex_claim →
        cd_AttemptID c' = cd_AttemptID ex_claim ∧ cd_Attempt c' = cd_Attempt ex_claim.
Proof.
  apply (lease_is_exclusive ex_claim ex_lease ex_claimed_db ex_after_others).
  - exact ex_claimed_wf.
  - split; [by vm_compute|]. eexists. split; by vm_compute.
  - eapply rtc_l; [by apply (ex_others_keep_away (OpEnqueue (ex_request ∅) "k2") 60)|].
    apply rtc_once. by apply (ex_others_keep_away (OpClaimDelivery Minute) 70).
Defined.
