(* ===== verification/PgRuntimeExamples.v ===== *)
(** A runtime of the example's store and sender: a heartbeat that loses its lease,
    an outbound round from the published tables to the receiver, a message received
    and handled, and a retention pass after a delivery. *)

From S2P Require Import Prelude GoString Codec GoTime Errors Transport Headers Message Retry Outcome Handler.
From S2P Require Import Auth Receiver Standard Sender.
From S2P Require Import PgText PgModel PgOutbound PgInbound PgSpec PgRefine PgProps PgOutbox PgOutboxProps.
From S2P Require Import PgInbox PgInboxProps PgCleanup PgCleanupProps PgRuntime PgRuntimeProps PgSettle PgHeartbeat PgPool PgExamples.

#[local] Existing Instance map_order.

(** * The runtime *)

Definition ex_runtime_config : @RuntimeConfig unit unit unit unit unit unit :=
  {| rc_Store := Some ex_store; rc_Sender := Some ex_sender; rc_InboundHandler := None;
     rc_RetryPolicy := {| rp_Schedule := []; rp_MaxAttempts := 0; rp_Jitter := None |};
     rc_LeaseDuration := 0; rc_LeaseRenewalInterval := 0; rc_LeaseRenewalTimeout := 0;
     rc_PollInterval := 0; rc_CompletionTimeout := 0; rc_OutboundWorkers := 0; rc_InboundWorkers := 0 |}.

Definition ex_runtime : @Runtime unit unit unit unit unit unit :=
  {| rt_store := ex_store; rt_sender := Some ex_sender; rt_inbound := None;
     rt_retry := StandardRetryPolicy None; rt_lease := Minute; rt_renewal := 20 * Second;
     rt_renewalTimeout := 5 * Second; rt_poll := 250 * Millisecond; rt_completion := 10 * Second;
     rt_outboundCount := 4; rt_inboundCount := 0 |}.

Example ex_runtime_made : NewRuntime None ex_runtime_config = Ok ex_runtime.
Proof. reflexivity. Qed.

(** Four loops, and a lease that cannot be renewed in time is refused. *)
Example ex_workers : workers ex_runtime = map (λ i, ("outbound", i)) [0; 1; 2; 3].
Proof. reflexivity. Qed.

Example ex_renewal_too_late :
  is_ok (lease_durations
    {| rc_Store := Some ex_store; rc_Sender := Some ex_sender; rc_InboundHandler := @None (Handler unit);
       rc_RetryPolicy := StandardRetryPolicy None;
       rc_LeaseDuration := 10 * Second; rc_LeaseRenewalInterval := 6 * Second;
       rc_LeaseRenewalTimeout := 4 * Second;
       rc_PollInterval := 0; rc_CompletionTimeout := 0; rc_OutboundWorkers := 0; rc_InboundWorkers := 0 |})
  = false.
Proof. reflexivity. Qed.

Definition ex_send_env : send_env unit unit := {| se_environment := ex_environment; se_panic := None |}.

(** A round on the published tables, with one renewal. *)
Definition ex_round :=
  WorkOutboundOnce (sender_send (λ _, Ok []) ex_url ex_send_env) (Some ex_runtime)
    {| hb_ticks := 1; hb_cancelled := false |} ex_env {| w_db := ex_published; w_tx := None; w_tick := 50 |}.

(** It sends the published request and delivers it. *)
Example ex_round_delivers :
  match ex_round with
  | (Ok ([req], (true, None)), w) =>
      hr_URL req = "https://example.com/hook" ∧ hr_Body req = "{}" ∧
      d_state <$> deliveries (w_db w) !! pub_DeliveryID ex_publication = Some DeliveryDelivered
  | _ => False
  end.
Proof. vm_compute. split_and!; reflexivity. Qed.

(** * A heartbeat that loses its lease *)

(** The delivery is no longer in the tables. *)
Definition ex_renew : M unit := RenewDeliveryLease ex_store (Some ex_claim) Minute.
Definition ex_world : world := {| w_db := empty_db; w_tx := None; w_tick := 0 |}.
Definition ex_renewed := ex_renew ex_env ex_world.
Definition ex_renewal_error : error :=
  match ex_renewed.1 with Ok _ => no_rows | Err err => err end.

(** The timer fires, the renewal fails while the worker calls [Stop], and [Stop]
    returns its error. *)
Definition ex_stopped : heartbeat :=
  {| h_goroutine := Finished; h_worker := Stopped (Some (renewal_failed ex_renewal_error)); h_stop := true;
     h_done := true; h_ctx_done := true; h_timer := Drained;
     h_err := Some (renewal_failed ex_renewal_error); h_world := ex_renewed.2 |}.

Lemma ex_heartbeat_runs :
  run_of ex_env ex_renew 8 2 (startLeaseHeartbeat false ex_world) ex_stopped.
Proof.
  eapply run_of_outer; [by apply outer_timer|].
  eapply run_of_run; [by apply run_timer|].
  eapply run_of_run.
  { eapply (run_failed _ _ _ ex_renewed.1 ex_renewed.2 ex_renewal_error); [done|..]; by vm_compute. }
  eapply run_of_outer; [by apply outer_stop|].
  eapply run_of_run; [by eapply run_failed_live|].
  eapply run_of_run; [by apply run_cancel|].
  eapply run_of_stop; [by apply stop_close|].
  eapply run_of_run; [by apply run_close|].
  eapply run_of_stop; [by apply stop_cancel|].
  eapply run_of_stop; [by apply stop_join|].
  apply run_of_nil.
Qed.

Lemma heartbeat_refines_renewals_witness :
  (∃ b : heartbeat_env, renewals ex_renew (hb_cancelled b) (hb_ticks b) ex_env ex_world =
     (Ok (Some (renewal_failed ex_renewal_error)), h_world ex_stopped)) ∧
  ∀ h', rtc (step ex_env ex_renew) ex_stopped h' →
    h_world h' = h_world ex_stopped ∧ h_err h' = Some (renewal_failed ex_renewal_error).
Proof.
  instance (heartbeat_refines_renewals ex_env ex_renew false ex_world ex_stopped _
    (run_of_steps _ _ _ _ _ _ ex_heartbeat_runs) eq_refl).
Defined.

Lemma heartbeat_stops_witness :
  (8 ≤ 2 + 3 * 2)%nat ∧
  (h_worker ex_stopped = Working ∨ (∃ err, h_worker ex_stopped = Stopped err) ∨
   ∃ h', run_step ex_env ex_renew ex_stopped h' ∨ stop_step ex_stopped h') ∧
  (h_goroutine ex_stopped = Finished → h_ctx_done ex_stopped = true ∨ h_stop ex_stopped = true).
Proof. instance (heartbeat_stops ex_env ex_renew false ex_world 8 2 ex_stopped ex_heartbeat_runs). Defined.

(** * The round, from its properties *)

Lemma outbound_round_attempts_once_witness :
  match ex_round with
  | (Ok (calls, (true, err)), w) => ∃ s c,
      rt_sender ex_runtime = Some s ∧
      round_of ex_env (sender_send (λ _, Ok []) ex_url ex_send_env) ex_runtime s ex_published c calls err (w_db w) ∧
      (calls = [] ∨ ∃ req, calls = [req] ∧
         (∃ built, hr_Method built = "POST" ∧ hr_URL built = cd_Destination c ∧ hr_Body built = cd_Body c ∧
            applied (s_authenticator s) built req) ∧
         (repository_auth (s_authenticator s) →
            hr_Method req = "POST" ∧ hr_URL req = cd_Destination c ∧ hr_Body req = cd_Body c))
  | (Ok (calls, (false, err)), w) => calls = [] ∧ (err = None → w_db w = ex_published) ∧
      (w_db w = ex_published ∨ ∃ c, claimed_from ex_env (rt_lease ex_runtime) ex_published (w_db w) c)
  | (Err _, _) => False
  end.
Proof.
  instance (outbound_round_attempts_once (λ _, Ok []) ex_url ex_send_env ex_env ex_runtime
    {| hb_ticks := 1; hb_cancelled := false |} ex_published 50 ex_quiet ex_published_wf eq_refl).
Defined.

Lemma ex_stored : stored_as plain_request (Some ex_key_hash) ex_published ex_publication.
Proof.
  exists ex_delivery, ex_message. split_and!; vm_compute; reflexivity.
Qed.

Lemma published_message_reaches_receiver_witness :
  match ex_round with
  | (Ok (calls, (_, err)), w) =>
      (calls ≠ [] → ∃ c, round_of ex_env (sender_send (λ _, Ok []) ex_url ex_send_env) ex_runtime ex_sender
                           ex_published c calls err (w_db w)) ∧
      ∀ c req, round_of ex_env (sender_send (λ _, Ok []) ex_url ex_send_env) ex_runtime ex_sender
                 ex_published c calls err (w_db w) →
        cd_DeliveryID c = pub_DeliveryID ex_publication → req ∈ calls →
        hr_Body req = sr_Body plain_request ∧
        (repository_auth (s_authenticator ex_sender) → hr_Method req = "POST" ∧ hr_URL req = sr_URL plain_request) ∧
        ∀ ty, match vc_ExtractType ex_verifier_config with
              | Some extract => extract (hr_Body req) (hr_Header req)
              | None => Ok "unknown"
              end = Ok ty →
          Verify (λ _ _ _, false) ex_verifier_config zero_time
            {| vi_Headers := hr_Header req; vi_Body := hr_Body req; vi_ReceivedAt := Unix 1700000100 |} =
            Ok {| v_ID := pub_MessageID ex_publication; v_Type := ty; v_Source := vc_Source ex_verifier_config;
                  v_Timestamp := Unix (UnixSeconds (s_clock ex_sender (se_environment ex_send_env))); v_Metadata := ∅ |}
  | (Err _, _) => False
  end.
Proof.
  assert (validateHMACKeys [ex_hmac_key] = Ok tt) as Hk by (vm_compute; reflexivity).
  assert (pub_MessageID ex_publication ≠ ε) as Hid by (vm_compute; discriminate).
  assert (0 ≤ vc_Tolerance ex_verifier_config < int64_max) as Htol
    by (split; [vm_compute; discriminate|vm_compute; reflexivity]).
  assert (Unix 1700000100 ≠ 0) as Hr by (vm_compute; discriminate).
  assert (Z.abs (Unix 1700000100 - Unix (UnixSeconds (s_clock ex_sender (se_environment ex_send_env)))) ≤ 5 * Minute)
    as Hf by (vm_compute; discriminate).
  assert (ex_hmac_key ∈ [ex_hmac_key]) as Hin by left.
  instance (published_message_reaches_receiver (λ _, Ok []) ex_url ex_send_env ex_env ex_runtime ex_sender
    {| hb_ticks := 1; hb_cancelled := false |} plain_request (Some ex_key_hash) ex_publication
    ex_published ex_published 50 [ex_hmac_key] (λ _ _ _, false) ex_verifier_config zero_time [ex_hmac_key]
    ex_hmac_key (Unix 1700000100) ex_quiet ex_published_wf eq_refl ex_stored (rtc_refl _ _) Hid eq_refl eq_refl
    (no_auth_keeps _) eq_refl Hk eq_refl Hin Hin Htol Hr Hf).
Defined.

(** * A retention pass *)

Definition ex_delivered_db : DB :=
  (run_at (CompleteDelivery ex_store (Some ex_claim) ex_accepted None (StandardRetryPolicy None)) 60
     ex_claimed_db).2.
Definition ex_policy : RetentionPolicy :=
  {| rp_DeliveredRetention := Second; rp_FailedDeliveryRetention := 0; rp_ReceiptRetention := Hour;
     rp_OrphanMessageRetention := Second; rp_BatchSize := 0 |}.

(** The delivered delivery goes, with its attempt and the message nobody else uses. *)
Example ex_cleaned :
  let '(r, db) := run_at (Cleanup (Some ex_store) ex_policy) 100 ex_delivered_db in
  r = Ok {| cl_DeliveredDeliveries := 1; cl_FailedDeliveries := 0; cl_Receipts := 0; cl_OrphanMessages := 1 |} ∧
  map_to_list (deliveries db) = [] ∧ map_to_list (attempts db) = [] ∧ map_to_list (messages db) = [].
Proof. vm_compute. split_and!; reflexivity. Qed.

Lemma ex_delivered_wf : db_wf ex_delivered_db.
Proof. apply (run_at_wf (CompleteDelivery _ _ _ _ _)); [by apply CompleteDelivery_ok|apply ex_claimed_wf]. Qed.

Lemma cleanup_removes_only_expired_witness :
  match Cleanup (Some ex_store) ex_policy ex_env {| w_db := ex_delivered_db; w_tx := None; w_tick := 100 |} with
  | (Ok res, w) => ∃ p, normalizeRetentionPolicy ex_policy = Ok p ∧ cleaned ex_env p ex_delivered_db (w_db w) res
  | (Err _, w) => w_db w = ex_delivered_db ∨ ∃ res p, normalizeRetentionPolicy ex_policy = Ok p ∧
      cleaned ex_env p ex_delivered_db (w_db w) res
  end.
Proof. instance (cleanup_removes_only_expired ex_env ex_store ex_policy ex_delivered_db 100 ex_quiet ex_delivered_wf). Defined.

(** * The inbox *)

(** The handler counts its messages. *)
Definition ex_inbound_runtime : @Runtime unit unit unit unit unit nat :=
  {| rt_store := ex_store; rt_sender := None; rt_inbound := Some (λ _ n, (Returned None, S n));
     rt_retry := StandardRetryPolicy None; rt_lease := Minute; rt_renewal := 20 * Second;
     rt_renewalTimeout := 5 * Second; rt_poll := 250 * Millisecond; rt_completion := 10 * Second;
     rt_outboundCount := 0; rt_inboundCount := 4 |}.

Definition ex_clock (w : world) : time * world := (ex_start, w).
Definition ex_inbound_verifier : Receiver.Verifier world := verify_in (λ _, ex_verifier) (λ _ w, w).
Definition ex_inbound_receiver : Receiver world :=
  {| r_verifier := ex_inbound_verifier; r_handler := store_handler ex_store ex_env; r_replayGuard := None;
     r_clock := ex_clock; r_maxBody := 1048576; r_replayTTL := 10 * Minute; r_successStatus := 204;
     r_respondError := defaultErrorResponder |}.

Lemma ex_inbound_receiver_made :
  runtime_receiver ex_inbound_runtime ex_env ex_clock (Some ex_inbound_verifier) = Ok ex_inbound_receiver.
Proof. reflexivity. Qed.

Definition ex_served := ServeHTTP ex_inbound_receiver Receiver.ex_request {| w_db := empty_db; w_tx := None; w_tick := 0 |}.
Definition ex_received_db : DB := w_db ex_served.2.

(** It is answered with 204, stored once however often it is sent, and handled by one
    round; the next finds nothing to do. *)
Definition ex_handled := WorkInboundOnce ex_inbound_runtime {| hb_ticks := 2; hb_cancelled := false |} 0%nat ex_env
  {| w_db := ex_received_db; w_tx := None; w_tick := 50 |}.

Example ex_inbound_flow :
  ex_served.1 = Responded (bare_status 204) ∧
  (ServeHTTP ex_inbound_receiver Receiver.ex_request {| w_db := ex_received_db; w_tx := None; w_tick := 20 |}).1 =
    Responded (bare_status 204) ∧
  length (map_to_list (receipts ex_received_db)) = 1%nat ∧
  match ex_handled with
  | (Ok ([m], 1%nat, (true, None)), w) =>
      vm_ID m = "msg_1" ∧ map (λ p, r_state p.2) (map_to_list (receipts (w_db w))) = [ReceiptProcessed] ∧
      match WorkInboundOnce ex_inbound_runtime {| hb_ticks := 0; hb_cancelled := false |} 1%nat ex_env
              {| w_db := w_db w; w_tx := None; w_tick := 90 |} with
      | (Ok ([], 1%nat, (false, None)), _) => True
      | _ => False
      end
  | _ => False
  end.
Proof. vm_compute. repeat split. Qed.

Lemma acknowledged_message_is_stored_witness :
  ∃ now w1 m w2 row, ex_clock {| w_db := empty_db; w_tx := None; w_tick := 0 |} = (now, w1) ∧
    delivers ex_inbound_receiver Receiver.ex_request now w1 m w2 ∧
    receipts ex_received_db !! receipt_key m = Some row ∧ receipt_holds m row ∧
    (ex_received_db = empty_db ∨ received ex_env ex_store m empty_db ex_received_db) ∧ w_tx ex_served.2 = None.
Proof.
  assert (ServeHTTP ex_inbound_receiver Receiver.ex_request {| w_db := empty_db; w_tx := None; w_tick := 0 |} =
    (Responded (bare_status 204), ex_served.2)) as Hs by (vm_compute; reflexivity).
  assert (success (bare_status 204)) as Hok by (split; vm_compute; discriminate).
  instance (acknowledged_message_is_stored ex_env ex_quiet ex_inbound_runtime ex_clock ex_inbound_verifier
    ex_inbound_receiver Receiver.ex_request empty_db 0 (bare_status 204) ex_served.2
    (λ _, conj eq_refl eq_refl) (λ _ _, conj eq_refl eq_refl)
    ex_inbound_receiver_made Hs Hok).
Defined.

Lemma inbound_round_handles_once_witness :
  match ex_handled with
  | (Ok (messages, a', (true, err)), w) => ∃ handler c,
      rt_inbound ex_inbound_runtime = Some handler ∧ messages = [cr_Message c] ∧
      inbound_round ex_env ex_inbound_runtime handler 0%nat ex_received_db c messages a' err (w_db w) ∧
      ∀ m row0 db0, receipts db0 !! cr_key c = Some row0 → receipt_holds m row0 →
        receipt_lifetime (cr_key c) db0 ex_received_db →
        vm_Type (cr_Message c) = vm_Type m ∧ vm_Body (cr_Message c) = vm_Body m ∧
        vm_ContentType (cr_Message c) = vm_ContentType m
  | (Ok (messages, a', (false, err)), w) => messages = [] ∧ a' = 0%nat ∧
      (err = None → w_db w = ex_received_db) ∧
      (w_db w = ex_received_db ∨ ∃ c, receipt_claimed ex_env Minute ex_received_db (w_db w) c)
  | (Err _, _) => False
  end.
Proof.
  instance (inbound_round_handles_once ex_env ex_quiet ex_inbound_runtime
    {| hb_ticks := 2; hb_cancelled := false |} 0%nat ex_received_db 50 eq_refl).
Defined.

(** * A destination that never answers *)

(** A policy of two attempts, and a sender that always gives up. *)
Definition ex_stubborn : @Runtime unit unit unit unit unit unit :=
  {| rt_store := ex_store; rt_sender := Some ex_sender; rt_inbound := None;
     rt_retry := {| rp_Schedule := [Second]; rp_MaxAttempts := 2; rp_Jitter := Some (λ _, 0) |};
     rt_lease := Minute; rt_renewal := 20 * Second;
     rt_renewalTimeout := 5 * Second; rt_poll := 250 * Millisecond; rt_completion := 10 * Second;
     rt_outboundCount := 4; rt_inboundCount := 0 |}.

Definition ex_unanswered : AttemptResult :=
  {| ar_MessageID := "msg_generated"; ar_AttemptedAt := ex_start; ar_Outcome := OutcomeRetry;
     ar_StatusCode := 0; ar_Duration := Second; ar_RetryAt := zero_time;
     ar_ResponseHeader := ∅; ar_ResponseBody := ε; ar_ErrorCode := CodeTransport |}.
Definition ex_give_up (_ : @Sender unit unit unit unit unit) (_ : SendRequest)
    : list HTTPRequest * send_outcome :=
  ([], SendReturned ex_unanswered (Some (NewError CodeTransport "no answer" None))).

(** Turn [n] is [n] minutes after the publication. *)
Definition ex_turn_env (n : Z) : env :=
  {| en_fault := λ _, NoFault; en_error := λ _, PlainError "connection reset";
     en_others := λ _ db, db;
     en_delivery_locked := λ _ _, false; en_delivery_rank := λ _ _, 0;
     en_message_locked := λ _ _, false; en_message_rank := λ _ _, 0;
     en_receipt_locked := λ _ _, false; en_receipt_rank := λ _ _, 0;
     en_clock := λ _, ex_start + n * Minute;
     en_entropy := λ _, Ok ("fedcba987654321" +:+ String (chr n) ε);
     en_ids := λ _, Ok "msg_other"; en_jitter := λ _, None;
     en_timestamptz := λ t, t / Microsecond * Microsecond |}.
Definition ex_beat : heartbeat_env := {| hb_ticks := 1; hb_cancelled := false |}.
Definition ex_turn (n : Z) (db : DB) : DB :=
  (after (ex_turn_env n) (WorkOutboundOnce ex_give_up (Some ex_stubborn) ex_beat) 0 db).1.

Definition ex_turn_1 : DB := ex_turn 1 ex_published.
Definition ex_turn_2 : DB := ex_turn 2 ex_turn_1.
Definition ex_state_in (db : DB) : option (DeliveryState * Z) :=
  (λ d, (d_state d, d_attempt_count d)) <$> deliveries db !! pub_DeliveryID ex_publication.

Example ex_turns_settle :
  (ex_state_in ex_published, ex_state_in ex_turn_1, ex_state_in ex_turn_2) =
  (Some (DeliveryPending, 0), Some (DeliveryRetry, 1), Some (DeliveryExhausted, 2)).
Proof. vm_compute. reflexivity. Qed.

(** A turn is good for the only delivery once it is due. *)
Lemma ex_turn_good n db d aid :
  deliveries db = {[ pub_DeliveryID ex_publication := d ]} →
  delivery_due (en_timestamptz (ex_turn_env n) (ex_start + n * Minute)) d = true →
  d_attempt_count d < int4_max →
  (ex_start + n * Minute) / Microsecond * Microsecond <
    Add (ex_start + n * Minute) Minute / Microsecond * Microsecond →
  randomOpaqueID "att_" (en_entropy (ex_turn_env n) 0) = Ok aid → attempts db !! aid = None →
  good_turn (ex_turn_env n) ex_give_up ex_stubborn ex_sender (pub_DeliveryID ex_publication) db.
Proof.
  intros Hdb Hdue Hmax Hadd Haid Hnew. constructor.
  - intros i k. simpl. split; [done|].
    change (durationMicrosecondsCeil Minute * Microsecond) with Minute. unfold Minute, Second. lia.
  - intros i. by exists aid.
  - exists d. split; [|done]. intros i k. split.
    + split_and!; [by rewrite Hdb, lookup_singleton_eq|done|done].
    + intros id' d' (Hd' & _) Hne. rewrite Hdb in Hd'. by apply lookup_singleton_Some in Hd' as [<- _].
  - intros c _. by vm_compute.
Qed.

Definition ex_row (db : DB) : Delivery :=
  default ex_delivery (deliveries db !! pub_DeliveryID ex_publication).
Definition ex_attempt_id (n : Z) : string :=
  result_or ε (randomOpaqueID "att_" (en_entropy (ex_turn_env n) 0)).

Lemma ex_turn_1_good :
  good_turn (ex_turn_env 1) ex_give_up ex_stubborn ex_sender (pub_DeliveryID ex_publication) ex_published.
Proof. apply (ex_turn_good 1 ex_published (ex_row ex_published) (ex_attempt_id 1)); vm_compute; reflexivity. Qed.

Lemma ex_turn_2_good :
  good_turn (ex_turn_env 2) ex_give_up ex_stubborn ex_sender (pub_DeliveryID ex_publication) ex_turn_1.
Proof. apply (ex_turn_good 2 ex_turn_1 (ex_row ex_turn_1) (ex_attempt_id 2)); vm_compute; reflexivity. Qed.

Lemma delivery_settles_witness :
  ∃ d', deliveries ex_turn_2 !! pub_DeliveryID ex_publication = Some d' ∧ delivery_terminal (d_state d') = true.
Proof.
  assert (working ex_give_up ex_stubborn ex_sender (pub_DeliveryID ex_publication) 2 ex_published ex_turn_2) as Hw.
  { apply (working_turn _ _ _ _ 1 _ ex_turn_1 (ex_turn_env 2) ex_beat 0); [|done|by intros; apply ex_turn_2_good].
    apply (working_turn _ _ _ _ 0 _ ex_published (ex_turn_env 1) ex_beat 0);
      [apply working_start|done|by intros; apply ex_turn_1_good]. }
  apply (delivery_settles ex_give_up ex_stubborn ex_sender (pub_DeliveryID ex_publication) 2 ex_published ex_turn_2
    ex_delivery); [done|done|exact ex_published_wf|by vm_compute|exact Hw|vm_compute; discriminate].
Defined.

(** * A runtime that is shut down *)

(** One worker, whose first round panics; then the context ends. *)
Definition ex_single : @Runtime unit unit unit unit unit unit :=
  {| rt_store := ex_store; rt_sender := Some ex_sender; rt_inbound := None;
     rt_retry := StandardRetryPolicy None; rt_lease := Minute; rt_renewal := 20 * Second;
     rt_renewalTimeout := 5 * Second; rt_poll := 250 * Millisecond; rt_completion := 10 * Second;
     rt_outboundCount := 1; rt_inboundCount := 0 |}.
Definition ex_boom : work_outcome := WorkPanicked "boom".
Definition ex_worker : string * Z := ("outbound", 0).

Definition ex_pool_0 : pool bool := start_pool ex_single false true.
Definition ex_pool_1 : pool bool := set_run AwaitingContext (start_loop ex_worker [] ex_pool_0).
Definition ex_loop_1 : loop := fired (new_loop ex_worker).
Definition ex_pool_2 : pool bool := set_loop 0 (at_place ex_loop_1 InRound) (set_loop 0 ex_loop_1 ex_pool_1).
Definition ex_loop_2 : loop := after_round ex_single (at_place ex_loop_1 InRound) ex_boom.
Definition ex_pool_3 : pool bool := end_context (set_pool_world false (set_loop 0 ex_loop_2 ex_pool_2)).
Definition ex_pool_4 : pool bool :=
  set_run AwaitingLoops (loop_done (set_loop 0 (at_place ex_loop_2 LoopEnded) ex_pool_3)).
Definition ex_pool_5 : pool bool := set_run Returned_nil ex_pool_4.

(** The first round panics; a second one would be blocked for good. *)
Definition ex_work (_ : string * Z) (w : bool) (o : work_outcome) (w' : bool) : Prop :=
  w = true ∧ o = ex_boom ∧ w' = false.

Lemma ex_pool_runs : pool_run ex_single ex_work 7 2 ex_pool_0 ex_pool_5.
Proof.
  eapply pool_run_step; [|by apply pool_join].
  eapply pool_run_step; [|by apply pool_ctx].
  eapply pool_run_step; [|by apply (pool_stop _ _ _ 0 ex_loop_2)].
  eapply pool_run_outer; [|apply outer_context].
  eapply pool_run_step; [|by apply (pool_round _ _ _ 0 (at_place ex_loop_1 InRound) ex_boom)].
  eapply pool_run_step; [|by apply (pool_timer _ _ _ 0 ex_loop_1)].
  eapply pool_run_outer; [|by apply (outer_fires _ 0 (new_loop ex_worker))].
  eapply pool_run_step; [|by apply pool_started].
  eapply pool_run_step; [|by apply pool_start].
  apply pool_run_nil.
Qed.

(** The panic only made the loop wait for a poll interval. *)
Example ex_panic_waits : l_delay ex_loop_2 = 250 * Millisecond.
Proof. reflexivity. Qed.

Lemma run_returns_after_its_loops_witness :
  (7 ≤ 2 * (Z.to_nat 1 + Z.to_nat 0) + 3 + 2 * 2)%nat ∧
  NoDup (map l_worker (p_loops ex_pool_5)) ∧
  (∀ kind i, (kind, i) ∈ map l_worker (p_loops ex_pool_5) →
     (kind = "outbound" ∧ 0 ≤ i < 1) ∨ (kind = "inbound" ∧ 0 ≤ i < 0)) ∧
  (p_ctx ex_pool_5 = true →
     p_run ex_pool_5 = Returned_nil ∨ (∃ p', pool_step ex_single ex_work ex_pool_5 p') ∨
     (p_run ex_pool_5 = AwaitingLoops ∧
      Forall (λ l, l_place l = LoopEnded ∨ l_place l = InRound) (p_loops ex_pool_5) ∧
      Exists (λ l, l_place l = InRound) (p_loops ex_pool_5))) ∧
  (p_run ex_pool_5 = Returned_nil →
     p_ctx ex_pool_5 = true ∧
     (∀ kind i, (kind, i) ∈ map l_worker (p_loops ex_pool_5) ↔
        (kind = "outbound" ∧ 0 ≤ i < 1) ∨ (kind = "inbound" ∧ 0 ≤ i < 0)) ∧
     Forall (λ l, l_place l = LoopEnded) (p_loops ex_pool_5)).
Proof. instance (run_returns_after_its_loops ex_single ex_work false true 7 2 ex_pool_5 ex_pool_runs). Defined.
